(** * Mini POSIX Shell: a shallow embedding of shell.c / shell.h

    The development follows the source files:
    - the globals of shell.h and the tokenizer [create_args] of shell.c,
      over an explicit model of [cmd_buf] and of the blocks [create_args]
      allocates;
    - the job list of shell.h ([jobs_insert], [jobs_find_remove],
      [jobs_print]);
    - [change_cwd], [print_status], the parent branch of [execute_file], the
      SIGCHLD branch of [sig_handler] and one iteration of [input_start];
    - the monitor ([exec_args], [mtx], [cond]) as a step relation over the
      input thread and the exec thread. *)

From Stdlib Require Import ZArith String Ascii Bool Lia List.
From Stdlib Require Import DecimalString DecimalZ.
Import ListNotations.
Open Scope Z_scope.

(** ** Constants of shell.h *)

Definition MAXLEN : Z := 513.
Definition MAXARG : Z := 256.

(** ** Characters *)

Definition NUL : ascii := "000"%char.
Definition TAB : ascii := "009"%char.
Definition LF : ascii := "010"%char.

Definition is_nul (c : ascii) : bool := Ascii.eqb c NUL.

(** [is_space] of shell.c: blank and tab only. *)
Definition is_space (c : ascii) : bool :=
  Ascii.eqb c " "%char || Ascii.eqb c TAB.

Definition bytes (s : string) : list ascii := list_ascii_of_string s.

(** The C string stored in an array of bytes: what precedes the first NUL. *)
Fixpoint c_string (l : list ascii) : string :=
  match l with
  | [] => EmptyString
  | c :: l' => if is_nul c then EmptyString else String c (c_string l')
  end.

(** [l[n] = c]; outside of [l] nothing is written (callers check the bound). *)
Fixpoint upd {A : Type} (l : list A) (n : nat) (c : A) : list A :=
  match l, n with
  | [], _ => []
  | _ :: l', O => c :: l'
  | x :: l', S n' => x :: upd l' n' c
  end.

(** ** Memory around the line buffer

    [create_args] walks [cmd_buf] with two pointers and moves them backwards
    as well as forwards, so a pointer is an offset (a [Z]) from the start of
    [cmd_buf], and the bytes that lie below the buffer in the frame of
    [input_start] are part of the memory: [below] lists them from offset -1
    downwards.  An access outside both regions has no defined result. *)

Record memory : Type := {
  below : list ascii;
  cmd_buf : list ascii
}.

Definition load (m : memory) (p : Z) : option ascii :=
  if p <? 0 then nth_error (below m) (Z.to_nat (- p - 1))
  else nth_error (cmd_buf m) (Z.to_nat p).

Definition store (m : memory) (p : Z) (c : ascii) : option memory :=
  if p <? 0 then
    if (Z.to_nat (- p - 1) <? length (below m))%nat
    then Some {| below := upd (below m) (Z.to_nat (- p - 1)) c;
                 cmd_buf := cmd_buf m |}
    else None
  else
    if (Z.to_nat p <? length (cmd_buf m))%nat
    then Some {| below := below m;
                 cmd_buf := upd (cmd_buf m) (Z.to_nat p) c |}
    else None.

Fixpoint load_range (m : memory) (p : Z) (n : nat) : option (list ascii) :=
  match n with
  | O => Some []
  | S n' =>
      match load m p, load_range m (p + 1) n' with
      | Some c, Some l => Some (c :: l)
      | _, _ => None
      end
  end.

Definition mem_size (m : memory) : nat :=
  (length (cmd_buf m) + length (below m))%nat.

(** ** Globals of shell.h used by the tokenizer *)

(** A block obtained by [calloc(MAXARG, sizeof(char))]. *)
Definition block : Type := list ascii.

Definition zero_block : block := repeat NUL (Z.to_nat MAXARG).

(** The pointer [args]: NULL, an array of pointers to blocks (NULL entries are
    [None]), or a pointer whose array [clear_args] has freed. *)
Inductive args_ptr : Type :=
| ArgsNull
| ArgsLive (a : list (option block))
| ArgsFreed.

Record state : Type := {
  mem : memory;
  argsc : Z;
  args : args_ptr;
  redir_t : list ascii;
  redir_f : list ascii;
  run_bg : Z;
  heap : nat;       (* how many further allocations succeed *)
  stderr : string   (* what has been written to stderr *)
}.

Definition with_mem (s : state) (m : memory) : state :=
  {| mem := m; argsc := argsc s; args := args s; redir_t := redir_t s;
     redir_f := redir_f s; run_bg := run_bg s; heap := heap s;
     stderr := stderr s |}.

Definition with_argsc (s : state) (n : Z) : state :=
  {| mem := mem s; argsc := n; args := args s; redir_t := redir_t s;
     redir_f := redir_f s; run_bg := run_bg s; heap := heap s;
     stderr := stderr s |}.

Definition with_args (s : state) (a : args_ptr) : state :=
  {| mem := mem s; argsc := argsc s; args := a; redir_t := redir_t s;
     redir_f := redir_f s; run_bg := run_bg s; heap := heap s;
     stderr := stderr s |}.

Definition with_redir_t (s : state) (r : list ascii) : state :=
  {| mem := mem s; argsc := argsc s; args := args s; redir_t := r;
     redir_f := redir_f s; run_bg := run_bg s; heap := heap s;
     stderr := stderr s |}.

Definition with_redir_f (s : state) (r : list ascii) : state :=
  {| mem := mem s; argsc := argsc s; args := args s; redir_t := redir_t s;
     redir_f := r; run_bg := run_bg s; heap := heap s;
     stderr := stderr s |}.

Definition with_run_bg (s : state) (b : Z) : state :=
  {| mem := mem s; argsc := argsc s; args := args s; redir_t := redir_t s;
     redir_f := redir_f s; run_bg := b; heap := heap s;
     stderr := stderr s |}.

Definition with_heap (s : state) (h : nat) : state :=
  {| mem := mem s; argsc := argsc s; args := args s; redir_t := redir_t s;
     redir_f := redir_f s; run_bg := run_bg s; heap := h;
     stderr := stderr s |}.

Definition with_stderr (s : state) (e : string) : state :=
  {| mem := mem s; argsc := argsc s; args := args s; redir_t := redir_t s;
     redir_f := redir_f s; run_bg := run_bg s; heap := heap s;
     stderr := e |}.

(** ** A monad for C function bodies

    A statement either falls through with a value, executes [return rv], or
    has no defined behaviour. *)

Inductive res (A : Type) : Type :=
| Ok (a : A) (s : state)
| Ret (rv : Z) (s : state)
| Undef.

Arguments Ok {A} a s.
Arguments Ret {A} rv s.
Arguments Undef {A}.

Definition M (A : Type) : Type := state -> res A.

Definition ok {A : Type} (a : A) : M A := fun s => Ok a s.
Definition ret {A : Type} (rv : Z) : M A := fun s => Ret rv s.
Definition undef {A : Type} : M A := fun _ => Undef.

Definition bind {A B : Type} (m : M A) (f : A -> M B) : M B :=
  fun s =>
    match m s with
    | Ok a s' => f a s'
    | Ret rv s' => Ret rv s'
    | Undef => Undef
    end.

Declare Scope c_scope.
Delimit Scope c_scope with c.
Notation "x <- m ;; k" := (bind m (fun x => k))
  (at level 61, m at next level, right associativity) : c_scope.
Notation "m ;; k" := (bind m (fun _ => k))
  (at level 61, right associativity) : c_scope.
Open Scope c_scope.

Definition get {A : Type} (f : state -> A) : M A := fun s => Ok (f s) s.
Definition put (f : state -> state) : M unit := fun s => Ok tt (f s).

(** [*p] *)
Definition deref (p : Z) : M ascii :=
  fun s => match load (mem s) p with
           | Some c => Ok c s
           | None => Undef
           end.

(** [*p = c] *)
Definition assign (p : Z) (c : ascii) : M unit :=
  fun s => match store (mem s) p c with
           | Some m => Ok tt (with_mem s m)
           | None => Undef
           end.

Definition fprintf_stderr (msg : string) : M unit :=
  put (fun s => with_stderr s (stderr s ++ msg)%string).

(** One allocation request; [None] is the NULL result. *)
Definition alloc : M bool :=
  fun s => match heap s with
           | O => Ok false s
           | S h => Ok true (with_heap s h)
           end.

(** ** [create_args] (shell.c) *)

Definition nl : string := String LF EmptyString.

Definition msg_too_long : string := ("Argument too long!" ++ nl)%string.
Definition msg_no_space (op : ascii) : string :=
  ("No whitespaces after '" ++ String op ("' operator!" ++ nl))%string.
Definition msg_no_memory : string := ("Not enough memory!" ++ nl)%string.

Definition is_redir (c : ascii) : bool :=
  Ascii.eqb c ">"%char || Ascii.eqb c "<"%char.
Definition is_amp (c : ascii) : bool := Ascii.eqb c "&"%char.

(** [while (is_space( *ptr )) { ptr++; bptr = ptr; }] *)
Fixpoint skip_spaces (fuel : nat) (ptr bptr : Z) : M (Z * Z) :=
  match fuel with
  | O => undef
  | S f =>
      c <- deref ptr ;;
      if is_space c then skip_spaces f (ptr + 1) (ptr + 1)
      else ok (ptr, bptr)
  end.

(** [while (is_space( *p )) p--;] *)
Fixpoint back_spaces (fuel : nat) (p : Z) : M Z :=
  match fuel with
  | O => undef
  | S f =>
      c <- deref p ;;
      if is_space c then back_spaces f (p - 1) else ok p
  end.

(** [if (i >= MAXARG) { fprintf(stderr, "Argument too long!\n"); return 1; }] *)
Definition too_long (i : Z) : M unit :=
  if MAXARG <=? i then fprintf_stderr msg_too_long ;; ret 1 else ok tt.

(** The removal of ['&'], written twice in the source (in the counting loop
    and after it):
    [run_bg = 1; bptr--; while (is_space( *bptr )) bptr--; bptr++;
     *bptr = '\0'; argsc--;] *)
Definition strip_background (n : nat) (bptr : Z) : M unit :=
  put (fun s => with_run_bg s 1) ;;
  p <- back_spaces n (bptr - 1) ;;
  assign (p + 1) NUL ;;
  put (fun s => with_argsc s (argsc s - 1)).

(** The end of a token in the counting loop: the branches on [*bptr], from
    "IO redirection" to [argsc++]. *)
Definition count_token (n : nat) (bptr : Z) : M unit :=
  b <- deref bptr ;;
  if is_redir b then
    b1 <- deref (bptr + 1) ;;
    if is_space b1
    then fprintf_stderr (msg_no_space b) ;; ret 1
    else ok tt
  else if is_amp b then strip_background n bptr
  else put (fun s => with_argsc s (argsc s + 1)).

(** The counting loop [while ( *ptr != '\0' )] of the first pass.  [n] bounds
    the inner loops and [fuel] this one; both are the size of the memory, which
    no loop can exhaust without leaving the memory first. *)
Fixpoint count_args (n fuel : nat) (ptr bptr i : Z) : M (Z * Z * Z) :=
  match fuel with
  | O => undef
  | S f =>
      c <- deref ptr ;;
      if is_nul c then ok (ptr, bptr, i)
      else if is_space c then
        too_long i ;;
        count_token n bptr ;;
        pb <- skip_spaces n ptr (ptr + 1) ;;
        count_args n f (fst pb - 1 + 1) (snd pb) (-1 + 1)
      else count_args n f (ptr + 1) bptr (i + 1)
  end.

(** [args[i]] as an lvalue and as an rvalue: [args] must point to a live array
    that has an entry [i]. *)
Definition get_arg (i : Z) : M (option block) :=
  fun s =>
    match args s with
    | ArgsLive a =>
        if i <? 0 then Undef
        else match nth_error a (Z.to_nat i) with
             | Some e => Ok e s
             | None => Undef
             end
    | _ => Undef
    end.

Definition set_arg (i : Z) (v : option block) : M unit :=
  fun s =>
    match args s with
    | ArgsLive a =>
        if (i <? 0) || (Z.of_nat (length a) <=? i) then Undef
        else Ok tt (with_args s (ArgsLive (upd a (Z.to_nat i) v)))
    | _ => Undef
    end.

(** [for (i = 0; i < argsc-1; i++) { args[i] = calloc(MAXARG, sizeof(char)); ... }] *)
Fixpoint alloc_blocks (k : nat) (i : Z) : M unit :=
  match k with
  | O => ok tt
  | S k' =>
      b <- alloc ;;
      if b then set_arg i (Some zero_block) ;; alloc_blocks k' (i + 1)
      else fprintf_stderr msg_no_memory ;; ret (-1)
  end.

(** [args = calloc(argsc, sizeof(char * ))] and the loop above.  A negative
    count converts to a size no allocator grants; a count of zero yields an
    array without entries. *)
Definition alloc_args : M unit :=
  n <- get argsc ;;
  b <- (if n <? 0 then ok false else alloc) ;;
  if b then
    put (fun s => with_args s (ArgsLive (repeat None (Z.to_nat n)))) ;;
    alloc_blocks (Z.to_nat (n - 1)) 0
  else fprintf_stderr msg_no_memory ;; ret (-1).

(** [memcpy(dst, src, j)] from the line buffer into an array of [MAXARG]
    bytes: a block of [args], [redir_t] or [redir_f]. *)
Definition memcpy (dst : list ascii) (src j : Z) : M (list ascii) :=
  fun s =>
    if (j <? 0) || (MAXARG <? j) then Undef
    else match load_range (mem s) src (Z.to_nat j) with
         | Some l => Ok (l ++ skipn (Z.to_nat j) dst) s
         | None => Undef
         end.

(** [dst[k] = c] in such an array. *)
Definition set_byte (dst : list ascii) (k : Z) (c : ascii) : M (list ascii) :=
  if (k <? 0) || (MAXARG <=? k) then undef
  else ok (upd dst (Z.to_nat k) c).

(** [bptr++; memcpy(redir_t, bptr, j); redir_t[j-1] = '\0';] *)
Definition copy_redir_t (bptr j : Z) : M unit :=
  r <- get redir_t ;;
  r1 <- memcpy r (bptr + 1) j ;;
  r2 <- set_byte r1 (j - 1) NUL ;;
  put (fun s => with_redir_t s r2).

Definition copy_redir_f (bptr j : Z) : M unit :=
  r <- get redir_f ;;
  r1 <- memcpy r (bptr + 1) j ;;
  r2 <- set_byte r1 (j - 1) NUL ;;
  put (fun s => with_redir_f s r2).

(** [memcpy(args[i], bptr, j);] *)
Definition copy_arg (i bptr j : Z) : M unit :=
  e <- get_arg i ;;
  match e with
  | None => undef
  | Some b => b' <- memcpy b bptr j ;; set_arg i (Some b')
  end.

(** The filling loop of the second pass. *)
Fixpoint fill_args (n fuel : nat) (ptr bptr i j : Z) : M (Z * Z * Z * Z) :=
  match fuel with
  | O => undef
  | S f =>
      c <- deref ptr ;;
      if is_nul c then ok (ptr, bptr, i, j)
      else if is_space c then
        b <- deref bptr ;;
        i' <- (if Ascii.eqb b ">"%char then copy_redir_t bptr j ;; ok i
               else if Ascii.eqb b "<"%char then copy_redir_f bptr j ;; ok i
               else copy_arg i bptr j ;; ok (i + 1)) ;;
        pb <- skip_spaces n ptr (ptr + 1) ;;
        fill_args n f (fst pb - 1 + 1) (snd pb) i' (-1 + 1)
      else fill_args n f (ptr + 1) bptr i (j + 1)
  end.

(** The first pass, "preprocessing: count the number of arguments": the
    values of [ptr], [bptr] and [i] after the loop. *)
Definition first_pass (n : nat) : M (Z * Z * Z) :=
  put (fun s => with_run_bg s 0) ;;
  (* skip beginning whitespaces *)
  pb <- skip_spaces n 0 0 ;;
  put (fun s => with_argsc s 1) ;;
  count_args n n (fst pb) (snd pb) 0.

(** After the counting loop: the last token. *)
Definition last_token (n : nat) (ptr bptr : Z) : M unit :=
  (* the last argument has a redirection operator *)
  c1 <- get argsc ;;
  (if 1 <? c1 then
     b <- deref bptr ;;
     if is_redir b then put (fun s => with_argsc s (argsc s - 1)) else ok tt
   else ok tt) ;;
  (* the line ends with '&', or trailing whitespace is removed *)
  c2 <- get argsc ;;
  bg <- (if 1 <? c2 then b <- deref bptr ;; ok (is_amp b) else ok false) ;;
  (if bg then strip_background n bptr
   else p <- back_spaces n (ptr - 1) ;; assign (p + 1) NUL) ;;
  (* args must be NULL terminated *)
  put (fun s => with_argsc s (argsc s + 1)).

(** The second pass, "fills in the args variable with shell input". *)
Definition second_pass (n : nat) : M unit :=
  pb <- skip_spaces n 0 0 ;;
  r <- fill_args n n (fst pb) (snd pb) 0 0 ;;
  let bptr := snd (fst (fst r)) in
  let i := snd (fst r) in
  let j := snd r in
  (* last argument or only one argument *)
  b <- deref bptr ;;
  if Ascii.eqb b ">"%char then
    copy_redir_t bptr j ;; set_arg i None
  else if Ascii.eqb b "<"%char then
    copy_redir_f bptr j ;; set_arg i None
  else copy_arg i bptr j ;; set_arg (i + 1) None.

Definition create_args_with (n : nat) : M unit :=
  r <- first_pass n ;;
  (* cases where we have only one argument and it is too long *)
  too_long (snd r) ;;
  last_token n (fst (fst r)) (snd (fst r)) ;;
  alloc_args ;;
  second_pass n ;;
  ret 0.

(** [create_args(cmd_buf)]: [buf] is offset 0.  The result is always [Ret]
    (0: args filled, 1: input error, -1: allocation error) or [Undef]. *)
Definition create_args : M unit :=
  fun s => create_args_with (S (mem_size (mem s))) s.

(** [clear_args]: frees the blocks and the array and empties the redirection
    names.  [args] keeps its value, now the address of freed memory. *)
Definition clear_args (s : state) : state :=
  with_redir_f
    (with_redir_t (with_args s ArgsFreed) (upd (redir_t s) 0 NUL))
    (upd (redir_f s) 0 NUL).

(** ** The command a filled [args] stands for

    [execvp(args[0], args)] reads the entries of [args] up to the first NULL;
    [execute_file] redirects when the first byte of [redir_t] ([redir_f]) is
    not NUL, and runs in the background when [run_bg] is not 0. *)

Record Command : Type := {
  arguments : list string;
  input_redirect : option string;
  output_redirect : option string;
  background : bool
}.

Fixpoint argv (a : list (option block)) : list string :=
  match a with
  | Some b :: a' => c_string b :: argv a'
  | _ => []
  end.

Definition redirect (r : list ascii) : option string :=
  match r with
  | c :: _ => if is_nul c then None else Some (c_string r)
  | [] => None
  end.

Definition command_of (s : state) : option Command :=
  match args s with
  | ArgsLive a =>
      Some {| arguments := argv a;
              input_redirect := redirect (redir_f s);
              output_redirect := redirect (redir_t s);
              background := negb (run_bg s =? 0) |}
  | _ => None
  end.

(** The globals at program start (zero-initialised), with the line in
    [cmd_buf] as [input_start] leaves it: the bytes read, the last of them
    replaced by NUL.  [lo] is what lies below the buffer and [h] the number of
    allocations that will succeed. *)
Definition boot (lo : list ascii) (h : nat) (line : string) : state :=
  {| mem := {| below := lo; cmd_buf := bytes line ++ [NUL] |};
     argsc := 0; args := ArgsNull;
     redir_t := repeat NUL (Z.to_nat MAXARG);
     redir_f := repeat NUL (Z.to_nat MAXARG);
     run_bg := 0; heap := h; stderr := EmptyString |}.

(** What a parse amounts to for the caller. *)
Inductive parsed : Type :=
| Parsed (c : Command)
| ParseError (msg : string)
| MemoryError
| Undefined.

Definition parse_from (s : state) : parsed :=
  match create_args s with
  | Ret rv s' =>
      if rv =? 0 then
        match command_of s' with Some c => Parsed c | None => Undefined end
      else if rv =? 1 then ParseError (stderr s')
      else MemoryError
  | _ => Undefined
  end.

Definition parse (line : string) : parsed := parse_from (boot [] 16 line).

(** ** The job list (shell.h)

    [struct job_item] chained through [next], the first item at [list->first].
    Every function holds [jmtx] from its first to its last access, so each is
    one atomic transformation of the list. *)

Record job_item : Type := {
  pid : Z;
  name : string     (* char name[MAXARG] *)
}.

Definition job_list : Type := list job_item.

(** [jobs_init]: [list->first = NULL]. *)
Definition jobs_init : job_list := [].

Definition msg_no_job_memory : string :=
  ("Could not allocate memory for job" ++ nl)%string.

(** [jobs_insert(list, name, pid)] on the list [lst]: the return value, the list
    and what went to stderr.  [malloc_ok] tells whether [malloc] grants the
    item; [strcpy] into [name[MAXARG]] is defined only for a string that fits
    with its NUL. *)
Definition jobs_insert (malloc_ok : bool) (lst : job_list) (nm : string)
    (p : Z) : option (Z * job_list * string) :=
  if negb malloc_ok then Some (-1, lst, msg_no_job_memory)
  else if MAXARG <=? Z.of_nat (String.length nm) then None
  else Some (0, {| pid := p; name := nm |} :: lst, EmptyString).

(** The loop of [jobs_find_remove]: the list without the first item whose pid
    is [p], when there is one. *)
Fixpoint unlink (it : job_list) (p : Z) : option job_list :=
  match it with
  | [] => None
  | x :: next =>
      if pid x =? p then Some next
      else match unlink next p with
           | Some next' => Some (x :: next')
           | None => None
           end
  end.

(** [jobs_find_remove(list, pid)]: 1 and the shortened list, or 0. *)
Definition jobs_find_remove (lst : job_list) (p : Z) : Z * job_list :=
  match unlink lst p with
  | Some lst' => (1, lst')
  | None => (0, lst)
  end.

(** [printf("%d", z)] *)
Definition dec (z : Z) : string := NilEmpty.string_of_int (Z.to_int z).

(** The line [printf("[%d] %s\n", pid, name)]. *)
Definition job_line (p : Z) (nm : string) : string :=
  ("[" ++ dec p ++ "] " ++ nm ++ nl)%string.

(** [jobs_print]: the lines written to stdout, one per item, first item first. *)
Definition jobs_print (lst : job_list) : list string :=
  map (fun it => job_line (pid it) (name it)) lst.

(** ** The system interface

    <sys/wait.h>, <errno.h> and [chdir] are not part of the repository: the
    status macros, the error numbers and the answer of the file system are
    taken as an interface. *)

Class Posix : Type := {
  WIFEXITED : Z -> bool;
  WEXITSTATUS : Z -> Z;
  WIFSIGNALED : Z -> bool;
  WIFSTOPPED : Z -> bool;
  ECHILD : Z;
  ENOENT : Z;
  ENOTDIR : Z;
  (* [chdir(path)] in working directory [cwd]: the new working directory, or
     the error number *)
  sys_chdir : string -> string -> string + Z
}.

(** What the shell writes. *)
Inductive event : Type :=
| Stdout (s : string)
| Stderr (s : string)
| Perror (tag : string) (errno : Z).

Section Sys.
Context {P : Posix}.

(** ** [print_status] (shell.c) *)

Definition print_status (w status : Z) : string :=
  if WIFEXITED status then
    if negb (WEXITSTATUS status =? 0)
    then (nl ++ "[" ++ dec w ++ "]+ Exit " ++ dec (WEXITSTATUS status) ++ nl)%string
    else (nl ++ "[" ++ dec w ++ "]+ Done" ++ nl)%string
  else if WIFSIGNALED status then (nl ++ "[" ++ dec w ++ "]+ Killed" ++ nl)%string
  else if WIFSTOPPED status then (nl ++ "[" ++ dec w ++ "]+ Stopped" ++ nl)%string
  else (nl ++ "[" ++ dec w ++ "]+ Terminated" ++ nl)%string.

(** ** The parent side of [execute_file] (shell.c)

    [fork] fails, or returns the pid of the child to the parent; the child
    side runs in the new process.  For a foreground command the answer of
    [waitpid(cpid, &status, 0)] is [(w, errno, status)]. *)

Inductive fork_result : Type :=
| ForkFailed (errno : Z)
| ForkParent (cpid : Z).

Record launch : Type := {
  l_rv : Z;
  l_jobs : job_list;
  l_out : list event
}.

Definition execute_file (bg : Z) (arg0 : string) (jobs : job_list)
    (fk : fork_result) (malloc_ok : bool) (wt : Z * Z * Z) : option launch :=
  match fk with
  | ForkFailed e =>
      Some {| l_rv := -1; l_jobs := jobs; l_out := [Perror "fork" e] |}
  | ForkParent cpid =>
      if negb (bg =? 0) then
        match jobs_insert malloc_ok jobs arg0 cpid with
        | None => None
        | Some (rv, jobs', err) =>
            if rv =? -1
            then Some {| l_rv := -1; l_jobs := jobs'; l_out := [Stderr err] |}
            else Some {| l_rv := 0; l_jobs := jobs';
                         l_out := [Stdout (job_line cpid arg0)] |}
        end
      else
        let w := fst (fst wt) in
        let errno := snd (fst wt) in
        let status := snd wt in
        if (w =? -1) && negb (errno =? ECHILD) then
          Some {| l_rv := -1; l_jobs := jobs; l_out := [Perror "waitpid" errno] |}
        else if 0 <? w then
          Some {| l_rv := 0; l_jobs := jobs;
                  l_out := if WIFSIGNALED status then [Stdout nl] else [] |}
        else Some {| l_rv := 0; l_jobs := jobs; l_out := [] |}
  end.

(** ** One signal in [sig_handler] (shell.c)

    [w] and [status] are the answer of [waitpid(-1, &status, WNOHANG)], read
    for SIGCHLD only; [exec_args] is the flag of the monitor and [exit_flag]
    the exit flag, as the handler finds them.  The result: whether the thread
    returns, the job list and what is written to stdout. *)

Inductive signal : Type := SIGINT | SIGTSTP | SIGCHLD | SIGUSR1 | SIGOTHER.

Definition sig_handler (sig : signal) (w status : Z) (exec_args exit_flag : Z)
    (jobs : job_list) : bool * job_list * list string :=
  match sig with
  | SIGINT | SIGTSTP =>
      (false, jobs,
       [if negb (exec_args =? 0) then nl else (nl ++ "$ ")%string])
  | SIGCHLD =>
      if 0 <? w then
        let r := jobs_find_remove jobs w in
        if negb (fst r =? 0) then
          (false, snd r,
           print_status w status
             :: (if exec_args =? 0 then ["$ "%string] else []))
        else (false, snd r, [])
      else (false, jobs, [])
  | SIGUSR1 => (negb (exit_flag =? 0), jobs, [])
  | SIGOTHER => (false, jobs, [])
  end.

(** ** [change_cwd] (shell.h)

    [path] is the string [chdir] and [fprintf] find at [args[1]].  The
    result: the return value, the working directory and what went to
    stderr. *)

Definition msg_cd_usage : string := ("cd: one argument required" ++ nl)%string.
Definition msg_cd_missing (path : string) : string :=
  ("cd: " ++ path ++ ": No such directory" ++ nl)%string.

Definition change_cwd (c : Z) (path : string) (cwd : string)
    : Z * string * string :=
  let argc := c - 1 in
  if negb (argc =? 2) then (1, cwd, msg_cd_usage)
  else
    match sys_chdir cwd path with
    | inr errno =>
        if (errno =? ENOENT) || (errno =? ENOTDIR)
        then (1, cwd, msg_cd_missing path)
        else (-1, cwd, EmptyString)
    | inl cwd' => (0, cwd', EmptyString)
    end.

(** ** One line in [input_start] (shell.c)

    From [create_args(cmd_buf)] to the point where the loop either goes
    round again, hands the command to the exec thread, or the thread
    returns. *)

Record shell : Type := {
  tk : state;           (* the tokenizer's globals and [cmd_buf] *)
  jobs : job_list;
  exec_args : Z;
  exit_flag : Z;
  cwd : string;
  out : list event
}.

Inductive next : Type :=
| Continue              (* back to [read] *)
| Handoff               (* [monitor_args_execute()] was called for the command;
                           [monitor_args_wait_finished()] is next *)
| Return (rv : Z).      (* the thread returns *)

Definition emit (sh : shell) (es : list event) : shell :=
  {| tk := tk sh; jobs := jobs sh; exec_args := exec_args sh;
     exit_flag := exit_flag sh; cwd := cwd sh; out := out sh ++ es |}.

Definition with_tk (sh : shell) (t : state) : shell :=
  {| tk := t; jobs := jobs sh; exec_args := exec_args sh;
     exit_flag := exit_flag sh; cwd := cwd sh; out := out sh |}.

Definition with_cwd (sh : shell) (d : string) : shell :=
  {| tk := tk sh; jobs := jobs sh; exec_args := exec_args sh;
     exit_flag := exit_flag sh; cwd := d; out := out sh |}.

(** [set_exit_flag(1); monitor_args_execute();] *)
Definition signal_exit (sh : shell) : shell :=
  {| tk := tk sh; jobs := jobs sh; exec_args := 1;
     exit_flag := 1; cwd := cwd sh; out := out sh |}.

(** [monitor_args_execute();] *)
Definition monitor_args_execute (sh : shell) : shell :=
  {| tk := tk sh; jobs := jobs sh; exec_args := 1;
     exit_flag := exit_flag sh; cwd := cwd sh; out := out sh |}.

(** The new text of stderr after a call, as an event. *)
Definition stderr_events (e : string) : list event :=
  if String.eqb e EmptyString then [] else [Stderr e].

(** The branch of [cd]: [clear_args(); if (change_cwd() == -1) ...].
    [change_cwd] runs after [clear_args()] has freed the blocks, so what it
    finds at [args[1]] is not determined by the line: it is the string
    [stale]. *)
Definition builtin_cd (stale : string) (sh : shell) : next * shell :=
  let sh2 := with_tk sh (clear_args (tk sh)) in
  let r := change_cwd (argsc (tk sh2)) stale (cwd sh2) in
  let sh3 := emit (with_cwd sh2 (snd (fst r))) (stderr_events (snd r)) in
  if fst (fst r) =? -1 then (Return 0, signal_exit sh3)
  else (Continue, emit sh3 [Stdout "$ "]).

Definition input_line (stale : string) (sh : shell) : option (next * shell) :=
  match create_args (with_stderr (tk sh) EmptyString) with
  | Undef | Ok _ _ => None
  | Ret rv t =>
      let sh1 := emit (with_tk sh t) (stderr_events (stderr t)) in
      if rv =? -1 then
        Some (Return 0, signal_exit (emit sh1 [Stdout nl]))
      else if rv =? 1 then
        Some (Continue, emit sh1 [Stdout "$ "])
      else
        match args t with
        | ArgsLive (Some a0 :: _) =>
            let arg0 := c_string a0 in
            let sh2 := with_tk sh1 (clear_args t) in
            if String.eqb arg0 "exit" then
              Some (Return 0, signal_exit sh2)
            else if String.eqb arg0 "jobs" then
              Some (Continue,
                    emit sh2 (map Stdout (jobs_print (jobs sh2))
                              ++ [Stdout "$ "]))
            else if String.eqb arg0 "cd" then Some (builtin_cd stale sh1)
            else if (String.length arg0 =? 0)%nat then
              Some (Continue, emit sh2 [Stdout (String "013" "$ ")])
            else Some (Handoff, monitor_args_execute sh1)
        | _ => None    (* [strcmp(args[0], ...)] through NULL *)
        end
  end.

End Sys.

(** ** The monitor between the input thread and the exec thread

    [exec_args], [mtx] and [cond] (shell.h) with the four monitor functions of
    shell.c.  Each function holds [mtx] for its whole body, so it is one
    atomic step; a wait loop [while (exec_args != v) pthread_cond_wait(...)]
    is a step that can be taken only when [exec_args = v], which also covers
    spurious wakeups.  The threads are the loops of [input_start] and
    [cmd_exec_start], cut at the monitor calls; any interleaving of their
    steps is a run. *)

Module Monitor.
Section Handoff.

(** What [create_args] leaves in [args], [redir_t], [redir_f] and [run_bg]
    for one command line. *)
Variable cmd : Type.

(** A line read from stdin, by what [input_start] does with it. *)
Inductive line_kind : Type :=
| Run (c : cmd)     (* a command for the exec thread *)
| Rejected          (* [create_args] returns 1 *)
| Builtin           (* jobs, cd, the empty line *)
| Exit.             (* exit, or a fatal cd *)

(** The storage of the command: [args] and its blocks. *)
Inductive storage : Type :=
| Unallocated
| Holds (c : cmd)
| Freed.

Inductive line_pc : Type :=
| LRead       (* in [read], shell.c:322 *)
| LParsed     (* before [monitor_args_execute()], shell.c:397 *)
| LWait       (* in [monitor_args_wait_finished()], shell.c:399 *)
| LWoken      (* before [clear_args()], shell.c:401 *)
| LCleared    (* before [is_exit_flag()], shell.c:402 *)
| LExiting    (* after [set_exit_flag(1)], before [monitor_args_execute()] *)
| LReturned.

Inductive exec_pc : Type :=
| EWait       (* in [monitor_args_wait_executable()], shell.c:537 *)
| ECheck      (* before [is_exit_flag()], shell.c:538 *)
| ELaunch     (* before [execute_file()], shell.c:541 *)
| EOk         (* before [monitor_args_executed()], shell.c:549 *)
| EFailed     (* before [set_exit_flag(1)], shell.c:542 *)
| EFailed2    (* before [monitor_args_executed()], shell.c:544 *)
| EReturned.

Record mon : Type := Mon {
  exec_args : Z;
  exit_flag : Z;
  store : storage;
  lpc : line_pc;
  epc : exec_pc;
  stdin : list line_kind;   (* the lines not yet read *)
  handed : list cmd;        (* commands [monitor_args_execute()] was called for *)
  launched : list cmd;      (* commands [execute_file()] was called on *)
  stray : bool              (* [execute_file()] ran on storage without a command *)
}.

Definition init (input : list line_kind) : mon :=
  Mon 0 0 Unallocated LRead EWait input [] [] false.

Definition held (st : storage) : list cmd :=
  match st with Holds c => [c] | _ => [] end.

Inductive step : mon -> mon -> Prop :=
(* input thread *)
| line_rejected : forall ea ef st e rest h l x,
    step (Mon ea ef st LRead e (Rejected :: rest) h l x)
         (Mon ea ef st LRead e rest h l x)
| line_builtin : forall ea ef st e rest h l x,
    step (Mon ea ef st LRead e (Builtin :: rest) h l x)
         (Mon ea ef Freed LRead e rest h l x)
| line_exit : forall ea ef st e rest h l x,
    step (Mon ea ef st LRead e (Exit :: rest) h l x)
         (Mon ea 1 Freed LExiting e rest h l x)
| line_eof : forall ea ef st e h l x,
    step (Mon ea ef st LRead e [] h l x)
         (Mon ea 1 st LExiting e [] h l x)
| line_exiting : forall ea ef st e i h l x,
    step (Mon ea ef st LExiting e i h l x)
         (Mon 1 ef st LReturned e i h l x)
| line_parsed : forall ea ef st e c rest h l x,
    step (Mon ea ef st LRead e (Run c :: rest) h l x)
         (Mon ea ef (Holds c) LParsed e rest h l x)
| line_execute : forall ea ef st e i h l x,
    step (Mon ea ef st LParsed e i h l x)
         (Mon 1 ef st LWait e i (h ++ held st) l x)
| line_finished : forall ef st e i h l x,
    step (Mon 0 ef st LWait e i h l x)
         (Mon 0 ef st LWoken e i h l x)
| line_clear : forall ea ef st e i h l x,
    step (Mon ea ef st LWoken e i h l x)
         (Mon ea ef Freed LCleared e i h l x)
| line_flag : forall ea ef st e i h l x,
    step (Mon ea ef st LCleared e i h l x)
         (Mon ea ef st (if ef =? 0 then LRead else LReturned) e i h l x)
(* exec thread *)
| exec_executable : forall ef st p i h l x,
    step (Mon 1 ef st p EWait i h l x)
         (Mon 1 ef st p ECheck i h l x)
| exec_flag : forall ea ef st p i h l x,
    step (Mon ea ef st p ECheck i h l x)
         (Mon ea ef st p (if ef =? 0 then ELaunch else EReturned) i h l x)
| exec_launch : forall (ok : bool) ea ef st p i h l x,
    step (Mon ea ef st p ELaunch i h l x)
         (Mon ea ef st p (if ok then EOk else EFailed) i h (l ++ held st)
              (match st with Holds _ => x | _ => true end))
| exec_executed : forall ea ef st p i h l x,
    step (Mon ea ef st p EOk i h l x)
         (Mon 0 ef st p EWait i h l x)
| exec_failed : forall ea ef st p i h l x,
    step (Mon ea ef st p EFailed i h l x)
         (Mon ea 1 st p EFailed2 i h l x)
| exec_failed_executed : forall ea ef st p i h l x,
    step (Mon ea ef st p EFailed2 i h l x)
         (Mon 0 ef st p EReturned i h l x).

(** The states of the runs from [init input]. *)
Inductive reachable (input : list line_kind) : mon -> Prop :=
| reach_init : reachable input (init input)
| reach_step : forall s s', reachable input s -> step s s' -> reachable input s'.

(** The commands among lines, in order. *)
Fixpoint runs (ls : list line_kind) : list cmd :=
  match ls with
  | [] => []
  | Run c :: ls' => c :: runs ls'
  | _ :: ls' => runs ls'
  end.

(** The invariant of the handshake, by the places of the two threads. *)
Definition inv (s : mon) : Prop :=
  stray s = false /\
  match lpc s, epc s with
  | LRead, EWait =>
      exec_args s = 0 /\ exit_flag s = 0 /\ launched s = handed s /\
      held (store s) = []
  | LParsed, EWait =>
      exec_args s = 0 /\ exit_flag s = 0 /\ launched s = handed s /\
      exists c, store s = Holds c
  | LWait, EWait =>
      (exec_args s = 1 /\ exit_flag s = 0 /\
       exists c, store s = Holds c /\ handed s = launched s ++ [c]) \/
      (exec_args s = 0 /\ exit_flag s = 0 /\ launched s = handed s)
  | LWait, ECheck | LWait, ELaunch =>
      exec_args s = 1 /\ exit_flag s = 0 /\
      exists c, store s = Holds c /\ handed s = launched s ++ [c]
  | LWait, EOk | LWait, EFailed =>
      exec_args s = 1 /\ exit_flag s = 0 /\ launched s = handed s
  | LWait, EFailed2 =>
      exec_args s = 1 /\ exit_flag s = 1 /\ launched s = handed s
  | LWait, EReturned =>
      exec_args s = 0 /\ exit_flag s = 1 /\ launched s = handed s
  | LWoken, EWait =>
      exec_args s = 0 /\ exit_flag s = 0 /\ launched s = handed s
  | LWoken, EReturned =>
      exec_args s = 0 /\ exit_flag s = 1 /\ launched s = handed s
  | LCleared, EWait =>
      exec_args s = 0 /\ exit_flag s = 0 /\ launched s = handed s /\
      held (store s) = []
  | LCleared, EReturned =>
      exec_args s = 0 /\ exit_flag s = 1 /\ launched s = handed s
  | LExiting, EWait =>
      exec_args s = 0 /\ exit_flag s = 1 /\ launched s = handed s
  | LReturned, EWait | LReturned, ECheck =>
      exec_args s = 1 /\ exit_flag s = 1 /\ launched s = handed s
  | LReturned, EReturned =>
      exit_flag s = 1 /\ launched s = handed s
  | _, _ => False
  end.

(** The command parsed and not yet handed over. *)
Definition parsed_pending (s : mon) : list cmd :=
  match lpc s with LParsed => held (store s) | _ => [] end.

End Handoff.

Arguments Run {cmd} c.
Arguments Rejected {cmd}.
Arguments Builtin {cmd}.
Arguments Exit {cmd}.
Arguments Unallocated {cmd}.
Arguments Holds {cmd} c.
Arguments Freed {cmd}.
Arguments init {cmd} input.
Arguments held {cmd} st.
Arguments step {cmd} _ _.
Arguments reachable {cmd} input _.
Arguments runs {cmd} ls.
Arguments inv {cmd} s.
Arguments parsed_pending {cmd} s.
Arguments exec_args {cmd} m.
Arguments exit_flag {cmd} m.
Arguments store {cmd} m.
Arguments lpc {cmd} m.
Arguments epc {cmd} m.
Arguments stdin {cmd} m.
Arguments handed {cmd} m.
Arguments launched {cmd} m.
Arguments stray {cmd} m.

End Monitor.

(** ** A concrete system, for runs on concrete inputs

    The status encoding and error numbers of Linux with glibc, and a file
    system with three kinds of paths. *)

Definition EACCES : Z := 13.

Definition sample_chdir (cwd path : string) : string + Z :=
  if String.eqb path "/tmp" then inl path
  else if String.eqb path "/root" then inr EACCES
  else inr 2.

Definition linux : Posix := {|
  WIFEXITED := fun st => Z.land st 127 =? 0;
  WEXITSTATUS := fun st => Z.shiftr (Z.land st 65280) 8;
  WIFSIGNALED := fun st =>
    let t := Z.land st 127 + 1 in
    0 <? Z.shiftr (if 128 <=? t then t - 256 else t) 1;
  WIFSTOPPED := fun st => Z.land st 255 =? 127;
  ECHILD := 10;
  ENOENT := 2;
  ENOTDIR := 20;
  sys_chdir := sample_chdir
|}.

(** The shell in directory [/home], without jobs, with the tokenizer's
    globals and buffer [t]. *)
Definition shell_of (t : state) : shell :=
  {| tk := t; jobs := jobs_init; exec_args := 0;
     exit_flag := 0; cwd := "/home"; out := [] |}.

(** The shell at start with [line] read into [cmd_buf], a NUL byte below
    the buffer. *)
Definition shell_at_start (line : string) : shell :=
  shell_of (boot [NUL] 16 line).

(** The globals after [create_args] on [line] at start. *)
Definition after_parse (line : string) : state :=
  match create_args (boot [NUL] 16 line) with
  | Ret _ s' => s'
  | _ => boot [NUL] 16 line
  end.

(** A line with a token of [MAXARG] bytes. *)
Definition long_word : list ascii := repeat "x"%char (Z.to_nat MAXARG).
Definition long_line : string :=
  ("ls " ++ string_of_list_ascii long_word ++ " -l")%string.

(** A run of the monitor on three lines, up to the second launch. *)
Definition sample_lines : list (Monitor.line_kind nat) :=
  [Monitor.Run 1%nat; Monitor.Builtin; Monitor.Run 2%nat].

Definition sample_mon : Monitor.mon nat :=
  Monitor.Mon nat 1 0 (Monitor.Holds 2%nat) Monitor.LWait Monitor.ELaunch []
    [1%nat; 2%nat] [1%nat] false.


(** The command [sleep 5] in the background, with the redirections
    [fi] and [fo]. *)
Definition sleep_5 (fi fo : option string) : Command :=
  {| arguments := ["sleep"%string; "5"%string]; input_redirect := fi;
     output_redirect := fo; background := true |}.

(** ** Shapes of lines *)

(** The line holds a token of [MAXARG] bytes or more: a run of that many
    bytes without blank or tab. *)
Definition long_token (l : list ascii) : Prop :=
  exists pre tok post,
    l = pre ++ tok ++ post /\ MAXARG <= Z.of_nat (length tok) /\
    forall c, In c tok -> is_space c = false.

(** Some byte below [cmd_buf] is neither blank nor tab. *)
Definition bounded_below (s : state) : Prop :=
  exists c, In c (below (mem s)) /\ is_space c = false.

(** The first token of the line does not start with [&]. *)
Definition starts_plain (l : list ascii) : Prop :=
  exists pre c post,
    l = pre ++ c :: post /\ (forall x, In x pre -> is_space x = true) /\
    is_space c = false /\ is_amp c = false.

(** ** Predicates on the memory and the state, for the scans

    [m0] is the memory at the call of [create_args] and [L] the length of
    the line in it. *)

(** The offsets of the memory. *)
Definition in_mem (m : memory) (k : Z) : Prop :=
  - Z.of_nat (length (below m)) <= k < Z.of_nat (length (cmd_buf m)).

(** Whether the byte of the line at offset [k] is a blank or a tab. *)
Definition sp (m0 : memory) (k : Z) : bool :=
  match load m0 k with Some c => is_space c | None => false end.

(** The memory of [s] has the extent of [m0] and holds the line from [b] on. *)
Definition agree (m0 : memory) (s : state) (b : Z) : Prop :=
  length (below (mem s)) = length (below m0) /\
  length (cmd_buf (mem s)) = length (cmd_buf m0) /\
  forall k, b <= k -> load (mem s) k = load m0 k.

(** What the first pass leaves alone. *)
Definition frame (s s' : state) : Prop :=
  args s' = args s /\ redir_t s' = redir_t s /\ redir_f s' = redir_f s /\
  heap s' = heap s /\ stderr s' = stderr s.

(** The state after [return 1]: nothing of a command was produced, and
    stderr got one of the two messages, the second one for an operator of the
    line. *)
Definition rejected (m0 : memory) (L : Z) (s s' : state) : Prop :=
  args s' = args s /\ redir_t s' = redir_t s /\ redir_f s' = redir_f s /\
  heap s' = heap s /\
  (stderr s' = (stderr s ++ msg_too_long)%string \/
   exists k op, 0 <= k < L /\ load m0 k = Some op /\ is_redir op = true /\
                stderr s' = (stderr s ++ msg_no_space op)%string).

(** Below the token that starts at [bptr] the memory holds a byte that is no
    blank, or the token does not start with [&]: the backward scan of
    [strip_background], if it runs, ends inside the memory. *)
Definition anchor (m0 : memory) (s : state) (bptr : Z) : Prop :=
  (exists a c, a < bptr /\ load (mem s) a = Some c /\ is_space c = false) \/
  (exists b, load m0 bptr = Some b /\ is_amp b = false /\ is_space b = false).

(** A run of [MAXARG] bytes that are no blanks starts at or after [b]. *)
Definition long_ahead (m0 : memory) (L : Z) (b : Z) : Prop :=
  exists t, b <= t /\ t + MAXARG <= L /\
            forall k, t <= k < t + MAXARG -> sp m0 k = false.

(** What the counting loop does when such a run is ahead. *)
Definition count_post (m0 : memory) (L : Z) (s : state)
    (r : res (Z * Z * Z)) : Prop :=
  match r with
  | Ok (_, _, i') s' => MAXARG <= i' /\ frame s s'
  | Ret rv s' => rv = 1 /\ rejected m0 L s s'
  | Undef => False
  end.

(** ** Command lines of plain words

    Words without operator, separated by runs of blanks and tabs. *)

(** The list [l] lies in the memory from offset [p] on. *)
Definition holds (m : memory) (p : Z) (l : list ascii) : Prop :=
  forall k, (k < length l)%nat -> load m (p + Z.of_nat k) = nth_error l k.

(** No blank, tab or NUL. *)
Definition solid (c : ascii) : Prop := is_space c = false /\ is_nul c = false.

(** A word that fits a block and does not start with [<], [>] or [&]. *)
Definition plain_word (w : list ascii) : Prop :=
  Z.of_nat (length w) < MAXARG /\
  (forall c, In c w -> solid c) /\
  exists c w', w = c :: w' /\ is_redir c = false /\ is_amp c = false.

(** A run of blanks and tabs, not empty. *)
Definition blank_run (l : list ascii) : Prop :=
  l <> [] /\ forall c, In c l -> is_space c = true.

(** Words with the run of blanks that follows each, and a last token. *)
Fixpoint join (ws : list (list ascii * list ascii)) (last : list ascii)
    : list ascii :=
  match ws with
  | [] => last
  | (w, sep) :: r => w ++ sep ++ join r last
  end.

(** The length of the words and runs of [ws], and the iterations the loops
    of [create_args] spend on them. *)
Fixpoint span (ws : list (list ascii * list ascii)) : Z :=
  match ws with
  | [] => 0
  | (w, sep) :: r => Z.of_nat (length w) + Z.of_nat (length sep) + span r
  end.

Fixpoint cost (ws : list (list ascii * list ascii)) : nat :=
  match ws with
  | [] => O
  | (w, _) :: r => (length w + S (cost r))%nat
  end.

(** A block after [memcpy] of the word [w] into the zeroed block. *)
Definition filled (w : list ascii) : option block :=
  Some (w ++ skipn (length w) zero_block).

(** Plain words, each followed by a run of blanks. *)
Definition plain_pairs (ws : list (list ascii * list ascii)) : Prop :=
  Forall (fun ws => plain_word (fst ws) /\ blank_run (snd ws)) ws.

(** The state [s'] differs from [s] in [args] and [heap] at most. *)
Definition same_but_args (s s' : state) : Prop :=
  mem s' = mem s /\ argsc s' = argsc s /\ redir_t s' = redir_t s /\
  redir_f s' = redir_f s /\ run_bg s' = run_bg s /\ stderr s' = stderr s.

(** The same predicates as functions. *)
Definition solidb (c : ascii) : bool := negb (is_space c) && negb (is_nul c).

Definition plain_wordb (w : list ascii) : bool :=
  (Z.of_nat (length w) <? MAXARG) && forallb solidb w &&
  match w with
  | c :: _ => negb (is_redir c) && negb (is_amp c)
  | [] => false
  end.

Definition blank_runb (l : list ascii) : bool :=
  match l with
  | [] => false
  | _ => forallb is_space l
  end.

Definition plain_pairsb (ws : list (list ascii * list ascii)) : bool :=
  forallb (fun ws => plain_wordb (fst ws) && blank_runb (snd ws)) ws.

(** A string without closing bracket, as the decimal digits of
    [printf] are. *)
Definition no_bracket (s : string) : Prop :=
  forall c, In c (list_ascii_of_string s) -> c <> "]"%char.


(** ** Runs of the monitor

    Runs counted by their steps, a ranking of the places of the two threads,
    and the lines that precede the first line that ends the shell. *)

Module MonitorRuns.
Import Monitor.
Section Runs.
Variable cmd : Type.

(** [steps n s s']: [n] steps lead from [s] to [s']. *)
Inductive steps : nat -> mon cmd -> mon cmd -> Prop :=
| steps_O : forall s, steps O s s
| steps_S : forall n s s' s'',
    steps n s s' -> step s' s'' -> steps (S n) s s''.

(** How far the input thread is from its return, in steps of both threads:
    a step that sets [exec_args] pays for the steps it allows the exec
    thread. *)
Definition line_rank (p : line_pc) : nat :=
  match p with
  | LReturned => 0
  | LExiting => 6
  | LRead => 7
  | LCleared => 8
  | LWoken => 9
  | LWait => 10
  | LParsed => 16
  end.

(** How many steps the exec thread can take before it waits or returns. *)
Definition exec_rank (e : exec_pc) (ea : Z) : nat :=
  match e with
  | EWait => if ea =? 1 then 5 else 0
  | ECheck => 4
  | ELaunch => 3
  | EFailed => 2
  | EOk => 1
  | EFailed2 => 1
  | EReturned => 0
  end.

Definition weight (s : mon cmd) : nat :=
  10 * length (stdin s) + line_rank (lpc s) + exec_rank (epc s) (exec_args s).

(** The lines up to the first one that makes the input thread leave
    ([exit], or a [cd] that fails fatally). *)
Fixpoint before_exit (ls : list (line_kind cmd)) : list (line_kind cmd) :=
  match ls with
  | [] => []
  | Exit :: _ => []
  | l :: r => l :: before_exit r
  end.

(** Whether the input thread is on its way out. *)
Definition leaving (p : line_pc) : bool :=
  match p with
  | LExiting | LReturned => true
  | _ => false
  end.

End Runs.

Arguments steps {cmd} _ _ _.
Arguments weight {cmd} s.
Arguments before_exit {cmd} ls.

(** Five lines: a command, a line that is refused, a command, [exit], and a
    command behind it; and the state in which both threads have returned
    after the first two commands were launched. *)
Definition closing_lines : list (line_kind nat) :=
  [Run 1%nat; Rejected; Run 2%nat; Exit; Run 3%nat].

Definition closing_mon : mon nat :=
  Mon nat 1 1 Freed LReturned EReturned [Run 3%nat] [1%nat; 2%nat]
      [1%nat; 2%nat] false.

End MonitorRuns.

(** ** The job list in memory (shell.h)

    The functions of the job list once more, on the items as [malloc] hands
    them out and [free] takes them back.  An address is a number, 0 is NULL;
    the heap tells for each address whether an item is allocated there.
    Reading or writing through NULL or through an address that holds no
    item, and freeing such an address, have no defined result. *)

Module JobHeap.

(** [struct job_item] *)
Record item : Type := {
  i_pid : Z;
  i_name : string;
  i_next : nat
}.

Definition heap : Type := list (option item).

(** [struct job_list] (without its mutex), with the heap its items live
    in. *)
Record jlist : Type := {
  first : nat;
  cells : heap
}.

(** The item at address [a]. *)
Definition cell (h : heap) (a : nat) : option item :=
  match a with
  | O => None
  | _ => match nth_error h a with
         | Some (Some x) => Some x
         | _ => None
         end
  end.

(** [free(a)] *)
Definition release (h : heap) (a : nat) : option heap :=
  match cell h a with
  | Some _ => Some (upd h a None)
  | None => None
  end.

Definition set_next (x : item) (n : nat) : item :=
  {| i_pid := i_pid x; i_name := i_name x; i_next := n |}.

(** [jobs_init]: [list->first = NULL]. *)
Definition jobs_init (h : heap) : jlist := {| first := 0; cells := h |}.

(** [jobs_insert]; [a] is what [malloc] returns: NULL, or the address of a
    cell of the heap that is not in use. *)
Definition jobs_insert (a : nat) (l : jlist) (nm : string) (p : Z)
    : option (Z * jlist * string) :=
  match a with
  | O => Some (-1, l, msg_no_job_memory)
  | _ =>
      match nth_error (cells l) a with
      | Some None =>
          if MAXARG <=? Z.of_nat (String.length nm) then None
          else
            Some (0,
                  {| first := a;
                     cells := upd (cells l) a
                                (Some {| i_pid := p; i_name := nm;
                                         i_next := first l |}) |},
                  EmptyString)
      | _ => None
      end
  end.

(** The loop of [jobs_find_remove], at [it] with [prev]:
    [while (it != NULL) { if (it->pid == pid) { if (it == list->first)
     list->first = it->next; prev->next = it->next; free(it); return 1; }
     prev = it; it = it->next; }] *)
Fixpoint find_loop (fuel : nat) (l : jlist) (it prev : nat) (p : Z)
    : option (Z * jlist) :=
  match fuel with
  | O => None
  | S f =>
      match it with
      | O => Some (0, l)
      | _ =>
          match cell (cells l) it with
          | None => None
          | Some x =>
              if i_pid x =? p then
                let fst' := if (it =? first l)%nat then i_next x else first l in
                match cell (cells l) prev with
                | None => None
                | Some y =>
                    let h1 := upd (cells l) prev (Some (set_next y (i_next x))) in
                    match release h1 it with
                    | None => None
                    | Some h2 => Some (1, {| first := fst'; cells := h2 |})
                    end
                end
              else find_loop f l (i_next x) it p
          end
      end
  end.

Definition jobs_find_remove (l : jlist) (p : Z) : option (Z * jlist) :=
  match first l with
  | O => Some (0, l)
  | _ => find_loop (S (length (cells l))) l (first l) (first l) p
  end.

(** The loop of [jobs_print]. *)
Fixpoint print_loop (fuel : nat) (h : heap) (it : nat) : option (list string) :=
  match fuel with
  | O => None
  | S f =>
      match it with
      | O => Some []
      | _ =>
          match cell h it with
          | None => None
          | Some x =>
              match print_loop f h (i_next x) with
              | Some out => Some (job_line (i_pid x) (i_name x) :: out)
              | None => None
              end
          end
      end
  end.

Definition jobs_print (l : jlist) : option (list string) :=
  match first l with
  | O => Some []
  | _ => print_loop (S (length (cells l))) (cells l) (first l)
  end.

(** The loop of [jobs_free]:
    [while (it != NULL) { list->first = list->first->next; free(it);
     it = list->first; }] *)
Fixpoint free_loop (fuel : nat) (l : jlist) (it : nat) : option jlist :=
  match fuel with
  | O => None
  | S f =>
      match it with
      | O => Some l
      | _ =>
          match cell (cells l) (first l) with
          | None => None
          | Some x =>
              match release (cells l) it with
              | None => None
              | Some h' =>
                  free_loop f {| first := i_next x; cells := h' |} (i_next x)
              end
          end
      end
  end.

Definition jobs_free (l : jlist) : option jlist :=
  match first l with
  | O => Some l
  | _ =>
      match free_loop (S (length (cells l))) l (first l) with
      | Some l' => Some {| first := 0; cells := cells l' |}
      | None => None
      end
  end.

(** The chain from [p] is the list [l], its items at the addresses
    [addrs]. *)
Fixpoint chain (h : heap) (p : nat) (addrs : list nat) (l : job_list)
    : Prop :=
  match addrs, l with
  | [], [] => p = O
  | a :: addrs', x :: l' =>
      p = a /\ a <> O /\
      exists nx,
        cell h a = Some {| i_pid := pid x; i_name := name x; i_next := nx |} /\
        chain h nx addrs' l'
  | _, _ => False
  end.

(** The job list [jl] stands for the list [l]. *)
Definition stands_for (jl : jlist) (addrs : list nat) (l : job_list) : Prop :=
  chain (cells jl) (first jl) addrs l /\ NoDup addrs.

(** [a] is a cell that [malloc] may hand out. *)
Definition unused (h : heap) (a : nat) : Prop :=
  a <> O /\ nth_error h a = Some None.

(** A heap of eight cells with the two jobs [7 vim] and [42 sleep], the
    second one inserted last. *)
Definition sample_heap : heap :=
  [None; None; Some {| i_pid := 7; i_name := "vim"; i_next := 0 |}; None;
   None; Some {| i_pid := 42; i_name := "sleep"; i_next := 2 |}; None; None].

Definition sample_jlist : jlist := {| first := 5; cells := sample_heap |}.

End JobHeap.

(** ** The input thread: [flush_input] and the loop of [input_start] (shell.c)

    The answers of [read] on stdin are taken from the environment, one per
    call, in the order of the calls; when the answers are used up, [read]
    returns 0 (end of file). *)

Inductive read_answer : Type :=
| ReadErr (errno : Z)          (* [n < 0] *)
| ReadEOF                      (* [n == 0] *)
| ReadBytes (l : list ascii).  (* [n = length l] bytes were stored *)

(** How [flush_input] ends: it returns, or it ends the thread through
    [pthread_exit] after a failed read. *)
Inductive flushed : Type :=
| FlushDone
| FlushExit (errno : Z).

(** What [read(STDIN_FILENO, &cmd_buf, MAXLEN)] stores: the bytes [l] from
    the start of [cmd_buf]; the rest of the buffer is left as it was. *)
Definition read_into (t : state) (l : list ascii) : state :=
  with_mem t {| below := below (mem t);
                cmd_buf := l ++ skipn (length l) (cmd_buf (mem t)) |}.

(** [cmd_buf[n-1] = '\0';] *)
Definition terminate_line (t : state) (n : Z) : option state :=
  match store (mem t) (n - 1) NUL with
  | Some m => Some (with_mem t m)
  | None => None
  end.

(** The globals and the buffer that [create_args(cmd_buf)] finds after a
    read of the bytes [l], fewer than [MAXLEN]. *)
Definition fetch (t : state) (l : list ascii) : option state :=
  terminate_line (read_into t l) (Z.of_nat (length l)).

Section InputThread.
Context {P : Posix}.

(** The error number EINTR of <errno.h>. *)
Variable EINTR : Z.

(** What [change_cwd] finds at [args[1]] in the [k]-th round of the loop,
    and whether the exec thread has set the exit flag when the hand-off of
    that round is over. *)
Variable stale : nat -> string.
Variable launch_failed : nat -> bool.

(** [flush_input]: reads single bytes up to a newline or the end of file;
    the answers that are left are returned. *)
Fixpoint flush_input (ins : list read_answer)
    : option (flushed * list read_answer) :=
  match ins with
  | [] => Some (FlushDone, [])
  | ReadEOF :: r => Some (FlushDone, r)
  | ReadErr e :: r =>
      if e =? EINTR then flush_input r else Some (FlushExit e, r)
  | ReadBytes [c] :: r =>
      if Ascii.eqb c LF then Some (FlushDone, r) else flush_input r
  | ReadBytes _ :: _ => None    (* no answer to a read of one byte *)
  end.

(** After the hand-off:
    [monitor_args_wait_finished(); clear_args();], with the exit flag as the
    exec thread has left it. *)
Definition after_handoff (failed : bool) (sh : shell) : shell :=
  {| tk := clear_args (tk sh); jobs := jobs sh; exec_args := 0;
     exit_flag := if failed then 1 else exit_flag sh;
     cwd := cwd sh; out := out sh |}.

(** The loop [while ((n = read(STDIN_FILENO, &cmd_buf, MAXLEN)) != 0)] and
    what follows it, in round [k]: the value the thread returns, the shell
    and the answers not used. *)
Fixpoint input_loop (fuel k : nat) (ins : list read_answer) (sh : shell)
    : option (Z * shell * list read_answer) :=
  match fuel with
  | O => None
  | S f =>
      match ins with
      | [] => Some (0, signal_exit (emit sh [Stdout nl]), [])
      | ReadEOF :: r => Some (0, signal_exit (emit sh [Stdout nl]), r)
      | ReadErr e :: r => Some (1, signal_exit (emit sh [Perror "read" e]), r)
      | ReadBytes l :: r =>
          let n := Z.of_nat (length l) in
          if (n <=? 0) || (MAXLEN <? n) then None
          else
            let sh1 := with_tk sh (read_into (tk sh) l) in
            if n =? MAXLEN then
              if Ascii.eqb (last l NUL) LF then
                input_loop f (S k) r
                  (emit sh1 [Stderr msg_too_long; Stdout "$ "])
              else
                match flush_input r with
                | None => None
                | Some (FlushExit e, r') =>
                    Some (1, signal_exit (emit sh1 [Perror "read" e]), r')
                | Some (FlushDone, r') =>
                    input_loop f (S k) r'
                      (emit sh1 [Stderr msg_too_long; Stdout "$ "])
                end
            else
              match terminate_line (tk sh1) n with
              | None => None
              | Some t =>
                  match input_line (stale k) (with_tk sh1 t) with
                  | None => None
                  | Some (Return rv, sh2) => Some (rv, sh2, r)
                  | Some (Continue, sh2) => input_loop f (S k) r sh2
                  | Some (Handoff, sh2) =>
                      let sh3 := after_handoff (launch_failed k) sh2 in
                      if exit_flag sh3 =? 0
                      then input_loop f (S k) r (emit sh3 [Stdout "$ "])
                      else Some (0, sh3, r)
                  end
              end
      end
  end.

(** [input_start]: the first prompt, then the loop. *)
Definition input_start (ins : list read_answer) (sh : shell)
    : option (Z * shell * list read_answer) :=
  input_loop (S (length ins)) 0 ins (emit sh [Stdout "$ "]).

End InputThread.

(** Single bytes as answers to reads of one byte. *)
Definition byte_answers (l : list ascii) : list read_answer :=
  map (fun c => ReadBytes [c]) l.

(** The answers [flush_input] passes over: interrupted reads and bytes
    other than the newline. *)
Definition passed_over (EINTR : Z) (a : read_answer) : bool :=
  match a with
  | ReadErr e => e =? EINTR
  | ReadBytes [c] => negb (Ascii.eqb c LF)
  | _ => false
  end.

(** A buffer of [MAXLEN] bytes that holds an earlier line, and the shell
    with it. *)
Definition used_buffer : list ascii :=
  bytes "make -j8 all" ++ repeat "#"%char (Z.to_nat MAXLEN - 12).

Definition shell_with_buffer (buf : list ascii) : shell :=
  shell_of {| mem := {| below := [NUL]; cmd_buf := buf |};
              argsc := 0; args := ArgsNull;
              redir_t := repeat NUL (Z.to_nat MAXARG);
              redir_f := repeat NUL (Z.to_nat MAXARG);
              run_bg := 0; heap := 16; stderr := EmptyString |}.

(** The first word of a line of words [ws] and a last word. *)
Definition first_word (ws : list (list ascii * list ascii))
    (last : list ascii) : list ascii :=
  match ws with
  | [] => last
  | (w, _) :: _ => w
  end.

(** The bytes of a line of words, closed by a run of blanks and [&] when
    [bg] is set. *)
Definition plain_line (lead : list ascii)
    (ws : list (list ascii * list ascii)) (last sep : list ascii)
    (bg : bool) : list ascii :=
  lead ++ join ws last ++ (if bg then sep ++ ["&"%char] else []).

(** ** Command lines of words and redirections

    A token is a plain word, or an operator [<] or [>] with the path that
    follows it directly. *)

Inductive token : Type :=
| Word (w : list ascii)
| Redirect (op : ascii) (path : list ascii).

(** The bytes of a token on the line. *)
Definition text (t : token) : list ascii :=
  match t with
  | Word w => w
  | Redirect op p => op :: p
  end.

(** A path that fits [redir_t] or [redir_f] with its operator. *)
Definition good_path (p : list ascii) : Prop :=
  (forall c, In c p -> solid c) /\ Z.of_nat (length p) + 1 < MAXARG.

(** A token with a blank behind it: the path of a redirection is not
    empty. *)
Definition good_token (t : token) : Prop :=
  match t with
  | Word w => plain_word w
  | Redirect op p => is_redir op = true /\ p <> [] /\ good_path p
  end.

(** The last token of a line: the path of a redirection may be empty. *)
Definition good_last (t : token) : Prop :=
  match t with
  | Word w => plain_word w
  | Redirect op p => is_redir op = true /\ good_path p
  end.

(** Tokens with the run of blanks behind each. *)
Definition good_tokens (ts : list (token * list ascii)) : Prop :=
  Forall (fun p => good_token (fst p) /\ blank_run (snd p)) ts.

Definition texts (ts : list (token * list ascii))
    : list (list ascii * list ascii) :=
  map (fun p => (text (fst p), snd p)) ts.

(** The words among tokens, in order. *)
Fixpoint words_of (l : list token) : list (list ascii) :=
  match l with
  | [] => []
  | Word w :: r => w :: words_of r
  | Redirect _ _ :: r => words_of r
  end.

(** The array [redir_t] or [redir_f] after
    [memcpy(redir, bptr, j); redir[j-1] = '\0';] for the path [p]. *)
Definition stored (p r : list ascii) : list ascii :=
  p ++ NUL :: skipn (S (length p)) r.

(** The array of the operator [op] after the tokens [l], from [r]. *)
Fixpoint redir_after (op : ascii) (l : list token) (r : list ascii)
    : list ascii :=
  match l with
  | [] => r
  | Word _ :: l' => redir_after op l' r
  | Redirect o p :: l' =>
      redir_after op l' (if Ascii.eqb o op then stored p r else r)
  end.

(** The path of the last redirection with [op] among tokens. *)
Fixpoint last_path (op : ascii) (l : list token) : option (list ascii) :=
  match l with
  | [] => None
  | Word _ :: l' => last_path op l'
  | Redirect o p :: l' =>
      match last_path op l' with
      | Some q => Some q
      | None => if Ascii.eqb o op then Some p else None
      end
  end.

(** The redirection the tokens [l] ask for with [op]; [old] is the one in
    force before. *)
Definition redirection (op : ascii) (l : list token) (old : option string)
    : option string :=
  match last_path op l with
  | Some [] => None
  | Some p => Some (string_of_list_ascii p)
  | None => old
  end.

(** The bytes of a line of tokens, closed by a run of blanks and [&] when
    [bg] is set. *)
Definition token_line (lead : list ascii) (ts : list (token * list ascii))
    (tlast : token) (sep : list ascii) (bg : bool) : list ascii :=
  lead ++ join (texts ts) (text tlast)
       ++ (if bg then sep ++ ["&"%char] else []).

(** A token without blank, tab or NUL that fits a block; runs of blanks
    behind such tokens. *)
Definition tokenlike (w : list ascii) : Prop :=
  Z.of_nat (length w) < MAXARG /\ (forall c, In c w -> solid c) /\ w <> [].

Definition token_pairs (l : list (list ascii * list ascii)) : Prop :=
  Forall (fun p => tokenlike (fst p) /\ blank_run (snd p)) l.

(** The same predicates as functions. *)
Definition good_pathb (p : list ascii) : bool :=
  forallb solidb p && (Z.of_nat (length p) + 1 <? MAXARG).

Definition good_tokenb (t : token) : bool :=
  match t with
  | Word w => plain_wordb w
  | Redirect op p =>
      is_redir op && match p with [] => false | _ => true end && good_pathb p
  end.

Definition good_lastb (t : token) : bool :=
  match t with
  | Word w => plain_wordb w
  | Redirect op p => is_redir op && good_pathb p
  end.

Definition good_tokensb (ts : list (token * list ascii)) : bool :=
  forallb (fun p => good_tokenb (fst p) && blank_runb (snd p)) ts.

(** The globals after the second pass has gone over the tokens [l]: [args]
    is the array [a], and the paths are in [redir_t] and [redir_f]. *)
Definition after_tokens (s : state) (a : list (option block))
    (l : list token) : state :=
  with_redir_f
    (with_redir_t (with_args s (ArgsLive a))
                  (redir_after ">"%char l (redir_t s)))
    (redir_after "<"%char l (redir_f s)).

(** ** What a call may do to the globals

    [spec m okP retP]: whenever the computation [m] falls through, [okP]
    relates the states before and after, and whenever it executes [return],
    [retP] relates the value and the states. *)

Definition spec {A : Type} (m : M A) (okP : state -> state -> Prop)
    (retP : Z -> state -> state -> Prop) : Prop :=
  forall s,
    match m s with
    | Ok _ s' => okP s s'
    | Ret rv s' => retP rv s s'
    | Undef => True
    end.

(** A line was refused: nothing of a command was produced or allocated, and
    stderr got one of the two diagnostics of the first pass. *)
Definition refused (s s' : state) : Prop :=
  args s' = args s /\ redir_t s' = redir_t s /\ redir_f s' = redir_f s /\
  heap s' = heap s /\
  (stderr s' = (stderr s ++ msg_too_long)%string \/
   exists op, is_redir op = true /\
              stderr s' = (stderr s ++ msg_no_space op)%string).

(** How the first pass returns: with 1, the line refused. *)
Definition front_ret (rv : Z) (s s' : state) : Prop := rv = 1 /\ refused s s'.

(** An allocation failed: stderr got "Not enough memory!", and the
    redirection names are as before. *)
Definition out_of_memory (s s' : state) : Prop :=
  stderr s' = (stderr s ++ msg_no_memory)%string /\
  redir_t s' = redir_t s /\ redir_f s' = redir_f s.

(** What the allocation and the second pass leave alone. *)
Definition same_stderr (s s' : state) : Prop := stderr s' = stderr s.

Definition same_names (s s' : state) : Prop :=
  stderr s' = stderr s /\ redir_t s' = redir_t s /\ redir_f s' = redir_f s.

(** The three ways [create_args] returns. *)
Definition return_contract (rv : Z) (s s' : state) : Prop :=
  (rv = 0 /\ stderr s' = stderr s) \/
  (rv = 1 /\ refused s s') \/
  (rv = -1 /\ out_of_memory s s').

(** A computation that does not fall through, and one that does not
    return. *)
Definition never (s s' : state) : Prop := False.
Definition no_return (rv : Z) (s s' : state) : Prop := False.

(** How the allocation returns, and how allocation and second pass
    return. *)
Definition alloc_ret (rv : Z) (s s' : state) : Prop :=
  rv = -1 /\ out_of_memory s s'.

Definition tail_ret (rv : Z) (s s' : state) : Prop :=
  (rv = 0 /\ stderr s' = stderr s) \/ (rv = -1 /\ out_of_memory s s').
(** ** Lines with blanks behind the last word *)

(** Words as tokens. *)
Definition as_words (ws : list (list ascii * list ascii))
    : list (token * list ascii) :=
  map (fun p => (Word (fst p), snd p)) ws.

(** The bytes of a line of words with the run of blanks [sep] behind the
    last word. *)
Definition blank_closed_line (lead : list ascii)
    (ws : list (list ascii * list ascii)) (last sep : list ascii)
    : list ascii :=
  lead ++ join ws last ++ sep.
(** * Properties *)

(** ** The monitor *)

Module MonitorFacts.
Import Monitor.
Section Handoff.
Variable cmd : Type.
Implicit Types s : mon cmd.

Lemma inv_init (input : list (line_kind cmd)) : inv (init input).
Proof. unfold inv, init; simpl; auto. Qed.

Ltac inv_cases :=
  repeat match goal with
         | H : _ /\ _ |- _ => destruct H
         | H : _ \/ _ |- _ => destruct H
         | H : exists _, _ |- _ => destruct H
         | H : False |- _ => destruct H
         end.

Ltac inv_close :=
  subst; simpl in *; try discriminate; try lia;
  rewrite ?app_nil_r;
  first [ solve [repeat split; eauto]
        | solve [split; [auto | left; repeat split; eauto]]
        | solve [split; [auto | right; repeat split; eauto]] ].

Lemma inv_step s s' : inv s -> step s s' -> inv s'.
Proof.
  intros [Hx H] Hst.
  destruct Hst; unfold Monitor.inv in *; simpl in *;
    try (destruct e; inv_cases; inv_close);
    try (destruct p; inv_cases; inv_close).
  destruct p, ok0; inv_cases; inv_close.
Qed.


Lemma inv_reachable (input : list (line_kind cmd)) s :
  reachable input s -> inv s.
Proof.
  induction 1 as [|s s' _ IH Hst].
  - apply inv_init.
  - exact (inv_step s s' IH Hst).
Qed.

(** The commands of the input are handed over in the order of the lines. *)
Lemma runs_reachable (input : list (line_kind cmd)) s :
  reachable input s ->
  runs input = handed s ++ parsed_pending s ++ runs (stdin s).
Proof.
  induction 1 as [|s s' _ IH Hst].
  - reflexivity.
  - destruct Hst; unfold parsed_pending in *; simpl in *;
      rewrite ?app_nil_r in *; try assumption.
    + rewrite <- app_assoc. assumption.
    + destruct (ef =? 0); simpl; rewrite ?app_nil_r; assumption.
Qed.

(** Unless both threads have returned, one of them can take a step. *)
Lemma progress s :
  inv s -> (lpc s = LReturned /\ epc s = EReturned) \/ exists s', step s s'.
Proof.
  destruct s as [ea ef st p e i h l x]. intros [_ H]. simpl in H.
  destruct p.
  - right. destruct i as [|[c| | | ] rest]; eexists; constructor.
  - right. eexists. constructor.
  - destruct e; inv_cases; subst; right;
      try (eexists; exact (exec_launch cmd true _ _ _ _ _ _ _ _));
      eexists; constructor.
  - right. eexists. constructor.
  - right. eexists. constructor.
  - right. eexists. constructor.
  - destruct e; inv_cases; subst;
      first [ left; split; reflexivity | right; eexists; constructor ].
Qed.

(** C1. Whatever the interleaving of the input thread and the exec thread,
    the commands [execute_file] has been called on are the commands handed to
    [monitor_args_execute], in the same order, each once, with at most the
    last one still outstanding; these are the commands of the lines read, in
    the order of the lines.  [execute_file] never runs on storage that does
    not hold the command handed over: when the exec thread is about to
    launch, the input thread is waiting and [args] holds the outstanding
    command.  The input thread changes the storage (fills it again or frees
    it) only when every command handed over has been launched and the exec
    thread is back in its wait or has returned.  Unless both threads have
    returned, with every command launched, the system can take a step. *)
Theorem handoff_exactly_once_in_order (input : list (line_kind cmd)) s :
  reachable input s ->
  (exists pending,
      handed s = launched s ++ pending /\ (length pending <= 1)%nat) /\
  (exists rest, runs input = handed s ++ rest) /\
  stray s = false /\
  (epc s = ELaunch ->
   lpc s = LWait /\
   exists c, store s = Holds c /\ handed s = launched s ++ [c]) /\
  (forall s', step s s' -> store s' <> store s ->
              launched s = handed s /\ (epc s = EWait \/ epc s = EReturned)) /\
  ((lpc s = LReturned /\ epc s = EReturned /\ launched s = handed s) \/
   exists s', step s s').
Proof.
  intros Hr.
  pose proof (inv_reachable input s Hr) as Hi.
  pose proof (runs_reachable input s Hr) as Hruns.
  destruct s as [ea ef st p e i h l x].
  destruct Hi as [Hx Hi]. simpl in *.
  split; [|split; [|split; [|split; [|split]]]].
  - destruct p, e; inv_cases; subst;
      first [ exists []; rewrite app_nil_r; split; [reflexivity | simpl; lia]
            | eexists; split; [reflexivity | simpl; lia] ].
  - eexists. exact Hruns.
  - exact Hx.
  - intros He. subst e. destruct p; inv_cases; subst; try contradiction.
    split; [reflexivity | eauto].
  - intros s' Hst Hne. inversion Hst; subst; simpl in *;
      try (exfalso; apply Hne; reflexivity);
      destruct e; inv_cases; subst; auto; discriminate.
  - destruct (progress (Mon cmd ea ef st p e i h l x) (conj Hx Hi))
      as [[Hl He] | Hs]; [left | right; exact Hs].
    simpl in Hl, He. subst p e. inv_cases. auto.
Qed.

End Handoff.

Local Tactic Notation "run" hyp(H) uconstr(c) :=
  let H' := fresh in
  pose proof (reach_step nat _ _ _ H c) as H'; simpl in H'; clear H;
  rename H' into H.

(** A run: the first line is launched and cleared, the second is settled by
    the input thread, the third is handed over and about to be launched. *)
Lemma sample_run : reachable sample_lines sample_mon.
Proof.
  pose proof (reach_init nat sample_lines) as H.
  unfold init, sample_lines in H.
  run H (line_parsed nat _ _ _ _ _ _ _ _ _).
  run H (line_execute nat _ _ _ _ _ _ _ _).
  run H (exec_executable nat _ _ _ _ _ _ _).
  run H (exec_flag nat _ _ _ _ _ _ _ _).
  run H (exec_launch nat true _ _ _ _ _ _ _ _).
  run H (exec_executed nat _ _ _ _ _ _ _ _).
  run H (line_finished nat _ _ _ _ _ _ _).
  run H (line_clear nat _ _ _ _ _ _ _ _).
  run H (line_flag nat _ _ _ _ _ _ _ _).
  run H (line_builtin nat _ _ _ _ _ _ _ _).
  run H (line_parsed nat _ _ _ _ _ _ _ _ _).
  run H (line_execute nat _ _ _ _ _ _ _ _).
  run H (exec_executable nat _ _ _ _ _ _ _).
  run H (exec_flag nat _ _ _ _ _ _ _ _).
  exact H.
Qed.

Lemma handoff_exactly_once_in_order_witness :
  (exists pending,
      handed sample_mon = launched sample_mon ++ pending /\
      (length pending <= 1)%nat) /\
  (exists rest, runs sample_lines = handed sample_mon ++ rest) /\
  stray sample_mon = false /\
  (epc sample_mon = ELaunch ->
   lpc sample_mon = LWait /\
   exists c, store sample_mon = Holds c /\
             handed sample_mon = launched sample_mon ++ [c]) /\
  (forall s', step sample_mon s' -> store s' <> store sample_mon ->
              launched sample_mon = handed sample_mon /\
              (epc sample_mon = EWait \/ epc sample_mon = EReturned)) /\
  ((lpc sample_mon = LReturned /\ epc sample_mon = EReturned /\
    launched sample_mon = handed sample_mon) \/
   exists s', step sample_mon s').
Proof.
  apply (handoff_exactly_once_in_order nat sample_lines sample_mon).
  exact sample_run.
Defined.

End MonitorFacts.

(** ** The job list *)

Lemma unlink_absent (l : job_list) (p : Z) :
  (forall it, In it l -> pid it <> p) -> unlink l p = None.
Proof.
  induction l as [|x l IH]; intros H; simpl.
  - reflexivity.
  - destruct (Z.eqb_spec (pid x) p) as [E|_].
    + exfalso. apply (H x); [left; reflexivity | exact E].
    + rewrite IH; [reflexivity|]. intros it Hit. apply H. right. exact Hit.
Qed.

Lemma uint_no_bracket (d : Decimal.uint) :
  no_bracket (NilEmpty.string_of_uint d).
Proof.
  induction d; simpl; intros c Hc;
    try contradiction;
    (destruct Hc as [Hc|Hc]; [subst c; discriminate | exact (IHd c Hc)]).
Qed.

Lemma dec_no_bracket (z : Z) : no_bracket (dec z).
Proof.
  unfold dec, NilEmpty.string_of_int.
  destruct (Z.to_int z) as [d|d].
  - apply uint_no_bracket.
  - intros c [Hc|Hc]; [subst c; discriminate|].
    revert c Hc. apply uint_no_bracket.
Qed.

Lemma dec_inj (z z' : Z) : dec z = dec z' -> z = z'.
Proof.
  unfold dec. intros H. apply DecimalZ.to_int_inj.
  assert (E : NilEmpty.int_of_string (NilEmpty.string_of_int (Z.to_int z)) =
              NilEmpty.int_of_string (NilEmpty.string_of_int (Z.to_int z'))).
  { rewrite H. reflexivity. }
  rewrite !NilEmpty.isi in E.
  injection E as E. exact E.
Qed.

(** Two strings without bracket that are followed by a bracket are equal
    when the whole texts are. *)
Lemma bracket_delimits (a b r r' : string) :
  no_bracket a -> no_bracket b ->
  (a ++ String "]" r)%string = (b ++ String "]" r')%string -> a = b.
Proof.
  revert b. induction a as [|x a IH]; intros [|y b] Ha Hb E; simpl in E.
  - reflexivity.
  - injection E as E _. exfalso. apply (Hb y); [left; reflexivity | auto].
  - injection E as E _. exfalso. apply (Ha x); [left; reflexivity | auto].
  - injection E as E1 E2. subst y. f_equal.
    apply IH; auto.
    + intros c Hc. apply Ha. right. exact Hc.
    + intros c Hc. apply Hb. right. exact Hc.
Qed.

Lemma job_line_pid (p p' : Z) (nm nm' : string) :
  job_line p nm = job_line p' nm' -> p = p'.
Proof.
  unfold job_line. simpl. intros E. injection E as E.
  apply dec_inj.
  apply (bracket_delimits _ _ _ _ (dec_no_bracket p) (dec_no_bracket p') E).
Qed.

Lemma jobs_print_absent (l : job_list) (p : Z) (nm : string) :
  (forall it, In it l -> pid it <> p) -> ~ In (job_line p nm) (jobs_print l).
Proof.
  intros H Hin. unfold jobs_print in Hin.
  apply in_map_iff in Hin. destruct Hin as [it [E Hit]].
  apply job_line_pid in E. exact (H it Hit E).
Qed.

(** C7. For a name that fits [name[MAXARG]] and a pid that no job of the list
    has, after [jobs_insert] the item is in the list and [jobs_print] writes
    its line [[pid] name]; [jobs_find_remove] for the pid then returns 1 and
    leaves the list as it was before the insertion, so no item with that pid
    is left and [jobs_print] does not write the line; a second
    [jobs_find_remove] for the pid returns 0. *)
Theorem jobs_round_trip (l : job_list) (nm : string) (p : Z) :
  Z.of_nat (String.length nm) < MAXARG ->
  (forall it, In it l -> pid it <> p) ->
  exists l1,
    jobs_insert true l nm p = Some (0, l1, EmptyString) /\
    In {| pid := p; name := nm |} l1 /\
    In (job_line p nm) (jobs_print l1) /\
    exists l2,
      jobs_find_remove l1 p = (1, l2) /\
      l2 = l /\
      (forall it, In it l2 -> pid it <> p) /\
      ~ In (job_line p nm) (jobs_print l2) /\
      jobs_find_remove l2 p = (0, l2).
Proof.
  intros Hfit Hnew.
  exists ({| pid := p; name := nm |} :: l).
  split; [|split; [|split]].
  - unfold jobs_insert. simpl.
    destruct (Z.leb_spec MAXARG (Z.of_nat (String.length nm))); [lia|reflexivity].
  - left. reflexivity.
  - left. reflexivity.
  - exists l. split; [|split; [|split; [|split]]].
    + unfold jobs_find_remove. simpl. rewrite Z.eqb_refl. reflexivity.
    + reflexivity.
    + exact Hnew.
    + apply jobs_print_absent. exact Hnew.
    + unfold jobs_find_remove. rewrite (unlink_absent l p Hnew). reflexivity.
Qed.

Lemma jobs_round_trip_witness :
  exists l1,
    jobs_insert true [{| pid := 7; name := "vim" |}] "sleep" 42
      = Some (0, l1, EmptyString) /\
    In {| pid := 42; name := "sleep" |} l1 /\
    In (job_line 42 "sleep") (jobs_print l1) /\
    exists l2,
      jobs_find_remove l1 42 = (1, l2) /\
      l2 = [{| pid := 7; name := "vim" |}] /\
      (forall it, In it l2 -> pid it <> 42) /\
      ~ In (job_line 42 "sleep") (jobs_print l2) /\
      jobs_find_remove l2 42 = (0, l2).
Proof.
  apply (jobs_round_trip [{| pid := 7; name := "vim" |}] "sleep" 42).
  - reflexivity.
  - intros it [E|[]]. subst it. simpl. discriminate.
Defined.

(** ** Status lines *)

Section StatusFacts.
Context {P : Posix}.

(** C10. When the signal thread reaps a child ([w > 0]) whose pid is in the
    job list, it removes the job and writes the line of [print_status]: for a
    child that exited with status 0 this is [[pid]+ Done]; for a child that
    neither exited nor was killed and is stopped it is [[pid]+ Stopped]; for
    one that is none of exited, killed, stopped it is [[pid]+ Terminated]. *)
Theorem sigchld_reports_done (w status ea ef : Z) (js : job_list) :
  0 < w ->
  (exists it, In it js /\ pid it = w) ->
  exists js' prompt,
    sig_handler SIGCHLD w status ea ef js
      = (false, js', print_status w status :: prompt) /\
    jobs_find_remove js w = (1, js') /\
    (WIFEXITED status = true -> WEXITSTATUS status = 0 ->
     print_status w status = (nl ++ "[" ++ dec w ++ "]+ Done" ++ nl)%string) /\
    (WIFEXITED status = false -> WIFSIGNALED status = false ->
     WIFSTOPPED status = true ->
     print_status w status = (nl ++ "[" ++ dec w ++ "]+ Stopped" ++ nl)%string) /\
    (WIFEXITED status = false -> WIFSIGNALED status = false ->
     WIFSTOPPED status = false ->
     print_status w status = (nl ++ "[" ++ dec w ++ "]+ Terminated" ++ nl)%string).
Proof.
  intros Hw [it [Hin Hpid]].
  assert (Hfound : exists js', unlink js w = Some js').
  { clear Hw. induction js as [|x js IH]; [contradiction|]. simpl.
    destruct (Z.eqb_spec (pid x) w) as [_|Hne]; [eauto|].
    destruct Hin as [E|Hin]; [subst x; contradiction|].
    destruct (IH Hin) as [js' E]. rewrite E. eauto. }
  destruct Hfound as [js' Hjs].
  exists js', (if ea =? 0 then ["$ "%string] else []).
  split; [|split; [|split; [|split]]].
  - unfold sig_handler, jobs_find_remove.
    destruct (Z.ltb_spec 0 w); [|lia]. rewrite Hjs. reflexivity.
  - unfold jobs_find_remove. rewrite Hjs. reflexivity.
  - intros He Hs. unfold print_status. rewrite He, Hs. reflexivity.
  - intros He Hk Hs. unfold print_status. rewrite He, Hk, Hs. reflexivity.
  - intros He Hk Hs. unfold print_status. rewrite He, Hk, Hs. reflexivity.
Qed.

(** C8, as the code has it.  For a command in the foreground
    ([run_bg = 0]) the parent side of [execute_file] leaves the job list
    alone and writes no status line: nothing when [waitpid] returns the
    child and the child was not killed by a signal, whatever its exit
    status, and a bare newline when it was killed.  The lines
    [[pid]+ Exit code] and [[pid]+ Killed] are those of [print_status], which
    only the signal thread calls, for a reaped child found in the job
    list. *)
Theorem foreground_writes_no_status (arg0 : string) (js : job_list)
    (cpid w errno status : Z) (malloc_ok : bool) :
  0 < w ->
  exists r,
    execute_file 0 arg0 js (ForkParent cpid) malloc_ok (w, errno, status)
      = Some r /\
    l_rv r = 0 /\ l_jobs r = js /\
    (WIFSIGNALED status = false -> l_out r = []) /\
    (WIFSIGNALED status = true -> l_out r = [Stdout nl]) /\
    (WIFEXITED status = true -> WEXITSTATUS status <> 0 ->
     print_status w status =
       (nl ++ "[" ++ dec w ++ "]+ Exit " ++ dec (WEXITSTATUS status) ++ nl)%string) /\
    (WIFEXITED status = false -> WIFSIGNALED status = true ->
     print_status w status = (nl ++ "[" ++ dec w ++ "]+ Killed" ++ nl)%string) /\
    (forall st ea ef, (forall it, In it js -> pid it <> w) ->
       sig_handler SIGCHLD w st ea ef js = (false, js, [])).
Proof.
  intros Hw.
  unfold execute_file. simpl.
  replace (w =? -1) with false by (symmetry; apply Z.eqb_neq; lia).
  simpl. destruct (Z.ltb_spec 0 w); [|lia].
  eexists. split; [reflexivity|]. simpl.
  split; [reflexivity|]. split; [reflexivity|].
  split; [intros ->; reflexivity|]. split; [intros ->; reflexivity|].
  split; [|split].
  - intros He Hs. unfold print_status. rewrite He.
    destruct (Z.eqb_spec (WEXITSTATUS status) 0); [contradiction|reflexivity].
  - intros He Hk. unfold print_status. rewrite He, Hk. reflexivity.
  - intros st ea ef Hnot. unfold sig_handler, jobs_find_remove.
    destruct (Z.ltb_spec 0 w); [|lia].
    rewrite (unlink_absent js w Hnot). reflexivity.
Qed.

(** ** cd *)

(** The branch of [cd] by the argument count.  With [argsc - 1 <> 2]
    [change_cwd] writes [cd: one argument required], does not call [chdir]
    and returns 1; the input thread keeps the working directory and the exit
    flag and goes on to the next line.  With [argsc - 1 = 2], a [chdir] that
    fails with ENOENT or ENOTDIR is reported as [No such directory] and the
    input thread goes on as well.  Any other failure of [chdir] is not
    reported: [change_cwd] returns -1 without writing, and the input thread
    sets the exit flag, wakes the exec thread and returns. *)
Lemma builtin_cd_cases (stale : string) (sh : shell) :
  (argsc (tk sh) - 1 <> 2 ->
   change_cwd (argsc (tk sh)) stale (cwd sh) = (1, cwd sh, msg_cd_usage) /\
   exists sh',
     builtin_cd stale sh = (Continue, sh') /\
     cwd sh' = cwd sh /\ exit_flag sh' = exit_flag sh /\
     out sh' = out sh ++ [Stderr msg_cd_usage; Stdout "$ "]) /\
  (argsc (tk sh) - 1 = 2 ->
   forall e, sys_chdir (cwd sh) stale = inr e ->
     ((e = ENOENT \/ e = ENOTDIR) ->
      change_cwd (argsc (tk sh)) stale (cwd sh)
        = (1, cwd sh, msg_cd_missing stale) /\
      exists sh',
        builtin_cd stale sh = (Continue, sh') /\
        cwd sh' = cwd sh /\ exit_flag sh' = exit_flag sh /\
        out sh' = out sh ++ [Stderr (msg_cd_missing stale); Stdout "$ "]) /\
     (e <> ENOENT -> e <> ENOTDIR ->
      change_cwd (argsc (tk sh)) stale (cwd sh) = (-1, cwd sh, EmptyString) /\
      exists sh',
        builtin_cd stale sh = (Return 0, sh') /\
        cwd sh' = cwd sh /\ exit_flag sh' = 1 /\ exec_args sh' = 1 /\
        out sh' = out sh)).
Proof.
  split.
  - intros Hc.
    assert (E : change_cwd (argsc (tk sh)) stale (cwd sh)
                = (1, cwd sh, msg_cd_usage)).
    { unfold change_cwd.
      destruct (Z.eqb_spec (argsc (tk sh) - 1) 2); [contradiction|reflexivity]. }
    split; [exact E|].
    unfold builtin_cd. simpl. rewrite E. simpl.
    eexists. split; [reflexivity|]. simpl.
    rewrite <- app_assoc. auto.
  - intros Hc e He. split.
    + intros Hmiss.
      assert (E : change_cwd (argsc (tk sh)) stale (cwd sh)
                  = (1, cwd sh, msg_cd_missing stale)).
      { unfold change_cwd. rewrite Hc, He. simpl.
        destruct Hmiss as [-> | ->]; rewrite Z.eqb_refl;
          rewrite ?orb_true_r; reflexivity. }
      split; [exact E|].
      unfold builtin_cd. simpl. rewrite E. simpl.
      eexists. split; [reflexivity|]. simpl.
      rewrite <- app_assoc. auto.
    + intros H1 H2.
      assert (E : change_cwd (argsc (tk sh)) stale (cwd sh)
                  = (-1, cwd sh, EmptyString)).
      { unfold change_cwd. rewrite Hc, He. simpl.
        destruct (Z.eqb_spec e ENOENT); [contradiction|].
        destruct (Z.eqb_spec e ENOTDIR); [contradiction|]. reflexivity. }
      split; [exact E|].
      unfold builtin_cd. simpl. rewrite E. simpl.
      eexists. split; [reflexivity|]. simpl.
      rewrite app_nil_r. auto.
Qed.

End StatusFacts.

(** ** The tokenizer on given lines *)

(** The line of C2 is refused. *)
Lemma spaced_redirection_is_refused :
  parse "sort < in.txt > out.txt" = ParseError (msg_no_space "<").
Proof. vm_compute. reflexivity. Qed.

(** C2, as the code has it.  In any state of the globals and of the memory
    around the line, with two allocations granted, the line
    [sort <in.txt >out.txt], where each path follows its operator directly,
    parses to the arguments [sort], the input redirection [in.txt], the
    output redirection [out.txt], not in the background; the line
    [sort < in.txt > out.txt] is a parse error, "No whitespaces after '<'
    operator!". *)
Theorem attached_redirections_parse (s : state) (rest : list ascii) :
  (2 <= heap s)%nat ->
  (cmd_buf (mem s) = bytes "sort <in.txt >out.txt" ++ NUL :: rest ->
   parse_from s =
     Parsed {| arguments := ["sort"%string];
               input_redirect := Some "in.txt"%string;
               output_redirect := Some "out.txt"%string;
               background := false |}) /\
  (cmd_buf (mem s) = bytes "sort < in.txt > out.txt" ++ NUL :: rest ->
   parse_from s = ParseError (stderr s ++ msg_no_space "<")%string).
Proof.
  intros Hh.
  destruct s as [[lo buf] a ar rt rf b h e]. simpl in *.
  destruct h as [|[|h]]; try lia.
  split; intros Hbuf; subst buf; vm_compute; reflexivity.
Qed.

Lemma attached_redirections_parse_witness :
  parse_from (boot [] 2 "sort <in.txt >out.txt") =
    Parsed {| arguments := ["sort"%string];
              input_redirect := Some "in.txt"%string;
              output_redirect := Some "out.txt"%string;
              background := false |} /\
  parse_from (boot [] 2 "sort < in.txt > out.txt") =
    ParseError (msg_no_space "<").
Proof.
  split.
  - apply (proj1 (attached_redirections_parse
                    (boot [] 2 "sort <in.txt >out.txt") [] ltac:(simpl; lia))).
    reflexivity.
  - apply (proj2 (attached_redirections_parse
                    (boot [] 2 "sort < in.txt > out.txt") []
                    ltac:(simpl; lia))).
    reflexivity.
Defined.

(** C3, on the code.  In any state, the line [echo >] is accepted:
    [create_args] returns 0 with the arguments [echo] and no output
    redirection ([redir_t] is emptied), while the same line followed by a
    blank is the parse error the specification asks for. *)
Theorem trailing_operator_is_accepted (s : state) (rest : list ascii) :
  (2 <= heap s)%nat ->
  (cmd_buf (mem s) = bytes "echo >" ++ NUL :: rest ->
   parse_from s =
     Parsed {| arguments := ["echo"%string];
               input_redirect := redirect (redir_f s);
               output_redirect := None; background := false |}) /\
  (cmd_buf (mem s) = bytes "echo > " ++ NUL :: rest ->
   parse_from s = ParseError (stderr s ++ msg_no_space ">")%string).
Proof.
  intros Hh.
  destruct s as [[lo buf] a ar rt rf b h e]. simpl in *.
  destruct h as [|[|h]]; try lia.
  split; intros Hbuf; subst buf; vm_compute; reflexivity.
Qed.

Lemma trailing_operator_is_accepted_witness :
  parse_from (boot [] 2 "echo >") =
    Parsed {| arguments := ["echo"%string]; input_redirect := None;
              output_redirect := None; background := false |} /\
  parse_from (boot [] 2 "echo > ") = ParseError (msg_no_space ">").
Proof.
  split.
  - apply (proj1 (trailing_operator_is_accepted (boot [] 2 "echo >") []
                    ltac:(simpl; lia))).
    reflexivity.
  - apply (proj2 (trailing_operator_is_accepted (boot [] 2 "echo > ") []
                    ltac:(simpl; lia))).
    reflexivity.
Defined.

(** ** Memory *)

Lemma length_upd {A : Type} (l : list A) (n : nat) (c : A) :
  length (upd l n c) = length l.
Proof.
  revert n. induction l as [|x l IH]; intros [|n]; simpl; auto.
Qed.

Lemma nth_error_upd_same {A : Type} (l : list A) (n : nat) (c : A) :
  (n < length l)%nat -> nth_error (upd l n c) n = Some c.
Proof.
  revert n. induction l as [|x l IH]; intros [|n] H; simpl in *;
    try lia; auto.
  apply IH. lia.
Qed.

Lemma nth_error_upd_other {A : Type} (l : list A) (n k : nat) (c : A) :
  k <> n -> nth_error (upd l n c) k = nth_error l k.
Proof.
  revert n k. induction l as [|x l IH]; intros [|n] [|k] H; simpl;
    try reflexivity; try contradiction.
  apply IH. lia.
Qed.


Lemma load_in_mem (m : memory) (k : Z) (c : ascii) :
  load m k = Some c -> in_mem m k.
Proof.
  unfold load, in_mem. destruct (Z.ltb_spec k 0) as [Hk|Hk]; intros H.
  - assert (Hn : nth_error (below m) (Z.to_nat (- k - 1)) <> None)
      by (rewrite H; discriminate).
    apply nth_error_Some in Hn. lia.
  - assert (Hn : nth_error (cmd_buf m) (Z.to_nat k) <> None)
      by (rewrite H; discriminate).
    apply nth_error_Some in Hn. lia.
Qed.

Lemma in_mem_load (m : memory) (k : Z) :
  in_mem m k -> exists c, load m k = Some c.
Proof.
  unfold load, in_mem. intros H. destruct (Z.ltb_spec k 0) as [Hk|Hk].
  - destruct (nth_error (below m) (Z.to_nat (- k - 1))) eqn:E; [eauto|].
    apply nth_error_None in E. lia.
  - destruct (nth_error (cmd_buf m) (Z.to_nat k)) eqn:E; [eauto|].
    apply nth_error_None in E. lia.
Qed.

Lemma in_mem_between (m : memory) (a b k : Z) :
  in_mem m a -> in_mem m b -> a <= k <= b -> in_mem m k.
Proof. unfold in_mem. lia. Qed.

Lemma store_in_mem (m : memory) (k : Z) (c : ascii) :
  in_mem m k ->
  exists m',
    store m k c = Some m' /\
    length (below m') = length (below m) /\
    length (cmd_buf m') = length (cmd_buf m) /\
    load m' k = Some c /\
    forall j, j <> k -> load m' j = load m j.
Proof.
  unfold in_mem, store. intros H. destruct (Z.ltb_spec k 0) as [Hk|Hk].
  - destruct (Nat.ltb_spec (Z.to_nat (- k - 1)) (length (below m))); [|lia].
    eexists. split; [reflexivity|]. simpl.
    split; [apply length_upd|]. split; [reflexivity|]. split.
    + unfold load. simpl. destruct (Z.ltb_spec k 0); [|lia].
      apply nth_error_upd_same. assumption.
    + intros j Hj. unfold load. simpl. destruct (Z.ltb_spec j 0); [|reflexivity].
      apply nth_error_upd_other. lia.
  - destruct (Nat.ltb_spec (Z.to_nat k) (length (cmd_buf m))); [|lia].
    eexists. split; [reflexivity|]. simpl.
    split; [reflexivity|]. split; [apply length_upd|]. split.
    + unfold load. simpl. destruct (Z.ltb_spec k 0); [lia|].
      apply nth_error_upd_same. assumption.
    + intros j Hj. unfold load. simpl. destruct (Z.ltb_spec j 0); [reflexivity|].
      apply nth_error_upd_other. lia.
Qed.

(** ** Evaluation of the monad *)

Lemma bind_deref {A : Type} (p : Z) (c : ascii) (f : ascii -> M A) (s : state) :
  load (mem s) p = Some c -> bind (deref p) f s = f c s.
Proof. intros H. unfold bind, deref. rewrite H. reflexivity. Qed.

Lemma bind_assign {A : Type} (p : Z) (c : ascii) (m' : memory)
    (f : unit -> M A) (s : state) :
  store (mem s) p c = Some m' -> bind (assign p c) f s = f tt (with_mem s m').
Proof. intros H. unfold bind, assign. rewrite H. reflexivity. Qed.

Lemma bind_Ok {A B : Type} (m : M A) (f : A -> M B) (s s' : state) (a : A) :
  m s = Ok a s' -> bind m f s = f a s'.
Proof. intros H. unfold bind. rewrite H. reflexivity. Qed.

Lemma bind_Ret {A B : Type} (m : M A) (f : A -> M B) (s s' : state) (rv : Z) :
  m s = Ret rv s' -> bind m f s = Ret rv s'.
Proof. intros H. unfold bind. rewrite H. reflexivity. Qed.

Lemma too_long_ok (i : Z) (s : state) : i < MAXARG -> too_long i s = Ok tt s.
Proof.
  intros H. unfold too_long. destruct (Z.leb_spec MAXARG i); [lia|reflexivity].
Qed.

Lemma too_long_ret (i : Z) (s : state) :
  MAXARG <= i ->
  too_long i s = Ret 1 (with_stderr s (stderr s ++ msg_too_long)%string).
Proof.
  intros H. unfold too_long. destruct (Z.leb_spec MAXARG i); [reflexivity|lia].
Qed.

Lemma is_space_not_nul (c : ascii) : is_space c = true -> is_nul c = false.
Proof.
  unfold is_space, is_nul. intros H. apply orb_true_iff in H.
  destruct H as [H|H]; apply Ascii.eqb_eq in H; subst; reflexivity.
Qed.

Lemma is_redir_not_space (c : ascii) : is_redir c = true -> is_space c = false.
Proof.
  unfold is_redir, is_space. intros H. apply orb_true_iff in H.
  destruct H as [H|H]; apply Ascii.eqb_eq in H; subst; reflexivity.
Qed.

Lemma is_amp_not_space (c : ascii) : is_amp c = true -> is_space c = false.
Proof.
  unfold is_amp, is_space. intros H. apply Ascii.eqb_eq in H. subst. reflexivity.
Qed.

(** ** The scans of [create_args] over a line

    [m0] is the memory at the call: the line occupies the offsets [0 .. L-1]
    of [cmd_buf], without NUL, and the NUL that ends it is at [L]. *)

Section Scan.
Variable m0 : memory.
Variable L : Z.
Hypothesis HL : 0 <= L.
Hypothesis Hline :
  forall k, 0 <= k < L -> exists c, load m0 k = Some c /\ is_nul c = false.
Hypothesis Hend : load m0 L = Some NUL.



Lemma agree_mono (s : state) (b b' : Z) : b <= b' -> agree m0 s b -> agree m0 s b'.
Proof.
  intros Hb [H1 [H2 H3]]. repeat split; auto. intros k Hk. apply H3. lia.
Qed.

Lemma agree_in_mem (s : state) (b k : Z) :
  agree m0 s b -> in_mem (mem s) k <-> in_mem m0 k.
Proof. intros [H1 [H2 _]]. unfold in_mem. rewrite H1, H2. tauto. Qed.

Lemma line_in_mem (k : Z) : 0 <= k <= L -> in_mem m0 k.
Proof.
  intros Hk. destruct (Z.eq_dec k L) as [->|Hne].
  - exact (load_in_mem _ _ _ Hend).
  - destruct (Hline k) as [c [Hc _]]; [lia|]. exact (load_in_mem _ _ _ Hc).
Qed.

Lemma line_load (k : Z) : 0 <= k <= L -> exists c, load m0 k = Some c.
Proof. intros Hk. apply in_mem_load. apply line_in_mem. exact Hk. Qed.

Lemma sp_end : sp m0 L = false.
Proof. unfold sp. rewrite Hend. reflexivity. Qed.

(** The forward scan stops at the first byte that is no blank, at the latest
    at the NUL, and leaves the state alone. *)
Lemma skip_spaces_spec (n : nat) (s : state) (ptr bptr : Z) :
  0 <= ptr <= L -> agree m0 s ptr -> (Z.to_nat (L - ptr) < n)%nat ->
  exists q,
    skip_spaces n ptr bptr s = Ok (q, if ptr <? q then q else bptr) s /\
    ptr <= q <= L /\
    (forall k, ptr <= k < q -> sp m0 k = true) /\
    sp m0 q = false.
Proof.
  revert ptr bptr. induction n as [|n IH]; intros ptr bptr Hp Ha Hn; [lia|].
  destruct (line_load ptr Hp) as [c Hc].
  assert (Hs : load (mem s) ptr = Some c).
  { destruct Ha as [_ [_ Ha]]. rewrite Ha; [exact Hc|lia]. }
  simpl. rewrite (bind_deref _ _ _ _ Hs).
  destruct (is_space c) eqn:Ec.
  - assert (Hlt : ptr < L).
    { destruct (Z.eq_dec ptr L) as [->|]; [|lia].
      rewrite Hend in Hc. injection Hc as <-. discriminate. }
    destruct (IH (ptr + 1) (ptr + 1)) as [q [Hq [Hr [Hsp Hq']]]];
      [lia | apply (agree_mono s ptr); [lia|exact Ha] | lia |].
    exists q. split; [|split; [lia|split; [|exact Hq']]].
    + rewrite Hq. destruct (Z.ltb_spec ptr q); [|lia].
      destruct (Z.ltb_spec (ptr + 1) q); [reflexivity|].
      replace q with (ptr + 1) by lia. reflexivity.
    + intros k Hk. destruct (Z.eq_dec k ptr) as [->|].
      * unfold sp. rewrite Hc. exact Ec.
      * apply Hsp. lia.
  - exists ptr. split; [|split; [lia|split]].
    + rewrite Z.ltb_irrefl. reflexivity.
    + intros k Hk. lia.
    + unfold sp. rewrite Hc. exact Ec.
Qed.

(** The backward scan from [p] stops at the first byte that is no blank,
    when there is one at or below [p] in the memory. *)
Lemma back_spaces_spec (n : nat) (s : state) (p a : Z) (ca : ascii) :
  a <= p -> load (mem s) a = Some ca -> is_space ca = false ->
  in_mem (mem s) p -> (Z.to_nat (p - a) < n)%nat ->
  exists q c,
    back_spaces n p s = Ok q s /\ a <= q <= p /\
    load (mem s) q = Some c /\ is_space c = false /\
    (forall k, q < k <= p ->
       exists c', load (mem s) k = Some c' /\ is_space c' = true).
Proof.
  intros Hap Ha Hca. revert p Hap.
  induction n as [|n IH]; intros p Hap Hp Hn; [lia|].
  destruct (in_mem_load _ _ Hp) as [c Hc].
  simpl. rewrite (bind_deref _ _ _ _ Hc).
  destruct (is_space c) eqn:Ec.
  - assert (Hne : a <> p).
    { intros ->. rewrite Ha in Hc. injection Hc as <-. congruence. }
    destruct (IH (p - 1)) as [q [c' [Hq [Hr [Hl [Hs Hk]]]]]]; [lia| |lia|].
    { apply (in_mem_between _ a p); auto. exact (load_in_mem _ _ _ Ha). lia. }
    exists q, c'. split; [exact Hq|]. split; [lia|]. split; [exact Hl|].
    split; [exact Hs|]. intros k Hkk.
    destruct (Z.eq_dec k p) as [->|]; [eauto|]. apply Hk. lia.
  - exists p, c. split; [reflexivity|]. split; [lia|]. split; [exact Hc|].
    split; [exact Ec|]. intros k Hk. lia.
Qed.






Lemma frame_refl (s : state) : frame s s.
Proof. unfold frame. auto. Qed.

Lemma frame_rejected (s s2 s' : state) :
  frame s s2 -> rejected m0 L s2 s' -> rejected m0 L s s'.
Proof.
  unfold frame, rejected.
  intros [A1 [A2 [A3 [A4 A5]]]] [B1 [B2 [B3 [B4 B5]]]].
  rewrite B1, B2, B3, B4, <- A5. auto.
Qed.

Lemma frame_trans (s s2 s' : state) : frame s s2 -> frame s2 s' -> frame s s'.
Proof.
  unfold frame.
  intros [A1 [A2 [A3 [A4 A5]]]] [B1 [B2 [B3 [B4 B5]]]].
  rewrite B1, B2, B3, B4, B5. auto.
Qed.

Lemma mem_size_bound (m : memory) (a p : Z) :
  in_mem m a -> in_mem m p -> (Z.to_nat (p - a) < mem_size m)%nat.
Proof. unfold in_mem, mem_size. lia. Qed.

Lemma agree_mem_size (s : state) (b : Z) :
  agree m0 s b -> mem_size (mem s) = mem_size m0.
Proof. intros [H1 [H2 _]]. unfold mem_size. rewrite H1, H2. reflexivity. Qed.

(** The removal of [&] at a token that starts at [bptr], with a byte that is
    no blank at [a] below it: the NUL is written above [a] and not above
    [bptr]. *)
Lemma strip_background_spec (n : nat) (s : state) (bptr a : Z) (ca : ascii) :
  (mem_size m0 < n)%nat -> 0 <= bptr <= L -> agree m0 s bptr ->
  a < bptr -> load (mem s) a = Some ca -> is_space ca = false ->
  exists s2,
    strip_background n bptr s = Ok tt s2 /\ frame s s2 /\
    run_bg s2 = 1 /\ argsc s2 = argsc s - 1 /\
    agree m0 s2 (bptr + 1) /\
    load (mem s2) a = Some ca /\
    exists q, a <= q < bptr /\ load (mem s2) (q + 1) = Some NUL /\
      (forall k, k <> q + 1 -> load (mem s2) k = load (mem s) k) /\
      (forall k, q < k < bptr ->
         exists c', load (mem s) k = Some c' /\ is_space c' = true) /\
      exists c, load (mem s) q = Some c /\ is_space c = false.
Proof.
  intros Hn Hb Ha Hab Hla Hca.
  assert (Hia : in_mem (mem s) a) by exact (load_in_mem _ _ _ Hla).
  assert (Hib : in_mem (mem s) bptr).
  { apply (agree_in_mem s bptr bptr Ha). apply line_in_mem. lia. }
  unfold strip_background.
  unfold bind at 1. unfold put at 1.
  destruct (back_spaces_spec n (with_run_bg s 1) (bptr - 1) a ca)
    as [q [c [Hq [Hr [Hlq [Hsq Hbl]]]]]]; simpl; auto; try lia.
  { apply (in_mem_between _ a bptr); auto. lia. }
  { pose proof (mem_size_bound (mem s) a bptr Hia Hib).
    rewrite (agree_mem_size s bptr Ha) in H. lia. }
  rewrite (bind_Ok _ _ _ _ _ Hq).
  destruct (store_in_mem (mem (with_run_bg s 1)) (q + 1) NUL)
    as [m' [Hst [Hl1 [Hl2 [Hnew Hold]]]]].
  { apply (in_mem_between _ a bptr); auto. lia. }
  rewrite (bind_assign _ _ m' _ _ Hst).
  unfold bind, put. simpl in *.
  eexists. split; [reflexivity|]. simpl.
  split; [unfold frame; simpl; auto|].
  split; [reflexivity|]. split; [reflexivity|].
  split.
  { destruct Ha as [A1 [A2 A3]]. unfold agree. simpl.
    rewrite Hl1, Hl2. repeat split; auto.
    intros k Hk. rewrite Hold by lia. apply A3. lia. }
  split; [rewrite Hold by lia; exact Hla|].
  exists q. split; [lia|]. split; [exact Hnew|]. split; [exact Hold|].
  split; [|eauto].
  intros k Hk. apply Hbl. lia.
Qed.

(** The end of a token in the counting loop. *)
Lemma count_token_spec (n : nat) (s : state) (ptr bptr : Z) :
  (mem_size m0 < n)%nat -> 0 <= bptr <= ptr -> ptr < L -> sp m0 ptr = true ->
  agree m0 s bptr -> anchor m0 s bptr ->
  (exists s', count_token n bptr s = Ret 1 s' /\ rejected m0 L s s') \/
  (exists s2,
      count_token n bptr s = Ok tt s2 /\ frame s s2 /\ agree m0 s2 ptr /\
      exists a ca, a < ptr /\ load (mem s2) a = Some ca /\ is_space ca = false).
Proof.
  intros Hn Hb Hp Hsp Ha Hanc.
  destruct (line_load bptr) as [b Hb0]; [lia|].
  assert (Hbs : load (mem s) bptr = Some b).
  { destruct Ha as [_ [_ Ha]]. rewrite Ha; [exact Hb0|lia]. }
  assert (Hlt : is_space b = false -> bptr < ptr).
  { intros Hnb. destruct (Z.eq_dec bptr ptr) as [E|]; [|lia].
    subst bptr. unfold sp in Hsp. rewrite Hb0 in Hsp. congruence. }
  assert (Hanc' : is_space b = false ->
            exists a ca, a < ptr /\ load (mem s) a = Some ca /\
                         is_space ca = false).
  { intros Hnb. exists bptr, b. auto. }
  unfold count_token. rewrite (bind_deref _ _ _ _ Hbs).
  destruct (is_redir b) eqn:Er; [|destruct (is_amp b) eqn:Eam].
  - pose proof (is_redir_not_space b Er) as Hnb.
    destruct (line_load (bptr + 1)) as [b1 Hb1]; [specialize (Hlt Hnb); lia|].
    assert (Hb1s : load (mem s) (bptr + 1) = Some b1).
    { destruct Ha as [_ [_ Ha]]. rewrite Ha; [exact Hb1|lia]. }
    rewrite (bind_deref _ _ _ _ Hb1s).
    destruct (is_space b1).
    + left. eexists. split; [reflexivity|].
      unfold rejected. simpl. repeat split; auto.
      right. exists bptr, b. repeat split; auto; try lia.
    + right. exists s. split; [reflexivity|]. split; [apply frame_refl|].
      split; [exact (agree_mono s bptr ptr (proj2 Hb) Ha)|]. auto.
  - pose proof (is_amp_not_space b Eam) as Hnb.
    specialize (Hlt Hnb).
    destruct Hanc as [[a [ca [Hab [Hla Hca]]]] | [b' [Hb' [Hamp _]]]].
    2: { rewrite Hb0 in Hb'. injection Hb' as <-. congruence. }
    destruct (strip_background_spec n s bptr a ca)
      as [s2 [Hs2 [Hfr [_ [_ [Hag [Hla2 _]]]]]]]; auto; try lia.
    right. exists s2. split; [exact Hs2|]. split; [exact Hfr|].
    split; [apply (agree_mono s2 (bptr + 1) ptr); [lia|exact Hag]|].
    exists a, ca. split; [lia|]. auto.
  - right. eexists. split; [reflexivity|].
    split; [unfold frame; simpl; auto|].
    split.
    { apply (agree_mono _ bptr ptr (proj2 Hb)).
      destruct Ha as [A1 [A2 A3]]. unfold agree. simpl. auto. }
    simpl.
    destruct Hanc as [[a [ca [Hab [Hla Hca]]]] | [b' [Hb' [_ Hnb]]]].
    + exists a, ca. split; [lia|]. auto.
    + rewrite Hb0 in Hb'. injection Hb' as <-. auto.
Qed.


Lemma count_args_S (n f : nat) (ptr bptr i : Z) :
  count_args n (S f) ptr bptr i =
  (c <- deref ptr ;;
   if is_nul c then ok (ptr, bptr, i)
   else if is_space c then
     too_long i ;;
     count_token n bptr ;;
     pb <- skip_spaces n ptr (ptr + 1) ;;
     count_args n f (fst pb - 1 + 1) (snd pb) (-1 + 1)
   else count_args n f (ptr + 1) bptr (i + 1)).
Proof. reflexivity. Qed.

(** With a run of [MAXARG] bytes that are no blanks ahead, the counting loop
    either returns 1 or ends with [i >= MAXARG]. *)
Lemma count_args_long (n fuel : nat) (s : state) (ptr bptr i : Z) :
  (mem_size m0 < n)%nat -> 0 <= bptr <= ptr -> ptr <= L -> i = ptr - bptr ->
  (forall k, bptr <= k < ptr -> sp m0 k = false) ->
  agree m0 s bptr -> anchor m0 s bptr -> long_ahead m0 L bptr ->
  (Z.to_nat (L - ptr) < fuel)%nat ->
  count_post m0 L s (count_args n fuel ptr bptr i s).
Proof.
  intros Hn. revert s ptr bptr i.
  induction fuel as [|f IH]; intros s ptr bptr i Hb Hp Hi Hns Ha Hanc Hlong Hf;
    [lia|].
  rewrite count_args_S.
  destruct (line_load ptr) as [c Hc]; [lia|].
  assert (Hs : load (mem s) ptr = Some c).
  { destruct Ha as [_ [_ Ha]]. rewrite Ha; [exact Hc|lia]. }
  rewrite (bind_deref _ _ _ _ Hs).
  destruct (is_nul c) eqn:En.
  - assert (ptr = L).
    { destruct (Z.eq_dec ptr L); [assumption|].
      destruct (Hline ptr) as [c' [Hc' Hn']]; [lia|].
      rewrite Hc in Hc'. injection Hc' as <-. congruence. }
    subst ptr. simpl. split; [|apply frame_refl].
    destruct Hlong as [t [Ht1 [Ht2 _]]]. lia.
  - assert (Hlt : ptr < L).
    { destruct (Z.eq_dec ptr L) as [E|]; [|lia].
      subst ptr. rewrite Hend in Hc. injection Hc as <-. discriminate. }
    destruct (is_space c) eqn:Ec.
    + assert (Hsp : sp m0 ptr = true) by (unfold sp; rewrite Hc; exact Ec).
      destruct (Z.le_gt_cases MAXARG i) as [Hlong_i | Hshort].
      { rewrite (bind_Ret _ _ _ _ _ (too_long_ret i s Hlong_i)). simpl.
        split; [reflexivity|]. unfold rejected. simpl. auto 10. }
      rewrite (bind_Ok _ _ _ _ _ (too_long_ok i s ltac:(lia))).
      destruct Hlong as [t [Ht1 [Ht2 Ht3]]].
      assert (Htp : ptr < t).
      { destruct (Z.lt_ge_cases ptr t); [assumption|]. exfalso.
        destruct (Z.lt_ge_cases ptr (t + MAXARG)); [|lia].
        rewrite Ht3 in Hsp by lia. discriminate. }
      destruct (count_token_spec n s ptr bptr)
        as [[s' [Hr Hrej]] | [s2 [Hok [Hfr [Hag [a [ca [Hap [Hla Hca]]]]]]]]];
        auto.
      { rewrite (bind_Ret _ _ _ _ _ Hr). simpl. auto. }
      rewrite (bind_Ok _ _ _ _ _ Hok).
      destruct (skip_spaces_spec n s2 ptr (ptr + 1))
        as [q [Hq [Hqr [Hqs Hqe]]]]; [lia|exact Hag| |].
      { pose proof (mem_size_bound m0 0 L (line_in_mem 0 ltac:(lia))
                      (line_in_mem L ltac:(lia))). lia. }
      assert (Hpq : ptr < q).
      { destruct (Z.eq_dec ptr q) as [E|]; [|lia].
        subst q. congruence. }
      rewrite (bind_Ok _ _ _ _ _ Hq). simpl fst. simpl snd.
      destruct (Z.ltb_spec ptr q); [|lia].
      replace (q - 1 + 1) with q by lia. change (-1 + 1) with 0.
      assert (Htq : q <= t).
      { destruct (Z.lt_ge_cases t q); [|assumption]. exfalso.
        pose proof (Ht3 t ltac:(unfold MAXARG; lia)) as Ht.
        rewrite Hqs in Ht by lia. discriminate. }
      specialize (IH s2 q q 0).
      assert (Hpost : count_post m0 L s2 (count_args n f q q 0 s2)).
      { apply IH; try lia.
        - apply (agree_mono s2 ptr q); [lia|exact Hag].
        - left. exists a, ca. split; [lia|]. auto.
        - exists t. auto. }
      destruct (count_args n f q q 0 s2) as [[[p' b'] i'] s'|rv s'|];
        simpl in *.
      * destruct Hpost as [Hi' Hfr']. split; [exact Hi'|].
        exact (frame_trans _ _ _ Hfr Hfr').
      * destruct Hpost as [Hrv Hrej]. split; [exact Hrv|].
        exact (frame_rejected _ _ _ Hfr Hrej).
      * exact Hpost.
    + apply IH; try lia.
      * intros k Hk. destruct (Z.eq_dec k ptr) as [->|]; [|apply Hns; lia].
        unfold sp. rewrite Hc. exact Ec.
      * exact Ha.
      * exact Hanc.
      * exact Hlong.
Qed.

End Scan.

(** ** The line in [cmd_buf] *)

Lemma load_buf (m : memory) (k : Z) :
  0 <= k -> load m k = nth_error (cmd_buf m) (Z.to_nat k).
Proof. intros H. unfold load. destruct (Z.ltb_spec k 0); [lia|reflexivity]. Qed.

Lemma load_line (m : memory) (l rest : list ascii) (k : Z) :
  cmd_buf m = l ++ NUL :: rest -> 0 <= k < Z.of_nat (length l) ->
  load m k = nth_error l (Z.to_nat k).
Proof.
  intros E H. rewrite load_buf by lia. rewrite E.
  apply nth_error_app1. lia.
Qed.

Lemma load_line_end (m : memory) (l rest : list ascii) :
  cmd_buf m = l ++ NUL :: rest -> load m (Z.of_nat (length l)) = Some NUL.
Proof.
  intros E. rewrite load_buf by lia. rewrite E.
  rewrite nth_error_app2 by lia.
  replace (Z.to_nat (Z.of_nat (length l)) - length l)%nat with O by lia.
  reflexivity.
Qed.

Lemma load_line_some (m : memory) (l rest : list ascii) (k : Z) :
  cmd_buf m = l ++ NUL :: rest -> 0 <= k < Z.of_nat (length l) ->
  exists c, load m k = Some c /\ In c l.
Proof.
  intros E H. rewrite (load_line m l rest k E H).
  destruct (nth_error l (Z.to_nat k)) as [c|] eqn:Hc.
  - exists c. split; [reflexivity|]. exact (nth_error_In _ _ Hc).
  - apply nth_error_None in Hc. lia.
Qed.

Lemma load_below (m : memory) (c : ascii) :
  In c (below m) -> exists a, a < 0 /\ load m a = Some c.
Proof.
  intros H. apply In_nth_error in H. destruct H as [i Hi].
  exists (- Z.of_nat i - 1). split; [lia|].
  unfold load. destruct (Z.ltb_spec (- Z.of_nat i - 1) 0); [|lia].
  replace (Z.to_nat (- (- Z.of_nat i - 1) - 1)) with i by lia. exact Hi.
Qed.

(** The byte at the offset where [pre] ends in [pre ++ c :: post]. *)
Lemma load_line_at (m : memory) (pre post rest : list ascii) (c : ascii) :
  cmd_buf m = (pre ++ c :: post) ++ NUL :: rest ->
  load m (Z.of_nat (length pre)) = Some c.
Proof.
  intros E. rewrite load_buf by lia. rewrite E, <- app_assoc.
  rewrite nth_error_app2 by lia.
  replace (Z.to_nat (Z.of_nat (length pre)) - length pre)%nat with O by lia.
  reflexivity.
Qed.

Lemma load_line_in (m : memory) (pre mid post rest : list ascii) (k : Z) :
  cmd_buf m = (pre ++ mid ++ post) ++ NUL :: rest ->
  Z.of_nat (length pre) <= k < Z.of_nat (length pre) + Z.of_nat (length mid) ->
  exists c, load m k = Some c /\ In c mid.
Proof.
  intros E H. rewrite load_buf by lia. rewrite E, <- !app_assoc.
  rewrite nth_error_app2 by lia. rewrite nth_error_app1 by lia.
  destruct (nth_error mid (Z.to_nat k - length pre)) as [c|] eqn:Hc.
  - exists c. split; [reflexivity|]. exact (nth_error_In _ _ Hc).
  - apply nth_error_None in Hc. lia.
Qed.

(** C4. Let [cmd_buf] hold a line without NUL, closed by NUL, in which some
    token has [MAXARG] bytes or more, and let the scan for [&] stay in the
    memory (a byte below the buffer is no blank, or the first token does not
    start with [&]).  Then [create_args] returns 1, the parse error, from
    its first pass: [args], [redir_t] and [redir_f] are what they were, so
    no command, partial or cut short, is produced.  Stderr gets "Argument too
    long!", or, when the first pass meets a redirection operator followed by
    a blank before that, "No whitespaces after ..."; on a line without [<]
    and [>] it is "Argument too long!". *)
Theorem long_token_is_rejected (s : state) (line : string) (rest : list ascii) :
  cmd_buf (mem s) = bytes line ++ NUL :: rest ->
  (forall c, In c (bytes line) -> is_nul c = false) ->
  long_token (bytes line) ->
  bounded_below s \/ starts_plain (bytes line) ->
  exists s',
    create_args s = Ret 1 s' /\
    args s' = args s /\ redir_t s' = redir_t s /\ redir_f s' = redir_f s /\
    (stderr s' = (stderr s ++ msg_too_long)%string \/
     exists op, is_redir op = true /\
                stderr s' = (stderr s ++ msg_no_space op)%string) /\
    ((forall c, In c (bytes line) -> is_redir c = false) ->
     stderr s' = (stderr s ++ msg_too_long)%string).
Proof.
  intros Hbuf Hnul [pre [tok [post [Hl [Htok Hns]]]]] Hstay.
  set (l := bytes line) in *.
  set (L := Z.of_nat (length l)).
  set (m0 := mem s).
  assert (HL : 0 <= L) by (unfold L; lia).
  assert (Hline : forall k, 0 <= k < L ->
            exists c, load m0 k = Some c /\ is_nul c = false).
  { intros k Hk. destruct (load_line_some m0 l rest k Hbuf Hk) as [c [Hc Hin]].
    exists c. split; [exact Hc|]. exact (Hnul c Hin). }
  assert (Hend : load m0 L = Some NUL) by exact (load_line_end m0 l rest Hbuf).
  set (n := S (mem_size (mem s))).
  set (s1 := with_run_bg s 0).
  assert (Hag1 : agree m0 s1 0).
  { unfold agree, s1. simpl. auto. }
  destruct (skip_spaces_spec m0 L Hline Hend n s1 0 0)
    as [q [Hq [Hqr [Hqs Hqe]]]]; [lia|exact Hag1| |].
  { pose proof (mem_size_bound m0 0 L
                  (line_in_mem m0 L Hline Hend 0 ltac:(lia))
                  (line_in_mem m0 L Hline Hend L ltac:(lia))).
    unfold n. fold m0. lia. }
  assert (Hq' : skip_spaces n 0 0 s1 = Ok (q, q) s1).
  { rewrite Hq. destruct (Z.ltb_spec 0 q); [reflexivity|].
    replace q with 0 by lia. reflexivity. }
  set (s2 := with_argsc s1 1).
  assert (Hag2 : agree m0 s2 q).
  { unfold agree, s2, s1. simpl. auto. }
  (* the long token starts at or after the first byte that is no blank *)
  assert (Hlen : L = Z.of_nat (length pre) + Z.of_nat (length tok)
                     + Z.of_nat (length post)).
  { unfold L. rewrite Hl, !length_app. lia. }
  assert (Htoksp : forall k, Z.of_nat (length pre) <= k
                             < Z.of_nat (length pre) + Z.of_nat (length tok) ->
                             sp m0 k = false).
  { intros k Hk. rewrite Hl in Hbuf.
    destruct (load_line_in m0 pre tok post rest k Hbuf Hk) as [c [Hc Hin]].
    unfold sp. rewrite Hc. exact (Hns c Hin). }
  assert (Hlong : long_ahead m0 L q).
  { exists (Z.of_nat (length pre)). split; [|split].
    - destruct (Z.lt_ge_cases (Z.of_nat (length pre)) q); [|lia]. exfalso.
      specialize (Htoksp (Z.of_nat (length pre))
                    ltac:(unfold MAXARG in Htok; lia)).
      rewrite Hqs in Htoksp by lia. discriminate.
    - lia.
    - intros k Hk. apply Htoksp. lia. }
  assert (Hanc : anchor m0 s2 q).
  { destruct Hstay as [[c [Hin Hc]] | [pre' [c [post' [Hl' [Hpre [Hc Ha]]]]]]].
    - left. destruct (load_below (mem s) c Hin) as [a [Ha Hla]].
      exists a, c. split; [lia|]. split; [exact Hla|exact Hc].
    - right. exists c.
      assert (Hc' : load m0 (Z.of_nat (length pre')) = Some c).
      { rewrite Hl' in Hbuf. exact (load_line_at m0 pre' post' rest c Hbuf). }
      assert (E : q = Z.of_nat (length pre')).
      { destruct (Z.lt_trichotomy q (Z.of_nat (length pre'))) as [Hlt|[E|Hgt]];
          [|exact E|]; exfalso.
        - assert (Hk : 0 <= q < Z.of_nat (length pre') + 0) by lia.
          rewrite Hl' in Hbuf.
          assert (Hbuf' : cmd_buf m0 = ([] ++ pre' ++ c :: post') ++ NUL :: rest)
            by exact Hbuf.
          destruct (load_line_in m0 [] pre' (c :: post') rest q Hbuf')
            as [x [Hx Hin]]; [simpl; lia|].
          unfold sp in Hqe. rewrite Hx in Hqe.
          rewrite (Hpre x Hin) in Hqe. discriminate.
        - specialize (Hqs (Z.of_nat (length pre')) ltac:(lia)).
          unfold sp in Hqs. rewrite Hc' in Hqs. congruence. }
      rewrite E. auto. }
  pose proof (count_args_long m0 L HL Hline Hend n n s2 q q 0
                ltac:(unfold n; fold m0; lia) ltac:(lia) ltac:(lia) ltac:(lia)
                ltac:(intros; lia) Hag2 Hanc Hlong) as Hpost.
  assert (Hfuel : (Z.to_nat (L - q) < n)%nat).
  { pose proof (mem_size_bound m0 0 L
                  (line_in_mem m0 L Hline Hend 0 ltac:(lia))
                  (line_in_mem m0 L Hline Hend L ltac:(lia))).
    unfold n. fold m0. lia. }
  specialize (Hpost Hfuel).
  assert (Hfirst : first_pass n s = count_args n n q q 0 s2).
  { unfold first_pass. unfold bind at 1. unfold put at 1. fold s1.
    rewrite (bind_Ok _ _ _ _ _ Hq'). reflexivity. }
  assert (Hredir : forall s', rejected m0 L s2 s' ->
            (forall c, In c l -> is_redir c = false) ->
            stderr s' = (stderr s ++ msg_too_long)%string).
  { intros s' [_ [_ [_ [_ [H|[k [op [Hk [Hop [Hr _]]]]]]]]]] Hno; [exact H|].
    destruct (load_line_some m0 l rest k Hbuf Hk) as [c [Hc Hin]].
    rewrite Hop in Hc. injection Hc as <-. rewrite (Hno op Hin) in Hr.
    discriminate. }
  unfold create_args, create_args_with. fold n. unfold bind at 1.
  rewrite Hfirst.
  destruct (count_args n n q q 0 s2) as [[[p' b'] i'] s'|rv s'|];
    simpl in Hpost.
  - destruct Hpost as [Hi' [A1 [A2 [A3 [A4 A5]]]]]. simpl snd.
    rewrite (bind_Ret _ _ _ _ _ (too_long_ret i' s' Hi')).
    eexists. split; [reflexivity|]. simpl.
    rewrite A1, A2, A3, A5. auto 10.
  - destruct Hpost as [-> Hrej].
    exists s'. split; [reflexivity|].
    pose proof (Hredir s' Hrej) as Hr.
    destruct Hrej as [A1 [A2 [A3 [A4 A5]]]].
    rewrite A1, A2, A3. repeat split; auto.
    destruct A5 as [A5|[k [op [_ [_ [Hop A5]]]]]]; [left; exact A5|].
    right. exists op. auto.
  - contradiction.
Qed.

(** ** A blank line *)

Lemma count_args_at_nul (n f : nat) (ptr bptr i : Z) (s : state) :
  load (mem s) ptr = Some NUL ->
  count_args n (S f) ptr bptr i s = Ok (ptr, bptr, i) s.
Proof. intros H. rewrite count_args_S, (bind_deref _ _ _ _ H). reflexivity. Qed.

Lemma fill_args_at_nul (n f : nat) (ptr bptr i j : Z) (s : state) :
  load (mem s) ptr = Some NUL ->
  fill_args n (S f) ptr bptr i j s = Ok (ptr, bptr, i, j) s.
Proof.
  intros H. change (fill_args n (S f) ptr bptr i j s)
    with (bind (deref ptr) (fun c =>
            if is_nul c then ok (ptr, bptr, i, j)
            else if is_space c then
              b <- deref bptr ;;
              i' <- (if Ascii.eqb b ">"%char then copy_redir_t bptr j ;; ok i
                     else if Ascii.eqb b "<"%char then copy_redir_f bptr j ;; ok i
                     else copy_arg i bptr j ;; ok (i + 1)) ;;
              pb <- skip_spaces n ptr (ptr + 1) ;;
              fill_args n f (fst pb - 1 + 1) (snd pb) i' (-1 + 1)
            else fill_args n f (ptr + 1) bptr i (j + 1)) s).
  rewrite (bind_deref _ _ _ _ H). reflexivity.
Qed.

Lemma skip_spaces_stop (f : nat) (ptr bptr : Z) (c : ascii) (s : state) :
  load (mem s) ptr = Some c -> is_space c = false ->
  skip_spaces (S f) ptr bptr s = Ok (ptr, bptr) s.
Proof.
  intros H Hc. simpl. rewrite (bind_deref _ _ _ _ H), Hc. reflexivity.
Qed.

Lemma memcpy_nothing (dst : list ascii) (src : Z) (s : state) :
  memcpy dst src 0 s = Ok dst s.
Proof.
  unfold memcpy. reflexivity.
Qed.

(** The allocation for a line of one argument. *)
Lemma alloc_args_one (s : state) (h : nat) :
  argsc s = 2 -> heap s = S (S h) ->
  alloc_args s =
    Ok tt (with_args (with_heap (with_args (with_heap s (S h))
                                   (ArgsLive [None; None])) h)
                     (ArgsLive [Some zero_block; None])).
Proof.
  intros Hc Hh. unfold alloc_args.
  unfold bind at 1. unfold get at 1. rewrite Hc.
  change (2 <? 0) with false. cbv iota.
  unfold bind at 1. unfold alloc at 1. rewrite Hh.
  unfold bind at 1. unfold put at 1.
  change (Z.to_nat (2 - 1)) with 1%nat. change (Z.to_nat 2) with 2%nat.
  unfold alloc_blocks. unfold bind at 1. unfold alloc at 1. simpl heap.
  reflexivity.
Qed.

(** The end of the second pass on an empty token: [args[0]] stays as
    [calloc] left it and [args[1]] is NULL. *)
Lemma second_pass_blank (n : nat) (s : state) (p : Z) :
  skip_spaces (S n) 0 0 s = Ok (p, p) s ->
  load (mem s) p = Some NUL ->
  args s = ArgsLive [Some zero_block; None] ->
  second_pass (S n) s = Ok tt s.
Proof.
  intros Hskip Hp Hargs. unfold second_pass.
  rewrite (bind_Ok _ _ _ _ _ Hskip). simpl fst. simpl snd.
  rewrite (bind_Ok _ _ _ _ _ (fill_args_at_nul (S n) n p p 0 0 s Hp)).
  simpl fst. simpl snd.
  rewrite (bind_deref _ _ _ _ Hp).
  change (Ascii.eqb NUL ">"%char) with false.
  change (Ascii.eqb NUL "<"%char) with false. cbv iota.
  assert (Hget : get_arg 0 s = Ok (Some zero_block) s).
  { unfold get_arg. rewrite Hargs. reflexivity. }
  assert (Hcopy : copy_arg 0 p 0 s = Ok tt s).
  { unfold copy_arg. rewrite (bind_Ok _ _ _ _ _ Hget).
    rewrite (bind_Ok _ _ _ _ _ (memcpy_nothing zero_block p s)).
    unfold set_arg. rewrite Hargs. simpl.
    destruct s; simpl in *. subst. reflexivity. }
  rewrite (bind_Ok _ _ _ _ _ Hcopy).
  unfold set_arg. rewrite Hargs. simpl.
  destruct s; simpl in *. subst. reflexivity.
Qed.

(** On a line of blanks and tabs only, with a byte that is no blank below the
    buffer, [create_args] returns 0 with one argument, the empty string. *)
Lemma create_args_blank (s : state) (line : string) (rest : list ascii)
    (h : nat) :
  cmd_buf (mem s) = bytes line ++ NUL :: rest ->
  (forall c, In c (bytes line) -> is_space c = true) ->
  bounded_below s -> heap s = S (S h) ->
  exists m',
    create_args s =
      Ret 0 {| mem := m'; argsc := 2;
               args := ArgsLive [Some zero_block; None];
               redir_t := redir_t s; redir_f := redir_f s; run_bg := 0;
               heap := h; stderr := stderr s |}.
Proof.
  intros Hbuf Hsp [ca [Hin Hca]] Hh.
  set (l := bytes line) in *.
  set (L := Z.of_nat (length l)).
  set (m0 := mem s).
  assert (HL : 0 <= L) by (unfold L; lia).
  assert (Hline : forall k, 0 <= k < L ->
            exists c, load m0 k = Some c /\ is_nul c = false).
  { intros k Hk. destruct (load_line_some m0 l rest k Hbuf Hk) as [c [Hc Hc']].
    exists c. split; [exact Hc|]. apply is_space_not_nul. exact (Hsp c Hc'). }
  assert (Hend : load m0 L = Some NUL) by exact (load_line_end m0 l rest Hbuf).
  assert (Hblank : forall k, 0 <= k < L -> sp m0 k = true).
  { intros k Hk. destruct (load_line_some m0 l rest k Hbuf Hk) as [c [Hc Hc']].
    unfold sp. rewrite Hc. exact (Hsp c Hc'). }
  destruct (load_below (mem s) ca Hin) as [a [Ha Hla]].
  assert (Hsize : (Z.to_nat (L - a) < mem_size m0)%nat).
  { apply mem_size_bound.
    - exact (load_in_mem _ _ _ Hla).
    - exact (load_in_mem _ _ _ Hend). }
  unfold create_args, create_args_with. fold m0.
  remember (mem_size m0) as n eqn:Hn.
  (* the first pass *)
  set (s1 := with_run_bg s 0).
  assert (Hag1 : agree m0 s1 0) by (unfold agree, s1; simpl; auto).
  destruct (skip_spaces_spec m0 L Hline Hend (S n) s1 0 0)
    as [q [Hq [Hqr [_ Hqe]]]]; [lia|exact Hag1|lia|].
  assert (q = L).
  { destruct (Z.eq_dec q L); [assumption|].
    rewrite Hblank in Hqe by lia. discriminate. }
  subst q.
  assert (Hq' : skip_spaces (S n) 0 0 s1 = Ok (L, L) s1).
  { rewrite Hq. destruct (Z.ltb_spec 0 L); [reflexivity|].
    replace L with 0 by lia. reflexivity. }
  set (s2 := with_argsc s1 1).
  assert (Hfirst : first_pass (S n) s = Ok (L, L, 0) s2).
  { unfold first_pass. unfold bind at 1. unfold put at 1. fold s1.
    rewrite (bind_Ok _ _ _ _ _ Hq'). unfold bind at 1. unfold put at 1.
    fold s2. apply count_args_at_nul. exact Hend. }
  rewrite (bind_Ok _ _ _ _ _ Hfirst).
  cbv beta iota delta [fst snd].
  rewrite (bind_Ok _ _ _ _ _ (too_long_ok 0 s2 ltac:(unfold MAXARG; lia))).
  (* the last token: trailing whitespace is removed *)
  destruct (back_spaces_spec (S n) s2 (L - 1) a ca)
    as [q [c [Hback [Hqa [Hlq [Hcq Hbl]]]]]]; auto; try lia.
  { apply (in_mem_between _ a L); try lia.
    - exact (load_in_mem _ _ _ Hla).
    - exact (load_in_mem _ _ _ Hend). }
  assert (Hneg : q < 0).
  { destruct (Z.lt_ge_cases q 0); [assumption|]. exfalso.
    specialize (Hblank q ltac:(lia)). unfold sp in Hblank.
    change (mem s2) with m0 in Hlq. rewrite Hlq in Hblank. congruence. }
  destruct (store_in_mem (mem s2) (q + 1) NUL)
    as [m' [Hst [Hl1 [Hl2 [Hnew Hold]]]]].
  { apply (in_mem_between _ a L); try lia.
    - exact (load_in_mem _ _ _ Hla).
    - exact (load_in_mem _ _ _ Hend). }
  set (s4 := with_argsc (with_mem s2 m') 2).
  assert (Hlast : last_token (S n) L L s2 = Ok tt s4).
  { unfold last_token. unfold bind at 1. unfold get at 1.
    change (argsc s2) with 1. change (1 <? 1) with false. cbv iota.
    unfold bind at 1. unfold ok at 1.
    unfold bind at 1. unfold get at 1.
    change (argsc s2) with 1. change (1 <? 1) with false. cbv iota.
    unfold bind at 1. unfold ok at 1. cbv iota.
    assert (Hrm : (p <- back_spaces (S n) (L - 1) ;; assign (p + 1) NUL) s2
                  = Ok tt (with_mem s2 m')).
    { rewrite (bind_Ok _ _ _ _ _ Hback). unfold assign. rewrite Hst.
      reflexivity. }
    rewrite (bind_Ok _ _ _ _ _ Hrm). reflexivity. }
  rewrite (bind_Ok _ _ _ _ _ Hlast).
  rewrite (bind_Ok _ _ _ _ _ (alloc_args_one s4 h eq_refl Hh)).
  set (s5 := with_args (with_heap (with_args (with_heap s4 (S h))
                                     (ArgsLive [None; None])) h)
                       (ArgsLive [Some zero_block; None])).
  (* the second pass *)
  assert (Hskip : exists p, skip_spaces (S n) 0 0 s5 = Ok (p, p) s5 /\
                            load (mem s5) p = Some NUL).
  { change (mem s5) with m'.
    destruct (Z.eq_dec q (-1)) as [E|Hne].
    - exists 0. subst q. split; [|exact Hnew].
      apply (skip_spaces_stop n 0 0 NUL); [exact Hnew|reflexivity].
    - exists L.
      assert (Hag5 : agree m0 s5 0).
      { unfold agree. change (mem s5) with m'.
        rewrite Hl1, Hl2. repeat split; auto.
        intros k Hk. apply Hold. lia. }
      destruct (skip_spaces_spec m0 L Hline Hend (S n) s5 0 0)
        as [q' [Hq2 [Hqr2 [_ Hqe2]]]]; [lia|exact Hag5|lia|].
      assert (q' = L).
      { destruct (Z.eq_dec q' L); [assumption|].
        rewrite Hblank in Hqe2 by lia. discriminate. }
      subst q'. split.
      + rewrite Hq2. destruct (Z.ltb_spec 0 L); [reflexivity|].
        replace L with 0 by lia. reflexivity.
      + rewrite Hold by lia. exact Hend. }
  destruct Hskip as [p [Hskip Hp]].
  rewrite (bind_Ok _ _ _ _ _ (second_pass_blank n s5 p Hskip Hp eq_refl)).
  exists m'. reflexivity.
Qed.

Lemma c_string_zero_block : c_string zero_block = EmptyString.
Proof. reflexivity. Qed.

(** C5, as the code has it.  Let [cmd_buf] hold a line of blanks and tabs
    only (or nothing) closed by NUL, let some byte below the buffer be no
    blank (the removal of trailing whitespace reads [cmd_buf[-1]] on such a
    line), and let two allocations succeed.  Then [create_args] returns 0,
    and [args] holds one argument, the empty string, before its NULL
    ([argsc] is 2); [input_start] finds [strlen(args[0]) == 0], frees the
    arguments, writes the prompt and reads the next line: nothing goes to
    stderr, nothing is handed to the exec thread and the exit flag is not
    set. *)
Theorem blank_line_is_a_no_op {P : Posix} (stale : string) (sh : shell)
    (line : string) (rest : list ascii) :
  cmd_buf (mem (tk sh)) = bytes line ++ NUL :: rest ->
  (forall c, In c (bytes line) -> is_space c = true) ->
  bounded_below (tk sh) -> (2 <= heap (tk sh))%nat ->
  (exists s' c,
      create_args (tk sh) = Ret 0 s' /\ argsc s' = 2 /\
      stderr s' = stderr (tk sh) /\
      command_of s' = Some c /\ arguments c = [EmptyString] /\
      background c = false) /\
  (exists sh',
      input_line stale sh = Some (Continue, sh') /\
      out sh' = out sh ++ [Stdout (String "013" "$ ")] /\
      args (tk sh') = ArgsFreed /\
      exec_args sh' = exec_args sh /\ exit_flag sh' = exit_flag sh /\
      jobs sh' = jobs sh /\ cwd sh' = cwd sh).
Proof.
  intros Hbuf Hsp Hlow Hheap.
  destruct (heap (tk sh)) as [|[|h]] eqn:Hh; try lia.
  split.
  - destruct (create_args_blank (tk sh) line rest h Hbuf Hsp Hlow Hh)
      as [m' Hcr].
    eexists. eexists. split; [exact Hcr|]. simpl.
    split; [reflexivity|]. split; [reflexivity|].
    unfold command_of. simpl. split; [reflexivity|].
    split; reflexivity.
  - destruct (create_args_blank (with_stderr (tk sh) EmptyString) line rest h
                Hbuf Hsp Hlow Hh) as [m' Hcr].
    unfold input_line. rewrite Hcr.
    change (0 =? -1) with false. change (0 =? 1) with false. cbv iota.
    cbv beta iota delta [args]. rewrite c_string_zero_block.
    simpl. eexists. split; [reflexivity|]. simpl.
    rewrite app_nil_r. auto 10.
Qed.

(** ** Lists in the memory *)

Lemma holds_cons (m : memory) (p : Z) (c : ascii) (l : list ascii) :
  holds m p (c :: l) <-> load m p = Some c /\ holds m (p + 1) l.
Proof.
  unfold holds. split.
  - intros H. split.
    + specialize (H O ltac:(simpl; lia)). rewrite Z.add_0_r in H. exact H.
    + intros k Hk. specialize (H (S k) ltac:(simpl; lia)).
      replace (p + 1 + Z.of_nat k) with (p + Z.of_nat (S k)) by lia. exact H.
  - intros [H0 H] [|k] Hk.
    + rewrite Z.add_0_r. exact H0.
    + replace (p + Z.of_nat (S k)) with (p + 1 + Z.of_nat k) by lia.
      apply H. simpl in Hk. lia.
Qed.

Lemma holds_app (m : memory) (p : Z) (a b : list ascii) :
  holds m p (a ++ b) <->
  holds m p a /\ holds m (p + Z.of_nat (length a)) b.
Proof.
  revert p. induction a as [|c a IH]; intros p; simpl.
  - rewrite Z.add_0_r. unfold holds at 2. simpl. split; [intros H|tauto].
    split; [intros k Hk; lia | exact H].
  - rewrite !holds_cons, IH.
    replace (p + 1 + Z.of_nat (length a))
      with (p + Z.pos (Pos.of_succ_nat (length a))) by lia.
    tauto.
Qed.

Lemma holds_buf (m : memory) (l rest : list ascii) :
  cmd_buf m = l ++ rest -> holds m 0 l.
Proof.
  intros E k Hk. rewrite load_buf by lia. rewrite E.
  rewrite nth_error_app1 by lia. f_equal. lia.
Qed.

Lemma holds_load_range (m : memory) (p : Z) (l : list ascii) :
  holds m p l -> load_range m p (length l) = Some l.
Proof.
  revert p. induction l as [|c l IH]; intros p H; simpl.
  - reflexivity.
  - apply holds_cons in H. destruct H as [H0 H].
    rewrite H0, (IH (p + 1) H). reflexivity.
Qed.

Lemma holds_last (m : memory) (p : Z) (l : list ascii) (c : ascii) :
  holds m p (l ++ [c]) -> load m (p + Z.of_nat (length l)) = Some c.
Proof.
  intros H. apply holds_app in H. destruct H as [_ H].
  apply holds_cons in H. tauto.
Qed.

Lemma holds_ext (m m' : memory) (p : Z) (l : list ascii) :
  (forall k, p <= k < p + Z.of_nat (length l) -> load m' k = load m k) ->
  holds m p l -> holds m' p l.
Proof.
  intros E H k Hk. rewrite E by lia. apply H. exact Hk.
Qed.

(** ** The loops on plain words *)

(** Bytes of a token, one iteration each. *)
Lemma count_args_chars (n : nat) (u : list ascii) :
  forall (f : nat) (ptr bptr i : Z) (s : state),
    (forall c, In c u -> solid c) -> holds (mem s) ptr u ->
    count_args n (length u + f) ptr bptr i s =
    count_args n f (ptr + Z.of_nat (length u)) bptr
               (i + Z.of_nat (length u)) s.
Proof.
  induction u as [|c u IH]; intros f ptr bptr i s Hu Hh.
  - simpl. rewrite !Z.add_0_r. reflexivity.
  - apply holds_cons in Hh. destruct Hh as [Hc Hh].
    destruct (Hu c (or_introl eq_refl)) as [Hsp Hnul].
    change (length (c :: u) + f)%nat with (S (length u + f)).
    rewrite count_args_S, (bind_deref _ _ _ _ Hc), Hnul, Hsp.
    rewrite IH; [|intros x Hx; apply Hu; right; exact Hx | exact Hh].
    f_equal; simpl length; lia.
Qed.

Lemma fill_args_S (n f : nat) (ptr bptr i j : Z) :
  fill_args n (S f) ptr bptr i j =
  (c <- deref ptr ;;
   if is_nul c then ok (ptr, bptr, i, j)
   else if is_space c then
     b <- deref bptr ;;
     i' <- (if Ascii.eqb b ">"%char then copy_redir_t bptr j ;; ok i
            else if Ascii.eqb b "<"%char then copy_redir_f bptr j ;; ok i
            else copy_arg i bptr j ;; ok (i + 1)) ;;
     pb <- skip_spaces n ptr (ptr + 1) ;;
     fill_args n f (fst pb - 1 + 1) (snd pb) i' (-1 + 1)
   else fill_args n f (ptr + 1) bptr i (j + 1)).
Proof. reflexivity. Qed.

Lemma fill_args_chars (n : nat) (u : list ascii) :
  forall (f : nat) (ptr bptr i j : Z) (s : state),
    (forall c, In c u -> solid c) -> holds (mem s) ptr u ->
    fill_args n (length u + f) ptr bptr i j s =
    fill_args n f (ptr + Z.of_nat (length u)) bptr i
              (j + Z.of_nat (length u)) s.
Proof.
  induction u as [|c u IH]; intros f ptr bptr i j s Hu Hh.
  - simpl. rewrite !Z.add_0_r. reflexivity.
  - apply holds_cons in Hh. destruct Hh as [Hc Hh].
    destruct (Hu c (or_introl eq_refl)) as [Hsp Hnul].
    change (length (c :: u) + f)%nat with (S (length u + f)).
    rewrite fill_args_S, (bind_deref _ _ _ _ Hc), Hnul, Hsp.
    rewrite IH; [|intros x Hx; apply Hu; right; exact Hx | exact Hh].
    f_equal; simpl length; lia.
Qed.

(** The forward scan over a run of blanks that a byte [c], no blank, ends. *)
Lemma skip_spaces_run (sep : list ascii) :
  forall (n : nat) (ptr b : Z) (c : ascii) (s : state),
    (forall x, In x sep -> is_space x = true) -> is_space c = false ->
    holds (mem s) ptr (sep ++ [c]) -> (length sep < n)%nat ->
    skip_spaces n ptr b s =
      Ok (ptr + Z.of_nat (length sep),
          match sep with [] => b | _ => ptr + Z.of_nat (length sep) end) s.
Proof.
  induction sep as [|x sep IH]; intros n ptr b c s Hsep Hc Hh Hn;
    (destruct n as [|n]; [simpl in Hn; lia|]).
  - simpl in Hh. apply holds_cons in Hh. destruct Hh as [Hl _].
    simpl. rewrite (bind_deref _ _ _ _ Hl), Hc, Z.add_0_r. reflexivity.
  - simpl in Hh. apply holds_cons in Hh. destruct Hh as [Hl Hh].
    simpl skip_spaces. rewrite (bind_deref _ _ _ _ Hl).
    rewrite (Hsep x (or_introl eq_refl)).
    rewrite (IH n (ptr + 1) (ptr + 1) c s);
      [|intros y Hy; apply Hsep; right; exact Hy | exact Hc | exact Hh
       | simpl in Hn; lia].
    f_equal. f_equal.
    + simpl length. lia.
    + destruct sep; simpl length; lia.
Qed.

Lemma back_spaces_stop (f : nat) (p : Z) (c : ascii) (s : state) :
  load (mem s) p = Some c -> is_space c = false ->
  back_spaces (S f) p s = Ok p s.
Proof.
  intros H Hc. simpl. rewrite (bind_deref _ _ _ _ H), Hc. reflexivity.
Qed.

Lemma upd_app_at {A : Type} (a b : list A) (x y : A) :
  upd (a ++ x :: b) (length a) y = a ++ y :: b.
Proof. induction a as [|z a IH]; simpl; [reflexivity | rewrite IH; reflexivity]. Qed.

Lemma with_argsc_same (s : state) : with_argsc s (argsc s + 0) = s.
Proof. destruct s. unfold with_argsc. simpl. rewrite Z.add_0_r. reflexivity. Qed.

Lemma is_redir_false (c : ascii) :
  is_redir c = false ->
  Ascii.eqb c ">"%char = false /\ Ascii.eqb c "<"%char = false.
Proof. unfold is_redir. intros H. apply orb_false_iff in H. exact H. Qed.

(** A plain word and the run of blanks after it, in the counting loop: one
    more argument. *)
Lemma count_args_word (n f : nat) (w sep : list ascii) (c : ascii) (p : Z)
    (s : state) :
  plain_word w -> blank_run sep -> is_space c = false ->
  holds (mem s) p (w ++ sep ++ [c]) -> (length sep < n)%nat ->
  count_args n (length w + S f) p p 0 s =
  count_args n f (p + Z.of_nat (length w) + Z.of_nat (length sep))
             (p + Z.of_nat (length w) + Z.of_nat (length sep)) 0
             (with_argsc s (argsc s + 1)).
Proof.
  intros [Hlen [Hsolid [c0 [w' [Hw [Hr Ha]]]]]] [Hne Hsep] Hc Hh Hn.
  apply holds_app in Hh. destruct Hh as [Hwh Hrest].
  rewrite (count_args_chars n w (S f) p p 0 s Hsolid Hwh).
  destruct sep as [|x sep']; [contradiction|].
  assert (Hx : load (mem s) (p + Z.of_nat (length w)) = Some x).
  { simpl in Hrest. apply holds_cons in Hrest. tauto. }
  pose proof (Hsep x (or_introl eq_refl)) as Hxs.
  rewrite count_args_S, (bind_deref _ _ _ _ Hx).
  rewrite (is_space_not_nul x Hxs), Hxs.
  assert (Hshort : 0 + Z.of_nat (length w) < MAXARG) by (clear - Hlen; lia).
  rewrite (bind_Ok _ _ _ _ _ (too_long_ok _ s Hshort)).
  assert (Htok : count_token n p s = Ok tt (with_argsc s (argsc s + 1))).
  { unfold count_token. subst w. apply holds_cons in Hwh.
    destruct Hwh as [H0 _]. rewrite (bind_deref _ _ _ _ H0), Hr, Ha.
    reflexivity. }
  rewrite (bind_Ok _ _ _ _ _ Htok).
  rewrite (bind_Ok _ _ _ _ _
             (skip_spaces_run (x :: sep') n (p + Z.of_nat (length w))
                (p + Z.of_nat (length w) + 1) c
                (with_argsc s (argsc s + 1)) Hsep Hc Hrest Hn)).
  cbv beta iota delta [fst snd]. f_equal; lia.
Qed.

(** The same in the filling loop: the word goes to the block [args[i]]. *)
Lemma fill_args_word (n f : nat) (w sep : list ascii) (c : ascii) (p : Z)
    (i : nat) (a : list (option block)) (blk : block) (s : state) :
  plain_word w -> blank_run sep -> is_space c = false ->
  holds (mem s) p (w ++ sep ++ [c]) -> (length sep < n)%nat ->
  args s = ArgsLive a -> nth_error a i = Some (Some blk) ->
  fill_args n (length w + S f) p p (Z.of_nat i) 0 s =
  fill_args n f (p + Z.of_nat (length w) + Z.of_nat (length sep))
            (p + Z.of_nat (length w) + Z.of_nat (length sep))
            (Z.of_nat (S i)) 0
            (with_args s
               (ArgsLive (upd a i (Some (w ++ skipn (length w) blk))))).
Proof.
  intros [Hlen [Hsolid [c0 [w' [Hw [Hr Ha]]]]]] [Hne Hsep] Hc Hh Hn Hargs Hi.
  apply holds_app in Hh. destruct Hh as [Hwh Hrest].
  rewrite (fill_args_chars n w (S f) p p (Z.of_nat i) 0 s Hsolid Hwh).
  destruct sep as [|x sep']; [contradiction|].
  assert (Hx : load (mem s) (p + Z.of_nat (length w)) = Some x).
  { simpl in Hrest. apply holds_cons in Hrest. tauto. }
  pose proof (Hsep x (or_introl eq_refl)) as Hxs.
  rewrite fill_args_S, (bind_deref _ _ _ _ Hx).
  rewrite (is_space_not_nul x Hxs), Hxs.
  assert (H0 : load (mem s) p = Some c0).
  { subst w. apply holds_cons in Hwh. tauto. }
  rewrite (bind_deref _ _ _ _ H0).
  destruct (is_redir_false c0 Hr) as [-> ->].
  assert (Hcopy : copy_arg (Z.of_nat i) p (0 + Z.of_nat (length w)) s =
                  Ok tt (with_args s (ArgsLive
                    (upd a i (Some (w ++ skipn (length w) blk)))))).
  { unfold copy_arg.
    assert (Hget : get_arg (Z.of_nat i) s = Ok (Some blk) s).
    { unfold get_arg. rewrite Hargs.
      destruct (Z.ltb_spec (Z.of_nat i) 0); [lia|].
      rewrite Nat2Z.id, Hi. reflexivity. }
    rewrite (bind_Ok _ _ _ _ _ Hget).
    assert (Hcp : memcpy blk p (0 + Z.of_nat (length w)) s =
                  Ok (w ++ skipn (length w) blk) s).
    { unfold memcpy.
      destruct (Z.ltb_spec (0 + Z.of_nat (length w)) 0); [lia|].
      destruct (Z.ltb_spec MAXARG (0 + Z.of_nat (length w))); [lia|].
      simpl orb. cbv iota.
      replace (Z.to_nat (0 + Z.of_nat (length w))) with (length w) by lia.
      rewrite (holds_load_range _ _ _ Hwh). reflexivity. }
    rewrite (bind_Ok _ _ _ _ _ Hcp).
    unfold set_arg. rewrite Hargs.
    assert (Hlt : (i < length a)%nat).
    { apply nth_error_Some. rewrite Hi. discriminate. }
    destruct (Z.ltb_spec (Z.of_nat i) 0); [lia|].
    destruct (Z.leb_spec (Z.of_nat (length a)) (Z.of_nat i)); [lia|].
    simpl orb. cbv iota. rewrite Nat2Z.id. reflexivity. }
  assert (Hnext : (copy_arg (Z.of_nat i) p (0 + Z.of_nat (length w)) ;;
                   ok (Z.of_nat i + 1)) s =
                  Ok (Z.of_nat i + 1)
                     (with_args s (ArgsLive
                        (upd a i (Some (w ++ skipn (length w) blk)))))).
  { rewrite (bind_Ok _ _ _ _ _ Hcopy). reflexivity. }
  rewrite (bind_Ok _ _ _ _ _ Hnext).
  rewrite (bind_Ok _ _ _ _ _
             (skip_spaces_run (x :: sep') n (p + Z.of_nat (length w))
                (p + Z.of_nat (length w) + 1) c
                (with_args s (ArgsLive
                   (upd a i (Some (w ++ skipn (length w) blk)))))
                Hsep Hc Hrest Hn)).
  cbv beta iota delta [fst snd]. f_equal; lia.
Qed.

Lemma with_args_same (s : state) (a : args_ptr) :
  args s = a -> with_args s a = s.
Proof. destruct s. simpl. intros <-. reflexivity. Qed.

Lemma join_head (ws : list (list ascii * list ascii)) (last l : list ascii)
    (c : ascii) :
  plain_pairs ws -> last = c :: l -> is_space c = false ->
  exists c' l', join ws last = c' :: l' /\ is_space c' = false.
Proof.
  intros Hws Hl Hc. destruct ws as [|[w sep] r]; simpl.
  - eauto.
  - inversion Hws as [|x y [[_ [Hsolid [c0 [w' [Hw _]]]]] _] _].
    simpl in Hsolid, Hw. subst w. simpl.
    exists c0. eexists. split; [reflexivity|].
    exact (proj1 (Hsolid c0 (or_introl eq_refl))).
Qed.

Lemma holds_word_run (m : memory) (p : Z) (w sep l : list ascii) (c : ascii) :
  holds m p (w ++ sep ++ c :: l) ->
  holds m p (w ++ sep ++ [c]) /\
  holds m (p + Z.of_nat (length w) + Z.of_nat (length sep)) (c :: l).
Proof.
  intros H. apply holds_app in H. destruct H as [Hw H].
  apply holds_app in H. destruct H as [Hs H].
  split; [|exact H].
  apply holds_app. split; [exact Hw|].
  apply holds_app. split; [exact Hs|].
  apply holds_cons in H. apply holds_cons. split; [tauto|].
  intros k Hk. simpl in Hk. lia.
Qed.

(** The words of [ws] in the counting loop: [length ws] more arguments. *)
Lemma count_args_words (n : nat) (ws : list (list ascii * list ascii)) :
  forall (f : nat) (p : Z) (s : state) (last l : list ascii) (c : ascii),
    plain_pairs ws -> last = c :: l -> is_space c = false ->
    holds (mem s) p (join ws last) ->
    (forall w sep, In (w, sep) ws -> (length sep < n)%nat) ->
    count_args n (cost ws + f) p p 0 s =
    count_args n f (p + span ws) (p + span ws) 0
               (with_argsc s (argsc s + Z.of_nat (length ws))).
Proof.
  induction ws as [|[w sep] r IH]; intros f p s last l c Hws Hl Hc Hh Hn.
  - simpl. rewrite with_argsc_same, Z.add_0_r. reflexivity.
  - inversion Hws as [|x y [Hw Hsep] Hr]; subst x y. simpl in Hw, Hsep.
    destruct (join_head r last l c Hr Hl Hc) as [c' [l' [Hj Hc']]].
    simpl in Hh. rewrite Hj in Hh.
    destruct (holds_word_run _ _ _ _ _ _ Hh) as [H1 H2].
    simpl cost.
    replace (length w + S (cost r) + f)%nat
      with (length w + S (cost r + f))%nat by lia.
    rewrite (count_args_word n (cost r + f) w sep c' p s Hw Hsep Hc' H1
               (Hn w sep (or_introl eq_refl))).
    rewrite <- Hj in H2.
    rewrite (IH f _ (with_argsc s (argsc s + 1)) last l c Hr Hl Hc H2
               (fun w0 s0 H => Hn w0 s0 (or_intror H))).
    simpl span. simpl length.
    replace (p + Z.of_nat (length w) + Z.of_nat (length sep) + span r)
      with (p + (Z.of_nat (length w) + Z.of_nat (length sep) + span r))
      by lia.
    f_equal. unfold with_argsc. simpl. f_equal. lia.
Qed.

(** The words of [ws] in the filling loop: each goes to its block. *)
Lemma fill_args_words (n : nat) (ws : list (list ascii * list ascii)) :
  forall (f : nat) (p : Z) (s : state) (last l : list ascii) (c : ascii)
         (done tl : list (option block)),
    plain_pairs ws -> last = c :: l -> is_space c = false ->
    holds (mem s) p (join ws last) ->
    (forall w sep, In (w, sep) ws -> (length sep < n)%nat) ->
    args s = ArgsLive (done ++ repeat (Some zero_block) (length ws) ++ tl) ->
    fill_args n (cost ws + f) p p (Z.of_nat (length done)) 0 s =
    fill_args n f (p + span ws) (p + span ws)
              (Z.of_nat (length done + length ws)) 0
              (with_args s
                 (ArgsLive (done ++ map (fun ws => filled (fst ws)) ws ++ tl))).
Proof.
  induction ws as [|[w sep] r IH];
    intros f p s last l c done tl Hws Hl Hc Hh Hn Hargs.
  - simpl. simpl in Hargs. rewrite (with_args_same s _ Hargs).
    rewrite Z.add_0_r, Nat.add_0_r. reflexivity.
  - inversion Hws as [|x y [Hw Hsep] Hr]; subst x y. simpl in Hw, Hsep.
    destruct (join_head r last l c Hr Hl Hc) as [c' [l' [Hj Hc']]].
    simpl in Hh. rewrite Hj in Hh.
    destruct (holds_word_run _ _ _ _ _ _ Hh) as [H1 H2].
    simpl cost.
    replace (length w + S (cost r) + f)%nat
      with (length w + S (cost r + f))%nat by lia.
    simpl in Hargs.
    assert (Hnth : nth_error
                     (done ++ Some zero_block
                        :: repeat (Some zero_block) (length r) ++ tl)
                     (length done) = Some (Some zero_block)).
    { rewrite nth_error_app2 by lia. rewrite Nat.sub_diag. reflexivity. }
    rewrite (fill_args_word n (cost r + f) w sep c' p (length done) _
               zero_block s Hw Hsep Hc' H1 (Hn w sep (or_introl eq_refl))
               Hargs Hnth).
    rewrite upd_app_at.
    rewrite <- Hj in H2.
    replace (Z.of_nat (S (length done)))
      with (Z.of_nat (length (done ++ [filled w])))
      by (rewrite length_app; simpl; lia).
    match goal with
    | |- fill_args _ _ _ _ _ _ ?st = _ => set (s2 := st)
    end.
    rewrite (IH f _ s2 last l c (done ++ [filled w]) tl Hr Hl Hc H2
               (fun w0 s0 H => Hn w0 s0 (or_intror H))).
    2: { unfold s2. simpl. rewrite <- app_assoc. reflexivity. }
    simpl span. simpl length.
    replace (p + Z.of_nat (length w) + Z.of_nat (length sep) + span r)
      with (p + (Z.of_nat (length w) + Z.of_nat (length sep) + span r))
      by lia.
    f_equal.
    + rewrite length_app. simpl. lia.
    + unfold with_args. simpl. rewrite <- app_assoc. reflexivity.
Qed.

(** ** Allocation and the strings of the blocks *)

Lemma repeat_snoc {A : Type} (x : A) (n : nat) :
  repeat x n ++ [x] = repeat x (S n).
Proof. induction n as [|n IH]; simpl; [reflexivity | rewrite IH; reflexivity]. Qed.

Lemma alloc_blocks_spec (j : nat) :
  forall (i : nat) (s : state),
    args s = ArgsLive (repeat (Some zero_block) i ++ repeat None (S j)) ->
    (j <= heap s)%nat ->
    exists s',
      alloc_blocks j (Z.of_nat i) s = Ok tt s' /\
      args s' = ArgsLive (repeat (Some zero_block) (i + j) ++ [None]) /\
      same_but_args s s'.
Proof.
  induction j as [|j IH]; intros i s Hargs Hh.
  - exists s. split; [reflexivity|]. rewrite Nat.add_0_r.
    split; [exact Hargs|]. unfold same_but_args. auto 10.
  - simpl alloc_blocks. unfold bind at 1. unfold alloc at 1.
    destruct (heap s) as [|h] eqn:Eh; [lia|].
    set (s1 := with_heap s h).
    assert (Hset : set_arg (Z.of_nat i) (Some zero_block) s1 =
                   Ok tt (with_args s1 (ArgsLive
                      (repeat (Some zero_block) (S i) ++ repeat None (S j))))).
    { unfold set_arg. change (args s1) with (args s). rewrite Hargs.
      rewrite length_app, !repeat_length.
      destruct (Z.ltb_spec (Z.of_nat i) 0); [lia|].
      destruct (Z.leb_spec (Z.of_nat (i + S (S j))) (Z.of_nat i)); [lia|].
      simpl orb. cbv iota. rewrite Nat2Z.id.
      replace (upd (repeat (Some zero_block) i ++ repeat None (S (S j))) i
                   (Some zero_block))
        with (repeat (Some zero_block) (S i) ++ repeat None (S j));
        [reflexivity|].
      change (repeat None (S (S j))) with (@None block :: repeat None (S j)).
      rewrite <- (repeat_length (Some zero_block) i) at 3.
      rewrite upd_app_at, <- repeat_snoc, <- app_assoc. reflexivity. }
    rewrite (bind_Ok _ _ _ _ _ Hset).
    replace (Z.of_nat i + 1) with (Z.of_nat (S i)) by lia.
    destruct (IH (S i)
                (with_args s1 (ArgsLive
                   (repeat (Some zero_block) (S i) ++ repeat None (S j)))))
      as [s' [Hs' [Ha' Hsame]]]; [reflexivity | simpl; lia |].
    exists s'. split; [exact Hs'|]. split.
    + rewrite Ha'. f_equal. f_equal. f_equal. lia.
    + unfold same_but_args in *. simpl in Hsame. exact Hsame.
Qed.

(** [calloc] for [k] arguments and the NULL that closes them. *)
Lemma alloc_args_spec (k : nat) (s : state) :
  argsc s = Z.of_nat k + 1 -> (k + 1 <= heap s)%nat ->
  exists s',
    alloc_args s = Ok tt s' /\
    args s' = ArgsLive (repeat (Some zero_block) k ++ [None]) /\
    same_but_args s s'.
Proof.
  intros Hc Hh. unfold alloc_args. unfold bind at 1. unfold get at 1.
  rewrite Hc. destruct (Z.ltb_spec (Z.of_nat k + 1) 0); [lia|].
  unfold bind at 1. unfold alloc at 1.
  destruct (heap s) as [|h] eqn:Eh; [lia|].
  unfold bind at 1. unfold put at 1.
  replace (Z.to_nat (Z.of_nat k + 1)) with (S k) by lia.
  replace (Z.to_nat (Z.of_nat k + 1 - 1)) with k by lia.
  destruct (alloc_blocks_spec k O
              (with_args (with_heap s h) (ArgsLive (repeat None (S k)))))
    as [s' [Hs' [Ha' Hsame]]]; [reflexivity | simpl; lia |].
  exists s'. split; [exact Hs'|]. split; [exact Ha'|].
  unfold same_but_args in *. simpl in Hsame. exact Hsame.
Qed.

Lemma c_string_app (w tl : list ascii) :
  (forall c, In c w -> is_nul c = false) -> c_string tl = EmptyString ->
  c_string (w ++ tl) = string_of_list_ascii w.
Proof.
  intros Hw Htl. induction w as [|c w IH]; simpl.
  - exact Htl.
  - rewrite (Hw c (or_introl eq_refl)). f_equal. apply IH.
    intros x Hx. apply Hw. right. exact Hx.
Qed.

Lemma c_string_skipn_zeros (k n : nat) :
  c_string (skipn k (repeat NUL n)) = EmptyString.
Proof.
  revert k. induction n as [|n IH]; intros [|k]; simpl; auto.
Qed.

Lemma c_string_filled (w : list ascii) :
  (forall c, In c w -> is_nul c = false) ->
  c_string (w ++ skipn (length w) zero_block) = string_of_list_ascii w.
Proof.
  intros Hw. apply c_string_app; [exact Hw|]. apply c_string_skipn_zeros.
Qed.

Lemma argv_filled (ws : list (list ascii)) :
  (forall w, In w ws -> forall c, In c w -> is_nul c = false) ->
  argv (map filled ws ++ [None]) = map string_of_list_ascii ws.
Proof.
  induction ws as [|w ws IH]; intros H; simpl.
  - reflexivity.
  - rewrite (c_string_filled w (H w (or_introl eq_refl))). f_equal.
    apply IH. intros w' Hw'. apply H. right. exact Hw'.
Qed.

Lemma cost_le_span (ws : list (list ascii * list ascii)) :
  plain_pairs ws -> Z.of_nat (cost ws) <= span ws.
Proof.
  induction 1 as [|[w sep] r [_ [Hne _]] _ IH]; simpl in *.
  - lia.
  - destruct sep; [contradiction|]. simpl length. lia.
Qed.

Lemma join_app (ws : list (list ascii * list ascii)) (w sep t : list ascii) :
  join (ws ++ [(w, sep)]) t = join ws (w ++ sep ++ t).
Proof.
  induction ws as [|[w0 s0] r IH]; simpl; [reflexivity | rewrite IH; reflexivity].
Qed.

Lemma join_last_app (ws : list (list ascii * list ascii)) (a b : list ascii) :
  join ws (a ++ b) = join ws a ++ b.
Proof.
  induction ws as [|[w0 s0] r IH]; simpl; [reflexivity|].
  rewrite IH, <- !app_assoc. reflexivity.
Qed.

Lemma length_join (ws : list (list ascii * list ascii)) (t : list ascii) :
  Z.of_nat (length (join ws t)) = span ws + Z.of_nat (length t).
Proof.
  induction ws as [|[w0 s0] r IH]; simpl; [lia|].
  rewrite !length_app. lia.
Qed.

Lemma span_app (ws : list (list ascii * list ascii)) (w sep : list ascii) :
  span (ws ++ [(w, sep)]) =
  span ws + Z.of_nat (length w) + Z.of_nat (length sep).
Proof. induction ws as [|[w0 s0] r IH]; simpl; lia. Qed.

(** ** The passes on a line of plain words *)

Lemma holds_join (m : memory) (ws : list (list ascii * list ascii))
    (t : list ascii) (p : Z) :
  holds m p (join ws t) -> holds m (p + span ws) t.
Proof.
  revert p. induction ws as [|[w sep] r IH]; intros p H; simpl in *.
  - rewrite Z.add_0_r. exact H.
  - apply holds_app in H. destruct H as [_ H].
    apply holds_app in H. destruct H as [_ H].
    apply IH in H.
    replace (p + (Z.of_nat (length w) + Z.of_nat (length sep) + span r))
      with (p + Z.of_nat (length w) + Z.of_nat (length sep) + span r) by lia.
    exact H.
Qed.

Lemma span_nonneg (ws : list (list ascii * list ascii)) : 0 <= span ws.
Proof. induction ws as [|[w sep] r IH]; simpl; lia. Qed.

Lemma sep_le_span (ws : list (list ascii * list ascii)) (w sep : list ascii) :
  In (w, sep) ws -> Z.of_nat (length sep) <= span ws.
Proof.
  induction ws as [|[w0 s0] r IH]; simpl; [contradiction|].
  pose proof (span_nonneg r).
  intros [E|H']; [injection E as -> ->; lia | specialize (IH H'); lia].
Qed.

(** The first pass: the pointers and the count after the loop, for a line of
    blanks, then words with their runs of blanks, then a last token [tok]. *)
Lemma first_pass_plain (n : nat) (s : state) (lead : list ascii)
    (pairs : list (list ascii * list ascii)) (tok t0 : list ascii)
    (c0 : ascii) :
  (forall x, In x lead -> is_space x = true) ->
  plain_pairs pairs -> tok = c0 :: t0 -> (forall c, In c tok -> solid c) ->
  holds (mem s) 0 ((lead ++ join pairs tok) ++ [NUL]) ->
  Z.of_nat (length lead) + span pairs + Z.of_nat (length tok) < Z.of_nat n ->
  first_pass n s =
    Ok (Z.of_nat (length lead) + span pairs + Z.of_nat (length tok),
        Z.of_nat (length lead) + span pairs,
        0 + Z.of_nat (length tok))
       (with_argsc (with_run_bg s 0) (1 + Z.of_nat (length pairs))).
Proof.
  intros Hlead Hpairs Htok Hsolid Hh Hn.
  assert (Hc0 : is_space c0 = false).
  { apply (Hsolid c0). subst tok. left. reflexivity. }
  destruct (join_head pairs tok t0 c0 Hpairs Htok Hc0) as [c' [l' [Hj Hc']]].
  pose proof (proj1 (holds_app _ _ _ _) Hh) as [Hline Hnul].
  pose proof (proj1 (holds_app _ _ _ _) Hline) as [Hl Hjoin].
  simpl in Hjoin.
  assert (Hl' : holds (mem s) 0 (lead ++ [c'])).
  { apply holds_app. split; [exact Hl|]. simpl. rewrite Hj in Hjoin.
    apply holds_cons in Hjoin. apply holds_cons. split; [tauto|].
    intros k Hk. simpl in Hk. lia. }
  pose proof (cost_le_span pairs Hpairs) as Hcost.
  pose proof (span_nonneg pairs) as Hspan.
  unfold first_pass. unfold bind at 1. unfold put at 1.
  rewrite (bind_Ok _ _ _ _ _
             (skip_spaces_run lead n 0 0 c' (with_run_bg s 0) Hlead Hc' Hl'
                ltac:(lia))).
  unfold bind at 1. unfold put at 1. cbv beta iota delta [fst snd].
  replace (match lead with
           | [] => 0
           | _ :: _ => 0 + Z.of_nat (length lead)
           end) with (0 + Z.of_nat (length lead))
    by (destruct lead; [reflexivity | lia]).
  set (s2 := with_argsc (with_run_bg s 0) 1).
  replace n with (cost pairs +
                  (length tok + S (n - cost pairs - length tok - 1)))%nat
    at 2 by lia.
  rewrite (count_args_words n pairs _ (0 + Z.of_nat (length lead)) s2 tok t0
             c0 Hpairs Htok Hc0 Hjoin).
  2: { intros w sep Hin. pose proof (sep_le_span pairs w sep Hin). lia. }
  rewrite (count_args_chars n tok _ _ _ 0 _ Hsolid).
  2: { apply (holds_join _ pairs tok). exact Hjoin. }
  rewrite count_args_at_nul.
  2: { pose proof (holds_last _ _ _ _ Hh) as Hend. rewrite <- Hend.
       f_equal. rewrite length_app.
       pose proof (length_join pairs tok). lia. }
  reflexivity.
Qed.

(** After the loop, a last token that is a plain word: the NUL that ends the
    line is written once more. *)
Lemma last_token_plain (n : nat) (s : state) (P : Z) (last : list ascii) :
  plain_word last -> holds (mem s) P last ->
  load (mem s) (P + Z.of_nat (length last)) = Some NUL ->
  exists m',
    last_token (S n) (P + Z.of_nat (length last)) P s =
      Ok tt (with_argsc (with_mem s m') (argsc s + 1)) /\
    forall k, load m' k = load (mem s) k.
Proof.
  intros [Hlen [Hsolid [c0 [w' [Hw [Hr Ha]]]]]] Hh Hnul.
  assert (H0 : load (mem s) P = Some c0).
  { subst last. apply holds_cons in Hh. tauto. }
  assert (Hb1 : (if 1 <? argsc s
                 then b <- deref P ;;
                      if is_redir b
                      then put (fun s => with_argsc s (argsc s - 1))
                      else ok tt
                 else ok tt) s = Ok tt s).
  { destruct (1 <? argsc s); [|reflexivity].
    rewrite (bind_deref _ _ _ _ H0), Hr. reflexivity. }
  assert (Hb2 : (if 1 <? argsc s
                 then b <- deref P ;; ok (is_amp b)
                 else ok false) s = Ok false s).
  { destruct (1 <? argsc s); [|reflexivity].
    rewrite (bind_deref _ _ _ _ H0), Ha. reflexivity. }
  (* the last byte of the word *)
  assert (Hlast : exists cl,
             load (mem s) (P + Z.of_nat (length last) - 1) = Some cl /\
             is_space cl = false).
  { destruct (nth_error last (length last - 1)) as [cl|] eqn:Hcl.
    - exists cl. split.
      + rewrite <- Hcl.
        replace (P + Z.of_nat (length last) - 1)
          with (P + Z.of_nat (length last - 1)).
        * apply Hh. subst last. simpl. lia.
        * subst last. simpl length. lia.
      + exact (proj1 (Hsolid cl (nth_error_In _ _ Hcl))).
    - apply nth_error_None in Hcl. subst last. simpl in Hcl. lia. }
  destruct Hlast as [cl [Hcl Hcls]].
  destruct (store_in_mem (mem s) (P + Z.of_nat (length last)) NUL)
    as [m' [Hst [_ [_ [Hnew Hold]]]]].
  { exact (load_in_mem _ _ _ Hnul). }
  exists m'. split.
  - unfold last_token. unfold bind at 1. unfold get at 1. cbv beta iota.
    rewrite (bind_Ok _ _ _ _ _ Hb1).
    unfold bind at 1. unfold get at 1. cbv beta iota.
    rewrite (bind_Ok _ _ _ _ _ Hb2). cbv iota.
    assert (Hrm : (p <- back_spaces (S n) (P + Z.of_nat (length last) - 1) ;;
                   assign (p + 1) NUL) s = Ok tt (with_mem s m')).
    { rewrite (bind_Ok _ _ _ _ _ (back_spaces_stop n _ cl s Hcl Hcls)).
      unfold assign.
      replace (P + Z.of_nat (length last) - 1 + 1)
        with (P + Z.of_nat (length last)) by lia.
      rewrite Hst. reflexivity. }
    rewrite (bind_Ok _ _ _ _ _ Hrm). reflexivity.
  - intros k. destruct (Z.eq_dec k (P + Z.of_nat (length last))) as [->|Hk].
    + rewrite Hnew, Hnul. reflexivity.
    + apply Hold. exact Hk.
Qed.

(** After the loop, a last token [&] behind a run of blanks: the NUL goes to
    the end of the word before the run. *)
Lemma last_token_amp (n : nat) (s : state) (E : Z) (sep : list ascii)
    (cl : ascii) :
  1 < argsc s -> blank_run sep -> (length sep < n)%nat ->
  load (mem s) (E - 1) = Some cl -> is_space cl = false ->
  holds (mem s) E (sep ++ ["&"%char]) ->
  exists m',
    last_token n (E + Z.of_nat (length sep) + 1) (E + Z.of_nat (length sep)) s
      = Ok tt (with_argsc (with_mem (with_run_bg s 1) m')
                          (argsc s - 1 + 1)) /\
    load m' E = Some NUL /\
    forall k, k <> E -> load m' k = load (mem s) k.
Proof.
  intros Hc [Hne Hsep] Hn Hcl Hcls Hh.
  set (P := E + Z.of_nat (length sep)).
  assert (Hamp : load (mem s) P = Some "&"%char).
  { exact (holds_last _ _ _ _ Hh). }
  assert (Hsp : forall k, E <= k < P ->
             exists c, load (mem s) k = Some c /\ is_space c = true).
  { intros k Hk. apply holds_app in Hh. destruct Hh as [Hh _].
    specialize (Hh (Z.to_nat (k - E)) ltac:(unfold P in Hk; lia)).
    replace (E + Z.of_nat (Z.to_nat (k - E))) with k in Hh by lia.
    destruct (nth_error sep (Z.to_nat (k - E))) as [c|] eqn:Hc'.
    - exists c. split; [exact Hh|]. exact (Hsep c (nth_error_In _ _ Hc')).
    - apply nth_error_None in Hc'. unfold P in Hk. lia. }
  assert (Hpos : E < P).
  { unfold P. destruct sep; [contradiction|]. simpl length. lia. }
  assert (Hb1 : (if 1 <? argsc s
                 then b <- deref P ;;
                      if is_redir b
                      then put (fun s => with_argsc s (argsc s - 1))
                      else ok tt
                 else ok tt) s = Ok tt s).
  { destruct (Z.ltb_spec 1 (argsc s)); [|lia].
    rewrite (bind_deref _ _ _ _ Hamp). reflexivity. }
  assert (Hb2 : (if 1 <? argsc s
                 then b <- deref P ;; ok (is_amp b)
                 else ok false) s = Ok true s).
  { destruct (Z.ltb_spec 1 (argsc s)); [|lia].
    rewrite (bind_deref _ _ _ _ Hamp). reflexivity. }
  set (s1 := with_run_bg s 1).
  destruct (back_spaces_spec n s1 (P - 1) (E - 1) cl)
    as [q [c [Hback [Hq [Hlq [Hcq _]]]]]]; auto; try lia.
  { destruct (Hsp (P - 1) ltac:(lia)) as [c [Hc' _]].
    exact (load_in_mem _ _ _ Hc'). }
  assert (q = E - 1).
  { destruct (Z.eq_dec q (E - 1)); [assumption|]. exfalso.
    destruct (Hsp q ltac:(lia)) as [c' [Hc' Hs']].
    change (mem s1) with (mem s) in Hlq. congruence. }
  subst q.
  destruct (store_in_mem (mem s1) E NUL) as [m' [Hst [_ [_ [Hnew Hold]]]]].
  { destruct (Hsp E ltac:(lia)) as [c' [Hc' _]].
    exact (load_in_mem _ _ _ Hc'). }
  exists m'. split; [|split; [exact Hnew | exact Hold]].
  unfold last_token. unfold bind at 1. unfold get at 1. cbv beta iota.
  fold P. rewrite (bind_Ok _ _ _ _ _ Hb1).
  unfold bind at 1. unfold get at 1. cbv beta iota.
  rewrite (bind_Ok _ _ _ _ _ Hb2). cbv iota.
  assert (Hstrip : strip_background n P s =
                   Ok tt (with_argsc (with_mem s1 m') (argsc s - 1))).
  { unfold strip_background. unfold bind at 1. unfold put at 1. fold s1.
    rewrite (bind_Ok _ _ _ _ _ Hback).
    replace (E - 1 + 1) with E by lia.
    rewrite (bind_assign _ _ m' _ _ Hst). reflexivity. }
  rewrite (bind_Ok _ _ _ _ _ Hstrip). reflexivity.
Qed.

Lemma copy_arg_spec (s : state) (a : list (option block)) (i : nat)
    (blk w : list ascii) (p : Z) :
  args s = ArgsLive a -> nth_error a i = Some (Some blk) ->
  holds (mem s) p w -> Z.of_nat (length w) < MAXARG ->
  copy_arg (Z.of_nat i) p (0 + Z.of_nat (length w)) s =
    Ok tt (with_args s (ArgsLive (upd a i (Some (w ++ skipn (length w) blk))))).
Proof.
  intros Hargs Hi Hwh Hlen. unfold copy_arg.
  assert (Hget : get_arg (Z.of_nat i) s = Ok (Some blk) s).
  { unfold get_arg. rewrite Hargs.
    destruct (Z.ltb_spec (Z.of_nat i) 0); [lia|].
    rewrite Nat2Z.id, Hi. reflexivity. }
  rewrite (bind_Ok _ _ _ _ _ Hget).
  assert (Hcp : memcpy blk p (0 + Z.of_nat (length w)) s =
                Ok (w ++ skipn (length w) blk) s).
  { unfold memcpy.
    destruct (Z.ltb_spec (0 + Z.of_nat (length w)) 0); [lia|].
    destruct (Z.ltb_spec MAXARG (0 + Z.of_nat (length w))); [lia|].
    simpl orb. cbv iota.
    replace (Z.to_nat (0 + Z.of_nat (length w))) with (length w) by lia.
    rewrite (holds_load_range _ _ _ Hwh). reflexivity. }
  rewrite (bind_Ok _ _ _ _ _ Hcp).
  unfold set_arg. rewrite Hargs.
  assert (Hlt : (i < length a)%nat).
  { apply nth_error_Some. rewrite Hi. discriminate. }
  destruct (Z.ltb_spec (Z.of_nat i) 0); [lia|].
  destruct (Z.leb_spec (Z.of_nat (length a)) (Z.of_nat i)); [lia|].
  simpl orb. cbv iota. rewrite Nat2Z.id. reflexivity.
Qed.

(** The second pass on the words, the NUL written at the end of the last
    one. *)
Lemma second_pass_plain (n : nat) (s : state) (lead : list ascii)
    (ws : list (list ascii * list ascii)) (last : list ascii) :
  (forall x, In x lead -> is_space x = true) ->
  plain_pairs ws -> plain_word last ->
  holds (mem s) 0 ((lead ++ join ws last) ++ [NUL]) ->
  Z.of_nat (length lead) + span ws + Z.of_nat (length last) < Z.of_nat n ->
  args s = ArgsLive (repeat (Some zero_block) (length ws + 1) ++ [None]) ->
  second_pass n s =
    Ok tt (with_args s
             (ArgsLive (map filled (map fst ws ++ [last]) ++ [None]))).
Proof.
  intros Hlead Hws Hlast Hh Hn Hargs.
  pose proof Hlast as [Hlen [Hsolid [c0 [w' [Hw [Hr Ha]]]]]].
  assert (Hc0 : is_space c0 = false).
  { apply (Hsolid c0). subst last. left. reflexivity. }
  destruct (join_head ws last w' c0 Hws Hw Hc0) as [c' [l' [Hj Hc']]].
  pose proof (proj1 (holds_app _ _ _ _) Hh) as [Hline _].
  pose proof (proj1 (holds_app _ _ _ _) Hline) as [Hl Hjoin].
  simpl in Hjoin.
  assert (Hl' : holds (mem s) 0 (lead ++ [c'])).
  { apply holds_app. split; [exact Hl|]. simpl. rewrite Hj in Hjoin.
    apply holds_cons in Hjoin. apply holds_cons. split; [tauto|].
    intros k Hk. simpl in Hk. lia. }
  pose proof (cost_le_span ws Hws) as Hcost.
  pose proof (span_nonneg ws) as Hspan.
  set (P0 := 0 + Z.of_nat (length lead)) in *.
  set (f' := (n - cost ws - length last - 1)%nat).
  set (a1 := map (fun ws => filled (fst ws)) ws ++ [Some zero_block; None]).
  set (s4 := with_args s (ArgsLive a1)).
  assert (Hfill : fill_args n n P0 P0 0 0 s =
                  Ok (P0 + span ws + Z.of_nat (length last), P0 + span ws,
                      Z.of_nat (length ws), 0 + Z.of_nat (length last)) s4).
  { replace n with (cost ws + (length last + S f'))%nat at 2
      by (unfold f'; lia).
    assert (Hargs' : args s = ArgsLive
              ([] ++ repeat (Some zero_block) (length ws)
                  ++ [Some zero_block; None])).
    { rewrite Hargs, repeat_app, <- app_assoc. reflexivity. }
    pose proof (fill_args_words n ws (length last + S f') P0 s last w' c0
                  [] [Some zero_block; None] Hws Hw Hc0 Hjoin) as Hwords.
    simpl length in Hwords. simpl app in Hwords.
    change (Z.of_nat 0) with 0 in Hwords.
    change (0 + length ws)%nat with (length ws) in Hwords.
    rewrite Hwords; [|intros w sep Hin;
                      pose proof (sep_le_span ws w sep Hin); lia
                     | exact Hargs'].
    fold a1. fold s4.
    rewrite (fill_args_chars n last _ _ _ _ 0 _ Hsolid).
    2: { apply (holds_join _ ws last). exact Hjoin. }
    rewrite fill_args_at_nul.
    2: { pose proof (holds_last _ _ _ _ Hh) as Hend.
         change (mem s4) with (mem s). rewrite <- Hend.
         f_equal. rewrite length_app.
         pose proof (length_join ws last). unfold P0. lia. }
    reflexivity. }
  unfold second_pass.
  rewrite (bind_Ok _ _ _ _ _
             (skip_spaces_run lead n 0 0 c' s Hlead Hc' Hl' ltac:(lia))).
  cbv beta iota delta [fst snd]. fold P0.
  replace (match lead with
           | [] => 0
           | _ :: _ => P0
           end) with P0
    by (unfold P0; destruct lead; [reflexivity | lia]).
  rewrite (bind_Ok _ _ _ _ _ Hfill).
  cbv beta iota delta [fst snd].
  assert (H0 : load (mem s4) (P0 + span ws) = Some c0).
  { apply holds_join in Hjoin. subst last. apply holds_cons in Hjoin. tauto. }
  rewrite (bind_deref _ _ _ _ H0).
  destruct (is_redir_false c0 Hr) as [-> ->].
  assert (Hnth : nth_error a1 (length ws) = Some (Some zero_block)).
  { unfold a1. rewrite nth_error_app2 by (rewrite length_map; lia).
    rewrite length_map, Nat.sub_diag. reflexivity. }
  rewrite (bind_Ok _ _ _ _ _
             (copy_arg_spec s4 a1 (length ws) zero_block last
                (P0 + span ws) eq_refl Hnth
                (holds_join _ ws last _ Hjoin) Hlen)).
  unfold set_arg. cbv beta iota delta [args with_args].
  assert (Hupd : upd a1 (length ws) (Some (last ++ skipn (length last) zero_block))
                 = map (fun ws => filled (fst ws)) ws ++ [filled last; None]).
  { unfold a1. rewrite <- (length_map (fun ws => filled (fst ws)) ws).
    rewrite upd_app_at. reflexivity. }
  rewrite Hupd. rewrite length_app, length_map.
  destruct (Z.ltb_spec (Z.of_nat (length ws) + 1) 0); [lia|].
  destruct (Z.leb_spec (Z.of_nat (length ws + length [filled last; None]))
              (Z.of_nat (length ws) + 1)); [simpl length in *; lia|].
  simpl orb. cbv iota.
  f_equal. unfold with_args. f_equal. f_equal.
  replace (Z.to_nat (Z.of_nat (length ws) + 1)) with (S (length ws)) by lia.
  rewrite map_app, map_map, <- app_assoc. simpl.
  replace (map (fun ws => filled (fst ws)) ws ++ [filled last; None])
    with ((map (fun ws => filled (fst ws)) ws ++ [filled last]) ++ [None])
    by (rewrite <- app_assoc; reflexivity).
  replace (S (length ws))
    with (length (map (fun ws => filled (fst ws)) ws ++ [filled last]))
    by (rewrite length_app, length_map; simpl; lia).
  rewrite upd_app_at, <- app_assoc. reflexivity.
Qed.

(** Allocation and second pass, once the first pass has left the NUL at the
    end of the last word. *)
Lemma create_args_tail (n : nat) (s : state) (lead : list ascii)
    (ws : list (list ascii * list ascii)) (last : list ascii) :
  (forall x, In x lead -> is_space x = true) ->
  plain_pairs ws -> plain_word last ->
  holds (mem s) 0 ((lead ++ join ws last) ++ [NUL]) ->
  Z.of_nat (length lead) + span ws + Z.of_nat (length last) < Z.of_nat n ->
  argsc s = Z.of_nat (length ws) + 2 -> (length ws + 2 <= heap s)%nat ->
  exists s',
    (alloc_args ;; second_pass n ;; (ret 0 : M unit)) s = Ret 0 s' /\
    args s' = ArgsLive (map filled (map fst ws ++ [last]) ++ [None]) /\
    same_but_args s s'.
Proof.
  intros Hlead Hws Hlast Hh Hn Hc Hheap.
  destruct (alloc_args_spec (length ws + 1) s) as [s4 [Hal [Ha4 Hsame]]];
    [lia | lia |].
  pose proof Hsame as [Hm [Hc4 [Ht [Hf [Hb He]]]]].
  rewrite (bind_Ok _ _ _ _ _ Hal).
  assert (Hh4 : holds (mem s4) 0 ((lead ++ join ws last) ++ [NUL]))
    by (rewrite Hm; exact Hh).
  rewrite (bind_Ok _ _ _ _ _
             (second_pass_plain n s4 lead ws last Hlead Hws Hlast Hh4 Hn Ha4)).
  eexists. split; [reflexivity|]. split; [reflexivity|].
  unfold same_but_args. simpl. auto 10.
Qed.

Lemma solid_amp : forall c, In c ["&"%char] -> solid c.
Proof. intros c [<-|[]]. split; reflexivity. Qed.

Lemma holds_last_byte (m : memory) (p : Z) (w : list ascii) :
  w <> [] -> holds m p w ->
  exists c, load m (p + Z.of_nat (length w) - 1) = Some c /\ In c w.
Proof.
  intros Hne H.
  destruct (nth_error w (length w - 1)) as [c|] eqn:Hc.
  - exists c. split; [|exact (nth_error_In _ _ Hc)].
    rewrite <- Hc.
    replace (p + Z.of_nat (length w) - 1) with (p + Z.of_nat (length w - 1)).
    + apply H. destruct w; [contradiction|]. simpl. lia.
    + destruct w; [contradiction|]. simpl length. lia.
  - apply nth_error_None in Hc. destruct w; [contradiction|]. simpl in Hc. lia.
Qed.

(** The tokenizer on a line of plain words, closed or not by [&]. *)
Lemma create_args_plain (s : state) (lead : list ascii)
    (ws : list (list ascii * list ascii)) (last sep rest : list ascii)
    (bg : bool) :
  (forall x, In x lead -> is_space x = true) ->
  plain_pairs ws -> plain_word last -> (bg = true -> blank_run sep) ->
  cmd_buf (mem s) =
    (lead ++ join ws last ++ (if bg then sep ++ ["&"%char] else []))
    ++ NUL :: rest ->
  (length ws + 2 <= heap s)%nat ->
  exists s',
    create_args s = Ret 0 s' /\
    argsc s' = Z.of_nat (length ws) + 2 /\
    args s' = ArgsLive (map filled (map fst ws ++ [last]) ++ [None]) /\
    run_bg s' = (if bg then 1 else 0) /\
    redir_t s' = redir_t s /\ redir_f s' = redir_f s /\
    stderr s' = stderr s.
Proof.
  intros Hlead Hws Hlast Hsep Hbuf Hheap.
  pose proof Hlast as [Hlen [Hsolid [c0 [w' [Hw [Hr Ha]]]]]].
  pose proof (span_nonneg ws) as Hspan.
  unfold create_args, create_args_with.
  set (n := S (mem_size (mem s))).
  assert (Hsize : Z.of_nat (length (cmd_buf (mem s))) < Z.of_nat n).
  { unfold n, mem_size. lia. }
  destruct bg.
  - (* the line ends with blanks and [&] *)
    specialize (Hsep eq_refl).
    set (pairs := ws ++ [(last, sep)]).
    assert (Hjoin : join pairs ["&"%char] = join ws last ++ sep ++ ["&"%char]).
    { unfold pairs. rewrite join_app, <- join_last_app. reflexivity. }
    assert (Hpairs : plain_pairs pairs).
    { apply Forall_app. split; [exact Hws|]. constructor; [|constructor].
      split; assumption. }
    assert (Hh : holds (mem s) 0 ((lead ++ join pairs ["&"%char]) ++ [NUL])).
    { apply (holds_buf _ _ rest). rewrite Hbuf, Hjoin, <- !app_assoc.
      reflexivity. }
    assert (Hspan' : span pairs = span ws + Z.of_nat (length last)
                                  + Z.of_nat (length sep)).
    { unfold pairs. apply span_app. }
    assert (Hn : Z.of_nat (length lead) + span pairs
                 + Z.of_nat (length ["&"%char]) < Z.of_nat n).
    { rewrite Hbuf in Hsize. rewrite !length_app in Hsize.
      pose proof (length_join ws last). simpl length in *. lia. }
    rewrite (bind_Ok _ _ _ _ _
               (first_pass_plain n s lead pairs ["&"%char] [] "&"%char
                  Hlead Hpairs eq_refl solid_amp Hh Hn)).
    cbv beta iota delta [fst snd].
    rewrite (bind_Ok _ _ _ _ _
               (too_long_ok (0 + Z.of_nat (length ["&"%char])) _ eq_refl)).
    set (s2 := with_argsc (with_run_bg s 0) (1 + Z.of_nat (length pairs))).
    set (E := Z.of_nat (length lead) + span ws + Z.of_nat (length last)).
    replace (Z.of_nat (length lead) + span pairs
             + Z.of_nat (length ["&"%char]))
      with (E + Z.of_nat (length sep) + 1)
      by (unfold E; simpl length; lia).
    replace (Z.of_nat (length lead) + span pairs)
      with (E + Z.of_nat (length sep)) by (unfold E; lia).
    (* the memory around the end of the last word *)
    pose proof (proj1 (holds_app _ _ _ _) Hh) as [Hline _].
    pose proof (proj1 (holds_app _ _ _ _) Hline) as [Hl Hj].
    rewrite Hjoin in Hj.
    pose proof (proj1 (holds_app _ _ _ _) Hj) as [Hwords Htail].
    assert (HE : 0 + Z.of_nat (length lead) + Z.of_nat (length (join ws last))
                 = E).
    { unfold E. pose proof (length_join ws last). lia. }
    rewrite HE in Htail.
    assert (Hlastw : holds (mem s) (Z.of_nat (length lead) + span ws) last).
    { apply (holds_join _ ws last) in Hwords.
      replace (Z.of_nat (length lead) + span ws)
        with (0 + Z.of_nat (length lead) + span ws) by lia.
      exact Hwords. }
    destruct (holds_last_byte _ _ last ltac:(subst last; discriminate) Hlastw)
      as [cl [Hcl Hin]].
    assert (Hpl : length pairs = S (length ws)).
    { unfold pairs. rewrite length_app. simpl. lia. }
    assert (Hc2 : 1 < argsc s2).
    { change (argsc s2) with (1 + Z.of_nat (length pairs)). lia. }
    assert (Hsn : (length sep < n)%nat).
    { rewrite Hbuf in Hsize. rewrite !length_app in Hsize. lia. }
    destruct (last_token_amp n s2 E sep cl Hc2 Hsep Hsn Hcl
                (proj1 (Hsolid cl Hin)) Htail)
      as [m' [Hlt [Hnew Hold]]].
    rewrite (bind_Ok _ _ _ _ _ Hlt).
    set (s3 := with_argsc (with_mem (with_run_bg s2 1) m') (argsc s2 - 1 + 1)).
    destruct (create_args_tail n s3 lead ws last Hlead Hws Hlast)
      as [s' [Hs' [Hargs' [Hm [Hc' [Ht [Hf [Hb He]]]]]]]].
    + (* the words, then the NUL *)
      apply holds_app. split.
      * apply (holds_ext (mem s)).
        -- intros k Hk. apply Hold. rewrite length_app in Hk.
           pose proof (length_join ws last). unfold E. lia.
        -- apply holds_app. split; [exact Hl | exact Hwords].
      * apply holds_cons. split; [|intros k Hk; simpl in Hk; lia].
        replace (0 + Z.of_nat (length (lead ++ join ws last))) with E;
          [exact Hnew|].
        rewrite length_app. pose proof (length_join ws last). unfold E. lia.
    + destruct Hsep as [Hne _]. unfold E in *.
      rewrite Hbuf in Hsize. rewrite !length_app in Hsize.
      pose proof (length_join ws last). lia.
    + change (argsc s3) with (1 + Z.of_nat (length pairs) - 1 + 1). lia.
    + exact Hheap.
    + exists s'. split; [exact Hs'|].
      rewrite Hc', Ht, Hf, Hb, He.
      change (argsc s3) with (1 + Z.of_nat (length pairs) - 1 + 1).
      repeat split; auto. lia.
  - (* the line ends with the last word *)
    rewrite app_nil_r in Hbuf.
    assert (Hh : holds (mem s) 0 ((lead ++ join ws last) ++ [NUL])).
    { apply (holds_buf _ _ rest). rewrite Hbuf, <- !app_assoc. reflexivity. }
    assert (Hn : Z.of_nat (length lead) + span ws + Z.of_nat (length last)
                 < Z.of_nat n).
    { rewrite Hbuf in Hsize. rewrite !length_app in Hsize.
      pose proof (length_join ws last). lia. }
    rewrite (bind_Ok _ _ _ _ _
               (first_pass_plain n s lead ws last w' c0
                  Hlead Hws Hw Hsolid Hh Hn)).
    cbv beta iota delta [fst snd].
    rewrite (bind_Ok _ _ _ _ _
               (too_long_ok (0 + Z.of_nat (length last)) _ ltac:(lia))).
    set (s2 := with_argsc (with_run_bg s 0) (1 + Z.of_nat (length ws))).
    pose proof (proj1 (holds_app _ _ _ _) Hh) as [Hline _].
    pose proof (proj1 (holds_app _ _ _ _) Hline) as [Hl Hj].
    assert (Hlastw : holds (mem s2) (Z.of_nat (length lead) + span ws) last).
    { apply (holds_join _ ws last) in Hj.
      replace (Z.of_nat (length lead) + span ws)
        with (0 + Z.of_nat (length lead) + span ws) by lia.
      exact Hj. }
    destruct (last_token_plain (mem_size (mem s)) s2
                (Z.of_nat (length lead) + span ws) last Hlast Hlastw)
      as [m' [Hlt Hsame]].
    { pose proof (holds_last _ _ _ _ Hh) as Hend.
      change (mem s2) with (mem s). rewrite <- Hend. f_equal.
      rewrite length_app. pose proof (length_join ws last). lia. }
    fold n in Hlt. rewrite (bind_Ok _ _ _ _ _ Hlt).
    set (s3 := with_argsc (with_mem s2 m') (argsc s2 + 1)).
    destruct (create_args_tail n s3 lead ws last Hlead Hws Hlast)
      as [s' [Hs' [Hargs' [Hm [Hc' [Ht [Hf [Hb He]]]]]]]].
    + apply (holds_ext (mem s)); [|exact Hh]. intros k _. apply Hsame.
    + exact Hn.
    + change (argsc s3) with (1 + Z.of_nat (length ws) + 1). lia.
    + exact Hheap.
    + exists s'. split; [exact Hs'|].
      rewrite Hc', Ht, Hf, Hb, He.
      change (argsc s3) with (1 + Z.of_nat (length ws) + 1).
      repeat split; auto. lia.
Qed.

Lemma solidb_spec (c : ascii) : solidb c = true -> solid c.
Proof.
  unfold solidb, solid. intros H. apply andb_true_iff in H.
  destruct H as [H1 H2]. apply negb_true_iff in H1, H2. auto.
Qed.

Lemma plain_wordb_spec (w : list ascii) : plain_wordb w = true -> plain_word w.
Proof.
  unfold plain_wordb, plain_word. intros H.
  apply andb_true_iff in H. destruct H as [H H3].
  apply andb_true_iff in H. destruct H as [H1 H2].
  split; [apply Z.ltb_lt; exact H1|]. split.
  - intros c Hc. apply solidb_spec.
    rewrite forallb_forall in H2. exact (H2 c Hc).
  - destruct w as [|c w']; [discriminate|].
    apply andb_true_iff in H3. destruct H3 as [Hr Ha].
    apply negb_true_iff in Hr, Ha. exists c, w'. auto.
Qed.

Lemma blank_runb_spec (l : list ascii) : blank_runb l = true -> blank_run l.
Proof.
  unfold blank_runb, blank_run. destruct l as [|c l]; [discriminate|].
  intros H. split; [discriminate|].
  intros x Hx. rewrite forallb_forall in H. exact (H x Hx).
Qed.

Lemma plain_pairsb_spec (ws : list (list ascii * list ascii)) :
  plain_pairsb ws = true -> plain_pairs ws.
Proof.
  unfold plain_pairsb, plain_pairs. intros H. apply Forall_forall.
  intros p Hp. rewrite forallb_forall in H. specialize (H p Hp).
  apply andb_true_iff in H. destruct H as [H1 H2].
  split; [apply plain_wordb_spec | apply blank_runb_spec]; assumption.
Qed.

Lemma words_without_nul (ws : list (list ascii * list ascii))
    (last : list ascii) :
  plain_pairs ws -> plain_word last ->
  forall w, In w (map fst ws ++ [last]) ->
  forall c, In c w -> is_nul c = false.
Proof.
  intros Hws [_ [Hlast _]] w Hw c Hc.
  apply in_app_or in Hw. destruct Hw as [Hw|[<-|[]]].
  - apply in_map_iff in Hw. destruct Hw as [[w0 s0] [<- Hin]].
    unfold plain_pairs in Hws. rewrite Forall_forall in Hws.
    destruct (Hws _ Hin) as [[_ [Hsolid _]] _].
    exact (proj2 (Hsolid c Hc)).
  - exact (proj2 (Hlast c Hc)).
Qed.

(** C6.  In any state of the globals and of the memory around the line, with
    three allocations granted, [create_args] returns 0 on the line
    [sleep 5 &] with the arguments [sleep] and [5], the background flag set,
    and [argsc = 3]: two arguments and the closing NULL, the [&] is not
    counted.  The rule behind it, for every line of plain words (no [<], [>]
    or [&] at the start of a word, each shorter than [MAXARG]) separated by
    runs of blanks and tabs and closed by a run of blanks or tabs and [&]:
    the run before the [&] is stripped, the arguments are the words, the
    background flag is set and [&] is not counted in [argsc]. *)
Theorem trailing_ampersand_backgrounds :
  (forall (s : state) (rest : list ascii),
      cmd_buf (mem s) = bytes "sleep 5 &" ++ NUL :: rest ->
      (3 <= heap s)%nat ->
      exists s',
        create_args s = Ret 0 s' /\ argsc s' = 3 /\ run_bg s' = 1 /\
        command_of s'
          = Some (sleep_5 (redirect (redir_f s)) (redirect (redir_t s)))) /\
  (forall (s : state) (lead : list ascii)
          (ws : list (list ascii * list ascii)) (last sep rest : list ascii),
      (forall x, In x lead -> is_space x = true) ->
      plain_pairs ws -> plain_word last -> blank_run sep ->
      cmd_buf (mem s) =
        (lead ++ join ws last ++ sep ++ ["&"%char]) ++ NUL :: rest ->
      (length ws + 2 <= heap s)%nat ->
      exists s',
        create_args s = Ret 0 s' /\
        argsc s' = Z.of_nat (length ws) + 2 /\ run_bg s' = 1 /\
        command_of s'
          = Some {| arguments :=
                      map string_of_list_ascii (map fst ws ++ [last]);
                    input_redirect := redirect (redir_f s);
                    output_redirect := redirect (redir_t s);
                    background := true |}).
Proof.
  assert (General :
    forall (s : state) (lead : list ascii)
           (ws : list (list ascii * list ascii)) (last sep rest : list ascii),
      (forall x, In x lead -> is_space x = true) ->
      plain_pairs ws -> plain_word last -> blank_run sep ->
      cmd_buf (mem s) =
        (lead ++ join ws last ++ sep ++ ["&"%char]) ++ NUL :: rest ->
      (length ws + 2 <= heap s)%nat ->
      exists s',
        create_args s = Ret 0 s' /\
        argsc s' = Z.of_nat (length ws) + 2 /\ run_bg s' = 1 /\
        command_of s'
          = Some {| arguments :=
                      map string_of_list_ascii (map fst ws ++ [last]);
                    input_redirect := redirect (redir_f s);
                    output_redirect := redirect (redir_t s);
                    background := true |}).
  { intros s lead ws last sep rest Hlead Hws Hlast Hsep Hbuf Hheap.
    destruct (create_args_plain s lead ws last sep rest true Hlead Hws Hlast
                (fun _ => Hsep) Hbuf Hheap)
      as [s' [Hcr [Hc [Hargs [Hbg [Ht [Hf He]]]]]]].
    exists s'. split; [exact Hcr|]. split; [exact Hc|]. split; [exact Hbg|].
    unfold command_of. rewrite Hargs, Hbg, Ht, Hf.
    rewrite (argv_filled _ (words_without_nul ws last Hws Hlast)).
    reflexivity. }
  split; [|exact General].
  intros s rest Hbuf Hheap.
  destruct (General s [] [(bytes "sleep", bytes " ")] (bytes "5") (bytes " ")
              rest) as [s' [Hcr [Hc [Hbg Hcmd]]]].
  - intros x [].
  - apply plain_pairsb_spec. reflexivity.
  - apply plain_wordb_spec. reflexivity.
  - apply blank_runb_spec. reflexivity.
  - exact Hbuf.
  - exact Hheap.
  - exists s'. auto.
Qed.

Lemma trailing_ampersand_backgrounds_witness :
  (exists s',
      create_args (boot [] 3 "sleep 5 &") = Ret 0 s' /\ argsc s' = 3 /\
      run_bg s' = 1 /\ command_of s' = Some (sleep_5 None None)) /\
  (exists s',
      create_args (boot [] 4 "  tar xf a.tar 	 &") = Ret 0 s' /\
      argsc s' = 4 /\ run_bg s' = 1 /\
      command_of s'
        = Some {| arguments := ["tar"%string; "xf"%string; "a.tar"%string];
                  input_redirect := None; output_redirect := None;
                  background := true |}).
Proof.
  split.
  - apply (proj1 trailing_ampersand_backgrounds (boot [] 3 "sleep 5 &") []).
    + reflexivity.
    + simpl. lia.
  - apply (proj2 trailing_ampersand_backgrounds
             (boot [] 4 "  tar xf a.tar 	 &") (bytes "  ")
             [(bytes "tar", bytes " "); (bytes "xf", bytes " ")]
             (bytes "a.tar") [" "%char; TAB; " "%char] []).
    + apply forallb_forall. reflexivity.
    + apply plain_pairsb_spec. reflexivity.
    + apply plain_wordb_spec. reflexivity.
    + apply blank_runb_spec. reflexivity.
    + reflexivity.
    + simpl. lia.
Defined.

(** The line without [&]: the first example of the specification. *)
Lemma ls_la_parses (s : state) (rest : list ascii) :
  cmd_buf (mem s) = bytes "ls -la" ++ NUL :: rest -> (3 <= heap s)%nat ->
  exists s',
    create_args s = Ret 0 s' /\ argsc s' = 3 /\ run_bg s' = 0 /\
    argv (match args s' with ArgsLive a => a | _ => [] end)
      = ["ls"%string; "-la"%string].
Proof.
  intros Hbuf Hheap.
  destruct (create_args_plain s [] [(bytes "ls", bytes " ")] (bytes "-la") []
              rest false) as [s' [Hcr [Hc [Hargs [Hbg _]]]]].
  - intros x [].
  - apply plain_pairsb_spec. reflexivity.
  - apply plain_wordb_spec. reflexivity.
  - discriminate.
  - exact Hbuf.
  - exact Hheap.
  - exists s'. rewrite Hargs. auto.
Qed.

(** ** Runs on concrete inputs *)

Lemma forallb_negb_In {A : Type} (f : A -> bool) (l : list A) :
  forallb (fun c => negb (f c)) l = true -> forall c, In c l -> f c = false.
Proof.
  intros H c Hc. rewrite forallb_forall in H. specialize (H c Hc).
  destruct (f c); [discriminate|reflexivity].
Qed.

Lemma long_token_is_rejected_witness :
  exists s',
    create_args (boot [] 0 long_line) = Ret 1 s' /\
    args s' = ArgsNull /\
    redir_t s' = redir_t (boot [] 0 long_line) /\
    redir_f s' = redir_f (boot [] 0 long_line) /\
    (stderr s' = msg_too_long \/
     exists op, is_redir op = true /\ stderr s' = msg_no_space op) /\
    ((forall c, In c (bytes long_line) -> is_redir c = false) ->
     stderr s' = msg_too_long).
Proof.
  apply (long_token_is_rejected (boot [] 0 long_line) long_line []).
  - reflexivity.
  - apply forallb_negb_In. vm_compute. reflexivity.
  - exists (bytes "ls "), long_word, (bytes " -l").
    split; [vm_compute; reflexivity|]. split; [vm_compute; discriminate|].
    apply forallb_negb_In. vm_compute. reflexivity.
  - right. exists [], "l"%char, (tl (bytes long_line)).
    split; [vm_compute; reflexivity|]. split; [intros x []|].
    split; reflexivity.
Defined.

(** The line of C5 yields one argument, not none; and nothing is defined when
    no byte lies below the buffer, since [cmd_buf[-1]] is read. *)
Lemma blank_line_has_an_argument :
  (exists c, parse_from (boot [NUL] 2 "  ") = Parsed c /\
             arguments c = [EmptyString] /\
             length (arguments c) <> 0%nat) /\
  argsc (after_parse EmptyString) - 1 = argsc (after_parse "ls") - 1 /\
  parse EmptyString = Undefined.
Proof.
  split; [|split].
  - eexists. split; [vm_compute; reflexivity|].
    split; [reflexivity|discriminate].
  - vm_compute. reflexivity.
  - vm_compute. reflexivity.
Qed.

Lemma blank_line_is_a_no_op_witness :
  (exists s' c,
      create_args (boot [NUL] 2 "  ") = Ret 0 s' /\ argsc s' = 2 /\
      stderr s' = EmptyString /\
      command_of s' = Some c /\ arguments c = [EmptyString] /\
      background c = false) /\
  (exists sh',
      input_line (P := linux) EmptyString (shell_of (boot [NUL] 2 "  "))
        = Some (Continue, sh') /\
      out sh' = [Stdout (String "013" "$ ")] /\
      args (tk sh') = ArgsFreed /\
      exec_args sh' = 0 /\ exit_flag sh' = 0 /\
      jobs sh' = [] /\ cwd sh' = "/home"%string).
Proof.
  apply (blank_line_is_a_no_op (P := linux) EmptyString (shell_of (boot [NUL] 2 "  "))
           "  " []).
  - reflexivity.
  - apply forallb_forall. vm_compute. reflexivity.
  - exists NUL. split; [left; reflexivity | reflexivity].
  - simpl. lia.
Defined.

(** C8 fails for the exit with a status other than 0 and for the death by a
    signal: a foreground child that exits with status 1 leaves no line at
    all, neither from [execute_file] nor from the signal thread, and one
    killed by signal 9 leaves a newline, not [Killed]. *)
Lemma foreground_exit_is_silent :
  WIFEXITED (Posix := linux) 256 = true /\
  WEXITSTATUS (Posix := linux) 256 = 1 /\
  execute_file (P := linux) 0 "false" [] (ForkParent 100) true (100, 0, 256)
    = Some {| l_rv := 0; l_jobs := []; l_out := [] |} /\
  sig_handler (P := linux) SIGCHLD 100 256 1 0 [] = (false, [], []) /\
  WIFSIGNALED (Posix := linux) 9 = true /\
  execute_file (P := linux) 0 "sleep" [] (ForkParent 100) true (100, 0, 9)
    = Some {| l_rv := 0; l_jobs := []; l_out := [Stdout nl] |}.
Proof. repeat split; vm_compute; reflexivity. Qed.

Lemma foreground_writes_no_status_witness :
  exists r,
    execute_file (P := linux) 0 "false" [] (ForkParent 100) true (100, 0, 256)
      = Some r /\
    l_rv r = 0 /\ l_jobs r = [] /\
    (WIFSIGNALED (Posix := linux) 256 = false -> l_out r = []) /\
    (WIFSIGNALED (Posix := linux) 256 = true -> l_out r = [Stdout nl]) /\
    (WIFEXITED (Posix := linux) 256 = true ->
     WEXITSTATUS (Posix := linux) 256 <> 0 ->
     print_status (P := linux) 100 256 =
       (nl ++ "[" ++ dec 100 ++ "]+ Exit "
           ++ dec (WEXITSTATUS (Posix := linux) 256) ++ nl)%string) /\
    (WIFEXITED (Posix := linux) 256 = false ->
     WIFSIGNALED (Posix := linux) 256 = true ->
     print_status (P := linux) 100 256
       = (nl ++ "[" ++ dec 100 ++ "]+ Killed" ++ nl)%string) /\
    (forall st ea ef, (forall it, In it [] -> pid it <> 100) ->
       sig_handler (P := linux) SIGCHLD 100 st ea ef [] = (false, [], [])).
Proof.
  apply (foreground_writes_no_status (P := linux) "false" [] 100 100 0 256 true).
  lia.
Defined.

(** C9 fails for a failure of [chdir] other than ENOENT and ENOTDIR: with
    EACCES nothing is written and the input thread sets the exit flag and
    returns. *)
Lemma cd_eacces_ends_the_shell :
  exists sh',
    input_line (P := linux) "/root" (shell_at_start "cd /root")
      = Some (Return 0, sh') /\
    out sh' = [] /\ exit_flag sh' = 1 /\ exec_args sh' = 1 /\
    cwd sh' = "/home"%string.
Proof. eexists. split; [vm_compute; reflexivity|]. repeat split. Qed.

Lemma sigchld_reports_done_witness :
  exists js' prompt,
    sig_handler (P := linux) SIGCHLD 42 0 0 0 [{| pid := 42; name := "sleep" |}]
      = (false, js', print_status (P := linux) 42 0 :: prompt) /\
    jobs_find_remove [{| pid := 42; name := "sleep" |}] 42 = (1, js') /\
    (WIFEXITED (Posix := linux) 0 = true -> WEXITSTATUS (Posix := linux) 0 = 0 ->
     print_status (P := linux) 42 0
       = (nl ++ "[" ++ dec 42 ++ "]+ Done" ++ nl)%string) /\
    (WIFEXITED (Posix := linux) 0 = false ->
     WIFSIGNALED (Posix := linux) 0 = false ->
     WIFSTOPPED (Posix := linux) 0 = true ->
     print_status (P := linux) 42 0
       = (nl ++ "[" ++ dec 42 ++ "]+ Stopped" ++ nl)%string) /\
    (WIFEXITED (Posix := linux) 0 = false ->
     WIFSIGNALED (Posix := linux) 0 = false ->
     WIFSTOPPED (Posix := linux) 0 = false ->
     print_status (P := linux) 42 0
       = (nl ++ "[" ++ dec 42 ++ "]+ Terminated" ++ nl)%string).
Proof.
  apply (sigchld_reports_done (P := linux) 42 0 0 0
           [{| pid := 42; name := "sleep" |}]).
  - lia.
  - exists {| pid := 42; name := "sleep" |}. split; [left|]; reflexivity.
Defined.

(** * Further properties *)

(** ** The monitor: runs end, and nothing runs after [exit] *)

Module MonitorRunsFacts.
Import Monitor MonitorRuns.
Section Runs.
Variable cmd : Type.
Implicit Types s : mon cmd.

(** Every step lowers the weight. *)
Lemma step_weight s s' : step s s' -> (weight s' < weight s)%nat.
Proof.
  intros H. destruct H; unfold weight; simpl;
    repeat match goal with
           | |- context [if ?b then _ else _] => destruct b
           | e : exec_pc |- _ => destruct e
           | p : line_pc |- _ => destruct p
           end; simpl; lia.
Qed.

Lemma steps_weight (n : nat) s s' :
  steps n s s' -> (n + weight s' <= weight s)%nat.
Proof.
  induction 1 as [s|n s s' s'' _ IH Hst].
  - simpl. lia.
  - pose proof (step_weight _ _ Hst). lia.
Qed.

Lemma steps_reachable (input : list (line_kind cmd)) (n : nat) s :
  steps n (init input) s -> reachable input s.
Proof.
  remember (init input) as s0 eqn:E.
  induction 1 as [s|n s s' s'' _ IH Hst].
  - subst s. constructor.
  - apply (reach_step cmd input s' s''); [apply IH; exact E | exact Hst].
Qed.

Lemma returned_flag s :
  inv s -> lpc s = LReturned -> epc s = EReturned -> exit_flag s = 1.
Proof.
  destruct s as [ea ef st p e i h l x]. simpl. intros [_ H] -> ->.
  simpl in H. tauto.
Qed.

Lemma launched_prefix s :
  inv s -> exists pending, handed s = launched s ++ pending.
Proof.
  destruct s as [ea ef st p e i h l x]. intros [_ H]. simpl in *.
  destruct p, e;
    repeat match goal with
           | H : _ /\ _ |- _ => destruct H
           | H : _ \/ _ |- _ => destruct H
           | H : exists _, _ |- _ => destruct H
           | H : False |- _ => destruct H
           end; subst;
    first [ exists []; rewrite app_nil_r; reflexivity
          | eexists; reflexivity ].
Qed.

(** What has been handed over comes from the lines before the first [exit],
    in their order. *)
Lemma handed_before_exit (input : list (line_kind cmd)) s :
  reachable input s ->
  if leaving (lpc s)
  then exists rest, runs (before_exit input) = handed s ++ rest
  else runs (before_exit input)
       = handed s ++ parsed_pending s ++ runs (before_exit (stdin s)).
Proof.
  induction 1 as [|s s' _ IH Hst].
  - reflexivity.
  - destruct Hst; unfold parsed_pending in *; simpl in *;
      rewrite ?app_nil_r in *;
      first [ assumption
            | exists []; rewrite app_nil_r; assumption
            | eexists; eassumption
            | rewrite <- app_assoc; assumption
            | idtac ].
    destruct (ef =? 0); simpl; rewrite ?app_nil_r;
      [assumption | eexists; eassumption].
Qed.

(** Whatever the interleaving, the two threads take at most
    [10 * length input + 7] steps on the lines [input], and a run that cannot
    go on has both threads returned, the exit flag set and every command that
    was handed over launched: the shell ends on every input (as far as each
    [execute_file] returns). *)
Theorem threads_terminate (input : list (line_kind cmd)) (n : nat) s :
  steps n (init input) s ->
  (n <= 10 * length input + 7)%nat /\
  ((forall s', ~ step s s') ->
   lpc s = LReturned /\ epc s = EReturned /\ exit_flag s = 1 /\
   launched s = handed s).
Proof.
  intros Hrun. split.
  - pose proof (steps_weight n _ _ Hrun) as H.
    unfold weight at 2 in H. simpl in H. lia.
  - intros Hstuck.
    pose proof (MonitorFacts.inv_reachable cmd input s
                  (steps_reachable input n s Hrun)) as Hi.
    destruct (MonitorFacts.progress cmd s Hi) as [[Hl He]|[s' Hs']];
      [|exfalso; exact (Hstuck s' Hs')].
    split; [exact Hl|]. split; [exact He|].
    split; [exact (returned_flag s Hi Hl He)|].
    destruct s as [ea ef st p e i h l x]. simpl in *. subst p e.
    destruct Hi as [_ Hi]. simpl in Hi. tauto.
Qed.

(** No command of a line behind the first [exit] line (or behind a [cd] that
    fails fatally) is handed over or launched: the commands launched are, in
    order, commands of the lines before it. *)
Theorem nothing_launched_after_exit (input : list (line_kind cmd)) s :
  reachable input s ->
  exists rest, runs (before_exit input) = launched s ++ rest.
Proof.
  intros Hr.
  destruct (launched_prefix s (MonitorFacts.inv_reachable cmd input s Hr))
    as [pending Hp].
  pose proof (handed_before_exit input s Hr) as H.
  destruct (leaving (lpc s)).
  - destruct H as [rest H]. exists (pending ++ rest).
    rewrite H, Hp, <- app_assoc. reflexivity.
  - eexists. rewrite H, Hp, <- app_assoc. reflexivity.
Qed.

End Runs.

Local Tactic Notation "go" hyp(H) uconstr(c) :=
  let H' := fresh in
  pose proof (steps_S nat _ _ _ _ H c) as H'; simpl in H'; clear H;
  rename H' into H.

(** A complete run on [closing_lines], 23 steps: the first command is handed
    over, launched and cleared; the second line is refused; the third is
    handed over, launched and cleared; [exit] sets the flag and wakes the
    exec thread, which returns; the fifth line is never read. *)
Lemma closing_run : steps 23 (init closing_lines) closing_mon.
Proof.
  pose proof (steps_O nat (init closing_lines)) as H.
  unfold init, closing_lines in H.
  go H (line_parsed nat _ _ _ _ _ _ _ _ _).
  go H (line_execute nat _ _ _ _ _ _ _ _).
  go H (exec_executable nat _ _ _ _ _ _ _).
  go H (exec_flag nat _ _ _ _ _ _ _ _).
  go H (exec_launch nat true _ _ _ _ _ _ _ _).
  go H (exec_executed nat _ _ _ _ _ _ _ _).
  go H (line_finished nat _ _ _ _ _ _ _).
  go H (line_clear nat _ _ _ _ _ _ _ _).
  go H (line_flag nat _ _ _ _ _ _ _ _).
  go H (line_rejected nat _ _ _ _ _ _ _ _).
  go H (line_parsed nat _ _ _ _ _ _ _ _ _).
  go H (line_execute nat _ _ _ _ _ _ _ _).
  go H (exec_executable nat _ _ _ _ _ _ _).
  go H (exec_flag nat _ _ _ _ _ _ _ _).
  go H (exec_launch nat true _ _ _ _ _ _ _ _).
  go H (exec_executed nat _ _ _ _ _ _ _ _).
  go H (line_finished nat _ _ _ _ _ _ _).
  go H (line_clear nat _ _ _ _ _ _ _ _).
  go H (line_flag nat _ _ _ _ _ _ _ _).
  go H (line_exit nat _ _ _ _ _ _ _ _).
  go H (line_exiting nat _ _ _ _ _ _ _ _).
  go H (exec_executable nat _ _ _ _ _ _ _).
  go H (exec_flag nat _ _ _ _ _ _ _ _).
  exact H.
Qed.

(** The run [closing_run]: 23 steps on five lines, two hand-offs, and at its
    end, where no step is left, both threads have returned. *)
Lemma threads_terminate_witness :
  (23 <= 10 * length closing_lines + 7)%nat /\
  lpc closing_mon = LReturned /\ epc closing_mon = EReturned /\
  exit_flag closing_mon = 1 /\
  launched closing_mon = handed closing_mon.
Proof.
  destruct (threads_terminate nat closing_lines 23 closing_mon closing_run)
    as [Hbound Hend].
  split; [exact Hbound|]. apply Hend. intros s' Hs. inversion Hs.
Defined.

(** At the end of [closing_run] the two commands before [exit] were
    launched, and the command behind it was not. *)
Lemma nothing_launched_after_exit_witness :
  exists rest,
    runs (before_exit closing_lines) = launched closing_mon ++ rest.
Proof.
  apply (nothing_launched_after_exit nat closing_lines closing_mon).
  exact (steps_reachable nat closing_lines 23 closing_mon closing_run).
Defined.

End MonitorRunsFacts.

(** ** The job list in memory *)

Module JobHeapFacts.

Lemma cell_bounds (h : JobHeap.heap) (a : nat) (x : JobHeap.item) :
  JobHeap.cell h a = Some x -> a <> O /\ (a < length h)%nat.
Proof.
  unfold JobHeap.cell. destruct a as [|a]; [discriminate|].
  destruct (nth_error h (S a)) as [[y|]|] eqn:E; try discriminate.
  intros _. split; [discriminate|]. apply nth_error_Some. rewrite E. discriminate.
Qed.

Lemma cell_upd_same (h : JobHeap.heap) (a : nat) (x : JobHeap.item) :
  a <> O -> (a < length h)%nat -> JobHeap.cell (upd h a (Some x)) a = Some x.
Proof.
  intros Ha Hlt. unfold JobHeap.cell. destruct a as [|a]; [contradiction|].
  rewrite nth_error_upd_same by exact Hlt. reflexivity.
Qed.

Lemma cell_upd_other (h : JobHeap.heap) (a b : nat) (v : option JobHeap.item) :
  b <> a -> JobHeap.cell (upd h a v) b = JobHeap.cell h b.
Proof.
  intros Hb. unfold JobHeap.cell. destruct b as [|b]; [reflexivity|].
  rewrite nth_error_upd_other by exact Hb. reflexivity.
Qed.

Lemma release_spec (h : JobHeap.heap) (a : nat) (x : JobHeap.item) :
  JobHeap.cell h a = Some x -> JobHeap.release h a = Some (upd h a None).
Proof. unfold JobHeap.release. intros ->. reflexivity. Qed.

Lemma chain_frame (h h' : JobHeap.heap) (addrs : list nat) :
  forall (p : nat) (l : job_list),
    (forall a, In a addrs -> JobHeap.cell h' a = JobHeap.cell h a) ->
    JobHeap.chain h p addrs l -> JobHeap.chain h' p addrs l.
Proof.
  induction addrs as [|a addrs IH]; intros p [|x l] Hf H; simpl in *; auto.
  destruct H as [Hp [Ha [nx [Hc H]]]].
  split; [exact Hp|]. split; [exact Ha|]. exists nx. split.
  - rewrite Hf by (left; reflexivity). exact Hc.
  - apply IH; [|exact H]. intros b Hb. apply Hf. right. exact Hb.
Qed.

Lemma chain_bounds (h : JobHeap.heap) (addrs : list nat) :
  forall (p : nat) (l : job_list),
    JobHeap.chain h p addrs l ->
    forall a, In a addrs -> a <> O /\ (a < length h)%nat.
Proof.
  induction addrs as [|a addrs IH]; intros p [|x l] H b Hb; simpl in *;
    try contradiction.
  destruct H as [Hp [Ha [nx [Hc H]]]].
  destruct Hb as [<-|Hb].
  - exact (cell_bounds _ _ _ Hc).
  - exact (IH nx l H b Hb).
Qed.

Lemma chain_length (h : JobHeap.heap) (addrs : list nat) :
  forall (p : nat) (l : job_list),
    JobHeap.chain h p addrs l -> length addrs = length l.
Proof.
  induction addrs as [|a addrs IH]; intros p [|x l] H; simpl in *;
    try contradiction; auto.
  destruct H as [_ [_ [nx [_ H]]]]. f_equal. exact (IH nx l H).
Qed.

(** A chain without repetition is no longer than the heap. *)
Lemma chain_fits (h : JobHeap.heap) (p : nat) (addrs : list nat)
    (l : job_list) :
  JobHeap.chain h p addrs l -> NoDup addrs -> (length addrs <= length h)%nat.
Proof.
  intros H Hnd.
  rewrite <- (length_seq (length h) 0).
  apply NoDup_incl_length; [exact Hnd|].
  intros a Ha. apply in_seq.
  destruct (chain_bounds h addrs p l H a Ha). lia.
Qed.

Lemma print_loop_spec (h : JobHeap.heap) (addrs : list nat) :
  forall (p : nat) (l : job_list) (fuel : nat),
    JobHeap.chain h p addrs l -> (length addrs < fuel)%nat ->
    JobHeap.print_loop fuel h p = Some (jobs_print l).
Proof.
  induction addrs as [|a addrs IH]; intros p [|x l] fuel H Hf; simpl in H;
    try contradiction; (destruct fuel as [|fuel]; [simpl in Hf; lia|]).
  - subst p. reflexivity.
  - destruct H as [Hp [Ha [nx [Hc H]]]]. subst p. simpl.
    destruct a as [|a]; [contradiction|].
    rewrite Hc. simpl.
    rewrite (IH nx l fuel H ltac:(simpl in Hf; lia)). reflexivity.
Qed.

Lemma cell_ext (h h' : JobHeap.heap) (a : nat) :
  nth_error h' a = nth_error h a -> JobHeap.cell h' a = JobHeap.cell h a.
Proof. unfold JobHeap.cell. intros ->. reflexivity. Qed.

Lemma set_next_same (y : JobHeap.item) :
  JobHeap.set_next y (JobHeap.i_next y) = y.
Proof. destruct y. reflexivity. Qed.

Lemma find_loop_S (f : nat) (l : JobHeap.jlist) (it prev : nat) (p : Z) :
  JobHeap.find_loop (S f) l (S it) prev p =
  match JobHeap.cell (JobHeap.cells l) (S it) with
  | None => None
  | Some x =>
      if JobHeap.i_pid x =? p then
        match JobHeap.cell (JobHeap.cells l) prev with
        | None => None
        | Some y =>
            match JobHeap.release
                    (upd (JobHeap.cells l) prev
                         (Some (JobHeap.set_next y (JobHeap.i_next x))))
                    (S it) with
            | None => None
            | Some h2 =>
                Some (1, {| JobHeap.first :=
                              if (S it =? JobHeap.first l)%nat
                              then JobHeap.i_next x else JobHeap.first l;
                            JobHeap.cells := h2 |})
            end
        end
      else JobHeap.find_loop f l (JobHeap.i_next x) (S it) p
  end.
Proof. reflexivity. Qed.

(** The loop of [jobs_find_remove] behind the first item: [prev] is the item
    before [it]. *)
Lemma find_loop_mid (p : Z) (addrs : list nat) :
  forall (l : job_list) (h : JobHeap.heap) (fst it prev fuel : nat)
         (y : JobHeap.item),
    JobHeap.chain h it addrs l -> NoDup addrs ->
    ~ In prev addrs -> ~ In fst addrs ->
    JobHeap.cell h prev = Some y -> JobHeap.i_next y = it ->
    (length addrs < fuel)%nat ->
    exists h' it' addrs',
      JobHeap.find_loop fuel {| JobHeap.first := fst; JobHeap.cells := h |}
                        it prev p
        = Some (match unlink l p with Some _ => 1 | None => 0 end,
                {| JobHeap.first := fst; JobHeap.cells := h' |}) /\
      JobHeap.cell h' prev = Some (JobHeap.set_next y it') /\
      JobHeap.chain h' it' addrs'
        (match unlink l p with Some l' => l' | None => l end) /\
      incl addrs' addrs /\ NoDup addrs' /\ length h' = length h /\
      (forall b, b <> prev -> ~ In b addrs -> nth_error h' b = nth_error h b) /\
      (forall b, In b addrs -> ~ In b addrs' -> nth_error h' b = Some None).
Proof.
  induction addrs as [|a ar IH];
    intros [|x r] h fst it prev fuel y Hch Hnd Hprev Hfst Hy Hnext Hfuel;
    simpl in Hch; try contradiction;
    (destruct fuel as [|f]; [simpl in Hfuel; lia|]).
  - subst it. exists h, O, []. simpl.
    split; [reflexivity|].
    rewrite <- Hnext, set_next_same.
    split; [exact Hy|]. split; [reflexivity|].
    split; [apply incl_refl|]. split; [constructor|]. split; [reflexivity|].
    split; [reflexivity | contradiction].
  - destruct Hch as [Hit [Ha [nx [Hc Hch]]]].
    destruct (cell_bounds _ _ _ Hy) as [Hp0 Hplt].
    destruct (cell_bounds _ _ _ Hc) as [_ Halt].
    inversion Hnd as [|a' ar' Hnotin Hnd']; subst a' ar'.
    assert (Hpa : prev <> a) by (intros E; apply Hprev; left; auto).
    assert (Hfa : fst <> a) by (intros E; apply Hfst; left; auto).
    subst it. simpl JobHeap.find_loop.
    destruct a as [|a]; [contradiction|]. simpl JobHeap.cells.
    rewrite Hc. simpl JobHeap.i_pid. simpl unlink.
    destruct (Z.eqb_spec (pid x) p) as [E|E].
    + (* the item is found *)
      simpl JobHeap.first.
      destruct (Nat.eqb_spec (S a) fst) as [E'|_]; [congruence|].
      rewrite Hy. simpl JobHeap.i_next.
      set (h1 := upd h prev (Some (JobHeap.set_next y nx))).
      assert (Hc1 : JobHeap.cell h1 (S a) = Some
                {| JobHeap.i_pid := pid x; JobHeap.i_name := name x;
                   JobHeap.i_next := nx |}).
      { unfold h1. rewrite cell_upd_other by auto. exact Hc. }
      rewrite (release_spec _ _ _ Hc1).
      exists (upd h1 (S a) None), nx, ar.
      split; [reflexivity|]. split.
      { rewrite cell_upd_other by exact Hpa. unfold h1.
        apply cell_upd_same; assumption. }
      split.
      { apply (chain_frame h); [|exact Hch]. intros b Hb.
        rewrite cell_upd_other by (intros ->; contradiction).
        unfold h1. rewrite cell_upd_other; [reflexivity|].
        intros ->. apply Hprev. right. exact Hb. }
      split; [apply incl_tl, incl_refl|]. split; [exact Hnd'|].
      split; [unfold h1; rewrite !length_upd; reflexivity|]. split.
      * intros b Hb Hnin.
        rewrite nth_error_upd_other by (intros ->; apply Hnin; left; auto).
        unfold h1. rewrite nth_error_upd_other by exact Hb. reflexivity.
      * intros b [<-|Hb] Hnin; [|contradiction].
        apply nth_error_upd_same. unfold h1. rewrite length_upd. exact Halt.
    + (* the item is passed *)
      destruct (IH r h fst nx (S a) f
                  {| JobHeap.i_pid := pid x; JobHeap.i_name := name x;
                     JobHeap.i_next := nx |})
        as [h' [it' [addrs' [Hrun [Hca [Hch' [Hincl [Hnd2 [Hlen [Hsame Hfreed]]]]]]]]]];
        auto.
      { intros Hin. apply Hfst. right. exact Hin. }
      { simpl in Hfuel. lia. }
      exists h', (S a), (S a :: addrs').
      split.
      { simpl JobHeap.i_next. rewrite Hrun.
        destruct (unlink r p); reflexivity. }
      split.
      { rewrite (cell_ext h h' prev).
        - rewrite <- Hnext, set_next_same. exact Hy.
        - apply Hsame; [exact Hpa|]. intros Hin. apply Hprev. right. exact Hin. }
      split.
      { assert (Hgoal : JobHeap.chain h' (S a) (S a :: addrs')
                  (x :: match unlink r p with Some l' => l' | None => r end)).
        { simpl. split; [reflexivity|]. split; [discriminate|].
          exists it'. split; [exact Hca | exact Hch']. }
        destruct (unlink r p); exact Hgoal. }
      split.
      { intros b [<-|Hb]; [left; reflexivity | right; apply Hincl; exact Hb]. }
      split.
      { constructor; [|exact Hnd2]. intros Hin. apply Hnotin, Hincl, Hin. }
      split; [exact Hlen|]. split.
      * intros b Hb Hnin. apply Hsame.
        -- intros ->. apply Hnin. left. reflexivity.
        -- intros Hin. apply Hnin. right. exact Hin.
      * intros b [<-|Hb] Hnin.
        -- exfalso. apply Hnin. left. reflexivity.
        -- apply Hfreed; [exact Hb|]. intros Hin. apply Hnin. right. exact Hin.
Qed.

Lemma unused_not_chained (h : JobHeap.heap) (p a : nat) (addrs : list nat)
    (l : job_list) :
  JobHeap.chain h p addrs l -> JobHeap.unused h a -> ~ In a addrs.
Proof.
  revert p l. induction addrs as [|b addrs IH]; intros p [|x l] H [Ha Hfree] Hin;
    simpl in *; try contradiction.
  destruct H as [_ [_ [nx [Hc H]]]]. destruct Hin as [->|Hin].
  - unfold JobHeap.cell in Hc. destruct a as [|a]; [contradiction|].
    rewrite Hfree in Hc. discriminate.
  - exact (IH nx l H (conj Ha Hfree) Hin).
Qed.

(** [jobs_insert] in memory: with the item [malloc] returns in an unused
    cell [a], the call returns 0 and the list stands for the old one with the
    new job in front, as the list function has it; no other cell changes.
    When [malloc] returns NULL the call returns -1 and leaves the list as it
    is. *)
Theorem insert_in_memory (jl : JobHeap.jlist) (addrs : list nat)
    (l : job_list) (a : nat) (nm : string) (p : Z) :
  JobHeap.stands_for jl addrs l -> JobHeap.unused (JobHeap.cells jl) a ->
  Z.of_nat (String.length nm) < MAXARG ->
  (exists jl',
      JobHeap.jobs_insert a jl nm p = Some (0, jl', EmptyString) /\
      jobs_insert true l nm p
        = Some (0, {| pid := p; name := nm |} :: l, EmptyString) /\
      JobHeap.stands_for jl' (a :: addrs) ({| pid := p; name := nm |} :: l) /\
      forall b, b <> a ->
                nth_error (JobHeap.cells jl') b = nth_error (JobHeap.cells jl) b) /\
  JobHeap.jobs_insert O jl nm p = Some (-1, jl, msg_no_job_memory).
Proof.
  intros [Hch Hnd] Hun Hfit. split; [|reflexivity].
  pose proof (unused_not_chained _ _ _ _ _ Hch Hun) as Hnotin.
  destruct Hun as [Ha Hfree].
  destruct jl as [f h]. simpl in *.
  eexists. split; [|split; [|split]].
  - unfold JobHeap.jobs_insert. destruct a as [|a]; [contradiction|].
    simpl JobHeap.cells. rewrite Hfree.
    destruct (Z.leb_spec MAXARG (Z.of_nat (String.length nm))); [lia|].
    reflexivity.
  - unfold jobs_insert. simpl.
    destruct (Z.leb_spec MAXARG (Z.of_nat (String.length nm))); [lia|].
    reflexivity.
  - split; [|constructor; assumption]. simpl.
    split; [reflexivity|]. split; [exact Ha|].
    exists f. split.
    + apply cell_upd_same; [exact Ha|].
      apply nth_error_Some. rewrite Hfree. discriminate.
    + apply (chain_frame h); [|exact Hch].
      intros b Hb. apply cell_upd_other. intros ->. contradiction.
  - intros b Hb. simpl. apply nth_error_upd_other. exact Hb.
Qed.

(** [jobs_find_remove] in memory returns what the list function returns and
    leaves a list that stands for its list; the cells outside the list are
    as before, and the cell of the item that left the list is free: the item
    with the pid that was inserted last is unlinked and freed, no other. *)
Theorem find_remove_in_memory (jl : JobHeap.jlist) (addrs : list nat)
    (l : job_list) (p : Z) :
  JobHeap.stands_for jl addrs l ->
  exists jl' addrs',
    JobHeap.jobs_find_remove jl p = Some (fst (jobs_find_remove l p), jl') /\
    JobHeap.stands_for jl' addrs' (snd (jobs_find_remove l p)) /\
    incl addrs' addrs /\
    (forall b, ~ In b addrs ->
               nth_error (JobHeap.cells jl') b = nth_error (JobHeap.cells jl) b) /\
    (forall b, In b addrs -> ~ In b addrs' ->
               nth_error (JobHeap.cells jl') b = Some None).
Proof.
  intros [Hch Hnd]. destruct jl as [f h]. simpl in Hch.
  unfold JobHeap.stands_for, jobs_find_remove, JobHeap.jobs_find_remove.
  simpl JobHeap.first. simpl JobHeap.cells.
  destruct addrs as [|a ar]; destruct l as [|x r]; simpl in Hch;
    try contradiction.
  - subst f. exists {| JobHeap.first := 0; JobHeap.cells := h |}, [].
    simpl. split; [reflexivity|]. split; [split; [reflexivity | constructor]|].
    split; [apply incl_refl|]. split; [reflexivity | contradiction].
  - destruct Hch as [Hf [Ha [nx [Hc Hch]]]]. subst f.
    pose proof (chain_fits h (a) (a :: ar) (x :: r)
                  ltac:(simpl; eauto) Hnd) as Hfit.
    inversion Hnd as [|a' ar' Hnotin Hnd']; subst a' ar'.
    destruct (cell_bounds _ _ _ Hc) as [_ Halt].
    destruct a as [|a]; [contradiction|].
    rewrite find_loop_S. simpl JobHeap.cells. simpl JobHeap.first.
    rewrite Hc. simpl JobHeap.i_pid. simpl unlink.
    destruct (Z.eqb_spec (pid x) p) as [E|E].
    + rewrite Nat.eqb_refl. simpl JobHeap.i_next.
      set (h1 := upd h (S a) _).
      assert (Hc1 : JobHeap.cell h1 (S a) = Some
                (JobHeap.set_next
                   {| JobHeap.i_pid := pid x; JobHeap.i_name := name x;
                      JobHeap.i_next := nx |} nx)).
      { unfold h1. apply cell_upd_same; [discriminate | exact Halt]. }
      rewrite (release_spec _ _ _ Hc1).
      exists {| JobHeap.first := nx; JobHeap.cells := upd h1 (S a) None |}, ar.
      simpl. split; [reflexivity|]. split.
      { split; [|exact Hnd']. apply (chain_frame h); [|exact Hch].
        intros b Hb. rewrite cell_upd_other by (intros ->; contradiction).
        unfold h1. apply cell_upd_other. intros ->. contradiction. }
      split; [apply incl_tl, incl_refl|]. split.
      * intros b Hnin.
        rewrite nth_error_upd_other by (intros ->; apply Hnin; left; auto).
        unfold h1. apply nth_error_upd_other. intros ->. apply Hnin. left. auto.
      * intros b [<-|Hb] Hnin; [|contradiction].
        apply nth_error_upd_same. unfold h1. rewrite length_upd. exact Halt.
    + simpl JobHeap.i_next.
      destruct (find_loop_mid p ar r h (S a) nx (S a) (length h)
                  {| JobHeap.i_pid := pid x; JobHeap.i_name := name x;
                     JobHeap.i_next := nx |})
        as [h' [it' [addrs' [Hrun [Hca [Hch' [Hincl [Hnd2 [Hlen [Hsame Hfreed]]]]]]]]]];
        auto; try (simpl in Hfit; lia).
      exists {| JobHeap.first := S a; JobHeap.cells := h' |}, (S a :: addrs').
      rewrite Hrun. simpl JobHeap.cells. simpl JobHeap.first.
      assert (Hgoal : JobHeap.chain h' (S a) (S a :: addrs')
                (x :: match unlink r p with Some l' => l' | None => r end)).
      { simpl. split; [reflexivity|]. split; [discriminate|].
        exists it'. split; [exact Hca | exact Hch']. }
      assert (Hnd3 : NoDup (S a :: addrs')).
      { constructor; [|exact Hnd2]. intros Hin. apply Hnotin, Hincl, Hin. }
      split; [destruct (unlink r p); reflexivity|].
      split; [destruct (unlink r p); split; assumption|].
      split.
      { intros b [<-|Hb]; [left; reflexivity | right; apply Hincl; exact Hb]. }
      split.
      * intros b Hnin. apply Hsame.
        -- intros ->. apply Hnin. left. reflexivity.
        -- intros Hin. apply Hnin. right. exact Hin.
      * intros b [<-|Hb] Hnin.
        -- exfalso. apply Hnin. left. reflexivity.
        -- apply Hfreed; [exact Hb|]. intros Hin. apply Hnin. right. exact Hin.
Qed.

(** [jobs_print] in memory writes the lines of the list it stands for, the
    job inserted last first. *)
Theorem print_in_memory (jl : JobHeap.jlist) (addrs : list nat)
    (l : job_list) :
  JobHeap.stands_for jl addrs l -> JobHeap.jobs_print jl = Some (jobs_print l).
Proof.
  intros [Hch Hnd]. pose proof (chain_fits _ _ _ _ Hch Hnd) as Hfit.
  unfold JobHeap.jobs_print.
  destruct (JobHeap.first jl) as [|f] eqn:Ef.
  - destruct addrs as [|a ar]; destruct l as [|x r]; simpl in Hch;
      try contradiction; [reflexivity|].
    destruct Hch as [<- [Ha _]]. contradiction.
  - apply (print_loop_spec _ addrs); [exact Hch | lia].
Qed.

Lemma free_loop_S (f : nat) (l : JobHeap.jlist) (it : nat) :
  JobHeap.free_loop (S f) l (S it) =
  match JobHeap.cell (JobHeap.cells l) (JobHeap.first l) with
  | None => None
  | Some x =>
      match JobHeap.release (JobHeap.cells l) (S it) with
      | None => None
      | Some h' =>
          JobHeap.free_loop f {| JobHeap.first := JobHeap.i_next x;
                                 JobHeap.cells := h' |} (JobHeap.i_next x)
      end
  end.
Proof. reflexivity. Qed.

Lemma free_loop_spec (addrs : list nat) :
  forall (l : job_list) (h : JobHeap.heap) (it fuel : nat),
    JobHeap.chain h it addrs l -> NoDup addrs -> (length addrs < fuel)%nat ->
    exists h',
      JobHeap.free_loop fuel {| JobHeap.first := it; JobHeap.cells := h |} it
        = Some {| JobHeap.first := 0; JobHeap.cells := h' |} /\
      (forall b, In b addrs -> nth_error h' b = Some None) /\
      (forall b, ~ In b addrs -> nth_error h' b = nth_error h b).
Proof.
  induction addrs as [|a ar IH]; intros [|x r] h it fuel Hch Hnd Hfuel;
    simpl in Hch; try contradiction;
    (destruct fuel as [|f]; [simpl in Hfuel; lia|]).
  - subst it. exists h. simpl. split; [reflexivity|].
    split; [contradiction | reflexivity].
  - destruct Hch as [Hit [Ha [nx [Hc Hch]]]]. subst it.
    inversion Hnd as [|a' ar' Hnotin Hnd']; subst a' ar'.
    destruct (cell_bounds _ _ _ Hc) as [_ Halt].
    destruct a as [|a]; [contradiction|].
    rewrite free_loop_S. simpl JobHeap.cells. simpl JobHeap.first.
    rewrite Hc, (release_spec _ _ _ Hc). simpl JobHeap.i_next.
    destruct (IH r (upd h (S a) None) nx f) as [h' [Hrun [Hfreed Hsame]]].
    + apply (chain_frame h); [|exact Hch]. intros b Hb.
      apply cell_upd_other. intros ->. contradiction.
    + exact Hnd'.
    + simpl in Hfuel. lia.
    + exists h'. split; [exact Hrun|]. split.
      * intros b [<-|Hb]; [|exact (Hfreed b Hb)].
        rewrite (Hsame (S a) Hnotin). apply nth_error_upd_same. exact Halt.
      * intros b Hnin. rewrite Hsame by (intros Hin; apply Hnin; right; exact Hin).
        apply nth_error_upd_other. intros ->. apply Hnin. left. reflexivity.
Qed.

(** [jobs_free] in memory frees the cell of every item of the list, each
    once, touches no other cell and leaves the empty list. *)
Theorem free_in_memory (jl : JobHeap.jlist) (addrs : list nat)
    (l : job_list) :
  JobHeap.stands_for jl addrs l ->
  exists h',
    JobHeap.jobs_free jl = Some {| JobHeap.first := 0; JobHeap.cells := h' |} /\
    (forall b, In b addrs -> nth_error h' b = Some None) /\
    (forall b, ~ In b addrs -> nth_error h' b = nth_error (JobHeap.cells jl) b) /\
    JobHeap.stands_for {| JobHeap.first := 0; JobHeap.cells := h' |} [] [].
Proof.
  intros [Hch Hnd]. pose proof (chain_fits _ _ _ _ Hch Hnd) as Hfit.
  destruct jl as [f h]. simpl in *.
  unfold JobHeap.jobs_free. simpl JobHeap.first. simpl JobHeap.cells.
  destruct f as [|f].
  - destruct addrs as [|a ar]; destruct l as [|x r]; simpl in Hch;
      try contradiction.
    + exists h. split; [reflexivity|]. split; [contradiction|].
      split; [reflexivity|]. split; [reflexivity | constructor].
    + destruct Hch as [<- [Ha _]]. contradiction.
  - destruct (free_loop_spec addrs l h (S f) (S (length h)) Hch Hnd
                ltac:(lia)) as [h' [Hrun [Hfreed Hsame]]].
    rewrite Hrun. exists h'. simpl.
    split; [reflexivity|]. split; [exact Hfreed|]. split; [exact Hsame|].
    split; [reflexivity | constructor].
Qed.

(** The sample list stands for the jobs [42 sleep] and [7 vim]. *)
Lemma sample_stands_for :
  JobHeap.stands_for JobHeap.sample_jlist [5%nat; 2%nat]
    [{| pid := 42; name := "sleep" |}; {| pid := 7; name := "vim" |}].
Proof.
  split.
  - simpl. split; [reflexivity|]. split; [discriminate|].
    exists 2%nat. split; [reflexivity|].
    split; [reflexivity|]. split; [discriminate|].
    exists O. split; reflexivity.
  - constructor.
    + intros [E|[]]. discriminate.
    + constructor; [intros [] | constructor].
Defined.

Lemma insert_in_memory_witness :
  (exists jl',
      JobHeap.jobs_insert 3 JobHeap.sample_jlist "top" 99
        = Some (0, jl', EmptyString) /\
      jobs_insert true
        [{| pid := 42; name := "sleep" |}; {| pid := 7; name := "vim" |}]
        "top" 99
        = Some (0, [{| pid := 99; name := "top" |};
                    {| pid := 42; name := "sleep" |};
                    {| pid := 7; name := "vim" |}], EmptyString) /\
      JobHeap.stands_for jl' [3%nat; 5%nat; 2%nat]
        [{| pid := 99; name := "top" |}; {| pid := 42; name := "sleep" |};
         {| pid := 7; name := "vim" |}] /\
      forall b, b <> 3%nat ->
                nth_error (JobHeap.cells jl') b
                = nth_error (JobHeap.cells JobHeap.sample_jlist) b) /\
  JobHeap.jobs_insert O JobHeap.sample_jlist "top" 99
    = Some (-1, JobHeap.sample_jlist, msg_no_job_memory).
Proof.
  apply (insert_in_memory JobHeap.sample_jlist [5%nat; 2%nat]
           [{| pid := 42; name := "sleep" |}; {| pid := 7; name := "vim" |}]
           3 "top" 99).
  - exact sample_stands_for.
  - split; [discriminate | reflexivity].
  - reflexivity.
Defined.

Lemma find_remove_in_memory_witness :
  exists jl' addrs',
    JobHeap.jobs_find_remove JobHeap.sample_jlist 7
      = Some (fst (jobs_find_remove
                     [{| pid := 42; name := "sleep" |};
                      {| pid := 7; name := "vim" |}] 7), jl') /\
    JobHeap.stands_for jl' addrs'
      (snd (jobs_find_remove
              [{| pid := 42; name := "sleep" |};
               {| pid := 7; name := "vim" |}] 7)) /\
    incl addrs' [5%nat; 2%nat] /\
    (forall b, ~ In b [5%nat; 2%nat] ->
               nth_error (JobHeap.cells jl') b
               = nth_error (JobHeap.cells JobHeap.sample_jlist) b) /\
    (forall b, In b [5%nat; 2%nat] -> ~ In b addrs' ->
               nth_error (JobHeap.cells jl') b = Some None).
Proof.
  apply (find_remove_in_memory JobHeap.sample_jlist [5%nat; 2%nat]).
  exact sample_stands_for.
Defined.

Lemma print_in_memory_witness :
  JobHeap.jobs_print JobHeap.sample_jlist
  = Some (jobs_print [{| pid := 42; name := "sleep" |};
                      {| pid := 7; name := "vim" |}]).
Proof.
  apply (print_in_memory JobHeap.sample_jlist [5%nat; 2%nat]).
  exact sample_stands_for.
Defined.

Lemma free_in_memory_witness :
  exists h',
    JobHeap.jobs_free JobHeap.sample_jlist
      = Some {| JobHeap.first := 0; JobHeap.cells := h' |} /\
    (forall b, In b [5%nat; 2%nat] -> nth_error h' b = Some None) /\
    (forall b, ~ In b [5%nat; 2%nat] ->
               nth_error h' b = nth_error (JobHeap.cells JobHeap.sample_jlist) b) /\
    JobHeap.stands_for {| JobHeap.first := 0; JobHeap.cells := h' |} [] [].
Proof.
  apply (free_in_memory JobHeap.sample_jlist [5%nat; 2%nat]
           [{| pid := 42; name := "sleep" |}; {| pid := 7; name := "vim" |}]).
  exact sample_stands_for.
Defined.

End JobHeapFacts.

(** ** The job list: which item leaves *)

Lemma unlink_first_match (l : job_list) (p : Z) :
  (unlink l p = None /\ forall it, In it l -> pid it <> p) \/
  exists l1 x l2,
    l = l1 ++ x :: l2 /\ pid x = p /\ (forall y, In y l1 -> pid y <> p) /\
    unlink l p = Some (l1 ++ l2).
Proof.
  induction l as [|x l IH]; simpl.
  - left. split; [reflexivity | contradiction].
  - destruct (Z.eqb_spec (pid x) p) as [E|E].
    + right. exists [], x, l. simpl. repeat split; auto.
    + destruct IH as [[Hn Habs]|[l1 [y [l2 [Hl [Hy [Hl1 Hu]]]]]]].
      * left. rewrite Hn. split; [reflexivity|].
        intros it [<-|Hin]; [exact E | exact (Habs it Hin)].
      * right. exists (x :: l1), y, l2. rewrite Hu, Hl. simpl.
        repeat split; auto. intros z [<-|Hz]; [exact E | exact (Hl1 z Hz)].
Qed.

(** [jobs_find_remove] on any list: when no job has the pid it returns 0 and
    leaves the list alone; otherwise it returns 1 and removes the first job
    with the pid, the one inserted last, and only that one: another job with
    the same pid (a pid the system used again) stays, and the jobs keep
    their order. *)
Theorem find_remove_first_match (lst : job_list) (p : Z) :
  (jobs_find_remove lst p = (0, lst) /\ forall it, In it lst -> pid it <> p) \/
  exists l1 x l2,
    lst = l1 ++ x :: l2 /\ pid x = p /\ (forall y, In y l1 -> pid y <> p) /\
    jobs_find_remove lst p = (1, l1 ++ l2).
Proof.
  unfold jobs_find_remove.
  destruct (unlink_first_match lst p) as [[Hn Habs]|[l1 [x [l2 [Hl [Hx [Hl1 Hu]]]]]]].
  - left. rewrite Hn. auto.
  - right. exists l1, x, l2. rewrite Hu. auto.
Qed.

(** ** Launching and reaping *)

Section LaunchFacts.
Context {P : Posix}.

(** A background command and the SIGCHLD for it: [execute_file] puts the
    job in front of the list and writes its line; when the handler reaps the
    pid, it takes that job out again, so the list is as before the launch
    (also when an older job has the same pid), and writes the status line,
    followed by a prompt when no command is executing. *)
Theorem background_launch_then_reap (bg : Z) (arg0 : string) (jobs : job_list)
    (cpid status ea ef : Z) (wt : Z * Z * Z) :
  bg <> 0 -> 0 < cpid -> Z.of_nat (String.length arg0) < MAXARG ->
  exists lch,
    execute_file bg arg0 jobs (ForkParent cpid) true wt = Some lch /\
    l_rv lch = 0 /\
    l_out lch = [Stdout (job_line cpid arg0)] /\
    l_jobs lch = {| pid := cpid; name := arg0 |} :: jobs /\
    sig_handler SIGCHLD cpid status ea ef (l_jobs lch)
    = (false, jobs,
       print_status cpid status :: (if ea =? 0 then ["$ "%string] else [])).
Proof.
  intros Hbg Hpid Hfit.
  unfold execute_file, jobs_insert.
  destruct (Z.eqb_spec bg 0) as [E|_]; [contradiction|]. simpl.
  destruct (Z.leb_spec MAXARG (Z.of_nat (String.length arg0))); [lia|].
  simpl. eexists. split; [reflexivity|]. simpl.
  repeat split.
  unfold sig_handler, jobs_find_remove.
  destruct (Z.ltb_spec 0 cpid); [|lia]. simpl.
  rewrite Z.eqb_refl. reflexivity.
Qed.

(** A foreground child that the handler reaps first: the child is no job,
    so the handler writes nothing and leaves the list alone, and
    [execute_file], whose [waitpid] then fails with ECHILD, returns 0
    without writing anything. *)
Theorem foreground_child_reaped_by_handler (arg0 : string) (jobs : job_list)
    (cpid status st ea ef : Z) (m : bool) :
  (forall it, In it jobs -> pid it <> cpid) ->
  sig_handler SIGCHLD cpid status ea ef jobs = (false, jobs, []) /\
  execute_file 0 arg0 jobs (ForkParent cpid) m (-1, ECHILD, st)
  = Some {| l_rv := 0; l_jobs := jobs; l_out := [] |}.
Proof.
  intros Habs. split.
  - unfold sig_handler, jobs_find_remove.
    rewrite (unlink_absent jobs cpid Habs).
    destruct (0 <? cpid); reflexivity.
  - unfold execute_file. simpl. rewrite Z.eqb_refl. reflexivity.
Qed.

End LaunchFacts.

Lemma background_launch_then_reap_witness :
  exists lch,
    execute_file (P := linux) 1 "sleep" [{| pid := 7; name := "vim" |}]
      (ForkParent 42) true (0, 0, 0) = Some lch /\
    l_rv lch = 0 /\
    l_out lch = [Stdout (job_line 42 "sleep")] /\
    l_jobs lch = [{| pid := 42; name := "sleep" |}; {| pid := 7; name := "vim" |}] /\
    sig_handler (P := linux) SIGCHLD 42 0 0 0 (l_jobs lch)
    = (false, [{| pid := 7; name := "vim" |}],
       [print_status (P := linux) 42 0; "$ "%string]).
Proof.
  apply (background_launch_then_reap (P := linux) 1 "sleep"
           [{| pid := 7; name := "vim" |}] 42 0 0 0 (0, 0, 0)).
  - discriminate.
  - reflexivity.
  - reflexivity.
Defined.

Lemma foreground_child_reaped_by_handler_witness :
  sig_handler (P := linux) SIGCHLD 42 0 1 0 [{| pid := 7; name := "vim" |}]
  = (false, [{| pid := 7; name := "vim" |}], []) /\
  execute_file (P := linux) 0 "ls" [{| pid := 7; name := "vim" |}]
    (ForkParent 42) true (-1, 10, 0)
  = Some {| l_rv := 0; l_jobs := [{| pid := 7; name := "vim" |}]; l_out := [] |}.
Proof.
  apply (foreground_child_reaped_by_handler (P := linux) "ls"
           [{| pid := 7; name := "vim" |}] 42 0 0 1 0 true).
  intros it [<-|[]]. discriminate.
Defined.

(** ** The input thread *)

Lemma flush_input_pass (EINTR : Z) (pre tl : list read_answer) :
  forallb (passed_over EINTR) pre = true ->
  flush_input EINTR (pre ++ tl) = flush_input EINTR tl.
Proof.
  induction pre as [|a pre IH]; intros H; simpl in *; [reflexivity|].
  apply andb_true_iff in H. destruct H as [Ha Hpre].
  destruct a as [e| |[|c [|c' l]]]; simpl in Ha; try discriminate.
  - rewrite Ha. exact (IH Hpre).
  - apply negb_true_iff in Ha. rewrite Ha. exact (IH Hpre).
Qed.

(** [flush_input] discards the input up to and with the first newline and
    nothing behind it; interrupted reads are repeated.  It also stops, and
    returns, at the end of file; a read that fails otherwise ends the
    thread. *)
Theorem flush_input_stops_at_newline (EINTR : Z) (pre rest : list read_answer) :
  forallb (passed_over EINTR) pre = true ->
  flush_input EINTR (pre ++ ReadBytes [LF] :: rest) = Some (FlushDone, rest) /\
  flush_input EINTR (pre ++ ReadEOF :: rest) = Some (FlushDone, rest) /\
  flush_input EINTR pre = Some (FlushDone, []) /\
  (forall e, e <> EINTR ->
     flush_input EINTR (pre ++ ReadErr e :: rest) = Some (FlushExit e, rest)).
Proof.
  intros H. repeat split.
  - rewrite (flush_input_pass _ _ _ H). reflexivity.
  - rewrite (flush_input_pass _ _ _ H). reflexivity.
  - rewrite <- (app_nil_r pre) at 1. rewrite (flush_input_pass _ _ _ H).
    reflexivity.
  - intros e He. rewrite (flush_input_pass _ _ _ H). simpl.
    destruct (Z.eqb_spec e EINTR); [contradiction | reflexivity].
Qed.

Lemma flush_input_stops_at_newline_witness :
  flush_input 4 (byte_answers (bytes "tail") ++ [ReadErr 4]
                 ++ ReadBytes [LF] :: byte_answers (bytes "ls"))
    = Some (FlushDone, byte_answers (bytes "ls")) /\
  flush_input 4 (byte_answers (bytes "tail") ++ [ReadErr 4]
                 ++ ReadEOF :: byte_answers (bytes "ls"))
    = Some (FlushDone, byte_answers (bytes "ls")) /\
  flush_input 4 (byte_answers (bytes "tail") ++ [ReadErr 4])
    = Some (FlushDone, []) /\
  (forall e, e <> 4 ->
     flush_input 4 (byte_answers (bytes "tail") ++ [ReadErr 4]
                    ++ ReadErr e :: byte_answers (bytes "ls"))
     = Some (FlushExit e, byte_answers (bytes "ls"))).
Proof.
  pose proof (flush_input_stops_at_newline 4
                (byte_answers (bytes "tail") ++ [ReadErr 4])
                (byte_answers (bytes "ls")) eq_refl) as H.
  rewrite <- !app_assoc in H. exact H.
Defined.

(** The buffer after a read of fewer than [MAXLEN] bytes and
    [cmd_buf[n-1] = '\0']: the bytes read without the last one, whatever it
    is, then NUL, then what the buffer held before. *)
Lemma fetch_spec (t : state) (l : list ascii) (c : ascii) :
  (length l < length (cmd_buf (mem t)))%nat ->
  exists t',
    fetch t (l ++ [c]) = Some t' /\
    cmd_buf (mem t') = l ++ NUL :: skipn (S (length l)) (cmd_buf (mem t)) /\
    below (mem t') = below (mem t) /\
    argsc t' = argsc t /\ args t' = args t /\ redir_t t' = redir_t t /\
    redir_f t' = redir_f t /\ run_bg t' = run_bg t /\ heap t' = heap t /\
    stderr t' = stderr t.
Proof.
  intros Hlen. unfold fetch, terminate_line, read_into, store.
  rewrite length_app. simpl length.
  replace (Z.of_nat (length l + 1) - 1) with (Z.of_nat (length l)) by lia.
  destruct (Z.ltb_spec (Z.of_nat (length l)) 0); [lia|].
  simpl mem. simpl cmd_buf. simpl below.
  rewrite Nat2Z.id.
  replace (skipn (length l + 1) (cmd_buf (mem t)))
    with (skipn (S (length l)) (cmd_buf (mem t))) by (f_equal; lia).
  destruct (Nat.ltb_spec (length l)
              (length ((l ++ [c]) ++ skipn (S (length l)) (cmd_buf (mem t)))))
    as [_|Hge].
  - eexists. split; [reflexivity|]. simpl.
    rewrite <- app_assoc. simpl. rewrite upd_app_at. auto 10.
  - rewrite !length_app in Hge. simpl in Hge. lia.
Qed.

(** The last byte of a read never reaches the tokenizer: after a read of
    the bytes of a line of plain words and one more byte [c], whatever it
    is, [create_args] yields the words.  So the newline that ends a line is
    dropped, and so is the last character of input that ends without a
    newline. *)
Theorem last_byte_read_is_dropped (t : state) (lead : list ascii)
    (ws : list (list ascii * list ascii)) (last : list ascii) (c : ascii) :
  length (cmd_buf (mem t)) = Z.to_nat MAXLEN ->
  (forall x, In x lead -> is_space x = true) ->
  plain_pairs ws -> plain_word last ->
  Z.of_nat (length (plain_line lead ws last [] false)) + 1 < MAXLEN ->
  (length ws + 2 <= heap t)%nat ->
  exists t1 s',
    fetch t (plain_line lead ws last [] false ++ [c]) = Some t1 /\
    create_args t1 = Ret 0 s' /\
    command_of s'
    = Some {| arguments := map string_of_list_ascii (map fst ws ++ [last]);
              input_redirect := redirect (redir_f t);
              output_redirect := redirect (redir_t t);
              background := false |}.
Proof.
  intros Hbuf Hlead Hws Hlast Hlen Hheap.
  destruct (fetch_spec t (plain_line lead ws last [] false) c)
    as [t1 [Hf [Hb [_ [_ [_ [Ht [Hfr [_ [Hh _]]]]]]]]]]; [lia|].
  destruct (create_args_plain t1 lead ws last [] _ false Hlead Hws Hlast
              ltac:(discriminate) Hb ltac:(lia))
    as [s' [Hcr [_ [Hargs [Hbg [Ht' [Hf' _]]]]]]].
  exists t1, s'. split; [exact Hf|]. split; [exact Hcr|].
  unfold command_of. rewrite Hargs, Hbg, Ht', Hf', Ht, Hfr.
  rewrite (argv_filled _ (words_without_nul ws last Hws Hlast)).
  reflexivity.
Qed.

Lemma last_byte_read_is_dropped_witness :
  exists t1 s',
    fetch (tk (shell_with_buffer used_buffer))
      (plain_line [] [(bytes "ls", bytes " ")] (bytes "-l") [] false
         ++ ["a"%char]) = Some t1 /\
    create_args t1 = Ret 0 s' /\
    command_of s'
    = Some {| arguments := ["ls"%string; "-l"%string];
              input_redirect := None; output_redirect := None;
              background := false |}.
Proof.
  apply (last_byte_read_is_dropped (tk (shell_with_buffer used_buffer)) []
           [(bytes "ls", bytes " ")] (bytes "-l") "a"%char).
  - reflexivity.
  - intros x [].
  - apply plain_pairsb_spec. reflexivity.
  - apply plain_wordb_spec. reflexivity.
  - reflexivity.
  - simpl. lia.
Defined.

Section InputFacts.
Context {P : Posix}.

Lemma emit_nil (sh : shell) : emit sh [] = sh.
Proof. destruct sh. unfold emit. simpl. rewrite app_nil_r. reflexivity. Qed.

Lemma first_word_head (ws : list (list ascii * list ascii))
    (last : list ascii) :
  exists tl, map fst ws ++ [last] = first_word ws last :: tl.
Proof. destruct ws as [|[w sep] r]; simpl; eauto. Qed.

Lemma first_word_plain (ws : list (list ascii * list ascii))
    (last : list ascii) :
  plain_pairs ws -> plain_word last -> plain_word (first_word ws last).
Proof.
  intros Hws Hlast. destruct ws as [|[w sep] r]; simpl; [exact Hlast|].
  inversion Hws as [|x y [Hw _] _]. exact Hw.
Qed.

Lemma string_of_word_length (w : list ascii) :
  String.length (string_of_list_ascii w) = length w.
Proof. induction w as [|c w IH]; simpl; [reflexivity | rewrite IH; reflexivity]. Qed.

(** What [input_line] does with a line of plain words. *)
Lemma input_line_plain (stale : string) (sh : shell) (lead : list ascii)
    (ws : list (list ascii * list ascii)) (last sep rest : list ascii)
    (bg : bool) :
  (forall x, In x lead -> is_space x = true) ->
  plain_pairs ws -> plain_word last -> (bg = true -> blank_run sep) ->
  cmd_buf (mem (tk sh)) = plain_line lead ws last sep bg ++ NUL :: rest ->
  (length ws + 2 <= heap (tk sh))%nat ->
  exists t,
    create_args (with_stderr (tk sh) EmptyString) = Ret 0 t /\
    command_of t
    = Some {| arguments := map string_of_list_ascii (map fst ws ++ [last]);
              input_redirect := redirect (redir_f (tk sh));
              output_redirect := redirect (redir_t (tk sh));
              background := bg |} /\
    input_line stale sh =
      Some (let arg0 := string_of_list_ascii (first_word ws last) in
            if String.eqb arg0 "exit" then
              (Return 0, signal_exit (with_tk sh (clear_args t)))
            else if String.eqb arg0 "jobs" then
              (Continue,
               emit (with_tk sh (clear_args t))
                    (map Stdout (jobs_print (jobs sh)) ++ [Stdout "$ "]))
            else if String.eqb arg0 "cd" then builtin_cd stale (with_tk sh t)
            else (Handoff, monitor_args_execute (with_tk sh t))).
Proof.
  intros Hlead Hws Hlast Hsep Hbuf Hheap.
  destruct (create_args_plain (with_stderr (tk sh) EmptyString) lead ws last
              sep rest bg Hlead Hws Hlast Hsep Hbuf Hheap)
    as [t [Hcr [_ [Hargs [Hbg [Ht [Hf He]]]]]]].
  simpl in Ht, Hf, He.
  exists t. split; [exact Hcr|]. split.
  - unfold command_of. rewrite Hargs, Hbg, Ht, Hf.
    rewrite (argv_filled _ (words_without_nul ws last Hws Hlast)).
    destruct bg; reflexivity.
  - unfold input_line. rewrite Hcr. cbv beta iota zeta.
    change (0 =? -1) with false. change (0 =? 1) with false. cbv iota.
    rewrite He. change (stderr_events EmptyString) with (@nil event).
    rewrite emit_nil. rewrite Hargs.
    destruct (first_word_head ws last) as [tl Hhd]. rewrite Hhd.
    pose proof (first_word_plain ws last Hws Hlast) as [_ [Hsolid [c0 [w' [Hw _]]]]].
    simpl map. simpl app. unfold filled at 1. cbv iota.
    rewrite (c_string_filled (first_word ws last)
               (fun c Hc => proj2 (Hsolid c Hc))).
    rewrite string_of_word_length.
    destruct (String.eqb _ "exit"); [reflexivity|].
    destruct (String.eqb _ "jobs"); [reflexivity|].
    destruct (String.eqb _ "cd"); [reflexivity|].
    rewrite Hw. reflexivity.
Qed.

(** One line of plain words in [input_start], from [create_args] on: the
    tokenizer yields the words, and the first word alone decides what
    happens, whatever follows it on the line: [exit] ends the thread with
    the exit flag set, [jobs] writes the job list and a prompt, [cd] goes to
    [change_cwd], and any other word is handed to the exec thread with
    [args] holding the words. *)
Theorem plain_line_dispatch (stale : string) (sh : shell) (lead : list ascii)
    (ws : list (list ascii * list ascii)) (last sep rest : list ascii)
    (bg : bool) :
  (forall x, In x lead -> is_space x = true) ->
  plain_pairs ws -> plain_word last -> (bg = true -> blank_run sep) ->
  cmd_buf (mem (tk sh)) = plain_line lead ws last sep bg ++ NUL :: rest ->
  (length ws + 2 <= heap (tk sh))%nat ->
  exists t,
    create_args (with_stderr (tk sh) EmptyString) = Ret 0 t /\
    command_of t
    = Some {| arguments := map string_of_list_ascii (map fst ws ++ [last]);
              input_redirect := redirect (redir_f (tk sh));
              output_redirect := redirect (redir_t (tk sh));
              background := bg |} /\
    input_line stale sh =
      Some (let arg0 := string_of_list_ascii (first_word ws last) in
            if String.eqb arg0 "exit" then
              (Return 0, signal_exit (with_tk sh (clear_args t)))
            else if String.eqb arg0 "jobs" then
              (Continue,
               emit (with_tk sh (clear_args t))
                    (map Stdout (jobs_print (jobs sh)) ++ [Stdout "$ "]))
            else if String.eqb arg0 "cd" then builtin_cd stale (with_tk sh t)
            else (Handoff, monitor_args_execute (with_tk sh t))).
Proof.
  intros Hlead Hws Hlast Hsep Hbuf Hheap.
  destruct (input_line_plain stale sh lead ws last sep rest bg Hlead Hws
              Hlast Hsep Hbuf Hheap) as [t [Hcr [Hcmd Hline]]].
  exists t. split; [exact Hcr|]. split; [exact Hcmd | exact Hline].
Qed.

(** Whenever [input_line] makes the thread return, the exit flag is set and
    the exec thread is woken. *)
Lemma input_line_return (stale : string) (sh sh' : shell) (rv : Z) :
  input_line stale sh = Some (Return rv, sh') ->
  exit_flag sh' = 1 /\ exec_args sh' = 1.
Proof.
  unfold input_line.
  destruct (create_args (with_stderr (tk sh) EmptyString)) as [| rv0 t |];
    try discriminate.
  cbv zeta.
  destruct (rv0 =? -1); [intros H; injection H as _ <-; split; reflexivity|].
  destruct (rv0 =? 1); [discriminate|].
  destruct (args t) as [|[|[a0|] a]|]; try discriminate.
  destruct (String.eqb (c_string a0) "exit");
    [intros H; injection H as _ <-; split; reflexivity|].
  destruct (String.eqb (c_string a0) "jobs"); [discriminate|].
  destruct (String.eqb (c_string a0) "cd").
  - unfold builtin_cd. cbv zeta.
    match goal with |- context [if ?b then _ else _] => destruct b end;
      [intros H; injection H as _ <-; split; reflexivity | discriminate].
  - destruct (String.length (c_string a0) =? 0)%nat; discriminate.
Qed.

End InputFacts.

Section LoopFacts.
Context {P : Posix}.
Variable EINTR : Z.
Variable stale : nat -> string.
Variable launch_failed : nat -> bool.

(** A read that fills [cmd_buf] is never tokenized: the round writes
    "Argument too long!" and a prompt and goes on with the next read; unless
    the last byte read is the newline, [flush_input] first discards the
    input up to and with the next newline.  The globals of the tokenizer,
    the job list and the flags are as before. *)
Theorem overlong_line_is_skipped (f k : nat) (l : list ascii)
    (pre rest : list read_answer) (sh : shell) :
  Z.of_nat (length l) = MAXLEN ->
  forallb (passed_over EINTR) pre = true ->
  input_loop EINTR stale launch_failed (S f) k
    (ReadBytes l :: (if Ascii.eqb (last l NUL) LF then rest
                     else pre ++ ReadBytes [LF] :: rest)) sh
  = input_loop EINTR stale launch_failed f (S k) rest
      (emit (with_tk sh (read_into (tk sh) l))
            [Stderr msg_too_long; Stdout "$ "]).
Proof.
  intros Hlen Hpre. simpl input_loop. rewrite Hlen. simpl.
  destruct (Ascii.eqb (last l NUL) LF); [reflexivity|].
  rewrite (flush_input_pass EINTR pre _ Hpre). simpl.
  reflexivity.
Qed.

(** A line of plain words whose first word is [exit] ends the input thread:
    it returns 0 with the exit flag set and the exec thread woken, writes
    nothing, and reads nothing of what follows. *)
Theorem exit_ends_the_input_thread (f k : nat) (sh : shell)
    (lead : list ascii) (ws : list (list ascii * list ascii))
    (last sep : list ascii) (bg : bool) (c : ascii) (r : list read_answer) :
  length (cmd_buf (mem (tk sh))) = Z.to_nat MAXLEN ->
  (forall x, In x lead -> is_space x = true) ->
  plain_pairs ws -> plain_word last -> (bg = true -> blank_run sep) ->
  first_word ws last = bytes "exit" ->
  Z.of_nat (length (plain_line lead ws last sep bg)) + 1 < MAXLEN ->
  (length ws + 2 <= heap (tk sh))%nat ->
  exists sh',
    input_loop EINTR stale launch_failed (S f) k
      (ReadBytes (plain_line lead ws last sep bg ++ [c]) :: r) sh
    = Some (0, sh', r) /\
    exit_flag sh' = 1 /\ exec_args sh' = 1 /\
    jobs sh' = jobs sh /\ cwd sh' = cwd sh /\ out sh' = out sh.
Proof.
  intros Hbuf Hlead Hws Hlast Hsep Hexit Hlen Hheap.
  set (line := plain_line lead ws last sep bg) in *.
  destruct (fetch_spec (tk sh) line c)
    as [t1 [Hf [Hb [_ [_ [_ [Ht [Hfr [_ [Hh _]]]]]]]]]]; [lia|].
  destruct (input_line_plain (stale k) (with_tk sh t1) lead ws last sep _ bg
              Hlead Hws Hlast Hsep Hb ltac:(simpl; lia))
    as [t [_ [_ Hline]]].
  rewrite Hexit in Hline. simpl in Hline.
  exists (signal_exit (with_tk sh (clear_args t))).
  split; [|simpl; auto 10].
  simpl input_loop.
  assert (Hn : Z.of_nat (length (line ++ [c])) = Z.of_nat (length line) + 1)
    by (rewrite length_app; simpl; lia).
  rewrite Hn.
  destruct (Z.leb_spec (Z.of_nat (length line) + 1) 0); [lia|].
  destruct (Z.ltb_spec MAXLEN (Z.of_nat (length line) + 1)); [lia|].
  destruct (Z.eqb_spec (Z.of_nat (length line) + 1) MAXLEN); [lia|].
  simpl orb. cbv iota.
  rewrite <- Hn. change (terminate_line (read_into (tk sh) (line ++ [c]))
                           (Z.of_nat (length (line ++ [c]))))
    with (fetch (tk sh) (line ++ [c])).
  rewrite Hf.
  change (with_tk (with_tk sh (read_into (tk sh) (line ++ [c]))) t1)
    with (with_tk sh t1).
  rewrite Hline. reflexivity.
Qed.

(** Whenever the input thread returns, the exit flag is set: the thread does
    not leave without telling the exec thread to leave as well. *)
Theorem input_thread_sets_exit_flag (fuel : nat) :
  forall (k : nat) (ins rest : list read_answer) (sh sh' : shell) (rv : Z),
    input_loop EINTR stale launch_failed fuel k ins sh = Some (rv, sh', rest) ->
    exit_flag sh' <> 0.
Proof.
  induction fuel as [|f IH]; intros k ins rest sh sh' rv H; [discriminate|].
  simpl in H. destruct ins as [|[e| |l] r].
  - injection H as _ <- _. discriminate.
  - injection H as _ <- _. discriminate.
  - injection H as _ <- _. discriminate.
  - destruct ((Z.of_nat (length l) <=? 0) || (MAXLEN <? Z.of_nat (length l)));
      [discriminate|].
    destruct (Z.of_nat (length l) =? MAXLEN).
    + destruct (Ascii.eqb (last l NUL) LF); [exact (IH _ _ _ _ _ _ H)|].
      destruct (flush_input EINTR r) as [[[|e] r']|]; try discriminate.
      * exact (IH _ _ _ _ _ _ H).
      * injection H as _ <- _. discriminate.
    + destruct (terminate_line _ _) as [t|]; [|discriminate].
      destruct (input_line _ _) as [[[| |rv0] sh2]|] eqn:El; try discriminate.
      * exact (IH _ _ _ _ _ _ H).
      * match type of H with
        | (if ?b =? 0 then _ else _) = _ =>
            destruct (Z.eqb_spec b 0) as [E|E]
        end; [exact (IH _ _ _ _ _ _ H)|].
        injection H as _ <- _. exact E.
      * injection H as _ <- _.
        rewrite (proj1 (input_line_return _ _ _ _ El)). discriminate.
Qed.

End LoopFacts.

Lemma plain_line_dispatch_witness :
  exists t,
    create_args (with_stderr (tk (shell_at_start "jobs -l &")) EmptyString)
      = Ret 0 t /\
    command_of t
    = Some {| arguments := ["jobs"%string; "-l"%string];
              input_redirect := None; output_redirect := None;
              background := true |} /\
    input_line (P := linux) EmptyString (shell_at_start "jobs -l &")
    = Some (Continue,
            emit (with_tk (shell_at_start "jobs -l &") (clear_args t))
                 [Stdout "$ "]).
Proof.
  apply (plain_line_dispatch (P := linux) EmptyString
           (shell_at_start "jobs -l &") []
           [(bytes "jobs", bytes " ")] (bytes "-l") (bytes " ") [] true).
  - intros x [].
  - apply plain_pairsb_spec. reflexivity.
  - apply plain_wordb_spec. reflexivity.
  - intros _. apply blank_runb_spec. reflexivity.
  - reflexivity.
  - simpl. lia.
Defined.

Lemma overlong_line_is_skipped_witness :
  input_loop (P := linux) 4 (fun _ => EmptyString) (fun _ => false) 2 0
    (ReadBytes (repeat "x"%char 513)
       :: byte_answers (bytes "yz") ++ ReadBytes [LF] :: [ReadEOF])
    (shell_with_buffer used_buffer)
  = input_loop (P := linux) 4 (fun _ => EmptyString) (fun _ => false) 1 1
      [ReadEOF]
      (emit (with_tk (shell_with_buffer used_buffer)
               (read_into (tk (shell_with_buffer used_buffer))
                  (repeat "x"%char 513)))
            [Stderr msg_too_long; Stdout "$ "]).
Proof.
  apply (overlong_line_is_skipped (P := linux) 4 (fun _ => EmptyString)
           (fun _ => false) 1 0 (repeat "x"%char 513)
           (byte_answers (bytes "yz")) [ReadEOF]
           (shell_with_buffer used_buffer)).
  - reflexivity.
  - reflexivity.
Defined.

Lemma exit_ends_the_input_thread_witness :
  exists sh',
    input_loop (P := linux) 4 (fun _ => EmptyString) (fun _ => false) 1 0
      (ReadBytes (plain_line [] [(bytes "exit", bytes " ")] (bytes "now")
                    (bytes " ") true ++ [LF])
         :: [ReadBytes (bytes "ls" ++ [LF])])
      (shell_with_buffer used_buffer)
    = Some (0, sh', [ReadBytes (bytes "ls" ++ [LF])]) /\
    exit_flag sh' = 1 /\ exec_args sh' = 1 /\
    jobs sh' = jobs (shell_with_buffer used_buffer) /\
    cwd sh' = cwd (shell_with_buffer used_buffer) /\
    out sh' = out (shell_with_buffer used_buffer).
Proof.
  apply (exit_ends_the_input_thread (P := linux) 4 (fun _ => EmptyString)
           (fun _ => false) 0 0 (shell_with_buffer used_buffer) []
           [(bytes "exit", bytes " ")] (bytes "now") (bytes " ") true LF).
  - reflexivity.
  - intros x [].
  - apply plain_pairsb_spec. reflexivity.
  - apply plain_wordb_spec. reflexivity.
  - intros _. apply blank_runb_spec. reflexivity.
  - reflexivity.
  - reflexivity.
  - simpl. lia.
Defined.

Lemma input_thread_sets_exit_flag_witness :
  exists sh',
    input_start (P := linux) 4 (fun _ => EmptyString) (fun _ => false)
      [ReadBytes (bytes "ls" ++ [LF]); ReadBytes (bytes "exit" ++ [LF]);
       ReadBytes (bytes "pwd" ++ [LF])]
      (shell_with_buffer used_buffer)
    = Some (0, sh', [ReadBytes (bytes "pwd" ++ [LF])]) /\
    exit_flag sh' <> 0.
Proof.
  eexists. split.
  - vm_compute. reflexivity.
  - apply (input_thread_sets_exit_flag (P := linux) 4 (fun _ => EmptyString)
             (fun _ => false) 4 0
             [ReadBytes (bytes "ls" ++ [LF]); ReadBytes (bytes "exit" ++ [LF]);
              ReadBytes (bytes "pwd" ++ [LF])]
             [ReadBytes (bytes "pwd" ++ [LF])]
             (emit (shell_with_buffer used_buffer) [Stdout "$ "]) _ 0).
    vm_compute. reflexivity.
Defined.

(** ** cd lines *)

Section CdFacts.
Context {P : Posix}.

(** C9, as the code has it, for a line of words separated by blanks or tabs
    with no blank behind the last word (closed or not by blanks and [&])
    whose first word is [cd], the allocations succeeding.  The words behind
    [cd] are the path arguments.  With none of them, or with two or more,
    the input thread writes [cd: one argument required], keeps the working
    directory ([chdir] is not called) and the exit flag, and goes on to the
    next line.  With one, a [chdir] that fails with ENOENT or ENOTDIR is
    reported as [No such directory] and the input thread goes on as well.
    Any other failure of [chdir] is not reported: [change_cwd] returns -1
    without writing, and the input thread sets the exit flag, wakes the exec
    thread and returns. *)
Theorem cd_failures (stale : string) (sh : shell) (lead : list ascii)
    (ws : list (list ascii * list ascii)) (last sep rest : list ascii)
    (bg : bool) :
  (forall x, In x lead -> is_space x = true) ->
  plain_pairs ws -> plain_word last -> (bg = true -> blank_run sep) ->
  cmd_buf (mem (tk sh)) = plain_line lead ws last sep bg ++ NUL :: rest ->
  (length ws + 2 <= heap (tk sh))%nat ->
  string_of_list_ascii (first_word ws last) = "cd"%string ->
  (length ws <> 1%nat ->
   exists sh',
     input_line stale sh = Some (Continue, sh') /\
     cwd sh' = cwd sh /\ exit_flag sh' = exit_flag sh /\
     out sh' = out sh ++ [Stderr msg_cd_usage; Stdout "$ "]) /\
  (length ws = 1%nat ->
   forall e, sys_chdir (cwd sh) stale = inr e ->
     ((e = ENOENT \/ e = ENOTDIR) ->
      exists sh',
        input_line stale sh = Some (Continue, sh') /\
        cwd sh' = cwd sh /\ exit_flag sh' = exit_flag sh /\
        out sh' = out sh ++ [Stderr (msg_cd_missing stale); Stdout "$ "]) /\
     (e <> ENOENT -> e <> ENOTDIR ->
      exists sh',
        input_line stale sh = Some (Return 0, sh') /\
        cwd sh' = cwd sh /\ exit_flag sh' = 1 /\ exec_args sh' = 1 /\
        out sh' = out sh)).
Proof.
  intros Hlead Hws Hlast Hsep Hbuf Hheap Hcd.
  destruct (create_args_plain (with_stderr (tk sh) EmptyString) lead ws last
              sep rest bg Hlead Hws Hlast Hsep Hbuf Hheap)
    as [t [Hcr [Hargc _]]].
  destruct (input_line_plain stale sh lead ws last sep rest bg Hlead Hws
              Hlast Hsep Hbuf Hheap) as [t' [Hcr' [_ Hline]]].
  rewrite Hcr in Hcr'. injection Hcr' as <-.
  cbv zeta in Hline. rewrite Hcd in Hline.
  change (String.eqb "cd" "exit") with false in Hline.
  change (String.eqb "cd" "jobs") with false in Hline.
  change (String.eqb "cd" "cd") with true in Hline.
  cbv iota in Hline. rewrite Hline.
  destruct (builtin_cd_cases stale (with_tk sh t)) as [Hcount Hone].
  change (argsc (tk (with_tk sh t))) with (argsc t) in Hcount, Hone.
  change (cwd (with_tk sh t)) with (cwd sh) in Hcount, Hone.
  change (exit_flag (with_tk sh t)) with (exit_flag sh) in Hcount, Hone.
  change (out (with_tk sh t)) with (out sh) in Hcount, Hone.
  split.
  - intros Hn.
    destruct (Hcount ltac:(lia)) as [_ [sh' [Hb Hrest]]].
    exists sh'. rewrite Hb. split; [reflexivity | exact Hrest].
  - intros Hn e He.
    destruct (Hone ltac:(lia) e He) as [Hmiss Hother]. split.
    + intros Hk. destruct (Hmiss Hk) as [_ [sh' [Hb Hrest]]].
      exists sh'. rewrite Hb. split; [reflexivity | exact Hrest].
    + intros H1 H2. destruct (Hother H1 H2) as [_ [sh' [Hb Hrest]]].
      exists sh'. rewrite Hb. split; [reflexivity | exact Hrest].
Qed.

End CdFacts.

(** Four lines: [cd] alone and [cd] with two paths get the usage message;
    [cd] with one path gets [No such directory] on ENOENT and ends the shell
    on EACCES. *)
Lemma cd_failures_witness :
  (exists sh',
      input_line (P := linux) EmptyString (shell_at_start "cd")
        = Some (Continue, sh') /\
      cwd sh' = cwd (shell_at_start "cd") /\
      exit_flag sh' = exit_flag (shell_at_start "cd") /\
      out sh' = out (shell_at_start "cd")
                ++ [Stderr msg_cd_usage; Stdout "$ "]) /\
  (exists sh',
      input_line (P := linux) "/tmp" (shell_at_start " cd /tmp	/usr  &")
        = Some (Continue, sh') /\
      cwd sh' = cwd (shell_at_start " cd /tmp	/usr  &") /\
      exit_flag sh' = exit_flag (shell_at_start " cd /tmp	/usr  &") /\
      out sh' = out (shell_at_start " cd /tmp	/usr  &")
                ++ [Stderr msg_cd_usage; Stdout "$ "]) /\
  (exists sh',
      input_line (P := linux) "/nowhere" (shell_at_start "cd /nowhere")
        = Some (Continue, sh') /\
      cwd sh' = cwd (shell_at_start "cd /nowhere") /\
      exit_flag sh' = exit_flag (shell_at_start "cd /nowhere") /\
      out sh' = out (shell_at_start "cd /nowhere")
                ++ [Stderr (msg_cd_missing "/nowhere"); Stdout "$ "]) /\
  (exists sh',
      input_line (P := linux) "/root" (shell_at_start "cd /root")
        = Some (Return 0, sh') /\
      cwd sh' = cwd (shell_at_start "cd /root") /\
      exit_flag sh' = 1 /\ exec_args sh' = 1 /\
      out sh' = out (shell_at_start "cd /root")).
Proof.
  split; [|split; [|split]].
  - apply (proj1 (cd_failures (P := linux) EmptyString (shell_at_start "cd")
                    [] [] (bytes "cd") [] [] false
                    ltac:(intros x [])
                    ltac:(apply plain_pairsb_spec; reflexivity)
                    ltac:(apply plain_wordb_spec; reflexivity)
                    ltac:(discriminate) eq_refl ltac:(simpl; lia) eq_refl)).
    simpl. lia.
  - apply (proj1 (cd_failures (P := linux) "/tmp"
                    (shell_at_start " cd /tmp	/usr  &")
                    [" "%char]
                    [(bytes "cd", bytes " "); (bytes "/tmp", [TAB])]
                    (bytes "/usr") (bytes "  ") [] true
                    ltac:(intros x [<-|[]]; reflexivity)
                    ltac:(apply plain_pairsb_spec; reflexivity)
                    ltac:(apply plain_wordb_spec; reflexivity)
                    ltac:(intros _; apply blank_runb_spec; reflexivity)
                    eq_refl ltac:(simpl; lia) eq_refl)).
    simpl. lia.
  - apply (proj2 (cd_failures (P := linux) "/nowhere"
                    (shell_at_start "cd /nowhere")
                    [] [(bytes "cd", bytes " ")] (bytes "/nowhere") [] []
                    false
                    ltac:(intros x [])
                    ltac:(apply plain_pairsb_spec; reflexivity)
                    ltac:(apply plain_wordb_spec; reflexivity)
                    ltac:(discriminate) eq_refl ltac:(simpl; lia) eq_refl)
             eq_refl 2 eq_refl).
    left. reflexivity.
  - apply (proj2 (cd_failures (P := linux) "/root"
                    (shell_at_start "cd /root")
                    [] [(bytes "cd", bytes " ")] (bytes "/root") [] []
                    false
                    ltac:(intros x [])
                    ltac:(apply plain_pairsb_spec; reflexivity)
                    ltac:(apply plain_wordb_spec; reflexivity)
                    ltac:(discriminate) eq_refl ltac:(simpl; lia) eq_refl)
             eq_refl 13 eq_refl);
      vm_compute; discriminate.
Defined.

(** ** The tokenizer: allocation failure and operators without a path *)

(** The first pass and the treatment of the last token on a line of plain
    words: what is left to do is the allocation and the second pass, in a
    state [s3] that holds the words, NUL-terminated, and their count. *)
Lemma create_args_front (s : state) (lead : list ascii)
    (ws : list (list ascii * list ascii)) (last sep rest : list ascii)
    (bg : bool) :
  (forall x, In x lead -> is_space x = true) ->
  plain_pairs ws -> plain_word last -> (bg = true -> blank_run sep) ->
  cmd_buf (mem s) = plain_line lead ws last sep bg ++ NUL :: rest ->
  exists s3,
    create_args s
    = (alloc_args ;; second_pass (S (mem_size (mem s))) ;; (ret 0 : M unit)) s3 /\
    argsc s3 = Z.of_nat (length ws) + 2 /\
    holds (mem s3) 0 ((lead ++ join ws last) ++ [NUL]) /\
    run_bg s3 = (if bg then 1 else 0) /\
    args s3 = args s /\ redir_t s3 = redir_t s /\ redir_f s3 = redir_f s /\
    heap s3 = heap s /\ stderr s3 = stderr s.
Proof.
  intros Hlead Hws Hlast Hsep Hbuf. unfold plain_line in Hbuf.
  pose proof Hlast as [Hlen [Hsolid [c0 [w' [Hw [Hr Ha]]]]]].
  pose proof (span_nonneg ws) as Hspan.
  unfold create_args, create_args_with.
  set (n := S (mem_size (mem s))).
  assert (Hsize : Z.of_nat (length (cmd_buf (mem s))) < Z.of_nat n).
  { unfold n, mem_size. lia. }
  destruct bg.
  - (* the line ends with blanks and [&] *)
    specialize (Hsep eq_refl).
    set (pairs := ws ++ [(last, sep)]).
    assert (Hjoin : join pairs ["&"%char] = join ws last ++ sep ++ ["&"%char]).
    { unfold pairs. rewrite join_app, <- join_last_app. reflexivity. }
    assert (Hpairs : plain_pairs pairs).
    { apply Forall_app. split; [exact Hws|]. constructor; [|constructor].
      split; assumption. }
    assert (Hh : holds (mem s) 0 ((lead ++ join pairs ["&"%char]) ++ [NUL])).
    { apply (holds_buf _ _ rest). rewrite Hbuf, Hjoin, <- !app_assoc.
      reflexivity. }
    assert (Hspan' : span pairs = span ws + Z.of_nat (length last)
                                  + Z.of_nat (length sep)).
    { unfold pairs. apply span_app. }
    assert (Hn : Z.of_nat (length lead) + span pairs
                 + Z.of_nat (length ["&"%char]) < Z.of_nat n).
    { rewrite Hbuf in Hsize. rewrite !length_app in Hsize.
      pose proof (length_join ws last). simpl length in *. lia. }
    rewrite (bind_Ok _ _ _ _ _
               (first_pass_plain n s lead pairs ["&"%char] [] "&"%char
                  Hlead Hpairs eq_refl solid_amp Hh Hn)).
    cbv beta iota delta [fst snd].
    rewrite (bind_Ok _ _ _ _ _
               (too_long_ok (0 + Z.of_nat (length ["&"%char])) _ eq_refl)).
    set (s2 := with_argsc (with_run_bg s 0) (1 + Z.of_nat (length pairs))).
    set (E := Z.of_nat (length lead) + span ws + Z.of_nat (length last)).
    replace (Z.of_nat (length lead) + span pairs
             + Z.of_nat (length ["&"%char]))
      with (E + Z.of_nat (length sep) + 1)
      by (unfold E; simpl length; lia).
    replace (Z.of_nat (length lead) + span pairs)
      with (E + Z.of_nat (length sep)) by (unfold E; lia).
    pose proof (proj1 (holds_app _ _ _ _) Hh) as [Hline _].
    pose proof (proj1 (holds_app _ _ _ _) Hline) as [Hl Hj].
    rewrite Hjoin in Hj.
    pose proof (proj1 (holds_app _ _ _ _) Hj) as [Hwords Htail].
    assert (HE : 0 + Z.of_nat (length lead) + Z.of_nat (length (join ws last))
                 = E).
    { unfold E. pose proof (length_join ws last). lia. }
    rewrite HE in Htail.
    assert (Hlastw : holds (mem s) (Z.of_nat (length lead) + span ws) last).
    { apply (holds_join _ ws last) in Hwords.
      replace (Z.of_nat (length lead) + span ws)
        with (0 + Z.of_nat (length lead) + span ws) by lia.
      exact Hwords. }
    destruct (holds_last_byte _ _ last ltac:(subst last; discriminate) Hlastw)
      as [cl [Hcl Hin]].
    assert (Hpl : length pairs = S (length ws)).
    { unfold pairs. rewrite length_app. simpl. lia. }
    assert (Hc2 : 1 < argsc s2).
    { change (argsc s2) with (1 + Z.of_nat (length pairs)). lia. }
    assert (Hsn : (length sep < n)%nat).
    { rewrite Hbuf in Hsize. rewrite !length_app in Hsize. lia. }
    destruct (last_token_amp n s2 E sep cl Hc2 Hsep Hsn Hcl
                (proj1 (Hsolid cl Hin)) Htail)
      as [m' [Hlt [Hnew Hold]]].
    rewrite (bind_Ok _ _ _ _ _ Hlt).
    eexists. split; [reflexivity|].
    split.
    { change (1 + Z.of_nat (length pairs) - 1 + 1 = Z.of_nat (length ws) + 2).
      lia. }
    split.
    { simpl mem. apply holds_app. split.
      * apply (holds_ext (mem s)).
        -- intros k Hk. apply Hold. rewrite length_app in Hk.
           pose proof (length_join ws last). unfold E. lia.
        -- apply holds_app. split; [exact Hl | exact Hwords].
      * apply holds_cons. split; [|intros k Hk; simpl in Hk; lia].
        replace (0 + Z.of_nat (length (lead ++ join ws last))) with E;
          [exact Hnew|].
        rewrite length_app. pose proof (length_join ws last). unfold E. lia. }
    simpl. auto 10.
  - (* the line ends with the last word *)
    rewrite app_nil_r in Hbuf.
    assert (Hh : holds (mem s) 0 ((lead ++ join ws last) ++ [NUL])).
    { apply (holds_buf _ _ rest). rewrite Hbuf, <- !app_assoc. reflexivity. }
    assert (Hn : Z.of_nat (length lead) + span ws + Z.of_nat (length last)
                 < Z.of_nat n).
    { rewrite Hbuf in Hsize. rewrite !length_app in Hsize.
      pose proof (length_join ws last). lia. }
    rewrite (bind_Ok _ _ _ _ _
               (first_pass_plain n s lead ws last w' c0
                  Hlead Hws Hw Hsolid Hh Hn)).
    cbv beta iota delta [fst snd].
    rewrite (bind_Ok _ _ _ _ _
               (too_long_ok (0 + Z.of_nat (length last)) _ ltac:(lia))).
    set (s2 := with_argsc (with_run_bg s 0) (1 + Z.of_nat (length ws))).
    pose proof (proj1 (holds_app _ _ _ _) Hh) as [Hline _].
    pose proof (proj1 (holds_app _ _ _ _) Hline) as [Hl Hj].
    assert (Hlastw : holds (mem s2) (Z.of_nat (length lead) + span ws) last).
    { apply (holds_join _ ws last) in Hj.
      replace (Z.of_nat (length lead) + span ws)
        with (0 + Z.of_nat (length lead) + span ws) by lia.
      exact Hj. }
    destruct (last_token_plain (mem_size (mem s)) s2
                (Z.of_nat (length lead) + span ws) last Hlast Hlastw)
      as [m' [Hlt Hsame]].
    { pose proof (holds_last _ _ _ _ Hh) as Hend.
      change (mem s2) with (mem s). rewrite <- Hend. f_equal.
      rewrite length_app. pose proof (length_join ws last). lia. }
    fold n in Hlt. rewrite (bind_Ok _ _ _ _ _ Hlt).
    eexists. split; [reflexivity|].
    split.
    { change (1 + Z.of_nat (length ws) + 1 = Z.of_nat (length ws) + 2). lia. }
    split.
    { simpl mem. apply (holds_ext (mem s)); [|exact Hh].
      intros k _. apply Hsame. }
    simpl. auto 10.
Qed.

Lemma alloc_blocks_fails (j : nat) :
  forall (i : nat) (s : state) (a : list (option block)),
    args s = ArgsLive a -> (i + j <= length a)%nat -> (heap s < j)%nat ->
    exists s',
      alloc_blocks j (Z.of_nat i) s = Ret (-1) s' /\
      stderr s' = (stderr s ++ msg_no_memory)%string /\
      redir_t s' = redir_t s /\ redir_f s' = redir_f s /\ mem s' = mem s.
Proof.
  induction j as [|j IH]; intros i s a Hargs Hlen Hh; [lia|].
  simpl alloc_blocks. unfold bind at 1. unfold alloc at 1.
  destruct (heap s) as [|h] eqn:Eh.
  - eexists. split; [reflexivity|]. simpl. auto.
  - set (s1 := with_heap s h).
    assert (Hset : set_arg (Z.of_nat i) (Some zero_block) s1 =
                   Ok tt (with_args s1 (ArgsLive (upd a i (Some zero_block))))).
    { unfold set_arg. change (args s1) with (args s). rewrite Hargs.
      destruct (Z.ltb_spec (Z.of_nat i) 0); [lia|].
      destruct (Z.leb_spec (Z.of_nat (length a)) (Z.of_nat i)); [lia|].
      simpl orb. cbv iota. rewrite Nat2Z.id. reflexivity. }
    rewrite (bind_Ok _ _ _ _ _ Hset).
    replace (Z.of_nat i + 1) with (Z.of_nat (S i)) by lia.
    destruct (IH (S i) (with_args s1 (ArgsLive (upd a i (Some zero_block))))
                (upd a i (Some zero_block)))
      as [s' [Hrun Hrest]].
    + reflexivity.
    + rewrite length_upd. lia.
    + simpl. lia.
    + exists s'. split; [exact Hrun|]. simpl in Hrest. exact Hrest.
Qed.

Lemma alloc_args_fails (k : nat) (s : state) :
  argsc s = Z.of_nat k + 1 -> (heap s < k + 1)%nat ->
  exists s',
    alloc_args s = Ret (-1) s' /\
    stderr s' = (stderr s ++ msg_no_memory)%string /\
    redir_t s' = redir_t s /\ redir_f s' = redir_f s /\ mem s' = mem s.
Proof.
  intros Hc Hh. unfold alloc_args. unfold bind at 1. unfold get at 1.
  rewrite Hc. destruct (Z.ltb_spec (Z.of_nat k + 1) 0); [lia|].
  unfold bind at 1. unfold alloc at 1.
  destruct (heap s) as [|h] eqn:Eh.
  - eexists. split; [reflexivity|]. simpl. auto.
  - unfold bind at 1. unfold put at 1.
    replace (Z.to_nat (Z.of_nat k + 1)) with (S k) by lia.
    replace (Z.to_nat (Z.of_nat k + 1 - 1)) with k by lia.
    destruct (alloc_blocks_fails k O
                (with_args (with_heap s h) (ArgsLive (repeat None (S k))))
                (repeat None (S k)))
      as [s' [Hrun Hrest]].
    + reflexivity.
    + rewrite repeat_length. lia.
    + simpl. lia.
    + exists s'. split; [exact Hrun|]. simpl in Hrest. exact Hrest.
Qed.

Section MemoryFacts.
Context {P : Posix}.

Lemma emit_emit (sh : shell) (a b : list event) :
  emit (emit sh a) b = emit sh (a ++ b).
Proof. unfold emit. simpl. rewrite app_assoc. reflexivity. Qed.

(** When [calloc] fails, for the array or for one of the blocks, on a line
    of plain words that needs [length ws + 2] allocations: [create_args]
    returns -1 after "Not enough memory!", and [input_start] leaves its
    loop, writes a newline, sets the exit flag, wakes the exec thread and
    returns 0: the shell ends.  The redirection names are untouched. *)
Theorem allocation_failure_ends_the_shell (stale : string) (sh : shell)
    (lead : list ascii) (ws : list (list ascii * list ascii))
    (last sep rest : list ascii) (bg : bool) :
  (forall x, In x lead -> is_space x = true) ->
  plain_pairs ws -> plain_word last -> (bg = true -> blank_run sep) ->
  cmd_buf (mem (tk sh)) = plain_line lead ws last sep bg ++ NUL :: rest ->
  (heap (tk sh) < length ws + 2)%nat ->
  exists t,
    create_args (with_stderr (tk sh) EmptyString) = Ret (-1) t /\
    stderr t = msg_no_memory /\
    redir_t t = redir_t (tk sh) /\ redir_f t = redir_f (tk sh) /\
    input_line stale sh
    = Some (Return 0,
            signal_exit (emit (with_tk sh t)
                           [Stderr msg_no_memory; Stdout nl])).
Proof.
  intros Hlead Hws Hlast Hsep Hbuf Hheap.
  destruct (create_args_front (with_stderr (tk sh) EmptyString) lead ws last
              sep rest bg Hlead Hws Hlast Hsep Hbuf)
    as [s3 [Hcr [Hc [_ [_ [_ [Ht [Hf [Hh He]]]]]]]]].
  simpl in Ht, Hf, Hh, He.
  destruct (alloc_args_fails (length ws + 1) s3) as [t [Hal [Het [Htt [Hft _]]]]];
    [lia | lia |].
  rewrite (bind_Ret _ _ _ _ _ Hal) in Hcr.
  rewrite He in Het. simpl in Het.
  exists t. split; [exact Hcr|]. split; [exact Het|].
  split; [congruence|]. split; [congruence|].
  unfold input_line. rewrite Hcr. cbv beta iota zeta.
  change (-1 =? -1) with true. cbv iota.
  rewrite Het. change (stderr_events msg_no_memory) with [Stderr msg_no_memory].
  rewrite emit_emit. reflexivity.
Qed.

End MemoryFacts.

Lemma allocation_failure_ends_the_shell_witness :
  exists t,
    create_args (with_stderr (tk (shell_of (boot [] 2 "ls -l /tmp")))
                   EmptyString) = Ret (-1) t /\
    stderr t = msg_no_memory /\
    redir_t t = redir_t (tk (shell_of (boot [] 2 "ls -l /tmp"))) /\
    redir_f t = redir_f (tk (shell_of (boot [] 2 "ls -l /tmp"))) /\
    input_line (P := linux) EmptyString (shell_of (boot [] 2 "ls -l /tmp"))
    = Some (Return 0,
            signal_exit (emit (with_tk (shell_of (boot [] 2 "ls -l /tmp")) t)
                           [Stderr msg_no_memory; Stdout nl])).
Proof.
  apply (allocation_failure_ends_the_shell (P := linux) EmptyString
           (shell_of (boot [] 2 "ls -l /tmp")) []
           [(bytes "ls", bytes " "); (bytes "-l", bytes " ")] (bytes "/tmp")
           [] [] false).
  - intros x [].
  - apply plain_pairsb_spec. reflexivity.
  - apply plain_wordb_spec. reflexivity.
  - discriminate.
  - reflexivity.
  - simpl. lia.
Defined.

Lemma is_redir_solid (c : ascii) : is_redir c = true -> solid c.
Proof.
  unfold is_redir, solid. intros H. apply orb_true_iff in H.
  destruct H as [H|H]; apply Ascii.eqb_eq in H; subst; split; reflexivity.
Qed.

(** A redirection operator that stands alone, a blank or tab behind it, is
    refused wherever it stands on a line of plain words: [create_args]
    returns 1 after "No whitespaces after '<' operator!" (or ['>']), whatever
    follows on the line, and leaves [args], the redirection names and the
    allocation budget as they were. *)
Theorem operator_before_blank_is_refused (s : state) (lead : list ascii)
    (ws : list (list ascii * list ascii)) (op x : ascii) (rest : list ascii) :
  (forall y, In y lead -> is_space y = true) ->
  plain_pairs ws -> is_redir op = true -> is_space x = true ->
  cmd_buf (mem s) = lead ++ join ws [op] ++ x :: rest ->
  exists s',
    create_args s = Ret 1 s' /\
    stderr s' = (stderr s ++ msg_no_space op)%string /\
    args s' = args s /\ redir_t s' = redir_t s /\ redir_f s' = redir_f s /\
    heap s' = heap s.
Proof.
  intros Hlead Hws Hop Hx Hbuf.
  pose proof (is_redir_solid op Hop) as [Hops Hopn].
  pose proof (span_nonneg ws) as Hspan.
  pose proof (cost_le_span ws Hws) as Hcost.
  destruct (join_head ws [op] [] op Hws eq_refl Hops) as [c' [l' [Hj Hc']]].
  unfold create_args, create_args_with.
  set (n := S (mem_size (mem s))).
  assert (Hsize : Z.of_nat (length (cmd_buf (mem s))) < Z.of_nat n).
  { unfold n, mem_size. lia. }
  assert (Hlenbuf : Z.of_nat (length (cmd_buf (mem s)))
                    = Z.of_nat (length lead) + span ws + 2
                      + Z.of_nat (length rest)).
  { rewrite Hbuf, !length_app. pose proof (length_join ws [op]).
    simpl length in *. lia. }
  assert (Hh : holds (mem s) 0 ((lead ++ join ws [op]) ++ [x])).
  { apply (holds_buf _ _ rest). rewrite Hbuf, <- !app_assoc. reflexivity. }
  pose proof (proj1 (holds_app _ _ _ _) Hh) as [Hline Hxh].
  pose proof (proj1 (holds_app _ _ _ _) Hline) as [Hl Hjoin].
  simpl in Hjoin.
  assert (Hl' : holds (mem s) 0 (lead ++ [c'])).
  { apply holds_app. split; [exact Hl|]. simpl. rewrite Hj in Hjoin.
    apply holds_cons in Hjoin. apply holds_cons. split; [tauto|].
    intros k Hk. simpl in Hk. lia. }
  set (P0 := 0 + Z.of_nat (length lead)) in *.
  assert (Hfirst : first_pass n s =
            Ret 1 (with_stderr
                     (with_argsc (with_run_bg s 0)
                                 (1 + Z.of_nat (length ws)))
                     (stderr s ++ msg_no_space op)%string)).
  { unfold first_pass. unfold bind at 1. unfold put at 1.
    rewrite (bind_Ok _ _ _ _ _
               (skip_spaces_run lead n 0 0 c' (with_run_bg s 0) Hlead Hc' Hl'
                  ltac:(lia))).
    unfold bind at 1. unfold put at 1. cbv beta iota delta [fst snd].
    fold P0.
    replace (match lead with
             | [] => 0
             | _ :: _ => P0
             end) with P0
      by (unfold P0; destruct lead; [reflexivity | lia]).
    set (s2 := with_argsc (with_run_bg s 0) 1).
    replace n with (cost ws + (length [op] + S (n - cost ws - 2)))%nat
      at 2 by (simpl length; lia).
    rewrite (count_args_words n ws _ P0 s2 [op] [] op Hws eq_refl Hops Hjoin).
    2: { intros w sep Hin. pose proof (sep_le_span ws w sep Hin). lia. }
    rewrite (count_args_chars n [op] _ _ _ 0 _).
    2: { intros c [<-|[]]. split; assumption. }
    2: { apply (holds_join _ ws [op]). exact Hjoin. }
    assert (Hopl : load (mem s) (P0 + span ws) = Some op).
    { apply (holds_join _ ws [op]) in Hjoin. apply holds_cons in Hjoin. tauto. }
    assert (Hxl : load (mem s) (P0 + span ws + 1) = Some x).
    { apply holds_cons in Hxh. destruct Hxh as [Hxh _].
      rewrite <- Hxh. f_equal. rewrite length_app.
      pose proof (length_join ws [op]). simpl length in *. unfold P0. lia. }
    simpl length. change (Z.of_nat 1) with 1.
    rewrite count_args_S.
    match goal with
    | |- bind (deref ?p) _ ?st = _ =>
        rewrite (bind_deref p x _ st Hxl)
    end.
    rewrite (is_space_not_nul x Hx), Hx.
    rewrite (bind_Ok _ _ _ _ _ (too_long_ok (0 + 1) _ eq_refl)).
    apply bind_Ret. unfold count_token.
    match goal with
    | |- bind (deref ?p) _ ?st = _ =>
        rewrite (bind_deref p op _ st Hopl)
    end.
    rewrite Hop.
    match goal with
    | |- bind (deref ?p) _ ?st = _ =>
        rewrite (bind_deref p x _ st Hxl)
    end.
    rewrite Hx. reflexivity. }
  rewrite (bind_Ret _ _ _ _ _ Hfirst).
  eexists. split; [reflexivity|]. simpl. auto 10.
Qed.

Lemma operator_before_blank_is_refused_witness :
  exists s',
    create_args (boot [] 16 "sort -r < in.txt") = Ret 1 s' /\
    stderr s' = (stderr (boot [] 16 "sort -r < in.txt") ++ msg_no_space "<")%string /\
    args s' = args (boot [] 16 "sort -r < in.txt") /\
    redir_t s' = redir_t (boot [] 16 "sort -r < in.txt") /\
    redir_f s' = redir_f (boot [] 16 "sort -r < in.txt") /\
    heap s' = heap (boot [] 16 "sort -r < in.txt").
Proof.
  apply (operator_before_blank_is_refused (boot [] 16 "sort -r < in.txt") []
           [(bytes "sort", bytes " "); (bytes "-r", bytes " ")]
           "<"%char " "%char (bytes "in.txt" ++ [NUL])).
  - intros y [].
  - apply plain_pairsb_spec. reflexivity.
  - reflexivity.
  - reflexivity.
  - reflexivity.
Defined.

(** ** The tokenizer on words and redirections *)

Lemma plain_word_tokenlike (w : list ascii) : plain_word w -> tokenlike w.
Proof.
  intros [Hlen [Hsolid [c [w' [Hw _]]]]]. split; [exact Hlen|].
  split; [exact Hsolid|]. subst w. discriminate.
Qed.

Lemma good_path_text (op : ascii) (p : list ascii) :
  is_redir op = true -> good_path p -> tokenlike (op :: p).
Proof.
  intros Hop [Hsolid Hlen]. split; [simpl length; lia|].
  split; [|discriminate].
  intros c [<-|Hc]; [exact (is_redir_solid _ Hop) | exact (Hsolid c Hc)].
Qed.

Lemma good_token_tokenlike (t : token) : good_token t -> tokenlike (text t).
Proof.
  destruct t as [w|op p]; simpl.
  - apply plain_word_tokenlike.
  - intros [Hop [_ Hp]]. apply good_path_text; assumption.
Qed.

Lemma good_last_tokenlike (t : token) : good_last t -> tokenlike (text t).
Proof.
  destruct t as [w|op p]; simpl.
  - apply plain_word_tokenlike.
  - intros [Hop Hp]. apply good_path_text; assumption.
Qed.

Lemma good_tokens_pairs (ts : list (token * list ascii)) :
  good_tokens ts -> token_pairs (texts ts).
Proof.
  induction 1 as [|[t sep] r [Ht Hsep] _ IH]; simpl; constructor; auto.
  split; [apply good_token_tokenlike; exact Ht | exact Hsep].
Qed.

Lemma tokenlike_head (w : list ascii) :
  tokenlike w -> exists c w', w = c :: w' /\ is_space c = false.
Proof.
  intros [_ [Hsolid Hne]]. destruct w as [|c w']; [contradiction|].
  exists c, w'. split; [reflexivity|].
  exact (proj1 (Hsolid c (or_introl eq_refl))).
Qed.

Lemma join_head_tk (l : list (list ascii * list ascii)) (last : list ascii) :
  token_pairs l -> tokenlike last ->
  exists c' l', join l last = c' :: l' /\ is_space c' = false.
Proof.
  intros Hl Hlast. destruct l as [|[w sep] r]; simpl.
  - apply tokenlike_head. exact Hlast.
  - inversion Hl as [|x y [Hw _] _]. simpl in Hw.
    destruct (tokenlike_head w Hw) as [c [w' [-> Hc]]].
    exists c. eexists. split; [reflexivity | exact Hc].
Qed.

Lemma cost_le_span_tk (l : list (list ascii * list ascii)) :
  token_pairs l -> Z.of_nat (cost l) <= span l.
Proof.
  induction 1 as [|[w sep] r [_ [Hne _]] _ IH]; simpl in *.
  - lia.
  - destruct sep; [contradiction|]. simpl length. lia.
Qed.

(** [memcpy(redir, bptr + 1, j); redir[j-1] = '\0';] for the path [p] and the
    byte [x] behind it. *)
Lemma copy_redir_bytes (r p : list ascii) (x : ascii) (P : Z) (s : state) :
  good_path p -> holds (mem s) (P + 1) (p ++ [x]) ->
  (r1 <- memcpy r (P + 1) (0 + Z.of_nat (length (">"%char :: p))) ;;
   set_byte r1 (0 + Z.of_nat (length (">"%char :: p)) - 1) NUL) s
  = Ok (stored p r) s.
Proof.
  intros [_ Hlen] Hh.
  assert (Hj : 0 + Z.of_nat (length (">"%char :: p)) = Z.of_nat (length p) + 1)
    by (simpl length; lia).
  rewrite Hj.
  assert (Hcp : memcpy r (P + 1) (Z.of_nat (length p) + 1) s
                = Ok ((p ++ [x]) ++ skipn (S (length p)) r) s).
  { unfold memcpy.
    destruct (Z.ltb_spec (Z.of_nat (length p) + 1) 0); [lia|].
    destruct (Z.ltb_spec MAXARG (Z.of_nat (length p) + 1)); [lia|].
    simpl orb. cbv iota.
    replace (Z.to_nat (Z.of_nat (length p) + 1)) with (length (p ++ [x]))
      by (rewrite length_app; simpl; lia).
    rewrite (holds_load_range _ _ _ Hh).
    rewrite length_app. simpl length.
    replace (length p + 1)%nat with (S (length p)) by lia. reflexivity. }
  rewrite (bind_Ok _ _ _ _ _ Hcp).
  unfold set_byte.
  destruct (Z.ltb_spec (Z.of_nat (length p) + 1 - 1) 0); [lia|].
  destruct (Z.leb_spec MAXARG (Z.of_nat (length p) + 1 - 1)); [lia|].
  simpl orb. cbv iota. unfold ok. f_equal.
  replace (Z.to_nat (Z.of_nat (length p) + 1 - 1)) with (length p) by lia.
  rewrite <- app_assoc. simpl. rewrite upd_app_at. reflexivity.
Qed.

Lemma copy_redir_t_spec (p : list ascii) (x : ascii) (P : Z) (s : state) :
  good_path p -> holds (mem s) (P + 1) (p ++ [x]) ->
  copy_redir_t P (0 + Z.of_nat (length (">"%char :: p))) s
  = Ok tt (with_redir_t s (stored p (redir_t s))).
Proof.
  intros Hp Hh. unfold copy_redir_t. unfold bind at 1. unfold get at 1.
  pose proof (copy_redir_bytes (redir_t s) p x P s Hp Hh) as H.
  unfold bind in H |- *.
  destruct (memcpy (redir_t s) (P + 1) _ s) as [r1 s1| |]; try discriminate.
  destruct (set_byte r1 _ NUL s1) as [r2 s2| |]; try discriminate.
  injection H as -> ->. reflexivity.
Qed.

Lemma copy_redir_f_spec (p : list ascii) (x : ascii) (P : Z) (s : state) :
  good_path p -> holds (mem s) (P + 1) (p ++ [x]) ->
  copy_redir_f P (0 + Z.of_nat (length ("<"%char :: p))) s
  = Ok tt (with_redir_f s (stored p (redir_f s))).
Proof.
  intros Hp Hh. unfold copy_redir_f. unfold bind at 1. unfold get at 1.
  pose proof (copy_redir_bytes (redir_f s) p x P s Hp Hh) as H.
  unfold bind in H |- *.
  change (length ("<"%char :: p)) with (length (">"%char :: p)).
  destruct (memcpy (redir_f s) (P + 1) _ s) as [r1 s1| |]; try discriminate.
  destruct (set_byte r1 _ NUL s1) as [r2 s2| |]; try discriminate.
  injection H as -> ->. reflexivity.
Qed.

Lemma is_redir_cases (op : ascii) :
  is_redir op = true -> op = ">"%char \/ op = "<"%char.
Proof.
  unfold is_redir. intros H. apply orb_true_iff in H.
  destruct H as [H|H]; apply Ascii.eqb_eq in H; auto.
Qed.

(** The state after the copy of the path [p] for the operator [op]. *)
Lemma with_redir_choice (op : ascii) (p : list ascii) (s : state) :
  is_redir op = true ->
  (if Ascii.eqb op ">"%char
   then with_redir_t s (stored p (redir_t s))
   else with_redir_f s (stored p (redir_f s)))
  = with_redir_f
      (with_redir_t s (if Ascii.eqb op ">"%char
                       then stored p (redir_t s) else redir_t s))
      (if Ascii.eqb op "<"%char then stored p (redir_f s) else redir_f s).
Proof.
  intros Hop. destruct (is_redir_cases op Hop) as [-> | ->]; simpl;
    destruct s; reflexivity.
Qed.

(** A redirection and the run of blanks after it, in the counting loop: no
    argument is counted. *)
Lemma count_args_redirect (n f : nat) (op : ascii) (p sep : list ascii)
    (c : ascii) (P : Z) (s : state) :
  is_redir op = true -> p <> [] -> good_path p -> blank_run sep ->
  is_space c = false ->
  holds (mem s) P ((op :: p) ++ sep ++ [c]) -> (length sep < n)%nat ->
  count_args n (length (op :: p) + S f) P P 0 s =
  count_args n f (P + Z.of_nat (length (op :: p)) + Z.of_nat (length sep))
             (P + Z.of_nat (length (op :: p)) + Z.of_nat (length sep)) 0 s.
Proof.
  intros Hop Hne Hp [Hsne Hsep] Hc Hh Hn.
  pose proof (good_path_text op p Hop Hp) as [Hlen [Hsolid _]].
  apply holds_app in Hh. destruct Hh as [Hwh Hrest].
  rewrite (count_args_chars n (op :: p) (S f) P P 0 s Hsolid Hwh).
  destruct sep as [|x sep']; [contradiction|].
  assert (Hx : load (mem s) (P + Z.of_nat (length (op :: p))) = Some x).
  { simpl in Hrest. apply holds_cons in Hrest. tauto. }
  pose proof (Hsep x (or_introl eq_refl)) as Hxs.
  rewrite count_args_S, (bind_deref _ _ _ _ Hx).
  rewrite (is_space_not_nul x Hxs), Hxs.
  assert (Hshort : 0 + Z.of_nat (length (op :: p)) < MAXARG) by lia.
  rewrite (bind_Ok _ _ _ _ _ (too_long_ok _ s Hshort)).
  assert (Htok : count_token n P s = Ok tt s).
  { unfold count_token. apply holds_cons in Hwh. destruct Hwh as [H0 Hph].
    rewrite (bind_deref _ _ _ _ H0), Hop.
    destruct p as [|c1 p']; [contradiction|].
    apply holds_cons in Hph. destruct Hph as [H1 _].
    rewrite (bind_deref _ _ _ _ H1).
    rewrite (proj1 (proj1 Hp c1 (or_introl eq_refl))). reflexivity. }
  rewrite (bind_Ok _ _ _ _ _ Htok).
  rewrite (bind_Ok _ _ _ _ _
             (skip_spaces_run (x :: sep') n (P + Z.of_nat (length (op :: p)))
                (P + Z.of_nat (length (op :: p)) + 1) c s Hsep Hc Hrest Hn)).
  cbv beta iota delta [fst snd]. f_equal; lia.
Qed.

(** The same in the filling loop: the path goes to [redir_t] or
    [redir_f]. *)
Lemma fill_args_redirect (n f : nat) (op : ascii) (p sep : list ascii)
    (c : ascii) (P i : Z) (s : state) :
  is_redir op = true -> p <> [] -> good_path p -> blank_run sep ->
  is_space c = false ->
  holds (mem s) P ((op :: p) ++ sep ++ [c]) -> (length sep < n)%nat ->
  fill_args n (length (op :: p) + S f) P P i 0 s =
  fill_args n f (P + Z.of_nat (length (op :: p)) + Z.of_nat (length sep))
            (P + Z.of_nat (length (op :: p)) + Z.of_nat (length sep)) i 0
            (if Ascii.eqb op ">"%char
             then with_redir_t s (stored p (redir_t s))
             else with_redir_f s (stored p (redir_f s))).
Proof.
  intros Hop Hne Hp [Hsne Hsep] Hc Hh Hn.
  pose proof (good_path_text op p Hop Hp) as [Hlen [Hsolid _]].
  apply holds_app in Hh. destruct Hh as [Hwh Hrest].
  rewrite (fill_args_chars n (op :: p) (S f) P P i 0 s Hsolid Hwh).
  destruct sep as [|x sep']; [contradiction|].
  assert (Hx : load (mem s) (P + Z.of_nat (length (op :: p))) = Some x).
  { simpl in Hrest. apply holds_cons in Hrest. tauto. }
  pose proof (Hsep x (or_introl eq_refl)) as Hxs.
  rewrite fill_args_S, (bind_deref _ _ _ _ Hx).
  rewrite (is_space_not_nul x Hxs), Hxs.
  pose proof Hwh as Hwh'. apply holds_cons in Hwh'. destruct Hwh' as [H0 Hph].
  rewrite (bind_deref _ _ _ _ H0).
  assert (Hpx : holds (mem s) (P + 1) (p ++ [x])).
  { apply holds_app. split; [exact Hph|].
    apply holds_cons. split; [|intros k Hk; simpl in Hk; lia].
    rewrite <- Hx. f_equal. simpl length. lia. }
  assert (Hnext : forall s', mem s' = mem s ->
            skip_spaces n (P + Z.of_nat (length (op :: p)))
                        (P + Z.of_nat (length (op :: p)) + 1) s'
            = Ok (P + Z.of_nat (length (op :: p))
                    + Z.of_nat (length (x :: sep')),
                  P + Z.of_nat (length (op :: p))
                    + Z.of_nat (length (x :: sep'))) s').
  { intros s' Hm.
    apply (skip_spaces_run (x :: sep') n _ _ c s' Hsep Hc);
      [rewrite Hm; exact Hrest | exact Hn]. }
  destruct (is_redir_cases op Hop) as [-> | ->].
  - change (Ascii.eqb ">"%char ">"%char) with true. cbv iota.
    assert (Hcopy : (copy_redir_t P (0 + Z.of_nat (length (">"%char :: p))) ;;
                     ok i) s
                    = Ok i (with_redir_t s (stored p (redir_t s)))).
    { rewrite (bind_Ok _ _ _ _ _ (copy_redir_t_spec p x P s Hp Hpx)).
      reflexivity. }
    rewrite (bind_Ok _ _ _ _ _ Hcopy).
    rewrite (bind_Ok _ _ _ _ _
               (Hnext (with_redir_t s (stored p (redir_t s))) eq_refl)).
    cbv beta iota delta [fst snd]. f_equal; lia.
  - change (Ascii.eqb "<"%char ">"%char) with false.
    change (Ascii.eqb "<"%char "<"%char) with true. cbv iota.
    assert (Hcopy : (copy_redir_f P (0 + Z.of_nat (length ("<"%char :: p))) ;;
                     ok i) s
                    = Ok i (with_redir_f s (stored p (redir_f s)))).
    { rewrite (bind_Ok _ _ _ _ _ (copy_redir_f_spec p x P s Hp Hpx)).
      reflexivity. }
    rewrite (bind_Ok _ _ _ _ _ Hcopy).
    rewrite (bind_Ok _ _ _ _ _
               (Hnext (with_redir_f s (stored p (redir_f s))) eq_refl)).
    cbv beta iota delta [fst snd]. f_equal; lia.
Qed.

(** The tokens [ts] in the counting loop: one more argument for each
    word. *)
Lemma count_args_tokens (n : nat) (ts : list (token * list ascii)) :
  forall (f : nat) (p : Z) (s : state) (last : list ascii),
    good_tokens ts -> tokenlike last ->
    holds (mem s) p (join (texts ts) last) ->
    (forall w sep, In (w, sep) (texts ts) -> (length sep < n)%nat) ->
    count_args n (cost (texts ts) + f) p p 0 s =
    count_args n f (p + span (texts ts)) (p + span (texts ts)) 0
               (with_argsc s (argsc s
                              + Z.of_nat (length (words_of (map fst ts))))).
Proof.
  induction ts as [|[t sep] r IH]; intros f p s last Hts Hlast Hh Hn.
  - simpl. rewrite with_argsc_same, Z.add_0_r. reflexivity.
  - inversion Hts as [|x y [Ht Hsep] Hr]; subst x y. simpl in Ht, Hsep.
    destruct (join_head_tk (texts r) last (good_tokens_pairs r Hr) Hlast)
      as [c' [l' [Hj Hc']]].
    simpl texts in *. simpl join in Hh. rewrite Hj in Hh.
    destruct (holds_word_run _ _ _ _ _ _ Hh) as [H1 H2].
    rewrite <- Hj in H2.
    simpl cost.
    replace (length (text t) + S (cost (texts r)) + f)%nat
      with (length (text t) + S (cost (texts r) + f))%nat by lia.
    simpl span.
    replace (p + (Z.of_nat (length (text t)) + Z.of_nat (length sep)
                  + span (texts r)))
      with (p + Z.of_nat (length (text t)) + Z.of_nat (length sep)
              + span (texts r)) by lia.
    destruct t as [w|op q]; simpl text in *; simpl map; simpl words_of.
    + rewrite (count_args_word n (cost (texts r) + f) w sep c' p s Ht Hsep
                 Hc' H1 (Hn w sep (or_introl eq_refl))).
      rewrite (IH f _ (with_argsc s (argsc s + 1)) last Hr Hlast H2
                 (fun w0 s0 H => Hn w0 s0 (or_intror H))).
      f_equal. unfold with_argsc. simpl. f_equal. simpl length. lia.
    + destruct Ht as [Hop [Hne Hq]].
      rewrite (count_args_redirect n (cost (texts r) + f) op q sep c' p s
                 Hop Hne Hq Hsep Hc' H1 (Hn _ sep (or_introl eq_refl))).
      exact (IH f _ s last Hr Hlast H2
               (fun w0 s0 H => Hn w0 s0 (or_intror H))).
Qed.

(** The tokens [ts] in the filling loop: each word goes to its block, each
    path to its array. *)
Lemma fill_args_tokens (n : nat) (ts : list (token * list ascii)) :
  forall (f : nat) (p : Z) (s : state) (last : list ascii)
         (done tl : list (option block)),
    good_tokens ts -> tokenlike last ->
    holds (mem s) p (join (texts ts) last) ->
    (forall w sep, In (w, sep) (texts ts) -> (length sep < n)%nat) ->
    args s = ArgsLive (done ++ repeat (Some zero_block)
                                      (length (words_of (map fst ts))) ++ tl) ->
    fill_args n (cost (texts ts) + f) p p (Z.of_nat (length done)) 0 s =
    fill_args n f (p + span (texts ts)) (p + span (texts ts))
              (Z.of_nat (length done + length (words_of (map fst ts)))) 0
              (after_tokens s
                 (done ++ map filled (words_of (map fst ts)) ++ tl)
                 (map fst ts)).
Proof.
  induction ts as [|[t sep] r IH];
    intros f p s last done tl Hts Hlast Hh Hn Hargs.
  - simpl. simpl in Hargs. unfold after_tokens. simpl.
    rewrite Z.add_0_r, Nat.add_0_r. f_equal.
    destruct s. simpl in *. subst. reflexivity.
  - inversion Hts as [|x y [Ht Hsep] Hr]; subst x y. simpl in Ht, Hsep.
    destruct (join_head_tk (texts r) last (good_tokens_pairs r Hr) Hlast)
      as [c' [l' [Hj Hc']]].
    simpl texts in *. simpl join in Hh. rewrite Hj in Hh.
    destruct (holds_word_run _ _ _ _ _ _ Hh) as [H1 H2].
    rewrite <- Hj in H2.
    simpl cost.
    replace (length (text t) + S (cost (texts r)) + f)%nat
      with (length (text t) + S (cost (texts r) + f))%nat by lia.
    simpl span.
    replace (p + (Z.of_nat (length (text t)) + Z.of_nat (length sep)
                  + span (texts r)))
      with (p + Z.of_nat (length (text t)) + Z.of_nat (length sep)
              + span (texts r)) by lia.
    destruct t as [w|op q]; simpl text in *; simpl map in *;
      simpl words_of in *.
    + simpl in Hargs.
      assert (Hnth : nth_error
                (done ++ Some zero_block
                   :: repeat (Some zero_block) (length (words_of (map fst r)))
                      ++ tl)
                (length done) = Some (Some zero_block)).
      { rewrite nth_error_app2 by lia. rewrite Nat.sub_diag. reflexivity. }
      rewrite (fill_args_word n (cost (texts r) + f) w sep c' p (length done) _
                 zero_block s Ht Hsep Hc' H1 (Hn w sep (or_introl eq_refl))
                 Hargs Hnth).
      rewrite upd_app_at.
      replace (Z.of_nat (S (length done)))
        with (Z.of_nat (length (done ++ [filled w])))
        by (rewrite length_app; simpl; lia).
      match goal with
      | |- fill_args _ _ _ _ _ _ ?st = _ => set (s2 := st)
      end.
      rewrite (IH f _ s2 last (done ++ [filled w]) tl Hr Hlast H2
                 (fun w0 s0 H => Hn w0 s0 (or_intror H))).
      2: { unfold s2. simpl. rewrite <- app_assoc. reflexivity. }
      f_equal.
      * rewrite length_app. simpl length. lia.
      * unfold after_tokens, s2. simpl. rewrite <- app_assoc. reflexivity.
    + destruct Ht as [Hop [Hne Hq]].
      rewrite (fill_args_redirect n (cost (texts r) + f) op q sep c' p
                 (Z.of_nat (length done)) s Hop Hne Hq Hsep Hc' H1
                 (Hn _ sep (or_introl eq_refl))).
      rewrite (with_redir_choice op q s Hop).
      match goal with
      | |- fill_args _ _ _ _ _ _ ?st = _ => set (s2 := st)
      end.
      rewrite (IH f _ s2 last done tl Hr Hlast H2
                 (fun w0 s0 H => Hn w0 s0 (or_intror H)) Hargs).
      f_equal.
Qed.

(** The first pass on a line of tokens, up to the end of its loop. *)
Lemma first_pass_tokens (n : nat) (s : state) (lead : list ascii)
    (ts : list (token * list ascii)) (tok : list ascii) :
  (forall x, In x lead -> is_space x = true) ->
  good_tokens ts -> tokenlike tok ->
  holds (mem s) 0 ((lead ++ join (texts ts) tok) ++ [NUL]) ->
  Z.of_nat (length lead) + span (texts ts) + Z.of_nat (length tok)
    < Z.of_nat n ->
  first_pass n s =
    Ok (Z.of_nat (length lead) + span (texts ts) + Z.of_nat (length tok),
        Z.of_nat (length lead) + span (texts ts),
        0 + Z.of_nat (length tok))
       (with_argsc (with_run_bg s 0)
          (1 + Z.of_nat (length (words_of (map fst ts))))).
Proof.
  intros Hlead Hts Htok Hh Hn.
  pose proof Htok as [_ [Hsolid _]].
  destruct (join_head_tk (texts ts) tok (good_tokens_pairs ts Hts) Htok)
    as [c' [l' [Hj Hc']]].
  pose proof (proj1 (holds_app _ _ _ _) Hh) as [Hline Hnul].
  pose proof (proj1 (holds_app _ _ _ _) Hline) as [Hl Hjoin].
  simpl in Hjoin.
  assert (Hl' : holds (mem s) 0 (lead ++ [c'])).
  { apply holds_app. split; [exact Hl|]. simpl. rewrite Hj in Hjoin.
    apply holds_cons in Hjoin. apply holds_cons. split; [tauto|].
    intros k Hk. simpl in Hk. lia. }
  pose proof (cost_le_span_tk _ (good_tokens_pairs ts Hts)) as Hcost.
  pose proof (span_nonneg (texts ts)) as Hspan.
  unfold first_pass. unfold bind at 1. unfold put at 1.
  rewrite (bind_Ok _ _ _ _ _
             (skip_spaces_run lead n 0 0 c' (with_run_bg s 0) Hlead Hc' Hl'
                ltac:(lia))).
  unfold bind at 1. unfold put at 1. cbv beta iota delta [fst snd].
  replace (match lead with
           | [] => 0
           | _ :: _ => 0 + Z.of_nat (length lead)
           end) with (0 + Z.of_nat (length lead))
    by (destruct lead; [reflexivity | lia]).
  set (s2 := with_argsc (with_run_bg s 0) 1).
  replace n with (cost (texts ts) +
                  (length tok + S (n - cost (texts ts) - length tok - 1)))%nat
    at 2 by lia.
  rewrite (count_args_tokens n ts _ (0 + Z.of_nat (length lead)) s2 tok
             Hts Htok Hjoin).
  2: { intros w sep Hin. pose proof (sep_le_span _ w sep Hin). lia. }
  rewrite (count_args_chars n tok _ _ _ 0 _ Hsolid).
  2: { apply (holds_join _ (texts ts) tok). exact Hjoin. }
  rewrite count_args_at_nul.
  2: { pose proof (holds_last _ _ _ _ Hh) as Hend. rewrite <- Hend.
       f_equal. rewrite length_app.
       pose proof (length_join (texts ts) tok). lia. }
  reflexivity.
Qed.

Lemma is_redir_not_amp (op : ascii) : is_redir op = true -> is_amp op = false.
Proof. intros H. destruct (is_redir_cases op H) as [-> | ->]; reflexivity. Qed.

(** After the loop, a last token that is a redirection, with a word before
    it: the count loses the one that was taken in advance for the last
    token. *)
Lemma last_token_redirect (n : nat) (s : state) (P : Z) (op : ascii)
    (p : list ascii) :
  1 < argsc s -> is_redir op = true -> good_path p ->
  holds (mem s) P (op :: p) ->
  load (mem s) (P + Z.of_nat (length (op :: p))) = Some NUL ->
  exists m',
    last_token (S n) (P + Z.of_nat (length (op :: p))) P s =
      Ok tt (with_argsc (with_mem s m') (argsc s - 1 + 1)) /\
    forall k, load m' k = load (mem s) k.
Proof.
  intros Hc Hop Hp Hh Hnul.
  pose proof (good_path_text op p Hop Hp) as [_ [Hsolid _]].
  assert (H0 : load (mem s) P = Some op).
  { apply holds_cons in Hh. tauto. }
  set (s1 := with_argsc s (argsc s - 1)).
  assert (Hb1 : (if 1 <? argsc s
                 then b <- deref P ;;
                      if is_redir b
                      then put (fun s => with_argsc s (argsc s - 1))
                      else ok tt
                 else ok tt) s = Ok tt s1).
  { destruct (Z.ltb_spec 1 (argsc s)); [|lia].
    rewrite (bind_deref _ _ _ _ H0), Hop. reflexivity. }
  assert (Hb2 : (if 1 <? argsc s1
                 then b <- deref P ;; ok (is_amp b)
                 else ok false) s1 = Ok false s1).
  { destruct (1 <? argsc s1); [|reflexivity].
    rewrite (bind_deref P op _ s1 H0), (is_redir_not_amp op Hop).
    reflexivity. }
  destruct (holds_last_byte _ _ (op :: p) ltac:(discriminate) Hh)
    as [cl [Hcl Hin]].
  destruct (store_in_mem (mem s) (P + Z.of_nat (length (op :: p))) NUL)
    as [m' [Hst [_ [_ [Hnew Hold]]]]].
  { exact (load_in_mem _ _ _ Hnul). }
  exists m'. split.
  - unfold last_token. unfold bind at 1. unfold get at 1. cbv beta iota.
    rewrite (bind_Ok _ _ _ _ _ Hb1).
    unfold bind at 1. unfold get at 1. cbv beta iota.
    rewrite (bind_Ok _ _ _ _ _ Hb2). cbv iota.
    assert (Hrm : (q <- back_spaces (S n)
                          (P + Z.of_nat (length (op :: p)) - 1) ;;
                   assign (q + 1) NUL) s1 = Ok tt (with_mem s1 m')).
    { rewrite (bind_Ok _ _ _ _ _
                 (back_spaces_stop n _ cl s1 Hcl (proj1 (Hsolid cl Hin)))).
      unfold assign.
      replace (P + Z.of_nat (length (op :: p)) - 1 + 1)
        with (P + Z.of_nat (length (op :: p))) by lia.
      change (mem s1) with (mem s). rewrite Hst. reflexivity. }
    rewrite (bind_Ok _ _ _ _ _ Hrm). reflexivity.
  - intros k.
    destruct (Z.eq_dec k (P + Z.of_nat (length (op :: p)))) as [->|Hk].
    + rewrite Hnew, Hnul. reflexivity.
    + apply Hold. exact Hk.
Qed.

Lemma words_of_app (l l' : list token) :
  words_of (l ++ l') = words_of l ++ words_of l'.
Proof.
  induction l as [|[w|op p] l IH]; simpl; [reflexivity| |exact IH].
  rewrite IH. reflexivity.
Qed.

Lemma redir_after_app (op : ascii) (l l' : list token) (r : list ascii) :
  redir_after op (l ++ l') r = redir_after op l' (redir_after op l r).
Proof.
  revert r. induction l as [|[w|o p] l IH]; intros r; simpl; auto.
Qed.

Lemma set_arg_spec (s : state) (a : list (option block)) (i : nat)
    (v : option block) :
  args s = ArgsLive a -> (i < length a)%nat ->
  set_arg (Z.of_nat i) v s = Ok tt (with_args s (ArgsLive (upd a i v))).
Proof.
  intros Hargs Hi. unfold set_arg. rewrite Hargs.
  destruct (Z.ltb_spec (Z.of_nat i) 0); [lia|].
  destruct (Z.leb_spec (Z.of_nat (length a)) (Z.of_nat i)); [lia|].
  simpl orb. cbv iota. rewrite Nat2Z.id. reflexivity.
Qed.

(** The second pass on a line of tokens whose blocks are allocated. *)
Lemma second_pass_tokens (n : nat) (s : state) (lead : list ascii)
    (ts : list (token * list ascii)) (tlast : token) (x : option block)
    (tl0 : list (option block)) :
  (forall x, In x lead -> is_space x = true) ->
  good_tokens ts -> good_last tlast ->
  holds (mem s) 0 ((lead ++ join (texts ts) (text tlast)) ++ [NUL]) ->
  Z.of_nat (length lead) + span (texts ts) + Z.of_nat (length (text tlast))
    < Z.of_nat n ->
  args s = ArgsLive (repeat (Some zero_block)
                       (length (words_of (map fst ts ++ [tlast])))
                     ++ x :: tl0) ->
  second_pass n s =
    Ok tt (after_tokens s
             (map filled (words_of (map fst ts ++ [tlast])) ++ None :: tl0)
             (map fst ts ++ [tlast])).
Proof.
  intros Hlead Hts Hlast Hh Hn Hargs.
  pose proof (good_last_tokenlike tlast Hlast) as Htok.
  pose proof Htok as [Hlen [Hsolid _]].
  destruct (join_head_tk (texts ts) (text tlast) (good_tokens_pairs ts Hts)
              Htok) as [c' [l' [Hj Hc']]].
  pose proof (proj1 (holds_app _ _ _ _) Hh) as [Hline _].
  pose proof (proj1 (holds_app _ _ _ _) Hline) as [Hl Hjoin].
  simpl in Hjoin.
  assert (Hl' : holds (mem s) 0 (lead ++ [c'])).
  { apply holds_app. split; [exact Hl|]. simpl. rewrite Hj in Hjoin.
    apply holds_cons in Hjoin. apply holds_cons. split; [tauto|].
    intros k Hk. simpl in Hk. lia. }
  pose proof (cost_le_span_tk _ (good_tokens_pairs ts Hts)) as Hcost.
  pose proof (span_nonneg (texts ts)) as Hspan.
  set (P0 := 0 + Z.of_nat (length lead)) in *.
  set (f' := (n - cost (texts ts) - length (text tlast) - 1)%nat).
  set (W := words_of (map fst ts)) in *.
  set (tl := repeat (Some zero_block) (length (words_of [tlast])) ++ x :: tl0).
  set (a1 := map filled W ++ tl).
  set (s4 := after_tokens s a1 (map fst ts)).
  assert (Hargs' : args s = ArgsLive ([] ++ repeat (Some zero_block) (length W)
                                         ++ tl)).
  { rewrite Hargs, words_of_app, length_app, repeat_app, <- app_assoc.
    reflexivity. }
  assert (Hend : load (mem s)
                   (P0 + span (texts ts) + Z.of_nat (length (text tlast)))
                 = Some NUL).
  { pose proof (holds_last _ _ _ _ Hh) as He. rewrite <- He. f_equal.
    rewrite length_app. pose proof (length_join (texts ts) (text tlast)).
    unfold P0. lia. }
  assert (Hlastw : holds (mem s) (P0 + span (texts ts)) (text tlast)).
  { apply (holds_join _ (texts ts) (text tlast)). exact Hjoin. }
  assert (Hfill : fill_args n n P0 P0 0 0 s =
                  Ok (P0 + span (texts ts) + Z.of_nat (length (text tlast)),
                      P0 + span (texts ts), Z.of_nat (length W),
                      0 + Z.of_nat (length (text tlast))) s4).
  { replace n with (cost (texts ts) + (length (text tlast) + S f'))%nat at 2
      by (unfold f'; lia).
    pose proof (fill_args_tokens n ts (length (text tlast) + S f') P0 s
                  (text tlast) [] tl Hts Htok Hjoin) as Hwords.
    simpl length in Hwords. simpl app in Hwords.
    change (Z.of_nat 0) with 0 in Hwords.
    change (0 + length (words_of (map fst ts)))%nat with (length W) in Hwords.
    fold W in Hwords.
    rewrite Hwords; [|intros w sep Hin;
                      pose proof (sep_le_span _ w sep Hin); lia
                     | exact Hargs'].
    fold a1. fold s4.
    rewrite (fill_args_chars n (text tlast) _ _ _ _ 0 s4 Hsolid Hlastw).
    rewrite fill_args_at_nul; [reflexivity | exact Hend]. }
  unfold second_pass.
  rewrite (bind_Ok _ _ _ _ _
             (skip_spaces_run lead n 0 0 c' s Hlead Hc' Hl' ltac:(lia))).
  cbv beta iota delta [fst snd]. fold P0.
  replace (match lead with
           | [] => 0
           | _ :: _ => P0
           end) with P0
    by (unfold P0; destruct lead; [reflexivity | lia]).
  rewrite (bind_Ok _ _ _ _ _ Hfill).
  cbv beta iota delta [fst snd].
  rewrite words_of_app. fold W.
  destruct tlast as [w|op p]; simpl text in *; simpl words_of in *.
  - (* the last token is a word *)
    destruct Hlast as [_ [_ [c0 [w0 [Hw [Hr _]]]]]].
    assert (H0 : load (mem s4) (P0 + span (texts ts)) = Some c0).
    { subst w. apply holds_cons in Hlastw. tauto. }
    rewrite (bind_deref _ _ _ _ H0).
    destruct (is_redir_false c0 Hr) as [-> ->].
    assert (Hnth : nth_error a1 (length W) = Some (Some zero_block)).
    { unfold a1, tl. rewrite nth_error_app2 by (rewrite length_map; lia).
      rewrite length_map, Nat.sub_diag. reflexivity. }
    rewrite (bind_Ok _ _ _ _ _
               (copy_arg_spec s4 a1 (length W) zero_block w
                  (P0 + span (texts ts)) eq_refl Hnth Hlastw Hlen)).
    replace (Z.of_nat (length W) + 1) with (Z.of_nat (S (length W))) by lia.
    assert (Hupd : upd a1 (length W) (Some (w ++ skipn (length w) zero_block))
                   = map filled W ++ filled w :: x :: tl0).
    { unfold a1, tl. simpl. rewrite <- (length_map filled W) at 1.
      rewrite upd_app_at. reflexivity. }
    rewrite Hupd.
    rewrite (set_arg_spec _ (map filled W ++ filled w :: x :: tl0)
               (S (length W)))
      by (first [reflexivity | rewrite length_app, length_map; simpl; lia]).
    f_equal. unfold after_tokens, s4, after_tokens. simpl.
    rewrite !redir_after_app. simpl.
    replace (upd (map filled W ++ filled w :: x :: tl0) (S (length W)) None)
      with (map filled (W ++ [w]) ++ None :: tl0); [reflexivity|].
    rewrite map_app. simpl. rewrite <- app_assoc. simpl.
    replace (map filled W ++ filled w :: x :: tl0)
      with ((map filled W ++ [filled w]) ++ x :: tl0)
      by (rewrite <- app_assoc; reflexivity).
    replace (S (length W)) with (length (map filled W ++ [filled w]))
      by (rewrite length_app, length_map; simpl; lia).
    rewrite upd_app_at, <- app_assoc. reflexivity.
  - (* the last token is a redirection *)
    destruct Hlast as [Hop Hp].
    assert (H0 : load (mem s4) (P0 + span (texts ts)) = Some op).
    { apply holds_cons in Hlastw. tauto. }
    rewrite (bind_deref _ _ _ _ H0).
    assert (Hpx : holds (mem s4) (P0 + span (texts ts) + 1) (p ++ [NUL])).
    { apply holds_cons in Hlastw. destruct Hlastw as [_ Hph].
      apply holds_app. split; [exact Hph|].
      apply holds_cons. split; [|intros k Hk; simpl in Hk; lia].
      change (mem s4) with (mem s). rewrite <- Hend. f_equal.
      simpl length. lia. }
    assert (Ha1 : a1 = map filled W ++ x :: tl0) by reflexivity.
    assert (Hsame : upd a1 (length W) None = map filled W ++ None :: tl0).
    { rewrite Ha1. rewrite <- (length_map filled W) at 1.
      apply upd_app_at. }
    rewrite app_nil_r.
    destruct (is_redir_cases op Hop) as [-> | ->].
    + change (Ascii.eqb ">"%char ">"%char) with true. cbv iota.
      rewrite (bind_Ok _ _ _ _ _
                 (copy_redir_t_spec p NUL (P0 + span (texts ts)) s4 Hp Hpx)).
      rewrite (set_arg_spec _ a1 (length W))
        by (first [reflexivity | rewrite Ha1, length_app, length_map; simpl; lia]).
      rewrite Hsame. f_equal. unfold s4, after_tokens. simpl.
      rewrite !redir_after_app. simpl. reflexivity.
    + change (Ascii.eqb "<"%char ">"%char) with false.
      change (Ascii.eqb "<"%char "<"%char) with true. cbv iota.
      rewrite (bind_Ok _ _ _ _ _
                 (copy_redir_f_spec p NUL (P0 + span (texts ts)) s4 Hp Hpx)).
      rewrite (set_arg_spec _ a1 (length W))
        by (first [reflexivity | rewrite Ha1, length_app, length_map; simpl; lia]).
      rewrite Hsame. f_equal. unfold s4, after_tokens. simpl.
      rewrite !redir_after_app. simpl. reflexivity.
Qed.

Lemma texts_app (ts : list (token * list ascii)) (t : token)
    (sep : list ascii) :
  texts (ts ++ [(t, sep)]) = texts ts ++ [(text t, sep)].
Proof. unfold texts. rewrite map_app. reflexivity. Qed.

(** The tokenizer on a line of words and redirections with at least one
    word, closed or not by [&]. *)
Lemma create_args_tokens (s : state) (lead : list ascii)
    (ts : list (token * list ascii)) (tlast : token) (sep rest : list ascii)
    (bg : bool) :
  (forall x, In x lead -> is_space x = true) ->
  good_tokens ts -> good_last tlast ->
  (bg = true -> blank_run sep /\ good_token tlast) ->
  words_of (map fst ts ++ [tlast]) <> [] ->
  cmd_buf (mem s) = token_line lead ts tlast sep bg ++ NUL :: rest ->
  (length (words_of (map fst ts ++ [tlast])) + 1 <= heap s)%nat ->
  exists s',
    create_args s = Ret 0 s' /\
    argsc s' = Z.of_nat (length (words_of (map fst ts ++ [tlast]))) + 1 /\
    args s' = ArgsLive (map filled (words_of (map fst ts ++ [tlast]))
                        ++ [None]) /\
    run_bg s' = (if bg then 1 else 0) /\
    redir_t s' = redir_after ">"%char (map fst ts ++ [tlast]) (redir_t s) /\
    redir_f s' = redir_after "<"%char (map fst ts ++ [tlast]) (redir_f s) /\
    stderr s' = stderr s.
Proof.
  intros Hlead Hts Hlast Hsep Hwords Hbuf Hheap. unfold token_line in Hbuf.
  pose proof (good_last_tokenlike tlast Hlast) as Htok.
  pose proof Htok as [Hlen [Hsolid Hne]].
  pose proof (span_nonneg (texts ts)) as Hspan.
  set (all := map fst ts ++ [tlast]) in *.
  set (K := length (words_of all)) in *.
  assert (HK : (1 <= K)%nat).
  { unfold K. destruct (words_of all); [contradiction | simpl; lia]. }
  unfold create_args, create_args_with.
  set (n := S (mem_size (mem s))).
  assert (Hsize : Z.of_nat (length (cmd_buf (mem s))) < Z.of_nat n).
  { unfold n, mem_size. lia. }
  (* the state after the first pass and the last token *)
  assert (Hfront : exists s3,
    (r <- first_pass n ;;
     too_long (snd r) ;; last_token n (fst (fst r)) (snd (fst r))) s
      = Ok tt s3 /\
    argsc s3 = Z.of_nat K + 1 /\
    holds (mem s3) 0 ((lead ++ join (texts ts) (text tlast)) ++ [NUL]) /\
    Z.of_nat (length lead) + span (texts ts) + Z.of_nat (length (text tlast))
      < Z.of_nat n /\
    run_bg s3 = (if bg then 1 else 0) /\
    args s3 = args s /\ redir_t s3 = redir_t s /\ redir_f s3 = redir_f s /\
    heap s3 = heap s /\ stderr s3 = stderr s).
  { destruct bg.
    - (* the line ends with blanks and [&] *)
      destruct (Hsep eq_refl) as [Hsp Hgood].
      set (pairs := ts ++ [(tlast, sep)]).
      assert (Hjoin : join (texts pairs) ["&"%char]
                      = join (texts ts) (text tlast) ++ sep ++ ["&"%char]).
      { unfold pairs. rewrite texts_app, join_app, <- join_last_app.
        reflexivity. }
      assert (Hpairs : good_tokens pairs).
      { apply Forall_app. split; [exact Hts|]. constructor; [|constructor].
        split; assumption. }
      assert (Hwp : words_of (map fst pairs) = words_of all).
      { unfold pairs, all. rewrite map_app. reflexivity. }
      assert (Hh : holds (mem s) 0
                     ((lead ++ join (texts pairs) ["&"%char]) ++ [NUL])).
      { apply (holds_buf _ _ rest). rewrite Hbuf, Hjoin, <- !app_assoc.
        reflexivity. }
      assert (Hspan' : span (texts pairs)
                       = span (texts ts) + Z.of_nat (length (text tlast))
                         + Z.of_nat (length sep)).
      { unfold pairs. rewrite texts_app. apply span_app. }
      assert (Hn : Z.of_nat (length lead) + span (texts pairs)
                   + Z.of_nat (length ["&"%char]) < Z.of_nat n).
      { rewrite Hbuf in Hsize. rewrite !length_app in Hsize.
        pose proof (length_join (texts ts) (text tlast)).
        simpl length in *. lia. }
      assert (Hamp : tokenlike ["&"%char]).
      { split; [reflexivity|]. split; [exact solid_amp | discriminate]. }
      rewrite (bind_Ok _ _ _ _ _
                 (first_pass_tokens n s lead pairs ["&"%char]
                    Hlead Hpairs Hamp Hh Hn)).
      cbn [fst snd].
      rewrite (bind_Ok _ _ _ _ _
                 (too_long_ok (0 + Z.of_nat (length ["&"%char])) _ eq_refl)).
      rewrite Hwp. fold K.
      set (s2 := with_argsc (with_run_bg s 0) (1 + Z.of_nat K)).
      set (E := Z.of_nat (length lead) + span (texts ts)
                + Z.of_nat (length (text tlast))).
      replace (Z.of_nat (length lead) + span (texts pairs)
               + Z.of_nat (length ["&"%char]))
        with (E + Z.of_nat (length sep) + 1)
        by (unfold E; simpl length; lia).
      replace (Z.of_nat (length lead) + span (texts pairs))
        with (E + Z.of_nat (length sep)) by (unfold E; lia).
      pose proof (proj1 (holds_app _ _ _ _) Hh) as [Hline _].
      pose proof (proj1 (holds_app _ _ _ _) Hline) as [Hl Hj].
      rewrite Hjoin in Hj.
      pose proof (proj1 (holds_app _ _ _ _) Hj) as [Hws Htail].
      assert (HE : 0 + Z.of_nat (length lead)
                   + Z.of_nat (length (join (texts ts) (text tlast))) = E).
      { unfold E. pose proof (length_join (texts ts) (text tlast)). lia. }
      rewrite HE in Htail.
      assert (Hlastw : holds (mem s)
                         (Z.of_nat (length lead) + span (texts ts))
                         (text tlast)).
      { apply (holds_join _ (texts ts) (text tlast)) in Hws.
        replace (Z.of_nat (length lead) + span (texts ts))
          with (0 + Z.of_nat (length lead) + span (texts ts)) by lia.
        exact Hws. }
      destruct (holds_last_byte _ _ (text tlast) Hne Hlastw)
        as [cl [Hcl Hin]].
      assert (Hc2 : 1 < argsc s2).
      { change (argsc s2) with (1 + Z.of_nat K). lia. }
      assert (Hsn : (length sep < n)%nat).
      { rewrite Hbuf in Hsize. rewrite !length_app in Hsize. lia. }
      destruct (last_token_amp n s2 E sep cl Hc2 Hsp Hsn Hcl
                  (proj1 (Hsolid cl Hin)) Htail)
        as [m' [Hlt [Hnew Hold]]].
      rewrite Hlt. eexists. split; [reflexivity|].
      split.
      { change (1 + Z.of_nat K - 1 + 1 = Z.of_nat K + 1). lia. }
      split.
      { simpl mem. apply holds_app. split.
        * apply (holds_ext (mem s)).
          -- intros k Hk. apply Hold. rewrite length_app in Hk.
             pose proof (length_join (texts ts) (text tlast)). unfold E. lia.
          -- apply holds_app. split; [exact Hl | exact Hws].
        * apply holds_cons. split; [|intros k Hk; simpl in Hk; lia].
          replace (0 + Z.of_nat (length (lead ++ join (texts ts) (text tlast))))
            with E; [exact Hnew|].
          rewrite length_app.
          pose proof (length_join (texts ts) (text tlast)). unfold E. lia. }
      split.
      { rewrite Hbuf in Hsize. rewrite !length_app in Hsize.
        pose proof (length_join (texts ts) (text tlast)). lia. }
      simpl. auto 10.
    - (* the line ends with the last token *)
      rewrite app_nil_r in Hbuf.
      assert (Hh : holds (mem s) 0
                     ((lead ++ join (texts ts) (text tlast)) ++ [NUL])).
      { apply (holds_buf _ _ rest). rewrite Hbuf, <- !app_assoc.
        reflexivity. }
      assert (Hn : Z.of_nat (length lead) + span (texts ts)
                   + Z.of_nat (length (text tlast)) < Z.of_nat n).
      { rewrite Hbuf in Hsize. rewrite !length_app in Hsize.
        pose proof (length_join (texts ts) (text tlast)). lia. }
      rewrite (bind_Ok _ _ _ _ _
                 (first_pass_tokens n s lead ts (text tlast)
                    Hlead Hts Htok Hh Hn)).
      cbn [fst snd].
      rewrite (bind_Ok _ _ _ _ _
                 (too_long_ok (0 + Z.of_nat (length (text tlast))) _
                    ltac:(lia))).
      set (s2 := with_argsc (with_run_bg s 0)
                   (1 + Z.of_nat (length (words_of (map fst ts))))).
      pose proof (proj1 (holds_app _ _ _ _) Hh) as [Hline _].
      pose proof (proj1 (holds_app _ _ _ _) Hline) as [Hl Hj].
      assert (Hlastw : holds (mem s2)
                         (Z.of_nat (length lead) + span (texts ts))
                         (text tlast)).
      { apply (holds_join _ (texts ts) (text tlast)) in Hj.
        replace (Z.of_nat (length lead) + span (texts ts))
          with (0 + Z.of_nat (length lead) + span (texts ts)) by lia.
        exact Hj. }
      assert (Hend : load (mem s2)
                (Z.of_nat (length lead) + span (texts ts)
                 + Z.of_nat (length (text tlast))) = Some NUL).
      { pose proof (holds_last _ _ _ _ Hh) as He.
        change (mem s2) with (mem s). rewrite <- He. f_equal.
        rewrite length_app.
        pose proof (length_join (texts ts) (text tlast)). lia. }
      assert (HKw : K = (length (words_of (map fst ts))
                         + length (words_of [tlast]))%nat).
      { unfold K, all. rewrite words_of_app, length_app. reflexivity. }
      assert (Hlt : exists m',
                last_token n
                  (Z.of_nat (length lead) + span (texts ts)
                   + Z.of_nat (length (text tlast)))
                  (Z.of_nat (length lead) + span (texts ts)) s2
                = Ok tt (with_argsc (with_mem s2 m') (Z.of_nat K + 1)) /\
                forall k, load m' k = load (mem s2) k).
      { destruct tlast as [w|op p]; simpl text in *; simpl in HKw.
        - destruct (last_token_plain (mem_size (mem s)) s2 _ w Hlast Hlastw
                      Hend) as [m' [Hlt Hsame]].
          exists m'. split; [|exact Hsame]. fold n in Hlt. rewrite Hlt.
          replace (Z.of_nat K + 1) with (argsc s2 + 1); [reflexivity|].
          change (argsc s2)
            with (1 + Z.of_nat (length (words_of (map fst ts)))). lia.
        - destruct Hlast as [Hop Hp].
          destruct (last_token_redirect (mem_size (mem s)) s2
                      (Z.of_nat (length lead) + span (texts ts)) op p)
            as [m' [Hlt Hsame]]; auto.
          { change (argsc s2)
              with (1 + Z.of_nat (length (words_of (map fst ts)))). lia. }
          exists m'. split; [|exact Hsame]. fold n in Hlt. rewrite Hlt.
          replace (Z.of_nat K + 1) with (argsc s2 - 1 + 1); [reflexivity|].
          change (argsc s2)
            with (1 + Z.of_nat (length (words_of (map fst ts)))). lia. }
      destruct Hlt as [m' [Hlt Hsame]].
      rewrite Hlt. eexists. split; [reflexivity|].
      split; [reflexivity|]. split.
      { simpl mem. apply (holds_ext (mem s)); [|exact Hh].
        intros k _. apply Hsame. }
      split; [exact Hn|]. simpl. auto 10. }
  destruct Hfront as [s3 [Hf3 [Hc3 [Hh3 [Hn3 [Hb3 [Ha3 [Ht3 [Hf3' [Hp3 He3]]]]]]]]]].
  assert (Hsplit : (r <- first_pass n ;;
                    too_long (snd r) ;;
                    last_token n (fst (fst r)) (snd (fst r)) ;;
                    alloc_args ;; second_pass n ;; ret 0) s
                   = (alloc_args ;; second_pass n ;; (ret 0 : M unit)) s3).
  { unfold bind in Hf3 |- *.
    destruct (first_pass n s) as [r s1| |]; try discriminate.
    destruct (too_long (snd r) s1) as [u s2| |]; try discriminate.
    destruct (last_token n (fst (fst r)) (snd (fst r)) s2) as [u' s2'| |];
      try discriminate.
    injection Hf3 as _ ->. reflexivity. }
  rewrite Hsplit.
  destruct (alloc_args_spec K s3 Hc3 ltac:(lia)) as [s4 [Hal [Ha4 Hsame]]].
  pose proof Hsame as [Hm [Hc4 [Ht4 [Hf4 [Hb4 He4]]]]].
  rewrite (bind_Ok _ _ _ _ _ Hal).
  assert (Hh4 : holds (mem s4) 0
                  ((lead ++ join (texts ts) (text tlast)) ++ [NUL]))
    by (rewrite Hm; exact Hh3).
  rewrite (bind_Ok _ _ _ _ _
             (second_pass_tokens n s4 lead ts tlast None [] Hlead Hts Hlast
                Hh4 Hn3 Ha4)).
  eexists. split; [reflexivity|]. unfold after_tokens. simpl.
  rewrite Hc4, Hb4, He4, Ht4, Hf4, Ht3, Hf3', He3.
  fold all. fold K. auto 10.
Qed.

(** ** Redirections: what the parsed command asks for *)

Lemma redirect_stored (p r : list ascii) :
  (forall c, In c p -> is_nul c = false) ->
  redirect (stored p r)
  = match p with [] => None | _ => Some (string_of_list_ascii p) end.
Proof.
  intros Hp. unfold stored. destruct p as [|c p']; [reflexivity|].
  cbn [app redirect].
  rewrite (Hp c (or_introl eq_refl)). f_equal.
  apply (c_string_app (c :: p')); [exact Hp | reflexivity].
Qed.

Lemma redirect_redir_after (op : ascii) (l : list token) :
  (forall o p, In (Redirect o p) l -> forall c, In c p -> is_nul c = false) ->
  forall r, redirect (redir_after op l r) = redirection op l (redirect r).
Proof.
  unfold redirection.
  induction l as [|[w|o p] l IH]; intros Hl r; simpl.
  - reflexivity.
  - apply IH. intros o p H. apply (Hl o p). right. exact H.
  - rewrite IH by (intros o' p' H; apply (Hl o' p'); right; exact H).
    destruct (last_path op l) as [q|]; [reflexivity|].
    destruct (Ascii.eqb o op); [|reflexivity].
    apply redirect_stored. apply (Hl o p). left. reflexivity.
Qed.

Lemma good_paths (ts : list (token * list ascii)) (tlast : token) :
  good_tokens ts -> good_last tlast ->
  forall o p, In (Redirect o p) (map fst ts ++ [tlast]) ->
  forall c, In c p -> is_nul c = false.
Proof.
  intros Hts Hlast o p Hin c Hc.
  apply in_app_or in Hin. destruct Hin as [Hin|[E|[]]].
  - apply in_map_iff in Hin. destruct Hin as [[t sep] [E Hin]].
    simpl in E. subst t. unfold good_tokens in Hts.
    rewrite Forall_forall in Hts.
    destruct (Hts _ Hin) as [[_ [_ [Hsolid _]]] _].
    exact (proj2 (Hsolid c Hc)).
  - subst tlast. destruct Hlast as [_ [Hsolid _]].
    exact (proj2 (Hsolid c Hc)).
Qed.

Lemma good_words (ts : list (token * list ascii)) (tlast : token) :
  good_tokens ts -> good_last tlast ->
  forall w, In w (words_of (map fst ts ++ [tlast])) ->
  forall c, In c w -> is_nul c = false.
Proof.
  intros Hts Hlast w Hin c Hc.
  assert (Hall : forall t, In t (map fst ts ++ [tlast]) -> good_last t).
  { intros t Ht. apply in_app_or in Ht. destruct Ht as [Ht|[E|[]]];
      [|subst t; exact Hlast].
    apply in_map_iff in Ht. destruct Ht as [[t' sep] [E Ht]].
    simpl in E. subst t'. unfold good_tokens in Hts.
    rewrite Forall_forall in Hts. destruct (Hts _ Ht) as [Hg _].
    destruct t as [w'|o p]; simpl in Hg |- *; [exact Hg | tauto]. }
  revert Hall Hin. generalize (map fst ts ++ [tlast]) as l.
  induction l as [|[w'|o p] l IH]; intros Hall Hin; simpl in Hin.
  - contradiction.
  - destruct Hin as [->|Hin].
    + destruct (Hall (Word w) (or_introl eq_refl)) as [_ [Hsolid _]].
      exact (proj2 (Hsolid c Hc)).
    + apply IH; [|exact Hin]. intros t Ht. apply Hall. right. exact Ht.
  - apply IH; [|exact Hin]. intros t Ht. apply Hall. right. exact Ht.
Qed.

(** The tokenizer on a line of words and redirections: tokens separated by
    runs of blanks and tabs, each a plain word or an operator [<] or [>]
    with its path directly behind it, at least one word among them, the
    whole closed or not by blanks and [&].  [create_args] returns 0; the
    arguments are the words in their order, wherever the redirections stand
    among them; [argsc] counts the words and the closing NULL; for each
    operator the path of its last redirection is the one in force, and
    without a redirection the name in force before stays; the background
    flag is set exactly for the closing [&]. *)
Theorem words_and_redirections_parse (s : state) (lead : list ascii)
    (ts : list (token * list ascii)) (tlast : token) (sep rest : list ascii)
    (bg : bool) :
  (forall x, In x lead -> is_space x = true) ->
  good_tokens ts -> good_last tlast ->
  (bg = true -> blank_run sep /\ good_token tlast) ->
  words_of (map fst ts ++ [tlast]) <> [] ->
  cmd_buf (mem s) = token_line lead ts tlast sep bg ++ NUL :: rest ->
  (length (words_of (map fst ts ++ [tlast])) + 1 <= heap s)%nat ->
  exists s',
    create_args s = Ret 0 s' /\
    argsc s' = Z.of_nat (length (words_of (map fst ts ++ [tlast]))) + 1 /\
    command_of s'
    = Some {| arguments :=
                map string_of_list_ascii (words_of (map fst ts ++ [tlast]));
              input_redirect :=
                redirection "<"%char (map fst ts ++ [tlast])
                            (redirect (redir_f s));
              output_redirect :=
                redirection ">"%char (map fst ts ++ [tlast])
                            (redirect (redir_t s));
              background := bg |}.
Proof.
  intros Hlead Hts Hlast Hsep Hwords Hbuf Hheap.
  destruct (create_args_tokens s lead ts tlast sep rest bg Hlead Hts Hlast
              Hsep Hwords Hbuf Hheap)
    as [s' [Hcr [Hc [Hargs [Hbg [Ht [Hf _]]]]]]].
  exists s'. split; [exact Hcr|]. split; [exact Hc|].
  unfold command_of. rewrite Hargs, Hbg, Ht, Hf.
  rewrite (argv_filled _ (good_words ts tlast Hts Hlast)).
  rewrite !(redirect_redir_after _ _ (good_paths ts tlast Hts Hlast)).
  destruct bg; reflexivity.
Qed.

Lemma good_pathb_spec (p : list ascii) : good_pathb p = true -> good_path p.
Proof.
  unfold good_pathb, good_path. intros H. apply andb_true_iff in H.
  destruct H as [H1 H2]. split; [|apply Z.ltb_lt; exact H2].
  intros c Hc. apply solidb_spec. rewrite forallb_forall in H1. exact (H1 c Hc).
Qed.

Lemma good_tokenb_spec (t : token) : good_tokenb t = true -> good_token t.
Proof.
  destruct t as [w|op p]; simpl.
  - apply plain_wordb_spec.
  - intros H. apply andb_true_iff in H. destruct H as [H Hp].
    apply andb_true_iff in H. destruct H as [Hop Hne].
    split; [exact Hop|]. split; [|apply good_pathb_spec; exact Hp].
    destruct p; [discriminate Hne | discriminate].
Qed.

Lemma good_lastb_spec (t : token) : good_lastb t = true -> good_last t.
Proof.
  destruct t as [w|op p]; simpl.
  - apply plain_wordb_spec.
  - intros H. apply andb_true_iff in H. destruct H as [Hop Hp].
    split; [exact Hop | apply good_pathb_spec; exact Hp].
Qed.

Lemma good_tokensb_spec (ts : list (token * list ascii)) :
  good_tokensb ts = true -> good_tokens ts.
Proof.
  unfold good_tokensb, good_tokens. intros H. apply Forall_forall.
  intros p Hp. rewrite forallb_forall in H. specialize (H p Hp).
  apply andb_true_iff in H. destruct H as [H1 H2].
  split; [apply good_tokenb_spec | apply blank_runb_spec]; assumption.
Qed.

(** [sort >old -r <in.txt >out.txt &] with two blanks before the [&]. *)
Lemma words_and_redirections_parse_witness :
  exists s',
    create_args (boot [] 3 "sort >old -r <in.txt >out.txt  &") = Ret 0 s' /\
    argsc s' = 3 /\
    command_of s'
    = Some {| arguments := ["sort"%string; "-r"%string];
              input_redirect := Some "in.txt"%string;
              output_redirect := Some "out.txt"%string;
              background := true |}.
Proof.
  apply (words_and_redirections_parse
           (boot [] 3 "sort >old -r <in.txt >out.txt  &") []
           [(Word (bytes "sort"), bytes " ");
            (Redirect ">"%char (bytes "old"), bytes " ");
            (Word (bytes "-r"), bytes " ");
            (Redirect "<"%char (bytes "in.txt"), bytes " ")]
           (Redirect ">"%char (bytes "out.txt")) (bytes "  ") [] true).
  - intros x [].
  - apply good_tokensb_spec. reflexivity.
  - apply good_lastb_spec. reflexivity.
  - intros _. split; [apply blank_runb_spec | apply good_tokenb_spec];
      reflexivity.
  - discriminate.
  - reflexivity.
  - simpl. lia.
Defined.

(** After the loop, a last token when no word was counted: the count stays
    at one, whatever the token is. *)
Lemma last_token_alone (n : nat) (s : state) (P : Z) (tok : list ascii) :
  argsc s = 1 -> tokenlike tok -> holds (mem s) P tok ->
  load (mem s) (P + Z.of_nat (length tok)) = Some NUL ->
  exists m',
    last_token (S n) (P + Z.of_nat (length tok)) P s =
      Ok tt (with_argsc (with_mem s m') 2) /\
    forall k, load m' k = load (mem s) k.
Proof.
  intros Hc [_ [Hsolid Hne]] Hh Hnul.
  destruct (holds_last_byte _ _ tok Hne Hh) as [cl [Hcl Hin]].
  destruct (store_in_mem (mem s) (P + Z.of_nat (length tok)) NUL)
    as [m' [Hst [_ [_ [Hnew Hold]]]]].
  { exact (load_in_mem _ _ _ Hnul). }
  exists m'. split.
  - unfold last_token. unfold bind at 1. unfold get at 1. cbv beta iota.
    rewrite Hc. change (1 <? 1) with false. cbv iota.
    unfold bind at 1. unfold ok at 1.
    unfold bind at 1. unfold get at 1. cbv beta iota.
    rewrite Hc. change (1 <? 1) with false. cbv iota.
    unfold bind at 1. unfold ok at 1. cbv iota.
    assert (Hrm : (q <- back_spaces (S n) (P + Z.of_nat (length tok) - 1) ;;
                   assign (q + 1) NUL) s = Ok tt (with_mem s m')).
    { rewrite (bind_Ok _ _ _ _ _
                 (back_spaces_stop n _ cl s Hcl (proj1 (Hsolid cl Hin)))).
      unfold assign.
      replace (P + Z.of_nat (length tok) - 1 + 1)
        with (P + Z.of_nat (length tok)) by lia.
      rewrite Hst. reflexivity. }
    rewrite (bind_Ok _ _ _ _ _ Hrm). unfold put.
    f_equal. unfold with_argsc. simpl. rewrite Hc. reflexivity.
  - intros k.
    destruct (Z.eq_dec k (P + Z.of_nat (length tok))) as [->|Hk].
    + rewrite Hnew, Hnul. reflexivity.
    + apply Hold. exact Hk.
Qed.

Lemma words_of_none (l : list token) (t : token) :
  words_of (l ++ [t]) = [] -> words_of l = [] /\ exists op p, t = Redirect op p.
Proof.
  rewrite words_of_app. intros H. apply app_eq_nil in H. destruct H as [Hl Ht].
  split; [exact Hl|]. destruct t as [w|op p]; [discriminate | eauto].
Qed.

Section RedirectionFacts.
Context {P : Posix}.

(** A line that holds redirections and no word: [create_args] returns 0
    with [argsc = 2] and [args[0] = NULL]; [input_start] then hands this
    NULL to [strcmp], which has no defined result. *)
Theorem redirections_without_a_word (stale : string) (sh : shell)
    (lead : list ascii) (ts : list (token * list ascii)) (tlast : token)
    (rest : list ascii) :
  (forall x, In x lead -> is_space x = true) ->
  good_tokens ts -> good_last tlast ->
  words_of (map fst ts ++ [tlast]) = [] ->
  cmd_buf (mem (tk sh)) = token_line lead ts tlast [] false ++ NUL :: rest ->
  (2 <= heap (tk sh))%nat ->
  exists t,
    create_args (with_stderr (tk sh) EmptyString) = Ret 0 t /\
    argsc t = 2 /\ args t = ArgsLive [None; None] /\
    input_line stale sh = None.
Proof.
  intros Hlead Hts Hlast Hwords Hbuf Hheap. unfold token_line in Hbuf.
  rewrite app_nil_r in Hbuf.
  destruct (words_of_none _ _ Hwords) as [Hw0 _].
  pose proof (good_last_tokenlike tlast Hlast) as Htok.
  pose proof Htok as [Hlen _].
  pose proof (span_nonneg (texts ts)) as Hspan.
  set (s := with_stderr (tk sh) EmptyString).
  set (n := S (mem_size (mem s))).
  assert (Hsize : Z.of_nat (length (cmd_buf (mem s))) < Z.of_nat n).
  { unfold n, mem_size. lia. }
  assert (Hh : holds (mem s) 0
                 ((lead ++ join (texts ts) (text tlast)) ++ [NUL])).
  { apply (holds_buf _ _ rest). simpl. rewrite Hbuf, <- !app_assoc.
    reflexivity. }
  assert (Hn : Z.of_nat (length lead) + span (texts ts)
               + Z.of_nat (length (text tlast)) < Z.of_nat n).
  { change (cmd_buf (mem s)) with (cmd_buf (mem (tk sh))) in Hsize.
    rewrite Hbuf in Hsize. rewrite !length_app in Hsize.
    pose proof (length_join (texts ts) (text tlast)). lia. }
  assert (Hcr : exists t,
            create_args s = Ret 0 t /\ argsc t = 2 /\
            args t = ArgsLive [None; None]).
  { unfold create_args, create_args_with. fold n.
    rewrite (bind_Ok _ _ _ _ _
               (first_pass_tokens n s lead ts (text tlast)
                  Hlead Hts Htok Hh Hn)).
    cbn [fst snd].
    rewrite (bind_Ok _ _ _ _ _
               (too_long_ok (0 + Z.of_nat (length (text tlast))) _
                  ltac:(lia))).
    rewrite Hw0. simpl length. change (1 + Z.of_nat 0) with 1.
    set (s2 := with_argsc (with_run_bg s 0) 1).
    pose proof (proj1 (holds_app _ _ _ _) Hh) as [Hline _].
    pose proof (proj1 (holds_app _ _ _ _) Hline) as [Hl Hj].
    assert (Hlastw : holds (mem s2)
                       (Z.of_nat (length lead) + span (texts ts))
                       (text tlast)).
    { apply (holds_join _ (texts ts) (text tlast)) in Hj.
      replace (Z.of_nat (length lead) + span (texts ts))
        with (0 + Z.of_nat (length lead) + span (texts ts)) by lia.
      exact Hj. }
    assert (Hend : load (mem s2)
              (Z.of_nat (length lead) + span (texts ts)
               + Z.of_nat (length (text tlast))) = Some NUL).
    { pose proof (holds_last _ _ _ _ Hh) as He.
      change (mem s2) with (mem s). rewrite <- He. f_equal.
      rewrite length_app.
      pose proof (length_join (texts ts) (text tlast)). lia. }
    destruct (last_token_alone (mem_size (mem s)) s2
                (Z.of_nat (length lead) + span (texts ts)) (text tlast)
                eq_refl Htok Hlastw Hend) as [m' [Hlt Hsame]].
    fold n in Hlt. rewrite (bind_Ok _ _ _ _ _ Hlt).
    set (s3 := with_argsc (with_mem s2 m') 2).
    destruct (alloc_args_spec 1 s3 eq_refl ltac:(simpl; lia))
      as [s4 [Hal [Ha4 Hsame4]]].
    pose proof Hsame4 as [Hm [Hc4 [Ht4 [Hf4 [Hb4 He4]]]]].
    rewrite (bind_Ok _ _ _ _ _ Hal).
    assert (Hh4 : holds (mem s4) 0
                    ((lead ++ join (texts ts) (text tlast)) ++ [NUL])).
    { rewrite Hm. simpl mem. apply (holds_ext (mem s)); [|exact Hh].
      intros k _. apply Hsame. }
    assert (Ha4' : args s4 = ArgsLive
              (repeat (Some zero_block)
                 (length (words_of (map fst ts ++ [tlast])))
               ++ Some zero_block :: [None])).
    { rewrite Hwords. exact Ha4. }
    rewrite (bind_Ok _ _ _ _ _
               (second_pass_tokens n s4 lead ts tlast (Some zero_block)
                  [None] Hlead Hts Hlast Hh4 Hn Ha4')).
    eexists. split; [reflexivity|]. unfold after_tokens. simpl.
    rewrite Hc4, Hwords. simpl.
    split; reflexivity. }
  destruct Hcr as [t [Hrun [Hc Ha]]].
  exists t. split; [exact Hrun|]. split; [exact Hc|]. split; [exact Ha|].
  unfold input_line. fold s. rewrite Hrun. cbv beta iota zeta.
  change (0 =? -1) with false. change (0 =? 1) with false. cbv iota.
  rewrite Ha. reflexivity.
Qed.

End RedirectionFacts.

Lemma redirections_without_a_word_witness :
  exists t,
    create_args (with_stderr (tk (shell_of (boot [] 16 " <in >out")))
                   EmptyString) = Ret 0 t /\
    argsc t = 2 /\ args t = ArgsLive [None; None] /\
    input_line (P := linux) EmptyString (shell_of (boot [] 16 " <in >out"))
    = None.
Proof.
  apply (redirections_without_a_word (P := linux) EmptyString
           (shell_of (boot [] 16 " <in >out")) (bytes " ")
           [(Redirect "<"%char (bytes "in"), bytes " ")]
           (Redirect ">"%char (bytes "out")) []).
  - intros x [<-|[]]. reflexivity.
  - apply good_tokensb_spec. reflexivity.
  - apply good_lastb_spec. reflexivity.
  - reflexivity.
  - reflexivity.
  - simpl. lia.
Defined.

(** ** The return values of [create_args], on every line *)

Lemma spec_bind {A B : Type} (m : M A) (f : A -> M B)
    (P P' P'' : state -> state -> Prop)
    (R R' R'' : Z -> state -> state -> Prop) :
  spec m P R -> (forall a, spec (f a) P' R') ->
  (forall s s1 s', P s s1 -> P' s1 s' -> P'' s s') ->
  (forall rv s s', R rv s s' -> R'' rv s s') ->
  (forall rv s s1 s', P s s1 -> R' rv s1 s' -> R'' rv s s') ->
  spec (bind m f) P'' R''.
Proof.
  intros Hm Hf Hpp Hr Hpr s. unfold bind.
  specialize (Hm s). destruct (m s) as [a s1|rv s1|]; auto.
  specialize (Hf a s1). destruct (f a s1) as [b s'|rv s'|]; eauto.
Qed.

(** The same relation before and behind. *)
Lemma spec_seq {A B : Type} (m : M A) (f : A -> M B)
    (P : state -> state -> Prop) (R : Z -> state -> state -> Prop) :
  spec m P R -> (forall a, spec (f a) P R) ->
  (forall s s1 s', P s s1 -> P s1 s' -> P s s') ->
  (forall rv s s1 s', P s s1 -> R rv s1 s' -> R rv s s') ->
  spec (bind m f) P R.
Proof.
  intros Hm Hf Ht Hpr.
  apply (spec_bind m f P P P R R R); auto.
Qed.

Lemma spec_weaken {A : Type} (m : M A) (P P' : state -> state -> Prop)
    (R R' : Z -> state -> state -> Prop) :
  spec m P R -> (forall s s', P s s' -> P' s s') ->
  (forall rv s s', R rv s s' -> R' rv s s') -> spec m P' R'.
Proof.
  intros Hm HP HR s. specialize (Hm s).
  destruct (m s) as [a s1|rv s1|]; auto.
Qed.

(** *** The first pass: [frame], or a refusal with 1 *)

Lemma frame_refused (rv : Z) (s s1 s' : state) :
  frame s s1 -> front_ret rv s1 s' -> front_ret rv s s'.
Proof.
  unfold frame, front_ret, refused.
  intros [A1 [A2 [A3 [A4 A5]]]] [Hrv [B1 [B2 [B3 [B4 B5]]]]].
  rewrite B1, B2, B3, B4, <- A5. auto 10.
Qed.

Tactic Notation "front_seq" "as" ident(x) :=
  apply spec_seq; [| intros x | exact frame_trans | exact frame_refused].

Lemma spec_ok {A : Type} (a : A) : spec (ok a) frame front_ret.
Proof. intros s. apply frame_refl. Qed.

Lemma spec_undef {A : Type} (P : state -> state -> Prop)
    (R : Z -> state -> state -> Prop) : spec (@undef A) P R.
Proof. intros s. exact I. Qed.

Lemma spec_deref (p : Z) : spec (deref p) frame front_ret.
Proof.
  intros s. unfold deref. destruct (load (mem s) p); [apply frame_refl | exact I].
Qed.

Lemma spec_assign (p : Z) (c : ascii) : spec (assign p c) frame front_ret.
Proof.
  intros s. unfold assign. destruct (store (mem s) p c); [|exact I].
  unfold frame. simpl. auto.
Qed.

Lemma spec_put_argsc (g : state -> Z) :
  spec (put (fun s => with_argsc s (g s))) frame front_ret.
Proof. intros s. unfold put, frame. simpl. auto. Qed.

Lemma spec_put_run_bg (b : Z) :
  spec (put (fun s => with_run_bg s b)) frame front_ret.
Proof. intros s. unfold put, frame. simpl. auto. Qed.

Lemma spec_get {A : Type} (g : state -> A) : spec (get g) frame front_ret.
Proof. intros s. apply frame_refl. Qed.

Lemma spec_skip_spaces (n : nat) :
  forall ptr bptr, spec (skip_spaces n ptr bptr) frame front_ret.
Proof.
  induction n as [|n IH]; intros ptr bptr; simpl; [apply spec_undef|].
  front_seq as c; [apply spec_deref|].
  destruct (is_space c); [apply IH | apply spec_ok].
Qed.

Lemma spec_back_spaces (n : nat) :
  forall p, spec (back_spaces n p) frame front_ret.
Proof.
  induction n as [|n IH]; intros p; simpl; [apply spec_undef|].
  front_seq as c; [apply spec_deref|].
  destruct (is_space c); [apply IH | apply spec_ok].
Qed.

Lemma spec_strip_background (n : nat) (bptr : Z) :
  spec (strip_background n bptr) frame front_ret.
Proof.
  unfold strip_background.
  front_seq as u; [apply spec_put_run_bg|].
  front_seq as p; [apply spec_back_spaces|].
  front_seq as u'; [apply spec_assign|].
  apply (spec_put_argsc (fun s => argsc s - 1)).
Qed.

Lemma spec_too_long (i : Z) : spec (too_long i) frame front_ret.
Proof.
  unfold too_long. destruct (MAXARG <=? i); [|apply spec_ok].
  intros s. unfold bind, fprintf_stderr, put, ret, front_ret, refused.
  simpl. auto 10.
Qed.

Lemma spec_count_token (n : nat) (bptr : Z) :
  spec (count_token n bptr) frame front_ret.
Proof.
  unfold count_token.
  front_seq as b; [apply spec_deref|].
  destruct (is_redir b) eqn:Hop.
  - front_seq as b1; [apply spec_deref|].
    destruct (is_space b1); [|apply spec_ok].
    intros s. unfold bind, fprintf_stderr, put, ret, front_ret, refused.
    simpl. split; [reflexivity|]. repeat split. right. exists b. auto.
  - destruct (is_amp b); [apply spec_strip_background|].
    apply (spec_put_argsc (fun s => argsc s + 1)).
Qed.

Lemma spec_count_args (n fuel : nat) :
  forall ptr bptr i, spec (count_args n fuel ptr bptr i) frame front_ret.
Proof.
  induction fuel as [|f IH]; intros ptr bptr i; [apply spec_undef|].
  rewrite count_args_S.
  front_seq as c; [apply spec_deref|].
  destruct (is_nul c); [apply spec_ok|].
  destruct (is_space c); [|apply IH].
  front_seq as u; [apply spec_too_long|].
  front_seq as u'; [apply spec_count_token|].
  front_seq as pb; [apply spec_skip_spaces|].
  apply IH.
Qed.

Lemma spec_first_pass (n : nat) : spec (first_pass n) frame front_ret.
Proof.
  unfold first_pass.
  front_seq as u; [apply spec_put_run_bg|].
  front_seq as pb; [apply spec_skip_spaces|].
  front_seq as u'; [apply (spec_put_argsc (fun _ => 1))|].
  apply spec_count_args.
Qed.

Lemma spec_last_token (n : nat) (ptr bptr : Z) :
  spec (last_token n ptr bptr) frame front_ret.
Proof.
  unfold last_token.
  front_seq as c1; [apply spec_get|].
  front_seq as u.
  { destruct (1 <? c1); [|apply spec_ok].
    front_seq as b; [apply spec_deref|].
    destruct (is_redir b); [|apply spec_ok].
    apply (spec_put_argsc (fun s => argsc s - 1)). }
  front_seq as c2; [apply spec_get|].
  front_seq as bg.
  { destruct (1 <? c2); [|apply spec_ok].
    front_seq as b; [apply spec_deref|]. apply spec_ok. }
  front_seq as u'.
  { destruct bg; [apply spec_strip_background|].
    front_seq as p; [apply spec_back_spaces|]. apply spec_assign. }
  apply (spec_put_argsc (fun s => argsc s + 1)).
Qed.

(** *** Allocation: the names stay, or -1 with the diagnostic *)

Lemma same_names_trans (s s1 s' : state) :
  same_names s s1 -> same_names s1 s' -> same_names s s'.
Proof.
  unfold same_names. intros [A1 [A2 A3]] [B1 [B2 B3]].
  rewrite B1, B2, B3. auto.
Qed.

Lemma same_names_alloc_ret (rv : Z) (s s1 s' : state) :
  same_names s s1 -> alloc_ret rv s1 s' -> alloc_ret rv s s'.
Proof.
  unfold same_names, alloc_ret, out_of_memory.
  intros [A1 [A2 A3]] [Hrv [B1 [B2 B3]]]. rewrite B1, B2, B3, A1. auto.
Qed.

Tactic Notation "alloc_seq" "as" ident(x) :=
  apply spec_seq;
  [| intros x | exact same_names_trans | exact same_names_alloc_ret].

Lemma spec_alloc : spec alloc same_names alloc_ret.
Proof.
  intros s. unfold alloc. destruct (heap s); unfold same_names; simpl; auto.
Qed.

Lemma spec_set_arg (i : Z) (v : option block) :
  spec (set_arg i v) same_names alloc_ret.
Proof.
  intros s. unfold set_arg. destruct (args s); try exact I.
  destruct ((i <? 0) || (Z.of_nat (length a) <=? i)); [exact I|].
  unfold same_names. simpl. auto.
Qed.

Lemma spec_no_memory {A : Type} :
  spec (fprintf_stderr msg_no_memory ;; (ret (-1) : M A)) same_names alloc_ret.
Proof.
  intros s. unfold bind, fprintf_stderr, put, ret, alloc_ret, out_of_memory.
  simpl. auto.
Qed.

Lemma spec_alloc_blocks (k : nat) :
  forall i, spec (alloc_blocks k i) same_names alloc_ret.
Proof.
  induction k as [|k IH]; intros i; simpl.
  - intros s. unfold ok, same_names. auto.
  - alloc_seq as b; [apply spec_alloc|].
    destruct b; [|apply spec_no_memory].
    alloc_seq as u; [apply spec_set_arg | apply IH].
Qed.

Lemma spec_alloc_args : spec alloc_args same_names alloc_ret.
Proof.
  unfold alloc_args.
  alloc_seq as n. { intros s. unfold get, same_names. auto. }
  alloc_seq as b.
  { destruct (n <? 0); [|apply spec_alloc].
    intros s. unfold ok, same_names. auto. }
  destruct b; [|apply spec_no_memory].
  alloc_seq as u; [|apply spec_alloc_blocks].
  intros s. unfold put, same_names. simpl. auto.
Qed.

(** *** The second pass: stderr stays, and it does not return *)

Lemma same_stderr_trans (s s1 s' : state) :
  same_stderr s s1 -> same_stderr s1 s' -> same_stderr s s'.
Proof. unfold same_stderr. intros A B. rewrite B. exact A. Qed.

Tactic Notation "fill_seq" "as" ident(x) :=
  apply spec_seq;
  [| intros x | exact same_stderr_trans
   | intros ? ? ? ? _ H; exact H].

Lemma fill_ok {A : Type} (a : A) : spec (ok a) same_stderr no_return.
Proof. intros s. reflexivity. Qed.

Lemma fill_deref (p : Z) : spec (deref p) same_stderr no_return.
Proof.
  intros s. unfold deref. destruct (load (mem s) p); [reflexivity | exact I].
Qed.

Lemma fill_get {A : Type} (g : state -> A) : spec (get g) same_stderr no_return.
Proof. intros s. reflexivity. Qed.

Lemma fill_memcpy (dst : list ascii) (src j : Z) :
  spec (memcpy dst src j) same_stderr no_return.
Proof.
  intros s. unfold memcpy. destruct ((j <? 0) || (MAXARG <? j)); [exact I|].
  destruct (load_range (mem s) src (Z.to_nat j)); [reflexivity | exact I].
Qed.

Lemma fill_set_byte (dst : list ascii) (k : Z) (c : ascii) :
  spec (set_byte dst k c) same_stderr no_return.
Proof.
  intros s. unfold set_byte.
  destruct ((k <? 0) || (MAXARG <=? k)); [exact I | reflexivity].
Qed.

Lemma fill_get_arg (i : Z) : spec (get_arg i) same_stderr no_return.
Proof.
  intros s. unfold get_arg. destruct (args s); try exact I.
  destruct (i <? 0); [exact I|].
  destruct (nth_error a (Z.to_nat i)); [reflexivity | exact I].
Qed.

Lemma fill_set_arg (i : Z) (v : option block) :
  spec (set_arg i v) same_stderr no_return.
Proof.
  intros s. unfold set_arg. destruct (args s); try exact I.
  destruct ((i <? 0) || (Z.of_nat (length a) <=? i)); [exact I | reflexivity].
Qed.

Lemma fill_skip_spaces (n : nat) :
  forall ptr bptr, spec (skip_spaces n ptr bptr) same_stderr no_return.
Proof.
  induction n as [|n IH]; intros ptr bptr; simpl; [apply spec_undef|].
  fill_seq as c; [apply fill_deref|].
  destruct (is_space c); [apply IH | apply fill_ok].
Qed.

Lemma fill_copy_redir_t (bptr j : Z) :
  spec (copy_redir_t bptr j) same_stderr no_return.
Proof.
  unfold copy_redir_t.
  fill_seq as r; [apply fill_get|].
  fill_seq as r1; [apply fill_memcpy|].
  fill_seq as r2; [apply fill_set_byte|].
  intros s. reflexivity.
Qed.

Lemma fill_copy_redir_f (bptr j : Z) :
  spec (copy_redir_f bptr j) same_stderr no_return.
Proof.
  unfold copy_redir_f.
  fill_seq as r; [apply fill_get|].
  fill_seq as r1; [apply fill_memcpy|].
  fill_seq as r2; [apply fill_set_byte|].
  intros s. reflexivity.
Qed.

Lemma fill_copy_arg (i bptr j : Z) :
  spec (copy_arg i bptr j) same_stderr no_return.
Proof.
  unfold copy_arg.
  fill_seq as e; [apply fill_get_arg|].
  destruct e as [b|]; [|apply spec_undef].
  fill_seq as b'; [apply fill_memcpy | apply fill_set_arg].
Qed.

Lemma fill_fill_args (n fuel : nat) :
  forall ptr bptr i j, spec (fill_args n fuel ptr bptr i j) same_stderr no_return.
Proof.
  induction fuel as [|f IH]; intros ptr bptr i j; [apply spec_undef|].
  rewrite fill_args_S.
  fill_seq as c; [apply fill_deref|].
  destruct (is_nul c); [apply fill_ok|].
  destruct (is_space c); [|apply IH].
  fill_seq as b; [apply fill_deref|].
  fill_seq as i'.
  { destruct (Ascii.eqb b ">"%char).
    - fill_seq as u; [apply fill_copy_redir_t | apply fill_ok].
    - destruct (Ascii.eqb b "<"%char).
      + fill_seq as u; [apply fill_copy_redir_f | apply fill_ok].
      + fill_seq as u; [apply fill_copy_arg | apply fill_ok]. }
  fill_seq as pb; [apply fill_skip_spaces | apply IH].
Qed.

Lemma fill_second_pass (n : nat) : spec (second_pass n) same_stderr no_return.
Proof.
  unfold second_pass.
  fill_seq as pb; [apply fill_skip_spaces|].
  fill_seq as r; [apply fill_fill_args|].
  cbv zeta.
  fill_seq as b; [apply fill_deref|].
  destruct (Ascii.eqb b ">"%char).
  - fill_seq as u; [apply fill_copy_redir_t | apply fill_set_arg].
  - destruct (Ascii.eqb b "<"%char).
    + fill_seq as u; [apply fill_copy_redir_f | apply fill_set_arg].
    + fill_seq as u; [apply fill_copy_arg | apply fill_set_arg].
Qed.

(** *** The whole function *)

Lemma spec_tail (n : nat) :
  spec (alloc_args ;; second_pass n ;; (ret 0 : M unit)) never tail_ret.
Proof.
  apply (spec_bind alloc_args _ same_names never never
           alloc_ret (fun rv s s' => rv = 0 /\ stderr s' = stderr s) tail_ret).
  - apply spec_alloc_args.
  - intros u.
    apply (spec_bind (second_pass n) _ same_stderr never never
             no_return (fun rv s s' => rv = 0 /\ s' = s)
             (fun rv s s' => rv = 0 /\ stderr s' = stderr s)).
    + apply fill_second_pass.
    + intros u' s. unfold ret. auto.
    + intros s s1 s' _ [].
    + intros rv s s' [].
    + intros rv s s1 s' H [Hrv ->]. split; [exact Hrv | exact H].
  - intros s s1 s' _ [].
  - intros rv s s' H. right. exact H.
  - intros rv s s1 s' [A1 _] [Hrv H]. left. split; [exact Hrv|].
    rewrite H. exact A1.
Qed.

Lemma frame_contract (rv : Z) (s s1 s' : state) :
  frame s s1 -> return_contract rv s1 s' -> return_contract rv s s'.
Proof.
  unfold frame, return_contract, refused, out_of_memory.
  intros [A1 [A2 [A3 [A4 A5]]]] [[Hrv H]|[[Hrv H]|[Hrv H]]].
  - left. split; [exact Hrv|]. rewrite H. exact A5.
  - right. left. split; [exact Hrv|].
    destruct H as [B1 [B2 [B3 [B4 B5]]]].
    rewrite B1, B2, B3, B4, <- A5. auto 10.
  - right. right. split; [exact Hrv|].
    destruct H as [B1 [B2 B3]]. rewrite B1, B2, B3, A5. auto.
Qed.

Lemma spec_front_then {A B : Type} (m : M A) (f : A -> M B) :
  spec m frame front_ret -> (forall a, spec (f a) never return_contract) ->
  spec (bind m f) never return_contract.
Proof.
  intros Hm Hf.
  apply (spec_bind m f frame never never front_ret return_contract
           return_contract); [exact Hm | exact Hf | | |].
  - intros s s1 s' _ [].
  - intros rv s s' H. right. left. exact H.
  - intros rv s s1 s' Hfr H. exact (frame_contract rv s s1 s' Hfr H).
Qed.

(** [create_args], on every line and from every state: it does not fall
    through, and when it returns, it returns 0 and has written nothing to
    stderr, or 1 with one parse diagnostic on stderr and [args], the
    redirection names and the allocations untouched, or -1 with "Not enough
    memory!" on stderr and the redirection names untouched.  So a line that
    is refused leaves nothing behind that a later command could pick up. *)
Theorem create_args_return_contract (s : state) :
  match create_args s with
  | Ok _ _ => False
  | Ret rv s' => return_contract rv s s'
  | Undef => True
  end.
Proof.
  unfold create_args.
  assert (H : spec (create_args_with (S (mem_size (mem s)))) never
                   return_contract).
  { unfold create_args_with.
    apply spec_front_then; [apply spec_first_pass|]. intros r.
    apply spec_front_then; [apply spec_too_long|]. intros u.
    apply spec_front_then; [apply spec_last_token|]. intros u'.
    apply (spec_weaken _ never never tail_ret return_contract);
      [apply spec_tail | auto |].
    intros rv s0 s' [H|H]; [left | right; right]; exact H. }
  exact (H s).
Qed.

(** ** Blanks behind the closing [&] *)

(** The removal of [&] at the token [&] behind the run [sep] that starts at
    [E], the byte before [E] being no blank. *)
Lemma strip_background_at (n : nat) (s : state) (E : Z) (sep : list ascii)
    (cl : ascii) :
  blank_run sep -> (length sep < n)%nat ->
  load (mem s) (E - 1) = Some cl -> is_space cl = false ->
  holds (mem s) E (sep ++ ["&"%char]) ->
  exists m',
    strip_background n (E + Z.of_nat (length sep)) s
      = Ok tt (with_argsc (with_mem (with_run_bg s 1) m') (argsc s - 1)) /\
    load m' E = Some NUL /\
    (forall k, k <> E -> load m' k = load (mem s) k) /\
    length (cmd_buf m') = length (cmd_buf (mem s)) /\
    length (below m') = length (below (mem s)).
Proof.
  intros [Hne Hsep] Hn Hcl Hcls Hh.
  set (A := E + Z.of_nat (length sep)).
  assert (Hsp : forall k, E <= k < A ->
             exists c, load (mem s) k = Some c /\ is_space c = true).
  { intros k Hk. apply holds_app in Hh. destruct Hh as [Hh _].
    specialize (Hh (Z.to_nat (k - E)) ltac:(unfold A in Hk; lia)).
    replace (E + Z.of_nat (Z.to_nat (k - E))) with k in Hh by lia.
    destruct (nth_error sep (Z.to_nat (k - E))) as [c|] eqn:Hc'.
    - exists c. split; [exact Hh|]. exact (Hsep c (nth_error_In _ _ Hc')).
    - apply nth_error_None in Hc'. unfold A in Hk. lia. }
  assert (Hpos : E < A).
  { unfold A. destruct sep; [contradiction|]. simpl length. lia. }
  set (s1 := with_run_bg s 1).
  destruct (back_spaces_spec n s1 (A - 1) (E - 1) cl)
    as [q [c [Hback [Hq [Hlq [Hcq _]]]]]]; auto; try lia.
  { destruct (Hsp (A - 1) ltac:(lia)) as [c [Hc' _]].
    exact (load_in_mem _ _ _ Hc'). }
  assert (q = E - 1).
  { destruct (Z.eq_dec q (E - 1)); [assumption|]. exfalso.
    destruct (Hsp q ltac:(lia)) as [c' [Hc' Hs']].
    change (mem s1) with (mem s) in Hlq. congruence. }
  subst q.
  destruct (store_in_mem (mem s1) E NUL) as [m' [Hst [Hlb [Hlc [Hnew Hold]]]]].
  { destruct (Hsp E ltac:(lia)) as [c' [Hc' _]].
    exact (load_in_mem _ _ _ Hc'). }
  exists m'. split; [|auto].
  unfold strip_background. unfold bind at 1. unfold put at 1. fold s1.
  rewrite (bind_Ok _ _ _ _ _ Hback).
  replace (E - 1 + 1) with E by lia.
  rewrite (bind_assign _ _ m' _ _ Hst). reflexivity.
Qed.

(** After the loop, when it ended behind a run of blanks [sep2] that
    follows the byte [c] at [A]: the NUL goes behind [c]. *)
Lemma last_token_behind_blanks (n : nat) (s : state) (A : Z) (c : ascii)
    (sep2 : list ascii) :
  blank_run sep2 -> (length sep2 < n)%nat -> is_space c = false ->
  holds (mem s) A (c :: sep2 ++ [NUL]) ->
  exists m',
    last_token n (A + 1 + Z.of_nat (length sep2) - 1 + 1)
               (A + 1 + Z.of_nat (length sep2)) s
      = Ok tt (with_argsc (with_mem s m') (argsc s + 1)) /\
    (forall k, k < A + 1 -> load m' k = load (mem s) k) /\
    load m' (A + 1) = Some NUL.
Proof.
  intros [Hne Hsep] Hn Hc Hh.
  apply holds_cons in Hh. destruct Hh as [HA Hh].
  set (q := A + 1 + Z.of_nat (length sep2)).
  assert (Hq : load (mem s) q = Some NUL).
  { exact (holds_last _ _ _ _ Hh). }
  assert (Hsp : forall k, A + 1 <= k < q ->
             exists c', load (mem s) k = Some c' /\ is_space c' = true).
  { intros k Hk. apply holds_app in Hh. destruct Hh as [Hh _].
    specialize (Hh (Z.to_nat (k - (A + 1))) ltac:(unfold q in Hk; lia)).
    replace (A + 1 + Z.of_nat (Z.to_nat (k - (A + 1)))) with k in Hh by lia.
    destruct (nth_error sep2 (Z.to_nat (k - (A + 1)))) as [c'|] eqn:Hc'.
    - exists c'. split; [exact Hh|]. exact (Hsep c' (nth_error_In _ _ Hc')).
    - apply nth_error_None in Hc'. unfold q in Hk. lia. }
  assert (Hpos : A + 1 < q).
  { unfold q. destruct sep2; [contradiction|]. simpl length. lia. }
  assert (Hb1 : (if 1 <? argsc s
                 then b <- deref q ;;
                      if is_redir b
                      then put (fun s => with_argsc s (argsc s - 1))
                      else ok tt
                 else ok tt) s = Ok tt s).
  { destruct (1 <? argsc s); [|reflexivity].
    rewrite (bind_deref _ _ _ _ Hq). reflexivity. }
  assert (Hb2 : (if 1 <? argsc s
                 then b <- deref q ;; ok (is_amp b)
                 else ok false) s = Ok false s).
  { destruct (1 <? argsc s); [|reflexivity].
    rewrite (bind_deref _ _ _ _ Hq). reflexivity. }
  destruct (back_spaces_spec n s (q - 1) A c)
    as [p [c' [Hback [Hp [Hlp [Hcp _]]]]]]; auto; try lia.
  { destruct (Hsp (q - 1) ltac:(lia)) as [c' [Hc' _]].
    exact (load_in_mem _ _ _ Hc'). }
  assert (p = A).
  { destruct (Z.eq_dec p A); [assumption|]. exfalso.
    destruct (Hsp p ltac:(lia)) as [c'' [Hc'' Hs'']]. congruence. }
  subst p.
  destruct (store_in_mem (mem s) (A + 1) NUL) as [m' [Hst [_ [_ [Hnew Hold]]]]].
  { destruct (Hsp (A + 1) ltac:(lia)) as [c'' [Hc'' _]].
    exact (load_in_mem _ _ _ Hc''). }
  exists m'. split.
  - unfold last_token. unfold bind at 1. unfold get at 1. cbv beta iota.
    rewrite (bind_Ok _ _ _ _ _ Hb1).
    unfold bind at 1. unfold get at 1. cbv beta iota.
    rewrite (bind_Ok _ _ _ _ _ Hb2). cbv iota.
    replace (q - 1 + 1 - 1) with (q - 1) by lia.
    assert (Hrm : (p <- back_spaces n (q - 1) ;; assign (p + 1) NUL) s
                  = Ok tt (with_mem s m')).
    { rewrite (bind_Ok _ _ _ _ _ Hback).
      unfold assign. rewrite Hst. reflexivity. }
    rewrite (bind_Ok _ _ _ _ _ Hrm). reflexivity.
  - split; [intros k Hk; apply Hold; lia | exact Hnew].
Qed.

(** Blanks and tabs behind the closing [&] change nothing: on a line of
    plain words, a run of blanks, [&] and a further run of blanks or tabs,
    [create_args] returns 0 with the words as arguments, the background flag
    set and [&] not counted, as on the line that ends with [&].  Here the
    [&] is met inside the counting loop, not behind it. *)
Theorem blanks_behind_the_ampersand (s : state) (lead : list ascii)
    (ws : list (list ascii * list ascii)) (last sep sep2 rest : list ascii) :
  (forall x, In x lead -> is_space x = true) ->
  plain_pairs ws -> plain_word last -> blank_run sep -> blank_run sep2 ->
  cmd_buf (mem s) = (plain_line lead ws last sep true ++ sep2) ++ NUL :: rest ->
  (length ws + 2 <= heap s)%nat ->
  exists s',
    create_args s = Ret 0 s' /\
    argsc s' = Z.of_nat (length ws) + 2 /\ run_bg s' = 1 /\
    command_of s'
    = Some {| arguments := map string_of_list_ascii (map fst ws ++ [last]);
              input_redirect := redirect (redir_f s);
              output_redirect := redirect (redir_t s);
              background := true |}.
Proof.
  intros Hlead Hws Hlast Hsep Hsep2 Hbuf Hheap. unfold plain_line in Hbuf.
  pose proof Hlast as [Hlen [Hsolid [c0 [w' [Hw [Hr Ha]]]]]].
  pose proof (span_nonneg ws) as Hspan.
  pose proof Hsep2 as [Hne2 Hsp2].
  destruct sep2 as [|x sep2']; [contradiction|].
  pose proof (Hsp2 x (or_introl eq_refl)) as Hx.
  unfold create_args, create_args_with.
  set (n := S (mem_size (mem s))).
  assert (Hsize : Z.of_nat (length (cmd_buf (mem s))) < Z.of_nat n).
  { unfold n, mem_size. lia. }
  set (pairs := ws ++ [(last, sep)]).
  assert (Hjoin : join pairs ["&"%char] = join ws last ++ sep ++ ["&"%char]).
  { unfold pairs. rewrite join_app, <- join_last_app. reflexivity. }
  assert (Hpairs : plain_pairs pairs).
  { apply Forall_app. split; [exact Hws|]. constructor; [|constructor].
    split; assumption. }
  assert (Hpl : length pairs = S (length ws)).
  { unfold pairs. rewrite length_app. simpl. lia. }
  assert (Hspan' : span pairs = span ws + Z.of_nat (length last)
                                + Z.of_nat (length sep)).
  { unfold pairs. apply span_app. }
  pose proof (cost_le_span pairs Hpairs) as Hcost.
  assert (Hh : holds (mem s) 0
                 ((lead ++ join pairs ["&"%char]) ++ (x :: sep2') ++ [NUL])).
  { apply (holds_buf _ _ rest). rewrite Hbuf, Hjoin, <- !app_assoc.
    reflexivity. }
  assert (Hlenbuf : Z.of_nat (length (cmd_buf (mem s)))
                    = Z.of_nat (length lead) + span pairs + 1
                      + Z.of_nat (length (x :: sep2')) + 1
                      + Z.of_nat (length rest)).
  { rewrite Hbuf, !length_app. pose proof (length_join ws last).
    simpl length in *. lia. }
  pose proof (proj1 (holds_app _ _ _ _) Hh) as [Hline Htail2].
  pose proof (proj1 (holds_app _ _ _ _) Hline) as [Hl Hj].
  pose proof Hj as Hj'. rewrite Hjoin in Hj'.
  pose proof (proj1 (holds_app _ _ _ _) Hj') as [Hwords Htail].
  set (P0 := 0 + Z.of_nat (length lead)) in *.
  set (E := P0 + span ws + Z.of_nat (length last)).
  set (A := E + Z.of_nat (length sep)).
  assert (HE : P0 + Z.of_nat (length (join ws last)) = E).
  { unfold E. pose proof (length_join ws last). lia. }
  rewrite HE in Htail.
  assert (HA : 0 + Z.of_nat (length (lead ++ join pairs ["&"%char])) = A + 1).
  { rewrite length_app. pose proof (length_join pairs ["&"%char]).
    simpl length in *. unfold A, E, P0. lia. }
  rewrite HA in Htail2.
  assert (Hlastw : holds (mem s) (P0 + span ws) last).
  { apply (holds_join _ ws last). exact Hwords. }
  destruct (holds_last_byte _ _ last ltac:(subst last; discriminate) Hlastw)
    as [cl [Hcl Hin]].
  replace (P0 + span ws + Z.of_nat (length last) - 1) with (E - 1) in Hcl
    by (unfold E; lia).
  destruct (join_head pairs ["&"%char] [] "&"%char Hpairs eq_refl eq_refl)
    as [c' [l' [Hjh Hc']]].
  assert (Hl' : holds (mem s) 0 (lead ++ [c'])).
  { apply holds_app. split; [exact Hl|]. fold P0. rewrite Hjh in Hj.
    apply holds_cons in Hj. apply holds_cons. split; [tauto|].
    intros k Hk. simpl in Hk. lia. }
  (* the first pass *)
  set (s2 := with_argsc (with_run_bg s 0) 1).
  set (s2' := with_argsc s2 (argsc s2 + Z.of_nat (length pairs))).
  destruct (strip_background_at n s2' E sep cl Hsep
              ltac:(simpl length in *; lia) Hcl (proj1 (Hsolid cl Hin)) Htail)
    as [m' [Hstrip [Hnew [Hold [Hlc Hlb]]]]].
  fold A in Hstrip.
  set (s3 := with_argsc (with_mem (with_run_bg s2' 1) m') (argsc s2' - 1)).
  assert (Hfirst : first_pass n s
            = Ok (A + 1 + Z.of_nat (length (x :: sep2')) - 1 + 1,
                  A + 1 + Z.of_nat (length (x :: sep2')), -1 + 1) s3).
  { unfold first_pass. unfold bind at 1. unfold put at 1.
    rewrite (bind_Ok _ _ _ _ _
               (skip_spaces_run lead n 0 0 c' (with_run_bg s 0) Hlead Hc' Hl'
                  ltac:(simpl length in *; lia))).
    unfold bind at 1. unfold put at 1. cbn [fst snd]. fold P0.
    replace (match lead with
             | [] => 0
             | _ :: _ => P0
             end) with P0
      by (unfold P0; destruct lead; [reflexivity | lia]).
    fold s2.
    replace n with (cost pairs
                    + (length ["&"%char] + S (S (n - cost pairs - 3))))%nat
      at 2 by (simpl length in *; lia).
    rewrite (count_args_words n pairs _ P0 s2 ["&"%char] [] "&"%char
               Hpairs eq_refl eq_refl Hj).
    2: { intros w sp Hin'. pose proof (sep_le_span pairs w sp Hin').
         simpl length in *. lia. }
    fold s2'.
    rewrite (count_args_chars n ["&"%char] _ _ _ 0 s2' solid_amp).
    2: { apply (holds_join _ pairs ["&"%char]). exact Hj. }
    replace (P0 + span pairs) with A by (unfold A, E; lia).
    simpl length. change (Z.of_nat 1) with 1.
    assert (Hxl : load (mem s2') (A + 1) = Some x).
    { apply holds_cons in Htail2. tauto. }
    assert (Hamp : load (mem s2') A = Some "&"%char).
    { exact (holds_last _ _ _ _ Htail). }
    rewrite count_args_S, (bind_deref _ _ _ _ Hxl).
    rewrite (is_space_not_nul x Hx), Hx.
    rewrite (bind_Ok _ _ _ _ _ (too_long_ok (0 + 1) _ eq_refl)).
    assert (Htok : count_token n A s2' = Ok tt s3).
    { unfold count_token. rewrite (bind_deref _ _ _ _ Hamp).
      change (is_redir "&"%char) with false.
      change (is_amp "&"%char) with true. cbv iota. exact Hstrip. }
    rewrite (bind_Ok _ _ _ _ _ Htok).
    assert (Hh3 : holds (mem s3) (A + 1) ((x :: sep2') ++ [NUL])).
    { apply (holds_ext (mem s)); [|exact Htail2].
      intros k Hk. apply Hold.
      assert (E < A + 1); [|lia].
      unfold A. lia. }
    rewrite (bind_Ok _ _ _ _ _
               (skip_spaces_run (x :: sep2') n (A + 1) (A + 1 + 1) NUL s3
                  Hsp2 eq_refl Hh3 ltac:(simpl length in *; lia))).
    cbn [fst snd].
    apply count_args_at_nul.
    match goal with
    | |- load _ ?p = _ =>
        replace p with (A + 1 + Z.of_nat (length (x :: sep2')))
          by (simpl length; lia)
    end.
    exact (holds_last _ _ _ _ Hh3). }
  rewrite (bind_Ok _ _ _ _ _ Hfirst). cbn [fst snd].
  rewrite (bind_Ok _ _ _ _ _ (too_long_ok (-1 + 1) _ eq_refl)).
  (* behind the loop *)
  assert (Hh3 : holds (mem s3) A ("&"%char :: (x :: sep2') ++ [NUL])).
  { apply (holds_ext (mem s)).
    - intros k Hk. apply Hold. assert (E < A); [|lia].
      unfold A. destruct Hsep as [Hne _]. destruct sep; [contradiction|].
      simpl length. lia.
    - apply holds_cons. split; [exact (holds_last _ _ _ _ Htail)|].
      exact Htail2. }
  destruct (last_token_behind_blanks n s3 A "&"%char (x :: sep2') Hsep2
              ltac:(simpl length in *; lia) eq_refl Hh3)
    as [m'' [Hlt [Hold2 _]]].
  rewrite (bind_Ok _ _ _ _ _ Hlt).
  set (s4 := with_argsc (with_mem s3 m'') (argsc s3 + 1)).
  destruct (create_args_tail n s4 lead ws last Hlead Hws Hlast)
    as [s' [Hs' [Hargs' [Hm [Hc'' [Ht [Hf [Hb He]]]]]]]].
  - (* the words, then the NUL *)
    assert (HEA : E < A + 1).
    { unfold A. lia. }
    apply holds_app. split.
    + apply (holds_ext (mem s)).
      * intros k Hk. simpl mem. rewrite Hold2.
        -- apply Hold. rewrite length_app in Hk.
           pose proof (length_join ws last). unfold E, P0. lia.
        -- rewrite length_app in Hk.
           pose proof (length_join ws last). unfold E, P0 in HEA. lia.
      * apply holds_app. split; [exact Hl | exact Hwords].
    + apply holds_cons. split; [|intros k Hk; simpl in Hk; lia].
      replace (0 + Z.of_nat (length (lead ++ join ws last))) with E.
      * simpl mem. rewrite Hold2 by exact HEA. exact Hnew.
      * rewrite length_app. pose proof (length_join ws last).
        unfold E, P0. lia.
  - pose proof (length_join ws last). simpl length in *.
    unfold P0 in *. lia.
  - change (argsc s4) with (1 + Z.of_nat (length pairs) - 1 + 1). lia.
  - exact Hheap.
  - exists s'. split; [exact Hs'|].
    split.
    { rewrite Hc''.
      change (argsc s4) with (1 + Z.of_nat (length pairs) - 1 + 1). lia. }
    split; [rewrite Hb; reflexivity|].
    unfold command_of. rewrite Hargs', Hb, Ht, Hf.
    rewrite (argv_filled _ (words_without_nul ws last Hws Hlast)).
    reflexivity.
Qed.

Lemma blanks_behind_the_ampersand_witness :
  exists s',
    create_args (boot [] 3 "sleep 5 & 	 ") = Ret 0 s' /\
    argsc s' = Z.of_nat (length [(bytes "sleep", bytes " ")]) + 2 /\
    run_bg s' = 1 /\
    command_of s'
    = Some {| arguments := ["sleep"%string; "5"%string];
              input_redirect := None; output_redirect := None;
              background := true |}.
Proof.
  apply (blanks_behind_the_ampersand (boot [] 3 "sleep 5 & 	 ") []
           [(bytes "sleep", bytes " ")] (bytes "5") (bytes " ")
           [" "%char; TAB; " "%char] []).
  - intros x [].
  - apply plain_pairsb_spec. reflexivity.
  - apply plain_wordb_spec. reflexivity.
  - apply blank_runb_spec. reflexivity.
  - apply blank_runb_spec. reflexivity.
  - reflexivity.
  - simpl. lia.
Defined.

(** ** Blanks behind the last word *)

Lemma texts_as_words (ws : list (list ascii * list ascii)) :
  texts (as_words ws) = ws.
Proof.
  induction ws as [|[w sep] r IH]; simpl; [reflexivity|].
  f_equal. exact IH.
Qed.

Lemma words_of_as_words (ws : list (list ascii * list ascii))
    (last : list ascii) :
  words_of (map fst (as_words ws) ++ [Word last]) = map fst ws ++ [last].
Proof.
  induction ws as [|[w sep] r IH]; simpl; [reflexivity|].
  f_equal. exact IH.
Qed.

Lemma good_tokens_as_words (ws : list (list ascii * list ascii)) :
  plain_pairs ws -> good_tokens (as_words ws).
Proof.
  induction 1 as [|[w sep] r Hw _ IH]; simpl; constructor;
    [exact Hw | exact IH].
Qed.

Lemma redir_after_as_words (op : ascii)
    (ws : list (list ascii * list ascii)) (last r : list ascii) :
  redir_after op (map fst (as_words ws) ++ [Word last]) r = r.
Proof.
  induction ws as [|[w sep] t IH]; simpl; [reflexivity | exact IH].
Qed.


(** The tokenizer on a line of plain words with a run of blanks behind the
    last word: the counting loop has counted the last word when the loop
    ends, and the count for the last token is added all the same. *)
Lemma create_args_blank_closed (s : state) (lead : list ascii)
    (ws : list (list ascii * list ascii)) (last sep rest : list ascii) :
  (forall x, In x lead -> is_space x = true) ->
  plain_pairs ws -> plain_word last -> blank_run sep ->
  cmd_buf (mem s) = blank_closed_line lead ws last sep ++ NUL :: rest ->
  (length ws + 3 <= heap s)%nat ->
  exists s',
    create_args s = Ret 0 s' /\
    argsc s' = Z.of_nat (length ws) + 3 /\
    args s' = ArgsLive (map filled (map fst ws ++ [last]) ++ [None; None]) /\
    run_bg s' = 0 /\
    redir_t s' = redir_t s /\ redir_f s' = redir_f s /\
    stderr s' = stderr s.
Proof.
  intros Hlead Hws Hlast Hsep Hbuf Hheap. unfold blank_closed_line in Hbuf.
  pose proof Hlast as [Hlen [Hsolid [c0 [w' [Hw [Hr Ha]]]]]].
  pose proof (span_nonneg ws) as Hspan.
  pose proof Hsep as [Hne Hsp].
  unfold create_args, create_args_with.
  set (n := S (mem_size (mem s))).
  assert (Hsize : Z.of_nat (length (cmd_buf (mem s))) < Z.of_nat n).
  { unfold n, mem_size. lia. }
  set (pairs := ws ++ [(last, sep)]).
  assert (Hjoin : join pairs [NUL] = join ws last ++ sep ++ [NUL]).
  { unfold pairs. rewrite join_app, <- join_last_app. reflexivity. }
  assert (Hpairs : plain_pairs pairs).
  { apply Forall_app. split; [exact Hws|]. constructor; [|constructor].
    split; assumption. }
  assert (Hpl : length pairs = S (length ws)).
  { unfold pairs. rewrite length_app. simpl. lia. }
  assert (Hspan' : span pairs = span ws + Z.of_nat (length last)
                                + Z.of_nat (length sep)).
  { unfold pairs. apply span_app. }
  assert (Hseplen : (0 < length sep)%nat).
  { destruct sep; [contradiction | simpl; lia]. }
  pose proof (cost_le_span pairs Hpairs) as Hcost.
  assert (Hh : holds (mem s) 0 (lead ++ join pairs [NUL])).
  { apply (holds_buf _ _ rest). rewrite Hbuf, Hjoin, <- !app_assoc.
    reflexivity. }
  assert (Hlenbuf : Z.of_nat (length (cmd_buf (mem s)))
                    = Z.of_nat (length lead) + span pairs + 1
                      + Z.of_nat (length rest)).
  { rewrite Hbuf, !length_app. pose proof (length_join ws last).
    simpl length in *. lia. }
  pose proof (proj1 (holds_app _ _ _ _) Hh) as [Hl Hj].
  pose proof Hj as Hj'. rewrite Hjoin in Hj'.
  pose proof (proj1 (holds_app _ _ _ _) Hj') as [Hwords Htail].
  set (P0 := 0 + Z.of_nat (length lead)) in *.
  set (E := P0 + span ws + Z.of_nat (length last)).
  set (q := P0 + span pairs).
  assert (HE : P0 + Z.of_nat (length (join ws last)) = E).
  { unfold E. pose proof (length_join ws last). lia. }
  rewrite HE in Htail.
  assert (Hlastw : holds (mem s) (P0 + span ws) last).
  { apply (holds_join _ ws last). exact Hwords. }
  destruct (holds_last_byte _ _ last ltac:(subst last; discriminate) Hlastw)
    as [cl [Hcl Hin]].
  replace (P0 + span ws + Z.of_nat (length last) - 1) with (E - 1) in Hcl
    by (unfold E; lia).
  destruct (join_head pairs [NUL] [] NUL Hpairs eq_refl eq_refl)
    as [c' [l' [Hjh Hc']]].
  assert (Hl' : holds (mem s) 0 (lead ++ [c'])).
  { apply holds_app. split; [exact Hl|]. fold P0. rewrite Hjh in Hj.
    apply holds_cons in Hj. apply holds_cons. split; [tauto|].
    intros k Hk. simpl in Hk. lia. }
  (* the first pass *)
  set (s2 := with_argsc (with_run_bg s 0) 1).
  set (s2' := with_argsc s2 (argsc s2 + Z.of_nat (length pairs))).
  assert (Hfirst : first_pass n s = Ok (q, q, 0) s2').
  { unfold first_pass. unfold bind at 1. unfold put at 1.
    rewrite (bind_Ok _ _ _ _ _
               (skip_spaces_run lead n 0 0 c' (with_run_bg s 0) Hlead Hc' Hl'
                  ltac:(simpl length in *; lia))).
    unfold bind at 1. unfold put at 1. cbn [fst snd]. fold P0.
    replace (match lead with
             | [] => 0
             | _ :: _ => P0
             end) with P0
      by (unfold P0; destruct lead; [reflexivity | lia]).
    fold s2.
    replace n with (cost pairs + S (n - cost pairs - 1))%nat
      at 2 by (simpl length in *; lia).
    rewrite (count_args_words n pairs _ P0 s2 [NUL] [] NUL
               Hpairs eq_refl eq_refl Hj).
    2: { intros w sp Hin'. pose proof (sep_le_span pairs w sp Hin').
         simpl length in *. lia. }
    fold s2'. fold q.
    apply count_args_at_nul.
    pose proof (holds_join _ pairs [NUL] _ Hj) as Hend.
    apply holds_cons in Hend. tauto. }
  rewrite (bind_Ok _ _ _ _ _ Hfirst). cbn [fst snd].
  rewrite (bind_Ok _ _ _ _ _ (too_long_ok 0 _ eq_refl)).
  (* behind the loop *)
  assert (Hh2 : holds (mem s2') (E - 1) (cl :: sep ++ [NUL])).
  { apply holds_cons. split; [exact Hcl|].
    replace (E - 1 + 1) with E by lia. exact Htail. }
  destruct (last_token_behind_blanks n s2' (E - 1) cl sep Hsep
              ltac:(simpl length in *; lia) (proj1 (Hsolid cl Hin)) Hh2)
    as [m'' [Hlt [Hold Hnew]]].
  replace (E - 1 + 1 + Z.of_nat (length sep) - 1 + 1) with q in Hlt
    by (unfold q, E; lia).
  replace (E - 1 + 1 + Z.of_nat (length sep)) with q in Hlt
    by (unfold q, E; lia).
  replace (E - 1 + 1) with E in Hold, Hnew by lia.
  rewrite (bind_Ok _ _ _ _ _ Hlt).
  set (s4 := with_argsc (with_mem s2' m'') (argsc s2' + 1)).
  (* allocation and second pass *)
  destruct (alloc_args_spec (length ws + 2) s4) as [s5 [Hal [Ha5 Hsame]]].
  { change (argsc s4) with (1 + Z.of_nat (length pairs) + 1). lia. }
  { change (heap s4) with (heap s). lia. }
  pose proof Hsame as [Hm [Hc5 [Ht [Hf [Hb He]]]]].
  rewrite (bind_Ok _ _ _ _ _ Hal).
  assert (Hh5 : holds (mem s5) 0 ((lead ++ join ws last) ++ [NUL])).
  { rewrite Hm. change (mem s4) with m''.
    apply holds_app. split.
    - apply (holds_ext (mem s)).
      + intros k Hk. apply Hold. rewrite length_app in Hk.
        pose proof (length_join ws last). unfold E, P0. lia.
      + apply holds_app. split; [exact Hl | exact Hwords].
    - apply holds_cons. split; [|intros k Hk; simpl in Hk; lia].
      replace (0 + Z.of_nat (length (lead ++ join ws last))) with E;
        [exact Hnew|].
      rewrite length_app. pose proof (length_join ws last).
      unfold E, P0. lia. }
  pose proof (second_pass_tokens n s5 lead (as_words ws) (Word last)
                (Some zero_block) [None] Hlead
                (good_tokens_as_words ws Hws) Hlast) as Hsecond.
  rewrite texts_as_words, words_of_as_words in Hsecond.
  change (text (Word last)) with last in Hsecond.
  rewrite (bind_Ok _ _ _ _ _
             (Hsecond Hh5
                ltac:(simpl length in *; lia)
                ltac:(rewrite Ha5, length_app, length_map; simpl length;
                      replace (length ws + 2)%nat
                        with (S (length ws + 1)) by lia;
                      rewrite <- repeat_snoc, <- app_assoc; reflexivity))).
  eexists. split; [reflexivity|].
  unfold after_tokens. rewrite !redir_after_as_words.
  split.
  { simpl. rewrite Hc5.
    change (argsc s4) with (1 + Z.of_nat (length pairs) + 1). lia. }
  split; [reflexivity|].
  split; [simpl; rewrite Hb; reflexivity|].
  split; [simpl; rewrite Ht; reflexivity|].
  split; [simpl; rewrite Hf; reflexivity|].
  simpl. rewrite He. reflexivity.
Qed.



Section BlankCdFacts.
Context {P : Posix}.

(** [cd] on a line with a run of blanks or tabs behind its last word, the
    allocations succeeding.  With no path argument [change_cwd] finds
    [argsc - 1 = 2] and calls [chdir] on what it finds at [args[1]]: when
    that succeeds the working directory changes and nothing is reported.
    With one path argument it finds [argsc - 1 = 3]: the input thread
    writes [cd: one argument required] and keeps the working directory. *)
Theorem cd_with_a_blank_behind (stale : string) (sh : shell)
    (lead : list ascii) (ws : list (list ascii * list ascii))
    (last sep rest : list ascii) :
  (forall x, In x lead -> is_space x = true) ->
  plain_pairs ws -> plain_word last -> blank_run sep ->
  cmd_buf (mem (tk sh)) = blank_closed_line lead ws last sep ++ NUL :: rest ->
  (length ws + 3 <= heap (tk sh))%nat ->
  string_of_list_ascii (first_word ws last) = "cd"%string ->
  (length ws = 0%nat ->
   forall d, sys_chdir (cwd sh) stale = inl d ->
     exists sh',
       input_line stale sh = Some (Continue, sh') /\
       cwd sh' = d /\ exit_flag sh' = exit_flag sh /\
       out sh' = out sh ++ [Stdout "$ "]) /\
  (length ws = 1%nat ->
   exists sh',
     input_line stale sh = Some (Continue, sh') /\
     cwd sh' = cwd sh /\ exit_flag sh' = exit_flag sh /\
     out sh' = out sh ++ [Stderr msg_cd_usage; Stdout "$ "]).
Proof.
  intros Hlead Hws Hlast Hsep Hbuf Hheap Hcd.
  destruct (create_args_blank_closed (with_stderr (tk sh) EmptyString) lead
              ws last sep rest Hlead Hws Hlast Hsep Hbuf Hheap)
    as [t [Hcr [Hargc [Hargs [_ [_ [_ He]]]]]]].
  simpl in He.
  assert (Hline : input_line stale sh = Some (builtin_cd stale (with_tk sh t))).
  { unfold input_line. rewrite Hcr. cbv beta iota zeta.
    change (0 =? -1) with false. change (0 =? 1) with false. cbv iota.
    rewrite He. change (stderr_events EmptyString) with (@nil event).
    rewrite emit_nil. rewrite Hargs.
    destruct (first_word_head ws last) as [tl Hhd]. rewrite Hhd.
    pose proof (first_word_plain ws last Hws Hlast) as [_ [Hsolid _]].
    simpl map. simpl app. unfold filled at 1. cbv iota.
    rewrite (c_string_filled (first_word ws last)
               (fun c Hc => proj2 (Hsolid c Hc))).
    rewrite Hcd. reflexivity. }
  rewrite Hline. split.
  - intros Hn d Hd.
    assert (E : change_cwd (argsc t) stale (cwd sh) = (0, d, EmptyString)).
    { unfold change_cwd. rewrite Hargc, Hn, Hd. reflexivity. }
    unfold builtin_cd. simpl. rewrite E. simpl.
    eexists. split; [reflexivity|]. simpl.
    rewrite app_nil_r. auto.
  - intros Hn.
    destruct (builtin_cd_cases stale (with_tk sh t)) as [Hcount _].
    destruct Hcount as [_ [sh' [Hb Hrest]]].
    { change (argsc (tk (with_tk sh t))) with (argsc t). rewrite Hargc. lia. }
    exists sh'. split; [rewrite Hb; reflexivity | exact Hrest].
Qed.

End BlankCdFacts.

Lemma cd_with_a_blank_behind_witness :
  (exists sh',
      input_line (P := linux) "/tmp" (shell_at_start "cd ")
        = Some (Continue, sh') /\
      cwd sh' = "/tmp"%string /\
      exit_flag sh' = exit_flag (shell_at_start "cd ") /\
      out sh' = out (shell_at_start "cd ") ++ [Stdout "$ "]) /\
  (exists sh',
      input_line (P := linux) "/tmp" (shell_at_start "cd /tmp ")
        = Some (Continue, sh') /\
      cwd sh' = cwd (shell_at_start "cd /tmp ") /\
      exit_flag sh' = exit_flag (shell_at_start "cd /tmp ") /\
      out sh' = out (shell_at_start "cd /tmp ")
                ++ [Stderr msg_cd_usage; Stdout "$ "]).
Proof.
  split.
  - apply (proj1 (cd_with_a_blank_behind (P := linux) "/tmp"
                    (shell_at_start "cd ") [] [] (bytes "cd") (bytes " ") []
                    ltac:(intros x [])
                    ltac:(apply plain_pairsb_spec; reflexivity)
                    ltac:(apply plain_wordb_spec; reflexivity)
                    ltac:(apply blank_runb_spec; reflexivity)
                    eq_refl ltac:(simpl; lia) eq_refl)
             eq_refl "/tmp"%string eq_refl).
  - apply (proj2 (cd_with_a_blank_behind (P := linux) "/tmp"
                    (shell_at_start "cd /tmp ") []
                    [(bytes "cd", bytes " ")] (bytes "/tmp") (bytes " ") []
                    ltac:(intros x [])
                    ltac:(apply plain_pairsb_spec; reflexivity)
                    ltac:(apply plain_wordb_spec; reflexivity)
                    ltac:(apply blank_runb_spec; reflexivity)
                    eq_refl ltac:(simpl; lia) eq_refl)
             eq_refl).
Defined.
